(** * Option merging and asset resolution of Vue (core/util/options.js)

    A shallow embedding of the option-merging module: the strategy table
    [strats], the deep data merger [mergeData], the three normalisation
    passes, the entry point [mergeOptions] and the asset lookup
    [resolveAsset].

    JavaScript objects have identity, are mutated in place and delegate to a
    prototype, so the module is embedded over an explicit store: a heap of
    objects addressed by location, threaded through a state-and-error monad.

    Fragment of JavaScript that is modelled:
    - values: undefined, null, booleans, integer numbers, strings and
      references to heap objects (plain objects, dense arrays, functions and
      other exotic objects);
    - every property is an enumerable data property (no accessors, no frozen
      objects, no symbols);
    - the built-in prototypes are not modelled apart from [length] and
      [Array.prototype.concat]: an object made by a literal has no
      prototype here.  On such an object the model and JavaScript agree at
      every key that is not a member of [Object.prototype]; at a member
      ([__proto__], [constructor], [toString], ...) a read of a key the
      object does not own gives undefined here and the inherited member
      there, and an assignment at [__proto__] makes an own entry here and
      sets the prototype there.  A theorem whose conclusion reads or writes
      an object made by a literal at a key taken from its input is stated
      for the keys that are not such members ([ordinary_key]).  Likewise a
      function has no [length] and no [name] of its own here;
    - strings are sequences of ASCII characters.
    The operations that leave this fragment in another way (an assignment
    that makes an array sparse or goes to a dangling reference, a
    user-defined [concat] or the one of strings, an object used as a
    property key, a loop bound that is not a number) yield the error
    [Unmodelled]. *)

From Stdlib Require Import ZArith Ascii String List DecimalString DecimalNat.
From stdpp Require Import base option list strings sorting.

Open Scope string_scope.
Open Scope list_scope.
Open Scope nat_scope.

(** ** Values and objects *)

(** Locations are the indices of the heap. *)
Abbreviation loc := nat (only parsing).

Inductive value :=
| VUndef
| VNull
| VBool (b : bool)
| VNum (n : Z)
| VStr (s : string)
| VRef (l : loc).

#[global] Instance value_eq_dec : EqDecision value.
Proof. solve_decision. Defined.

(** The functions this module meets: functions written by the user, and the
    two closures [mergeDataOrFn] returns, with the variables they capture. *)
Inductive closure :=
| UserFn (id : nat)
| MergedDataFn (parentVal childVal : value)
| MergedInstanceDataFn (parentVal childVal vm : value).

Inductive class :=
| CPlain
| CArray (elems : list value)
| CFun (c : closure)
| CExotic (tag : string).

Record object := Obj {
  proto : option loc;
  cls : class;
  props : list (string * value)
}.

Definition empty_object : object := Obj None CPlain [].

(** Diagnostics passed to [warn], one constructor per call site. *)
Inductive diag :=
| WarnInstanceOnly (key : string)
| WarnDataNotFunction
| WarnReservedComponent (key : string)
| WarnPropsArrayString
| WarnInvalidProps (v : value)
| WarnInvalidInject (v : value)
| WarnInvalidOption (name : string) (v : value)
| WarnUnresolvedAsset (kind : string) (id : string).

Record state := State {
  heap : list object;
  diags : list diag;
  regs : list (loc * string * value)
}.

Definition with_heap (s : state) (h : list object) : state :=
  State h (diags s) (regs s).

(** A location outside the heap reads as an empty object; writing to it is
    an error. *)
Definition obj_at (h : list object) (l : loc) : object :=
  default empty_object (h !! l).

(** ** Property keys *)

Definition key_of_index (n : nat) : string :=
  NilEmpty.string_of_uint (Nat.to_uint n).

(** An array index is a canonical decimal numeral. *)
Definition index_of_key (k : string) : option nat :=
  match NilEmpty.uint_of_string k with
  | Some d =>
      let n := Nat.of_uint d in
      if String.eqb (key_of_index n) k then Some n else None
  | None => None
  end.

Definition is_index (k : string) : bool :=
  match index_of_key k with Some _ => true | None => false end.

Fixpoint alist_get (k : string) (l : list (string * value)) : option value :=
  match l with
  | [] => None
  | (k', v) :: l => if String.eqb k' k then Some v else alist_get k l
  end.

(** Assignment keeps the position of an existing key and appends a new one. *)
Fixpoint alist_set (k : string) (v : value) (l : list (string * value))
  : list (string * value) :=
  match l with
  | [] => [(k, v)]
  | (k', v') :: l =>
      if String.eqb k' k then (k', v) :: l else (k', v') :: alist_set k v l
  end.

(** Own property lookup.  The elements of an array are its index
    properties; [length] is treated apart, in [get_val] and [has_own_val]. *)
Definition own_lookup (o : object) (k : string) : option value :=
  match cls o with
  | CArray elems =>
      match index_of_key k with
      | Some i => elems !! i
      | None => alist_get k (props o)
      end
  | _ => alist_get k (props o)
  end.

(** Own enumerable keys in JavaScript's order: integer keys ascending, then
    the other keys in insertion order. *)
Definition own_keys (o : object) : list string :=
  let ks := remove_dups (fst <$> props o) in
  let named := filter (λ k, is_index k = false) ks in
  match cls o with
  | CArray elems => (key_of_index <$> seq 0 (length elems)) ++ named
  | _ => (key_of_index <$> merge_sort Nat.le (omap index_of_key ks)) ++ named
  end.

Fixpoint chain_lookup (fuel : nat) (h : list object) (l : loc) (k : string)
  : option value :=
  match fuel with
  | O => None
  | S fuel =>
      let o := obj_at h l in
      match own_lookup o k with
      | Some v => Some v
      | None =>
          match proto o with
          | Some p => chain_lookup fuel h p k
          | None => None
          end
      end
  end.

(** The keys a [for ... in] loop visits: own keys first, then the keys of
    the prototypes that are not shadowed. *)
Fixpoint chain_keys (fuel : nat) (h : list object) (l : loc)
  (seen : list string) : list string :=
  match fuel with
  | O => []
  | S fuel =>
      let o := obj_at h l in
      let ks := filter (λ k, k ∉ seen) (own_keys o) in
      ks ++ match proto o with
            | Some p => chain_keys fuel h p (seen ++ ks)
            | None => []
            end
  end.

Fixpoint string_chars (s : string) : list string :=
  match s with
  | EmptyString => []
  | String c s => String c EmptyString :: string_chars s
  end.

(** [o[k]] for a base value that is neither undefined nor null.  A prototype
    chain has no cycle, so the size of the heap bounds its length. *)
Definition get_val (h : list object) (v : value) (k : string) : value :=
  match v with
  | VRef l =>
      match cls (obj_at h l), String.eqb k "length" with
      | CArray elems, true => VNum (Z.of_nat (length elems))
      | _, _ => default VUndef (chain_lookup (length h) h l k)
      end
  | VStr s =>
      if String.eqb k "length" then VNum (Z.of_nat (String.length s))
      else match index_of_key k with
           | Some i => default VUndef (VStr <$> string_chars s !! i)
           | None => VUndef
           end
  | _ => VUndef
  end.

Definition has_own_val (h : list object) (v : value) (k : string) : bool :=
  match v with
  | VRef l =>
      match cls (obj_at h l), String.eqb k "length" with
      | CArray _, true => true
      | _, _ => bool_decide (is_Some (own_lookup (obj_at h l) k))
      end
  | VStr s =>
      if String.eqb k "length" then true
      else match index_of_key k with
           | Some i => bool_decide (i < String.length s)
           | None => false
           end
  | _ => false
  end.

Definition own_keys_val (h : list object) (v : value) : list string :=
  match v with
  | VRef l => own_keys (obj_at h l)
  | VStr s => key_of_index <$> seq 0 (String.length s)
  | _ => []
  end.

Definition forin_keys (h : list object) (v : value) : list string :=
  match v with
  | VRef l => chain_keys (length h) h l []
  | VStr s => key_of_index <$> seq 0 (String.length s)
  | _ => []
  end.

Definition truthy (v : value) : bool :=
  match v with
  | VUndef | VNull => false
  | VBool b => b
  | VNum n => negb (n =? 0)%Z
  | VStr s => negb (String.eqb s "")
  | VRef _ => true
  end.

Definition is_function (h : list object) (v : value) : bool :=
  match v with
  | VRef l => match cls (obj_at h l) with CFun _ => true | _ => false end
  | _ => false
  end.

Definition is_array (h : list object) (v : value) : bool :=
  match v with
  | VRef l => match cls (obj_at h l) with CArray _ => true | _ => false end
  | _ => false
  end.

Definition is_string (v : value) : bool :=
  match v with VStr _ => true | _ => false end.

(** [o[k] = x] on an object.  Writing past the end of an array would leave
    holes and writing [length] would truncate: both are outside the model. *)
Definition obj_set (o : object) (k : string) (x : value) : option object :=
  match cls o with
  | CArray elems =>
      match index_of_key k with
      | Some i =>
          if decide (i < length elems)
          then Some (Obj (proto o) (CArray (<[i := x]> elems)) (props o))
          else if decide (i = length elems)
          then Some (Obj (proto o) (CArray (elems ++ [x])) (props o))
          else None
      | None =>
          if String.eqb k "length" then None
          else Some (Obj (proto o) (cls o) (alist_set k x (props o)))
      end
  | _ => Some (Obj (proto o) (cls o) (alist_set k x (props o)))
  end.

(** ** The state and error monad *)

Inductive error :=
| TypeError (msg : string)
| OutOfFuel
| Unmodelled (what : string).

Inductive outcome (A : Type) :=
| Ok (a : A) (s : state)
| Err (e : error).
Arguments Ok {A} a s.
Arguments Err {A} e.

Definition M (A : Type) : Type := state → outcome A.

Definition ret {A} (a : A) : M A := λ s, Ok a s.
Definition throw {A} (e : error) : M A := λ _, Err e.
Definition bind {A B} (m : M A) (f : A → M B) : M B :=
  λ s, match m s with
       | Ok a s' => f a s'
       | Err e => Err e
       end.

Notation "'let!' x ':=' m 'in' k" := (bind m (λ x, k))
  (at level 10, x name, m at level 100, k at level 200).
Notation "m ';;' k" := (bind m (λ _, k))
  (at level 100, k at level 200, right associativity).

(** Evaluate a pure function of the heap. *)
Definition read {A} (f : list object → A) : M A := λ s, Ok (f (heap s)) s.

Fixpoint forM_ {A} (xs : list A) (f : A → M unit) : M unit :=
  match xs with
  | [] => ret tt
  | x :: xs => f x;; forM_ xs f
  end.

Definition when (b : bool) (m : M unit) : M unit := if b then m else ret tt.

Definition alloc (o : object) : M loc :=
  λ s, Ok (length (heap s)) (with_heap s (heap s ++ [o])).

Definition new_object (ps : list (string * value)) : M value :=
  let! l := alloc (Obj None CPlain ps) in ret (VRef l).

Definition new_array (elems : list value) : M value :=
  let! l := alloc (Obj None (CArray elems) []) in ret (VRef l).

Definition new_function (c : closure) : M value :=
  let! l := alloc (Obj None (CFun c) []) in ret (VRef l).

Definition get (v : value) (k : string) : M value :=
  match v with
  | VUndef | VNull =>
      throw (TypeError "Cannot read properties of undefined or null")
  | _ => read (λ h, get_val h v k)
  end.

(** Assignment in strict mode (the module is an ES module). *)
Definition set_prop (v : value) (k : string) (x : value) : M unit :=
  match v with
  | VRef l => λ s,
      match heap s !! l with
      | Some o =>
          match obj_set o k x with
          | Some o' => Ok tt (with_heap s (<[l := o']> (heap s)))
          | None => Err (Unmodelled "sparse array")
          end
      | None => Err (Unmodelled "dangling reference")
      end
  | VUndef | VNull =>
      throw (TypeError "Cannot set properties of undefined or null")
  | _ => throw (TypeError "Cannot create property on a primitive value")
  end.

(** [for (const key in v)]: a loop over undefined or null has no iteration. *)
Definition for_in (v : value) (body : string → M unit) : M unit :=
  let! keys := read (λ h, forin_keys h v) in forM_ keys body.

(** [Object.create(v)] *)
Definition object_create (v : value) : M value :=
  match v with
  | VRef l => let! r := alloc (Obj (Some l) CPlain []) in ret (VRef r)
  | VNull => new_object []
  | _ => throw (TypeError "Object prototype may only be an Object or null")
  end.

(** [Object.keys(v)] *)
Definition object_keys (v : value) : M (list string) :=
  match v with
  | VUndef | VNull =>
      throw (TypeError "Cannot convert undefined or null to object")
  | _ => read (λ h, own_keys_val h v)
  end.

(** Coercion of a computed key, as in [normalized[inject[i]]]. *)
Definition to_key (v : value) : M string :=
  match v with
  | VStr s => ret s
  | VNum n =>
      ret (if (n <? 0)%Z then ("-" ++ key_of_index (Z.to_nat (- n)))%string
           else key_of_index (Z.to_nat n))
  | VBool true => ret "true"
  | VBool false => ret "false"
  | VUndef => ret "undefined"
  | VNull => ret "null"
  | VRef _ => throw (Unmodelled "object used as a property key")
  end.

(** [a.concat(b)].  Only the built-in method of arrays is modelled: it
    returns a new array, spreading [b] when [b] is an array. *)
Definition concat (a b : value) : M value :=
  match a with
  | VUndef | VNull =>
      throw (TypeError "Cannot read properties of undefined or null")
  | VStr _ => throw (Unmodelled "String.prototype.concat")
  | VBool _ | VNum _ => throw (TypeError "concat is not a function")
  | VRef l =>
      let! o := read (λ h, obj_at h l) in
      let! m := read (λ h, chain_lookup (length h) h l "concat") in
      match cls o, m with
      | CArray xs, None =>
          let! ob := read (λ h, match b with
                                | VRef p => cls (obj_at h p)
                                | _ => CPlain
                                end) in
          match b, ob with
          | VRef _, CArray ys => new_array (xs ++ ys)
          | _, _ => new_array (xs ++ [b])
          end
      | _, None => throw (TypeError "concat is not a function")
      | _, Some f =>
          let! isf := read (λ h, is_function h f) in
          if isf then throw (Unmodelled "user-defined concat")
          else throw (TypeError "concat is not a function")
      end
  end.

(** ** Collaborators from other modules

    Modelled from the spec: the helpers of [shared/util], the diagnostic
    channel [warn] of [./debug] and the reactive registration [set] of
    [../observer/index] are imported by the module and are not part of it. *)

(** Modelled from the spec: [warn] reports through a side channel and never
    aborts. *)
Definition warn (d : diag) : M unit :=
  λ s, Ok tt (State (heap s) (diags s ++ [d]) (regs s)).

(** Modelled from the spec: [hasOwn] checks own presence; it is
    [Object.prototype.hasOwnProperty.call(obj, key)], which rejects
    undefined and null. *)
Definition hasOwn (obj : value) (key : string) : M bool :=
  match obj with
  | VUndef | VNull =>
      throw (TypeError "Cannot convert undefined or null to object")
  | _ => read (λ h, has_own_val h obj key)
  end.

(** Modelled from the spec: a plain mapping, as opposed to an array, a
    function or another exotic object. *)
Definition isPlainObject (h : list object) (v : value) : bool :=
  match v with
  | VRef l => match cls (obj_at h l) with CPlain => true | _ => false end
  | _ => false
  end.

(** Modelled from the spec: [extend] copies the entries of [_from] onto
    [to], overriding by key, and returns [to]. *)
Definition extend (to _from : value) : M value :=
  for_in _from (λ key, let! v := get _from key in set_prop to key v);;
  ret to.

(** Modelled from the spec: the reactive-registration collaborator installs
    the pair on the target and registers it for change tracking. *)
Definition set (target : value) (key : string) (val : value) : M unit :=
  set_prop target key val;;
  match target with
  | VRef l => λ s, Ok tt (State (heap s) (diags s) (regs s ++ [(l, key, val)]))
  | _ => ret tt
  end.

Definition upper_char (c : ascii) : ascii :=
  let n := nat_of_ascii c in
  if (97 <=? n)%nat && (n <=? 122)%nat
  then ascii_of_nat (n - 32) else c.

Definition lower_char (c : ascii) : ascii :=
  let n := nat_of_ascii c in
  if (65 <=? n)%nat && (n <=? 90)%nat
  then ascii_of_nat (n + 32) else c.

(** The class [\w] of regular expressions. *)
Definition is_word_char (c : ascii) : bool :=
  let n := nat_of_ascii c in
  ((97 <=? n)%nat && (n <=? 122)%nat) || ((65 <=? n)%nat && (n <=? 90)%nat)
  || ((48 <=? n)%nat && (n <=? 57)%nat) || (n =? 95)%nat.

(** Modelled from the spec: camel-casing of a hyphenated name, replacing
    every hyphen followed by a word character by that character in upper
    case, scanning from the left. *)
Fixpoint camelize (s : string) : string :=
  match s with
  | EmptyString => EmptyString
  | String a t =>
      match t with
      | String c rest =>
          if Stdlib.Strings.Ascii.eqb a "-"%char && is_word_char c
          then String (upper_char c) (camelize rest)
          else String a (camelize t)
      | EmptyString => String a EmptyString
      end
  end.

(** Modelled from the spec: the first character in upper case. *)
Definition capitalize (s : string) : string :=
  match s with
  | EmptyString => EmptyString
  | String c rest => String (upper_char c) rest
  end.

Fixpoint toLowerCase (s : string) : string :=
  match s with
  | EmptyString => EmptyString
  | String c rest => String (lower_char c) (toLowerCase rest)
  end.

(** [type.slice(0, -1)] *)
Fixpoint slice_0_m1 (s : string) : string :=
  match s with
  | EmptyString => EmptyString
  | String c EmptyString => EmptyString
  | String c rest => String c (slice_0_m1 rest)
  end.

(** What the module takes from its environment: the build mode, the
    constants of [shared/constants], the platform's [Object.prototype.watch]
    (undefined outside Firefox), the tag predicates and the behaviour of the
    functions written by the user. *)
Record env := Env {
  production : bool;
  LIFECYCLE_HOOKS : list string;
  ASSET_TYPES : list string;
  nativeWatch : value;
  isBuiltInTag : string → bool;
  isReservedTag : string → bool;
  call_user : nat → value → M value
}.

Fixpoint foldM {A B} (f : B → A → M B) (b : B) (xs : list A) : M B :=
  match xs with
  | [] => ret b
  | x :: xs => let! b' := f b x in foldM f b' xs
  end.

Definition array_length (h : list object) (v : value) : nat :=
  match v with
  | VRef l => match cls (obj_at h l) with CArray xs => length xs | _ => 0 end
  | _ => 0
  end.

(** The number of iterations of [for (i = 0; i < l; i++)]. *)
Definition count_of (l : value) : M nat :=
  match l with
  | VNum n => ret (Z.to_nat n)
  | VBool true => ret 1
  | VUndef | VNull | VBool false => ret 0
  | VStr _ | VRef _ => throw (Unmodelled "loop bound that is not a number")
  end.

(** ** The deep data merger *)

(** [mergeData]: recursion follows the nesting of the data, which the heap
    does not bound, hence the fuel. *)
Fixpoint mergeData (fuel : nat) (to from : value) : M value :=
  match fuel with
  | O => throw OutOfFuel
  | S fuel =>
      if negb (truthy from) then ret to
      else
        let! keys := object_keys from in
        forM_ keys (λ key,
          let! toVal := get to key in
          let! fromVal := get from key in
          let! own := hasOwn to key in
          if negb own then set to key fromVal
          else
            let! both := read (λ h, isPlainObject h toVal
                                    && isPlainObject h fromVal) in
            if both then mergeData fuel toVal fromVal;; ret tt
            else ret tt);;
        ret to
  end.

(** ** The module, for a given environment *)

Section Options.
Context (E : env).

Definition dev : bool := negb (production E).

(** [f.call(this)] for the functions of the model. *)
Fixpoint call_function (fuel : nat) (f this : value) : M value :=
  match fuel with
  | O => throw OutOfFuel
  | S fuel =>
      let resolve (v self : value) : M value :=
        let! isf := read (λ h, is_function h v) in
        if isf then call_function fuel v self else ret v in
      let! c := read (λ h, match f with
                           | VRef l => cls (obj_at h l)
                           | _ => CPlain
                           end) in
      match f, c with
      | VRef _, CFun (UserFn id) => call_user E id this
      | VRef _, CFun (MergedDataFn parentVal childVal) =>
          let! a := resolve childVal this in
          let! b := resolve parentVal this in
          mergeData fuel a b
      | VRef _, CFun (MergedInstanceDataFn parentVal childVal vm) =>
          let! instanceData := resolve childVal vm in
          let! defaultData := resolve parentVal vm in
          if truthy instanceData then mergeData fuel instanceData defaultData
          else ret defaultData
      | _, _ => throw (TypeError "not a function")
      end
  end.

(** *** Strategies *)

Definition defaultStrat (parentVal childVal : value) : value :=
  if decide (childVal = VUndef) then parentVal else childVal.

(** [strats.el] and [strats.propsData], outside production. *)
Definition strat_restricted (parent child vm : value) (key : string)
  : M value :=
  when (negb (truthy vm)) (warn (WarnInstanceOnly key));;
  ret (defaultStrat parent child).

Definition mergeDataOrFn (parentVal childVal vm : value) : M value :=
  if negb (truthy vm) then
    if negb (truthy childVal) then ret parentVal
    else if negb (truthy parentVal) then ret childVal
    else new_function (MergedDataFn parentVal childVal)
  else if truthy parentVal || truthy childVal then
    new_function (MergedInstanceDataFn parentVal childVal vm)
  else ret VUndef.

(** [strats.data] *)
Definition strat_data (parentVal childVal vm : value) : M value :=
  if negb (truthy vm) then
    let! isf := read (λ h, is_function h childVal) in
    if truthy childVal && negb isf then
      when dev (warn WarnDataNotFunction);;
      ret parentVal
    else mergeDataOrFn parentVal childVal VUndef
  else mergeDataOrFn parentVal childVal vm.

Definition mergeHook (parentVal childVal : value) : M value :=
  if truthy childVal then
    if truthy parentVal then concat parentVal childVal
    else
      let! arr := read (λ h, is_array h childVal) in
      if arr then ret childVal else new_array [childVal]
  else ret parentVal.

Definition assertObjectType (name : string) (v vm : value) : M unit :=
  let! plain := read (λ h, isPlainObject h v) in
  when (negb plain) (warn (WarnInvalidOption name v)).

Definition mergeAssets (parentVal childVal vm : value) (key : string)
  : M value :=
  let! res := object_create (if truthy parentVal then parentVal else VNull) in
  if truthy childVal then
    when dev (assertObjectType key childVal vm);;
    extend res childVal
  else ret res.

(** [strats.watch] *)
Definition strat_watch (parentVal childVal vm : value) (key : string)
  : M value :=
  let parentVal :=
    if decide (parentVal = nativeWatch E) then VUndef else parentVal in
  let childVal :=
    if decide (childVal = nativeWatch E) then VUndef else childVal in
  if negb (truthy childVal)
  then object_create (if truthy parentVal then parentVal else VNull)
  else
    when dev (assertObjectType key childVal vm);;
    if negb (truthy parentVal) then ret childVal
    else
      let! ret_ := new_object [] in
      extend ret_ parentVal;;
      for_in childVal (λ key,
        let! parent := get ret_ key in
        let! child := get childVal key in
        let! parr := read (λ h, is_array h parent) in
        let! parent :=
          (if truthy parent && negb parr then new_array [parent]
           else ret parent) in
        let! v :=
          (if truthy parent then concat parent child
           else
             let! carr := read (λ h, is_array h child) in
             if carr then ret child else new_array [child]) in
        set_prop ret_ key v);;
      ret ret_.

(** [strats.props], [strats.methods], [strats.inject], [strats.computed] *)
Definition strat_object_hash (parentVal childVal vm : value) (key : string)
  : M value :=
  when (truthy childVal && dev) (assertObjectType key childVal vm);;
  if negb (truthy parentVal) then ret childVal
  else
    let! ret_ := object_create VNull in
    extend ret_ parentVal;;
    (if truthy childVal then extend ret_ childVal else ret ret_);;
    ret ret_.

Inductive strategy :=
| SRestricted
| SData
| SHook
| SAssets
| SWatch
| SObjectHash
| SProvide.

(** The table [strats] once the module is loaded.  It starts from
    [config.optionMergeStrategies], taken empty and without prototype, and a
    later assignment to a key replaces an earlier one, so the last
    assignment is looked up first. *)
Definition strats (key : string) : option strategy :=
  if decide (key = "provide") then Some SProvide
  else if decide (key ∈ ["props"; "methods"; "inject"; "computed"])
  then Some SObjectHash
  else if decide (key = "watch") then Some SWatch
  else if decide (key ∈ (λ t, (t ++ "s")%string) <$> ASSET_TYPES E) then Some SAssets
  else if decide (key ∈ LIFECYCLE_HOOKS E) then Some SHook
  else if decide (key = "data") then Some SData
  else if dev && bool_decide (key ∈ ["el"; "propsData"])
  then Some SRestricted
  else None.

(** [(strats[key] || defaultStrat)(parentVal, childVal, vm, key)] *)
Definition apply_strat (st : option strategy)
  (parentVal childVal vm : value) (key : string) : M value :=
  match st with
  | Some SRestricted => strat_restricted parentVal childVal vm key
  | Some SData => strat_data parentVal childVal vm
  | Some SHook => mergeHook parentVal childVal
  | Some SAssets => mergeAssets parentVal childVal vm key
  | Some SWatch => strat_watch parentVal childVal vm key
  | Some SObjectHash => strat_object_hash parentVal childVal vm key
  | Some SProvide => mergeDataOrFn parentVal childVal vm
  | None => ret (defaultStrat parentVal childVal)
  end.

(** *** Normalisation *)

Definition checkComponents (options : value) : M unit :=
  let! components := get options "components" in
  for_in components (λ key,
    let lower := toLowerCase key in
    when (isBuiltInTag E lower || isReservedTag E lower)
      (warn (WarnReservedComponent key))).

Definition normalizeProps (options vm : value) : M unit :=
  let! props := get options "props" in
  if negb (truthy props) then ret tt
  else
    let! res := new_object [] in
    let! arr := read (λ h, is_array h props) in
    let! plain := read (λ h, isPlainObject h props) in
    (if arr then
       let! len := read (λ h, array_length h props) in
       forM_ (rev (seq 0 len)) (λ i,
         let! val := get props (key_of_index i) in
         match val with
         | VStr name =>
             let! d := new_object [("type", VNull)] in
             set_prop res (camelize name) d
         | _ => when dev (warn WarnPropsArrayString)
         end)
     else if plain then
       for_in props (λ key,
         let! val := get props key in
         let name := camelize key in
         let! isp := read (λ h, isPlainObject h val) in
         let! d := (if isp then ret val else new_object [("type", val)]) in
         set_prop res name d)
     else when (dev && truthy props) (warn (WarnInvalidProps props)));;
    set_prop options "props" res.

Definition normalizeInject (options vm : value) : M unit :=
  let! inject := get options "inject" in
  let! normalized := new_object [] in
  set_prop options "inject" normalized;;
  let! arr := read (λ h, is_array h inject) in
  let! plain := read (λ h, isPlainObject h inject) in
  if arr then
    let! len := read (λ h, array_length h inject) in
    forM_ (seq 0 len) (λ i,
      let! name := get inject (key_of_index i) in
      let! key := to_key name in
      let! d := new_object [("from", name)] in
      set_prop normalized key d)
  else if plain then
    for_in inject (λ key,
      let! val := get inject key in
      let! isp := read (λ h, isPlainObject h val) in
      let! d :=
        (if isp then let! o := new_object [("from", VStr key)] in extend o val
         else new_object [("from", val)]) in
      set_prop normalized key d)
  else when (dev && truthy inject) (warn (WarnInvalidInject inject)).

Definition normalizeDirectives (options : value) : M unit :=
  let! dirs := get options "directives" in
  if truthy dirs then
    for_in dirs (λ key,
      let! def := get dirs key in
      let! isf := read (λ h, is_function h def) in
      if isf then
        let! d := new_object [("bind", def); ("update", def)] in
        set_prop dirs key d
      else ret tt)
  else ret tt.

(** *** The merge engine *)

(** The inner function [mergeField] of [mergeOptions]. *)
Definition mergeField (options parent child vm : value) (key : string)
  : M unit :=
  let strat := strats key in
  let! parentVal := get parent key in
  let! childVal := get child key in
  let! v := apply_strat strat parentVal childVal vm key in
  set_prop options key v.

(** The last part of [mergeOptions], from [const options = {}] on. *)
Definition mergeFields (parent child vm : value) : M value :=
  let! options := new_object [] in
  for_in parent (λ key, mergeField options parent child vm key);;
  for_in child (λ key,
    let! own := hasOwn parent key in
    if own then ret tt else mergeField options parent child vm key);;
  ret options.

Fixpoint mergeOptions (fuel : nat) (parent child vm : value) : M value :=
  match fuel with
  | O => throw OutOfFuel
  | S fuel =>
      when dev (checkComponents child);;
      let! isf := read (λ h, is_function h child) in
      let! child := (if isf then get child "options" else ret child) in
      normalizeProps child vm;;
      normalizeInject child vm;;
      normalizeDirectives child;;
      let! extendsFrom := get child "extends" in
      let! parent :=
        (if truthy extendsFrom then mergeOptions fuel parent extendsFrom vm
         else ret parent) in
      let! mixins := get child "mixins" in
      let! parent :=
        (if truthy mixins then
           let! l := get mixins "length" in
           let! n := count_of l in
           foldM (λ parent i,
                    let! ms := get child "mixins" in
                    let! m := get ms (key_of_index i) in
                    mergeOptions fuel parent m vm)
                 parent (seq 0 n)
         else ret parent) in
      mergeFields parent child vm
  end.

(** *** Asset resolution *)

Definition resolveAsset (options : value) (type : string) (id : value)
  (warnMissing : bool) : M value :=
  match id with
  | VStr id =>
      let! assets := get options type in
      let! own := hasOwn assets id in
      if own then get assets id
      else
        let camelizedId := camelize id in
        let! own := hasOwn assets camelizedId in
        if own then get assets camelizedId
        else
          let PascalCaseId := capitalize camelizedId in
          let! own := hasOwn assets PascalCaseId in
          if own then get assets PascalCaseId
          else
            let! r1 := get assets id in
            let! res :=
              (if truthy r1 then ret r1
               else
                 let! r2 := get assets camelizedId in
                 if truthy r2 then ret r2 else get assets PascalCaseId) in
            when (dev && warnMissing && negb (truthy res))
              (warn (WarnUnresolvedAsset (slice_0_m1 type) id));;
            ret res
  | _ => ret VUndef
  end.

End Options.

(** * Specification vocabulary *)

(** [spec R m Q]: from a state in the domain of [R], a run of [m] that
    returns ends in a state related to the first one, with a result in [Q]. *)
Definition spec {A} (R : relation state) (m : M A) (Q : A → Prop) : Prop :=
  ∀ s a s', R s s → m s = Ok a s' → R s s' ∧ Q a.

(** A relation that the primitive operations preserve when they write only
    to the locations in [W]. *)
Class Frame (R : relation state) (W : loc → Prop) := {
  frame_trans s1 s2 s3 : R s1 s2 → R s2 s3 → R s1 s3;
  frame_refl_r s1 s2 : R s1 s2 → R s2 s2;
  frame_alloc s o :
    R s s → R s (with_heap s (heap s ++ [o])) ∧ W (length (heap s));
  frame_warn s d : R s s → R s (State (heap s) (diags s ++ [d]) (regs s));
  frame_set s l o k x o' :
    W l → R s s → heap s !! l = Some o → obj_set o k x = Some o' →
    R s (with_heap s (<[l := o']> (heap s)))
}.

(** The value may be assigned to. *)
Definition writable (W : loc → Prop) (v : value) : Prop :=
  ∀ l, v = VRef l → W l.

(** The objects at the locations in [P] are left as they are, and nothing is
    registered. *)
Definition frame_on (P : loc → Prop) (s s' : state) : Prop :=
  (∀ l, P l → l < length (heap s)) ∧
  length (heap s) ≤ length (heap s') ∧
  regs s' = regs s ∧
  ∀ l, P l → heap s' !! l = heap s !! l.

(** The heap grows, no own property disappears, a plain object stays plain
    with the prototype it has, and nothing is registered. *)
Definition mono (s s' : state) : Prop :=
  length (heap s) ≤ length (heap s') ∧
  regs s' = regs s ∧
  (∀ l k, is_Some (own_lookup (obj_at (heap s) l) k) →
          is_Some (own_lookup (obj_at (heap s') l) k)) ∧
  (∀ l o, heap s !! l = Some o → cls o = CPlain →
          ∃ o', heap s' !! l = Some o' ∧ cls o' = CPlain ∧ proto o' = proto o).

(** The value is not a reference outside the heap. *)
Definition value_ok (h : list object) (v : value) : Prop :=
  ∀ l, v = VRef l → l < length h.

(** A configuration node: a plain mapping of the heap, without prototype. *)
Definition is_mapping (h : list object) (v : value) : Prop :=
  ∃ l o, v = VRef l ∧ h !! l = Some o ∧ proto o = None ∧ cls o = CPlain.

(** The fields [mergeOptions] visits, in order: a run of [mergeField] for
    each field of the list. *)
Inductive visits (E : env) (options parent child vm : value)
  : list string → state → state → Prop :=
| visits_nil s : visits E options parent child vm [] s s
| visits_cons k ks s s1 s2 :
    mergeField E options parent child vm k s = Ok tt s1 →
    visits E options parent child vm ks s1 s2 →
    visits E options parent child vm (k :: ks) s s2.

(** * Sample inputs

    An environment as a development build outside Firefox sets it up, and a
    production one; the user functions of the samples return undefined. *)

Definition sample_hooks : list string :=
  ["beforeCreate"; "created"; "beforeMount"; "mounted"; "beforeUpdate";
   "updated"; "beforeDestroy"; "destroyed"; "activated"; "deactivated";
   "errorCaptured"].

Definition dev_env : env :=
  Env false sample_hooks ["component"; "directive"; "filter"] VUndef
    (λ tag, bool_decide (tag ∈ ["slot"; "component"])) (λ _, false)
    (λ _ _, ret VUndef).

Definition prod_env : env :=
  Env true sample_hooks ["component"; "directive"; "filter"] VUndef
    (λ tag, bool_decide (tag ∈ ["slot"; "component"])) (λ _, false)
    (λ _ _, ret VUndef).

Definition empty_state : state := State [] [] [].

(** The result and the final state of a run, for the samples. *)
Definition result_of {A} (d : A) (o : outcome A) : A :=
  match o with Ok a _ => a | Err _ => d end.

Definition state_of {A} (o : outcome A) : state :=
  match o with Ok _ s => s | Err _ => empty_state end.

(** Parent [{a: 1, created: [f]}] and child [{a: 2, b: 3}]. *)
Definition fields_state : state :=
  State [ Obj None (CFun (UserFn 0)) [];
          Obj None (CArray [VRef 0]) [];
          Obj None CPlain [("a", VNum 1); ("created", VRef 1)];
          Obj None CPlain [("a", VNum 2); ("b", VNum 3)] ] [] [].


(** * The deep data merge, in the words of its specification

    [data_merge to from ks s s']: every key of [ks], a list of keys of the
    source [from], is processed in turn.  If the target does not own the key
    the pair is installed on it through [set]; if it owns the key and both
    values are plain mappings the merge recurses on them; otherwise the
    target is left as it is. *)
Inductive data_merge : value → value → list string → state → state → Prop :=
| dm_done to from s : data_merge to from [] s s
| dm_install to from k ks s s1 s2 :
    has_own_val (heap s) to k = false →
    set to k (get_val (heap s) from k) s = Ok tt s1 →
    data_merge to from ks s1 s2 →
    data_merge to from (k :: ks) s s2
| dm_recurse to from k ks s s1 s2 :
    to ≠ VUndef → to ≠ VNull →
    has_own_val (heap s) to k = true →
    isPlainObject (heap s) (get_val (heap s) to k) = true →
    isPlainObject (heap s) (get_val (heap s) from k) = true →
    data_merge (get_val (heap s) to k) (get_val (heap s) from k)
      (own_keys_val (heap s) (get_val (heap s) from k)) s s1 →
    data_merge to from ks s1 s2 →
    data_merge to from (k :: ks) s s2
| dm_keep to from k ks s s2 :
    to ≠ VUndef → to ≠ VNull →
    has_own_val (heap s) to k = true →
    isPlainObject (heap s) (get_val (heap s) to k)
    && isPlainObject (heap s) (get_val (heap s) from k) = false →
    data_merge to from ks s s2 →
    data_merge to from (k :: ks) s s2.

Definition deep_merged (to from : value) (s s' : state) : Prop :=
  if truthy from then data_merge to from (own_keys_val (heap s) from) s s'
  else s' = s.

(** The object and the key of a registration. *)
Definition reg_slot (e : loc * string * value) : loc * string := e.1.

(** What a deep merge does to the state: the heap keeps its objects, every
    own property keeps its value, and the registrations made are exactly one
    for each property that is new. *)
Definition merge_effect (s s' : state) : Prop :=
  length (heap s') = length (heap s) ∧
  diags s' = diags s ∧
  (∀ l k v, own_lookup (obj_at (heap s) l) k = Some v →
            own_lookup (obj_at (heap s') l) k = Some v) ∧
  ∃ new, regs s' = regs s ++ new ∧
    NoDup (reg_slot <$> new) ∧
    ∀ l k v, (l, k, v) ∈ new ↔
      own_lookup (obj_at (heap s) l) k = None ∧
      own_lookup (obj_at (heap s') l) k = Some v.

(** Instance data [{x: 1}] and ancestor data [{x: 2, y: 3}]. *)
Definition data_state : state :=
  State [ Obj None CPlain [("x", VNum 1)];
          Obj None CPlain [("x", VNum 2); ("y", VNum 3)] ] [] [].

Definition data_merged_state : state :=
  State [ Obj None CPlain [("x", VNum 1); ("y", VNum 3)];
          Obj None CPlain [("x", VNum 2); ("y", VNum 3)] ] []
        [(0, "y", VNum 3)].

(** Instance data [{x: 1, n: {a: 1}}] at 2 and ancestor data
    [{x: 2, y: 3, n: {a: 5, b: 2}}] at 3, the nested mappings being at 0
    and 1; and the state the deep merge leaves: [y] is installed on the
    instance data and [b] on its nested mapping. *)
Definition nested_state : state :=
  State [ Obj None CPlain [("a", VNum 1)];
          Obj None CPlain [("a", VNum 5); ("b", VNum 2)];
          Obj None CPlain [("x", VNum 1); ("n", VRef 0)];
          Obj None CPlain [("x", VNum 2); ("y", VNum 3); ("n", VRef 1)] ]
        [] [].

Definition nested_merged_state : state :=
  State [ Obj None CPlain [("a", VNum 1); ("b", VNum 2)];
          Obj None CPlain [("a", VNum 5); ("b", VNum 2)];
          Obj None CPlain [("x", VNum 1); ("n", VRef 0); ("y", VNum 3)];
          Obj None CPlain [("x", VNum 2); ("y", VNum 3); ("n", VRef 1)] ]
        [] [(2, "y", VNum 3); (0, "b", VNum 2)].

(** The body of the loop of [mergeData], with the fuel left for the
    recursive calls. *)
Definition mergeData_body (fuel : nat) (to from : value) (key : string)
  : M unit :=
  let! toVal := get to key in
  let! fromVal := get from key in
  let! own := hasOwn to key in
  if negb own then set to key fromVal
  else
    let! both := read (λ h, isPlainObject h toVal
                            && isPlainObject h fromVal) in
    if both then mergeData fuel toVal fromVal;; ret tt
    else ret tt.

(** An instance merge of data: instance data [{x: 1}] at 0, ancestor data
    [{x: 2, y: 3}] at 1, the constructor's options [{data: ancestor}] at 2,
    the instance's options [{data: instance}] at 3 and the instance at 4. *)
Definition deferred_state : state :=
  State [ Obj None CPlain [("x", VNum 1)];
          Obj None CPlain [("x", VNum 2); ("y", VNum 3)];
          Obj None CPlain [("data", VRef 1)];
          Obj None CPlain [("data", VRef 0)];
          Obj None CPlain [] ] [] [].

Definition deferred_run : outcome value :=
  Eval vm_compute in
    mergeOptions dev_env 1 (VRef 2) (VRef 3) (VRef 4) deferred_state.

(** The merged [data] option of the result, called on the instance. *)
Definition deferred_call : outcome value :=
  Eval vm_compute in
    call_function dev_env 2
      (get_val (heap (state_of deferred_run))
         (result_of VUndef deferred_run) "data")
      (VRef 4) (state_of deferred_run).

(** A static merge of [provide] with the child alone, a plain mapping
    [{foo: 1}] at 0. *)
Definition provide_state : state :=
  State [ Obj None CPlain [("foo", VNum 1)] ] [] [].

(** The sequence a hook value stands for. *)
Definition hook_seq (h : list object) (v : value) : list value :=
  match v with
  | VRef l =>
      match cls (obj_at h l) with
      | CArray xs => xs
      | _ => [v]
      end
  | _ => if truthy v then [v] else []
  end.

(** A parent hook value as the merge of an earlier level leaves it: absent,
    or an array with the built-in [concat]. *)
Definition hook_list (h : list object) (v : value) : Prop :=
  truthy v = false ∨
  ∃ l, v = VRef l ∧ is_array h v = true ∧
       chain_lookup (length h) h l "concat" = None.

(** Three hooks [a], [b], [c] at 0, 1, 2, the arrays [[a, b]] at 3, [[c]] at
    4 and [[a]] at 5. *)
Definition hooks_state : state :=
  State [ Obj None (CFun (UserFn 0)) [];
          Obj None (CFun (UserFn 1)) [];
          Obj None (CFun (UserFn 2)) [];
          Obj None (CArray [VRef 0; VRef 1]) [];
          Obj None (CArray [VRef 2]) [];
          Obj None (CArray [VRef 0]) [] ] [] [].

(** The state once a child without [inject] at [c], a plain mapping with the
    entries [ps], is normalised: a new empty mapping is allocated and
    stored under [inject]. *)
Definition normalized_child (s : state) (c : loc)
  (ps : list (string * value)) : state :=
  with_heap s
    (<[c := Obj None CPlain (ps ++ [("inject", VRef (length (heap s)))])]>
       (heap s ++ [Obj None CPlain []])).

(** Parent [P = {a: 0}] at 0, mixins [M1 = {a: 1}] at 1 and [M2 = {a: 2}] at
    2, the list [[M1, M2]] at 3, and the child [{mixins: [M1, M2], a: 3}] at
    4 or, without its own [a], [{mixins: [M1, M2]}] at 5. *)
Definition mixins_state : state :=
  State [ Obj None CPlain [("a", VNum 0)];
          Obj None CPlain [("a", VNum 1)];
          Obj None CPlain [("a", VNum 2)];
          Obj None (CArray [VRef 1; VRef 2]) [];
          Obj None CPlain [("mixins", VRef 3); ("a", VNum 3)];
          Obj None CPlain [("mixins", VRef 3)] ] [] [].

Definition mixins_run_own : outcome value :=
  Eval vm_compute in
    mergeOptions dev_env 2 (VRef 0) (VRef 4) VUndef mixins_state.

Definition mixins_run_omitted : outcome value :=
  Eval vm_compute in
    mergeOptions dev_env 2 (VRef 0) (VRef 5) VUndef mixins_state.

(** Neither the parent [{}] at 0 nor the child [{}] at 1 declares an
    injection. *)
Definition bare_state : state :=
  State [ Obj None CPlain []; Obj None CPlain [] ] [] [].

Definition bare_run : outcome value :=
  Eval vm_compute in
    mergeOptions dev_env 1 (VRef 0) (VRef 1) VUndef bare_state.

(** The state [resolveAsset] leaves when no own entry is found: the lookup
    through the prototypes gave [res], and a miss is reported when the
    caller asks for it. *)
Definition miss_reported (E : env) (s : state) (type id : string)
  (warnMissing : bool) (res : value) : state :=
  if dev E && warnMissing && negb (truthy res)
  then State (heap s) (diags s ++ [WarnUnresolvedAsset (slice_0_m1 type) id])
         (regs s)
  else s.

(** The lookup order of [resolveAsset], in the words of its specification:
    own presence of the exact, the camel-cased and the capitalised name, in
    that order, then the same three names through the prototypes. *)
Definition resolve_order (E : env) (assets : value) (type id : string)
  (warnMissing : bool) (s : state) : outcome value :=
  let h := heap s in
  let camel := camelize id in
  let pascal := capitalize camel in
  if has_own_val h assets id then Ok (get_val h assets id) s
  else if has_own_val h assets camel then Ok (get_val h assets camel) s
  else if has_own_val h assets pascal then Ok (get_val h assets pascal) s
  else
    let res :=
      if truthy (get_val h assets id) then get_val h assets id
      else if truthy (get_val h assets camel) then get_val h assets camel
      else get_val h assets pascal in
    Ok res (miss_reported E s type id warnMissing res).

(** Parent assets [{Foo: F}] at 0 and child assets [{Bar: B}] at 1, [F] and
    [B] being the objects at 2 and 3; the merged assets go to 4, and the
    resolved configuration [{components: merged}] is at 5. *)
Definition assets_state : state :=
  State [ Obj None CPlain [("Foo", VRef 2)];
          Obj None CPlain [("Bar", VRef 3)];
          Obj None CPlain [("name", VStr "F")];
          Obj None CPlain [("name", VStr "B")] ] [] [].

Definition assets_resolved_state : state :=
  State [ Obj None CPlain [("Foo", VRef 2)];
          Obj None CPlain [("Bar", VRef 3)];
          Obj None CPlain [("name", VStr "F")];
          Obj None CPlain [("name", VStr "B")];
          Obj (Some 0) CPlain [("Bar", VRef 3)];
          Obj None CPlain [("components", VRef 4)] ] [] [].


(** While [normalizeProps] fills [res], the objects at [l] and at [res]
    exist, [res] is a plain mapping, and the registrations are [rs]. *)
Definition filling (l res : loc) (rs : list (loc * string * value))
  (s : state) : Prop :=
  l < length (heap s) ∧ regs s = rs ∧
  ∃ o, heap s !! res = Some o ∧ cls o = CPlain.

(** The two objects hold the same entries. *)
Definition same_entries (o1 o2 : object) : Prop :=
  ∀ k, own_lookup o1 k = own_lookup o2 k.

(** The loop of [normalizeProps] over a mapping [props], filling [res]. *)
Definition normalizeProps_body (props res : value) (key : string) : M unit :=
  let! val := get props key in
  let name := camelize key in
  let! isp := read (λ h, isPlainObject h val) in
  let! d := (if isp then ret val else new_object [("type", val)]) in
  set_prop res name d.

(** A configuration [{props: {fooBar: {type: null}}}] at 2, its [props] at 1
    and the descriptor at 0. *)
Definition props_state : state :=
  State [ Obj None CPlain [("type", VNull)];
          Obj None CPlain [("fooBar", VRef 0)];
          Obj None CPlain [("props", VRef 1)] ] [] [].

(** The strategies that return on every pair of operands: all but the ones
    that call [concat] on the parent value or make it a prototype. *)
Definition total_strategy (st : option strategy) : bool :=
  match st with
  | Some SHook | Some SAssets | Some SWatch => false
  | _ => true
  end.

(** The object at [r] is a plain object. *)
Definition plain_at (r : loc) (s : state) : Prop :=
  ∃ o, heap s !! r = Some o ∧ cls o = CPlain.


(** * Vocabulary for the properties of the single functions *)

(** What a strategy may return: one of its operands, undefined, or an object
    that did not exist in the heap [h] of the call. *)
Definition operand_or_new (h : list object) (parentVal childVal v : value)
  : Prop :=
  v = parentVal ∨ v = childVal ∨ v = VUndef ∨
  ∃ l, v = VRef l ∧ length h ≤ l.

(** The entries of a plain object that held [ps], once the own entries of
    [o] are copied onto it one by one, in the order of the keys. *)
Definition copied (o : object) (ps : list (string * value))
  : list (string * value) :=
  foldl (λ acc k, alist_set k (default VUndef (own_lookup o k)) acc)
    ps (own_keys o).

(** Prototypes are objects allocated earlier, as [Object.create] leaves
    them. *)
Definition downward (h : list object) : Prop :=
  ∀ l o q, h !! l = Some o → proto o = Some q → q < l.

(** The own entry of a value for a key, when the value is an object. *)
Definition own_entry (h : list object) (v : value) (k : string)
  : option value :=
  match v with
  | VRef l => own_lookup (obj_at h l) k
  | _ => None
  end.

(** The entries copied from a child value that is absent or a mapping. *)
Definition copied_from (h : list object) (v : value)
  (ps : list (string * value)) : list (string * value) :=
  match v with
  | VRef l => copied (obj_at h l) ps
  | _ => ps
  end.

(** Parent [{a: 1, b: 2}] at 0 and child [{b: 3, c: 4}] at 1. *)
Definition hash_state : state :=
  State [ Obj None CPlain [("a", VNum 1); ("b", VNum 2)];
          Obj None CPlain [("b", VNum 3); ("c", VNum 4)] ] [] [].

(** The components of a constructor, [{A: 1}] at 0, the components merged
    for a component that extends it at 1, inheriting from 0, and the
    components [{B: 3}] that a child declares at 2. *)
Definition chain_state : state :=
  State [ Obj None CPlain [("A", VNum 1)];
          Obj (Some 0) CPlain [("B", VNum 2)];
          Obj None CPlain [("B", VNum 3)] ] [] [].

(** A component name that [checkComponents] reports: in lower case it is a
    built-in tag or a reserved tag. *)
Definition reserved_name (E : env) (key : string) : bool :=
  isBuiltInTag E (toLowerCase key) || isReservedTag E (toLowerCase key).

(** Components [{Slot: 1, "my-item": 2, component: 3}] at 0 in the
    configuration at 1. *)
Definition components_state : state :=
  State [ Obj None CPlain
            [("Slot", VNum 1); ("my-item", VNum 2); ("component", VNum 3)];
          Obj None CPlain [("components", VRef 0)] ] [] [].

(** The object form of a directive given as a function. *)
Definition directive_object (def : value) : object :=
  Obj None CPlain [("bind", def); ("update", def)].

(** What [normalizeDirectives] leaves for a directive [def], in the heap
    [h] that follows the heap [h0] of the call: a function is replaced by a
    new object holding it as [bind] and [update], anything else stays. *)
Definition normalized_directive (h0 h : list object) (def w : value) : Prop :=
  if is_function h0 def
  then ∃ n, w = VRef n ∧ length h0 ≤ n ∧ h !! n = Some (directive_object def)
  else w = def.

(** The state of the loop of [normalizeDirectives] over the directives at
    [d], which were [do] in the state [s] of the call, once the keys [seen]
    are visited. *)
Definition directives_inv (s : state) (d : loc) (do : object)
  (seen : list string) (sa : state) : Prop :=
  length (heap s) ≤ length (heap sa) ∧
  diags sa = diags s ∧ regs sa = regs s ∧
  (∀ l, l < length (heap s) → l ≠ d → heap sa !! l = heap s !! l) ∧
  (∀ l, length (heap s) ≤ l → l < length (heap sa) →
        ∃ v, heap sa !! l = Some (directive_object v)) ∧
  ∃ da, heap sa !! d = Some da ∧ cls da = CPlain ∧ proto da = None ∧
    ∀ k, match own_lookup do k with
         | None => own_lookup da k = None
         | Some v =>
             ∃ w, own_lookup da k = Some w ∧
               (k ∈ seen → normalized_directive (heap s) (heap sa) v w) ∧
               (k ∉ seen → w = v)
         end.

(** Directives [{focus: f, pin: {bind: f}}] at 2, [f] being the function
    at 0, in the configuration at 3. *)
Definition directives_state : state :=
  State [ Obj None (CFun (UserFn 0)) [];
          Obj None CPlain [("bind", VRef 0)];
          Obj None CPlain [("focus", VRef 0); ("pin", VRef 1)];
          Obj None CPlain [("directives", VRef 2)] ] [] [].

(** The descriptor [normalizeProps] makes for a name of the array form. *)
Definition type_null : object := Obj None CPlain [("type", VNull)].

(** The elements of an array that [normalizeProps] reports outside
    production: the ones that are not strings. *)
Definition not_strings (xs : list value) : list value :=
  filter (λ x, is_string x = false) xs.

(** The state of the loop of [normalizeProps] over an array with the
    elements [xs], once the indices [seen] are visited; the result under
    construction is the object at [length (heap s)], [s] being the state of
    the call, and [warns] tells whether the build reports. *)
Definition props_array_inv (s : state) (xs : list value) (warns : bool)
  (seen : list nat) (sa : state) : Prop :=
  let r := length (heap s) in
  r < length (heap sa) ∧ regs sa = regs s ∧
  diags sa
  = diags s ++
    replicate (if warns
               then length (not_strings (omap (λ i, xs !! i) seen))
               else 0) WarnPropsArrayString ∧
  (∀ l, l < r → heap sa !! l = heap s !! l) ∧
  (∀ n, r < n → n < length (heap sa) → heap sa !! n = Some type_null) ∧
  ∃ ra, heap sa !! r = Some ra ∧ cls ra = CPlain ∧ proto ra = None ∧
    ∀ k, match own_lookup ra k with
         | Some w =>
             (∃ n, w = VRef n ∧ r < n ∧ n < length (heap sa)) ∧
             ∃ i name, i ∈ seen ∧ xs !! i = Some (VStr name) ∧
                       camelize name = k
         | None =>
             ∀ i name, i ∈ seen → xs !! i = Some (VStr name) →
                       camelize name ≠ k
         end.

(** A configuration [{props: ["a--b"]}] at 1, the array being at 0; what
    one run of [normalizeProps] leaves of it, and what a second run
    leaves. *)
Definition hyphens_state : state :=
  State [ Obj None (CArray [VStr "a--b"]) [];
          Obj None CPlain [("props", VRef 0)] ] [] [].

Definition hyphens_once : outcome unit :=
  Eval vm_compute in normalizeProps dev_env (VRef 1) VUndef hyphens_state.

Definition hyphens_twice : outcome unit :=
  Eval vm_compute in
    normalizeProps dev_env (VRef 1) VUndef (state_of hyphens_once).

(** A configuration [{props: ["my-size", 7, "label"]}] at 1, the array
    being at 0. *)
Definition props_array_state : state :=
  State [ Obj None (CArray [VStr "my-size"; VNum 7; VStr "label"]) [];
          Obj None CPlain [("props", VRef 0)] ] [] [].

(** The descriptor [normalizeInject] makes for the entry [key: val] of an
    injection given as a mapping: a copy of [val] with [from] defaulting to
    the key when [val] is a plain object, and [{from: val}] otherwise. *)
Definition injection_for (h : list object) (key : string) (val : value)
  : object :=
  if isPlainObject h val
  then Obj None CPlain (copied_from h val [("from", VStr key)])
  else Obj None CPlain [("from", val)].

(** A value of an injection given as a mapping that the model follows: not
    a reference outside the heap, not the configuration [l] itself, and
    without prototype when it is a plain object. *)
Definition injection_value (h : list object) (l : loc) (val : value) : Prop :=
  ∀ q, val = VRef q →
    q < length h ∧ q ≠ l ∧ (cls (obj_at h q) = CPlain → proto (obj_at h q) = None).

(** The state of the loop of [normalizeInject] over a mapping [io], once
    the keys [seen] are visited: [s] is the state of the call, [s0] the
    state in which the loop starts, and the result under construction is
    the object at [length (heap s)]. *)
Definition inject_inv (s s0 : state) (io : object)
  (seen : list string) (sa : state) : Prop :=
  let n := length (heap s) in
  n < length (heap sa) ∧ regs sa = regs s ∧ diags sa = diags s ∧
  (∀ l', l' < n → heap sa !! l' = heap s0 !! l') ∧
  ∃ na, heap sa !! n = Some na ∧ cls na = CPlain ∧ proto na = None ∧
    ∀ k, match own_lookup io k with
         | Some v =>
             if decide (k ∈ seen)
             then ∃ m, own_lookup na k = Some (VRef m) ∧ n < m ∧
                       heap sa !! m = Some (injection_for (heap s) k v)
             else own_lookup na k = None
         | None => own_lookup na k = None
         end.

(** A configuration [{inject: {a: "b", c: {default: 1}, e: {from: "f"}}}]
    at 3, the injection at 2 and its two descriptors at 0 and 1. *)
Definition inject_state : state :=
  State [ Obj None CPlain [("default", VNum 1)];
          Obj None CPlain [("from", VStr "f")];
          Obj None CPlain [("a", VStr "b"); ("c", VRef 0); ("e", VRef 1)];
          Obj None CPlain [("inject", VRef 2)] ] [] [].

(** The descriptor [normalizeInject] makes for a name of the array form. *)
Definition from_name (name : string) : object :=
  Obj None CPlain [("from", VStr name)].

(** The state of the loop of [normalizeInject] over an array of names [xs],
    once the indices [seen] are visited; [s], [s0] and the result are as
    in [inject_inv]. *)
Definition inject_array_inv (s s0 : state) (xs : list value)
  (seen : list nat) (sa : state) : Prop :=
  let n := length (heap s) in
  n < length (heap sa) ∧ regs sa = regs s ∧ diags sa = diags s ∧
  (∀ l', l' < n → heap sa !! l' = heap s0 !! l') ∧
  ∃ na, heap sa !! n = Some na ∧ cls na = CPlain ∧ proto na = None ∧
    ∀ k, match own_lookup na k with
         | Some w =>
             (∃ m, w = VRef m ∧ n < m ∧ heap sa !! m = Some (from_name k)) ∧
             ∃ i, i ∈ seen ∧ xs !! i = Some (VStr k)
         | None => ∀ i, i ∈ seen → xs !! i ≠ Some (VStr k)
         end.

(** A configuration [{inject: ["store", "bus"]}] at 1, the array at 0. *)
Definition inject_array_state : state :=
  State [ Obj None (CArray [VStr "store"; VStr "bus"]) [];
          Obj None CPlain [("inject", VRef 0)] ] [] [].

(** Arrays stay arrays and nothing else becomes one. *)
Definition keeps_arrays (s s' : state) : Prop :=
  ∀ l, is_array (heap s') (VRef l) = is_array (heap s) (VRef l).

(** * Runs compared

    Two outcomes agree but for the diagnostics: the same result with the
    same heap and the same registrations, or the same error. *)
Definition same_outcome {A} (o1 o2 : outcome A) : Prop :=
  match o1, o2 with
  | Ok a s1, Ok b s2 => a = b ∧ heap s1 = heap s2 ∧ regs s1 = regs s2
  | Err e1, Err e2 => e1 = e2
  | _, _ => False
  end.

(** Two computations agree but for the diagnostics, from states that do. *)
Definition same_run {A} (m1 m2 : M A) : Prop :=
  ∀ s1 s2, heap s1 = heap s2 → regs s1 = regs s2 →
    same_outcome (m1 s1) (m2 s2).

(** A computation that only reports. *)
Definition silent (m : M unit) : Prop :=
  ∀ s, ∃ d, m s = Ok tt (State (heap s) d (regs s)).

(** Two environments with the same hooks, asset types and native [watch]:
    they may differ in the build, production or not, in the tag predicates
    and in the functions of the user. *)
Definition same_tables (E1 E2 : env) : Prop :=
  LIFECYCLE_HOOKS E1 = LIFECYCLE_HOOKS E2 ∧
  ASSET_TYPES E1 = ASSET_TYPES E2 ∧
  nativeWatch E1 = nativeWatch E2.

(** A parent [{el: 1, components: {slot: 2}}] at 1 and a child
    [{props: 7, data: {x: 1}}] at 3, which a development build reports
    four times. *)
Definition builds_state : state :=
  State [ Obj None CPlain [("slot", VNum 2)];
          Obj None CPlain [("el", VNum 1); ("components", VRef 0)];
          Obj None CPlain [("x", VNum 1)];
          Obj None CPlain [("props", VNum 7); ("data", VRef 2);
                           ("components", VRef 0)] ] [] [].

(** [mergeOptions] from the normalisation of the child on, once the child
    is chosen (a constructor stands for its options). *)
Definition mergeOptions_tail (E : env) (fuel : nat)
  (parent child vm : value) : M value :=
  normalizeProps E child vm;;
  normalizeInject E child vm;;
  normalizeDirectives child;;
  let! extendsFrom := get child "extends" in
  let! parent :=
    (if truthy extendsFrom then mergeOptions E fuel parent extendsFrom vm
     else ret parent) in
  let! mixins := get child "mixins" in
  let! parent :=
    (if truthy mixins then
       let! l := get mixins "length" in
       let! n := count_of l in
       foldM (λ parent i,
                let! ms := get child "mixins" in
                let! m := get ms (key_of_index i) in
                mergeOptions E fuel parent m vm)
             parent (seq 0 n)
     else ret parent) in
  mergeFields E parent child vm.

(** A constructor at 1 whose options [{a: 1}] are at 0, and a parent [{}]
    at 2. *)
Definition constructor_state : state :=
  State [ Obj None CPlain [("a", VNum 1)];
          Obj None (CFun (UserFn 0)) [("options", VRef 0)];
          Obj None CPlain [] ] [] [].

(** A parent [{a: 1}] at 0, directives [{focus: f}] at 2 with the function
    [f] at 1, and a child [{props: ["x"], directives: ...}] at 4 with the
    array at 3. *)
Definition writes_state : state :=
  State [ Obj None CPlain [("a", VNum 1)];
          Obj None (CFun (UserFn 0)) [];
          Obj None CPlain [("focus", VRef 1)];
          Obj None (CArray [VStr "x"]) [];
          Obj None CPlain [("props", VRef 3); ("directives", VRef 2)] ] [] [].

(** The watchers a child brings for a key: the elements of an array, or the
    value itself as one watcher. *)
Definition watch_seq (h : list object) (v : value) : list value :=
  match v with
  | VRef l =>
      match cls (obj_at h l) with
      | CArray xs => xs
      | _ => [v]
      end
  | _ => [v]
  end.

(** The entries of an object refer to objects of the heap. *)
Definition entries_ok (h : list object) (o : object) : Prop :=
  ∀ k v, own_lookup o k = Some v → value_ok h v.

(** The watchers merged for a key of the child: the parent's, then the
    child's. *)
Definition merged_watchers (h : list object) (po co : object) (k : string)
  : list value :=
  hook_seq h (default VUndef (own_lookup po k))
  ++ watch_seq h (default VUndef (own_lookup co k)).

(** The loop of [strats.watch] after the keys [seen] of the child, started
    in [s] on the parent [po] and the child [co]: the result, allocated
    first, holds an array of the merged watchers for each key seen and the
    entries copied from the parent for the other keys. *)
Definition watch_inv (s : state) (po co : object) (seen : list string)
  (sa : state) : Prop :=
  length (heap s) < length (heap sa) ∧ regs sa = regs s ∧
  (∀ l, l < length (heap s) → heap sa !! l = heap s !! l) ∧
  ∃ ps, heap sa !! length (heap s) = Some (Obj None CPlain ps) ∧
    (∀ k, k ∉ seen → alist_get k ps = own_lookup po k) ∧
    (∀ k, k ∈ seen → ∃ a ao,
        alist_get k ps = Some (VRef a) ∧ a ≠ length (heap s) ∧
        heap sa !! a = Some ao ∧
        cls ao = CArray (merged_watchers (heap s) po co k)).

(** Three handlers at 0, 1, 2, the array of the second at 3, a parent
    [{a: f0, b: [f1], d: f0}] at 4 and a child [{a: f1, b: f2, c: [f1]}]
    at 5. *)
Definition watch_state : state :=
  State [ Obj None (CFun (UserFn 0)) [];
          Obj None (CFun (UserFn 1)) [];
          Obj None (CFun (UserFn 2)) [];
          Obj None (CArray [VRef 1]) [];
          Obj None CPlain [("a", VRef 0); ("b", VRef 3); ("d", VRef 0)];
          Obj None CPlain [("a", VRef 1); ("b", VRef 2); ("c", VRef 3)] ]
        [] [].

(** The kind of an object: its class, whatever the elements of an array. *)
Definition kind (o : object) : class :=
  match cls o with
  | CArray _ => CArray []
  | c => c
  end.

(** An entry of an object of the first [n] locations is as it was, or it
    now refers to an object allocated past them. *)
Definition entry_kept (n : nat) (o o' : object) (k : string) : Prop :=
  own_lookup o' k = own_lookup o k ∨
  ∃ d, own_lookup o' k = Some (VRef d) ∧ n ≤ d.

(** What a normalisation does to the objects of the first [n] locations:
    they keep their prototype and their kind, and their entries other than
    [props] and [inject] are kept; nothing is registered. *)
Definition normalises (n : nat) (s s' : state) : Prop :=
  n ≤ length (heap s) ∧ length (heap s) ≤ length (heap s') ∧
  regs s' = regs s ∧
  ∀ l o, l < n → heap s !! l = Some o →
    ∃ o', heap s' !! l = Some o' ∧ proto o' = proto o ∧ kind o' = kind o ∧
      ∀ k, k ≠ "props" → k ≠ "inject" → entry_kept n o o' k.

(** The declaration that ends under a name in the normalised [props]: the
    last key, in the order of the loop, whose camel-cased form is the
    name. *)
Definition declared_by (name : string) (ks : list string) : option string :=
  last (filter (λ k, camelize k = name) ks).

(** The descriptor [normalizeProps] keeps for a declaration [val] of the
    mapping form: [val] itself when it is a plain object, and otherwise a
    new object [{type: val}], allocated past the heap [h] of the call. *)
Definition prop_descriptor (h h' : list object) (val w : value) : Prop :=
  if isPlainObject h val then w = val
  else ∃ m, w = VRef m ∧ length h < m ∧
            h' !! m = Some (Obj None CPlain [("type", val)]).

(** The loop of [normalizeProps] over a mapping [po], once the keys [seen]
    are visited; the result under construction is the object at
    [length (heap s)], [s] being the state of the call. *)
Definition props_map_inv (s : state) (po : object) (seen : list string)
  (sa : state) : Prop :=
  let r := length (heap s) in
  r < length (heap sa) ∧ regs sa = regs s ∧ diags sa = diags s ∧
  (∀ l, l < r → heap sa !! l = heap s !! l) ∧
  ∃ ra, heap sa !! r = Some ra ∧ cls ra = CPlain ∧ proto ra = None ∧
    ∀ name, match declared_by name seen with
            | Some k =>
                ∃ w, own_lookup ra name = Some w ∧
                     prop_descriptor (heap s) (heap sa)
                       (default VUndef (own_lookup po k)) w
            | None => own_lookup ra name = None
            end.

(** A constructor at 0, the descriptor [{type: ...}] of it at 1, the
    declarations [{"my-size": ..., label: ...}] at 2, the first by its
    descriptor and the second by the constructor alone, and the
    configuration at 3. *)
Definition props_map_state : state :=
  State [ Obj None (CFun (UserFn 0)) [];
          Obj None CPlain [("type", VRef 0)];
          Obj None CPlain [("my-size", VRef 1); ("label", VRef 0)];
          Obj None CPlain [("props", VRef 2)] ] [] [].

(** The members of [Object.prototype], which every object made by a literal
    inherits; [watch] and [unwatch] are among them where the engine has a
    native [watch]. *)
Definition object_prototype_keys : list string :=
  ["__proto__"; "constructor"; "hasOwnProperty"; "isPrototypeOf";
   "propertyIsEnumerable"; "toLocaleString"; "toString"; "valueOf";
   "__defineGetter__"; "__defineSetter__"; "__lookupGetter__";
   "__lookupSetter__"].

(** A key at which an object made by a literal reads and writes as an
    object without prototype does. *)
Definition ordinary_key (E : env) (k : string) : bool :=
  bool_decide (k ∉ object_prototype_keys) &&
  (negb (truthy (nativeWatch E)) || bool_decide (k ∉ ["watch"; "unwatch"])).

(** No object of the heap owns a key that is a member of
    [Object.prototype]. *)
Definition ordinary_heap (E : env) (h : list object) : Prop :=
  ∀ l o, h !! l = Some o → Forall (λ k, ordinary_key E k = true) (own_keys o).

Definition ordinary_heapb (E : env) (h : list object) : bool :=
  forallb (λ o, forallb (ordinary_key E) (own_keys o)) h.

(** * The two parts of [mergeOptions]

    The first part of [mergeOptions], up to [const options = {}]: the child
    is checked and normalised, and what it extends and mixes in is merged
    into the parent.  It returns the parent and the child whose fields are
    merged by the last part, [mergeFields]. *)
Definition mergeOptions_expand (E : env) (fuel : nat)
  (parent child vm : value) : M (value * value) :=
  when (dev E) (checkComponents E child);;
  let! isf := read (λ h, is_function h child) in
  let! child := (if isf then get child "options" else ret child) in
  normalizeProps E child vm;;
  normalizeInject E child vm;;
  normalizeDirectives child;;
  let! extendsFrom := get child "extends" in
  let! parent :=
    (if truthy extendsFrom then mergeOptions E fuel parent extendsFrom vm
     else ret parent) in
  let! mixins := get child "mixins" in
  let! parent :=
    (if truthy mixins then
       let! l := get mixins "length" in
       let! n := count_of l in
       foldM (λ parent i,
                let! ms := get child "mixins" in
                let! m := get ms (key_of_index i) in
                mergeOptions E fuel parent m vm)
             parent (seq 0 n)
     else ret parent) in
  ret (parent, child).

(** The field [k] is merged in the run [visited] of the fields that leads
    from [s0] to [s']: the fields before it lead to a state where the
    strategy of [k] returns [v] for the values [pv] and [cv]; [v] is stored
    under [k] in the result [o]; the fields after it lead from there to
    [s']. *)
Definition merged_field (E : env) (o : loc) (parent child vm : value)
  (visited : list string) (s0 s' : state) (k : string) (pv cv v : value)
  : Prop :=
  ∃ before after sa sv sb,
    visited = before ++ k :: after ∧
    visits E (VRef o) parent child vm before s0 sa ∧
    apply_strat E (strats E k) pv cv vm k sa = Ok v sv ∧
    set_prop (VRef o) k v sv = Ok tt sb ∧
    visits E (VRef o) parent child vm after sb s'.

(** An injection that [normalizeInject] can read: when it is an array, its
    elements are names, not objects. *)
Definition inject_names (h : list object) (v : value) : Prop :=
  ∀ l xs, v = VRef l → cls (obj_at h l) = CArray xs →
          Forall (λ x, is_function h x = false ∧ ∀ q, x ≠ VRef q) xs.

(** A function, the hooks [[f]], a parent [{a: 1, created: [f]}] at 2, a
    mixin [{c: 7}] at 3 and a child [{a: 2, b: 3, mixins: [mixin]}] at
    5. *)
Definition levels_state : state :=
  State [ Obj None (CFun (UserFn 0)) [];
          Obj None (CArray [VRef 0]) [];
          Obj None CPlain [("a", VNum 1); ("created", VRef 1)];
          Obj None CPlain [("c", VNum 7)];
          Obj None (CArray [VRef 3]) [];
          Obj None CPlain [("a", VNum 2); ("b", VNum 3); ("mixins", VRef 4)] ]
        [] [].

(** Diagnostics are only added, and nothing is registered. *)
Definition appends (s s' : state) : Prop :=
  (∃ d, diags s' = diags s ++ d) ∧ regs s' = regs s.

(** The run of [mergeOptions] on the parent and the child of
    [levels_state]. *)
Definition levels_run : outcome value :=
  Eval vm_compute in
    mergeOptions dev_env 2 (VRef 2) (VRef 5) VUndef levels_state.



(** An operand of a merged [data] function, when the function is called: a
    function is called on [self], anything else is taken as it is
    ([typeof v === 'function' ? v.call(self) : v]). *)
Definition resolve_operand (E : env) (fuel : nat) (v self : value)
  : M value :=
  let! isf := read (λ h, is_function h v) in
  if isf then call_function E fuel v self else ret v.

(** An environment whose user function [id] returns the object at the
    location [id], as a data factory does. *)
Definition factory_env : env :=
  Env false sample_hooks ["component"; "directive"; "filter"] VUndef
    (λ tag, bool_decide (tag ∈ ["slot"; "component"])) (λ _, false)
    (λ id _, ret (VRef id)).

(** Data [{x: 1}] at 0 and [{x: 2, y: 3}] at 1, a factory of the second at
    2 and one of the first at 3, a parent [{data: factory of 1}] at 4 and a
    child [{data: factory of 0}] at 5. *)
Definition factory_state : state :=
  State [ Obj None CPlain [("x", VNum 1)];
          Obj None CPlain [("x", VNum 2); ("y", VNum 3)];
          Obj None (CFun (UserFn 1)) [];
          Obj None (CFun (UserFn 0)) [];
          Obj None CPlain [("data", VRef 2)];
          Obj None CPlain [("data", VRef 3)] ] [] [].

Definition factory_run : outcome value :=
  Eval vm_compute in
    mergeOptions factory_env 1 (VRef 4) (VRef 5) VUndef factory_state.

(** The merged [data] function of the result, called. *)
Definition factory_call : outcome value :=
  Eval vm_compute in
    call_function factory_env 3
      (get_val (heap (state_of factory_run))
         (result_of VUndef factory_run) "data")
      VUndef (state_of factory_run).

(** * Properties of the object model *)

Section Keys.

Lemma index_of_key_of_index (n : nat) : index_of_key (key_of_index n) = Some n.
Proof.
  unfold index_of_key, key_of_index.
  rewrite NilEmpty.usu, Unsigned.of_to, String.eqb_refl. reflexivity.
Qed.

Lemma index_of_key_Some (k : string) (n : nat) :
  index_of_key k = Some n → key_of_index n = k.
Proof.
  unfold index_of_key. destruct (NilEmpty.uint_of_string k) as [d|]; [|done].
  destruct (String.eqb _ k) eqn:Heq; [|done].
  intros [= <-]. by apply String.eqb_eq.
Qed.

#[global] Instance key_of_index_inj : Inj (=) (=) key_of_index.
Proof.
  intros n m Hnm.
  assert (Some n = Some m) as [= ->]; [|done].
  by rewrite <- !index_of_key_of_index, Hnm.
Qed.

Lemma is_index_key_of_index (n : nat) : is_index (key_of_index n) = true.
Proof. unfold is_index. by rewrite index_of_key_of_index. Qed.

Lemma alist_get_set_eq k v l : alist_get k (alist_set k v l) = Some v.
Proof.
  induction l as [|[k' v'] l IH]; simpl.
  - by rewrite String.eqb_refl.
  - destruct (String.eqb k' k) eqn:Heq; simpl; rewrite Heq; done.
Qed.

Lemma alist_get_set_ne k k' v l :
  k ≠ k' → alist_get k' (alist_set k v l) = alist_get k' l.
Proof.
  intros Hne. induction l as [|[k1 v1] l IH]; simpl.
  - apply String.eqb_neq in Hne. by rewrite Hne.
  - destruct (String.eqb k1 k) eqn:Heq; simpl.
    + apply String.eqb_eq in Heq as ->.
      apply String.eqb_neq in Hne. by rewrite Hne.
    + by rewrite IH.
Qed.

Lemma alist_get_is_Some k l : is_Some (alist_get k l) ↔ k ∈ l.*1.
Proof.
  induction l as [|[k' v'] l IH]; cbn.
  - split; [by intros [? ?] | by intros ?%elem_of_nil].
  - destruct (String.eqb k' k) eqn:Heq.
    + apply String.eqb_eq in Heq as ->. split; [intros _; left | eauto].
    + apply String.eqb_neq in Heq. rewrite IH, elem_of_cons. naive_solver.
Qed.

Lemma alist_get_None k l : alist_get k l = None ↔ k ∉ l.*1.
Proof. rewrite <- alist_get_is_Some, eq_None_not_Some. done. Qed.

Lemma fst_alist_set_in k v l : k ∈ l.*1 → (alist_set k v l).*1 = l.*1.
Proof.
  induction l as [|[k' v'] l IH]; cbn.
  - by intros ?%elem_of_nil.
  - destruct (String.eqb k' k) eqn:Heq; [done|]. cbn.
    apply String.eqb_neq in Heq. rewrite elem_of_cons.
    intros [?|?]; [congruence|]. f_equal. by apply IH.
Qed.

Lemma fst_alist_set_notin k v l : k ∉ l.*1 → (alist_set k v l).*1 = l.*1 ++ [k].
Proof.
  induction l as [|[k' v'] l IH]; cbn; [done|].
  rewrite not_elem_of_cons. intros [Hne Hnin].
  destruct (String.eqb k' k) eqn:Heq.
  - apply String.eqb_eq in Heq. congruence.
  - cbn. f_equal. by apply IH.
Qed.

Lemma omap_index_NoDup (ks : list string) :
  NoDup ks → NoDup (omap index_of_key ks).
Proof.
  induction 1 as [|k ks Hnin Hnd IH]; simpl; [constructor|].
  destruct (index_of_key k) as [n|] eqn:Hk; [|done].
  constructor; [|done].
  rewrite list_elem_of_omap. intros (k' & Hin & Hk').
  apply index_of_key_Some in Hk, Hk'. congruence.
Qed.

Lemma elem_of_named_keys (k : string) (ks : list string) :
  k ∈ filter (λ k, is_index k = false) ks ↔ index_of_key k = None ∧ k ∈ ks.
Proof.
  rewrite list_elem_of_filter. unfold is_index.
  destruct (index_of_key k); naive_solver.
Qed.

Lemma elem_of_index_keys (k : string) (ns : list nat) :
  k ∈ key_of_index <$> ns ↔ ∃ n, index_of_key k = Some n ∧ n ∈ ns.
Proof.
  rewrite list_elem_of_fmap. split.
  - intros (n & -> & Hn). exists n. by rewrite index_of_key_of_index.
  - intros (n & Hk & Hn). exists n. by apply index_of_key_Some in Hk.
Qed.

Lemma elem_of_sorted_index_keys (k : string) (ks : list string) :
  k ∈ key_of_index <$> merge_sort Nat.le (omap index_of_key ks)
  ↔ is_index k = true ∧ k ∈ ks.
Proof.
  rewrite elem_of_index_keys. unfold is_index. split.
  - intros (n & Hk & Hn). rewrite Hk. split; [done|].
    rewrite merge_sort_Permutation in Hn.
    apply list_elem_of_omap in Hn as (k' & Hin & Hk').
    apply index_of_key_Some in Hk, Hk'. congruence.
  - destruct (index_of_key k) as [n|] eqn:Hk; [|by intros [? _]].
    intros [_ Hin]. exists n. split; [done|].
    rewrite merge_sort_Permutation. apply list_elem_of_omap. eauto.
Qed.

Lemma elem_of_own_keys (o : object) (k : string) :
  k ∈ own_keys o ↔ is_Some (own_lookup o k).
Proof.
  unfold own_keys, own_lookup.
  assert (Hplain :
    k ∈ (key_of_index <$> merge_sort Nat.le
           (omap index_of_key (remove_dups (props o).*1)))
        ++ filter (λ k, is_index k = false) (remove_dups (props o).*1)
    ↔ is_Some (alist_get k (props o))).
  { rewrite elem_of_app, elem_of_sorted_index_keys, elem_of_named_keys,
      elem_of_remove_dups, alist_get_is_Some.
    unfold is_index. destruct (index_of_key k); naive_solver. }
  destruct (cls o) as [|elems| |]; try exact Hplain.
  rewrite elem_of_app, elem_of_index_keys, elem_of_named_keys,
    elem_of_remove_dups, <- alist_get_is_Some.
  destruct (index_of_key k) as [n|].
  - rewrite lookup_lt_is_Some. split.
    + intros [(m & [= <-] & Hm%elem_of_seq)|[? ?]]; [lia|done].
    + intros ?. left. exists n. split; [done|]. apply elem_of_seq. lia.
  - split.
    + intros [(m & ? & ?)|[? ?]]; done.
    + intros ?. by right.
Qed.

Lemma NoDup_own_keys (o : object) : NoDup (own_keys o).
Proof.
  unfold own_keys.
  assert (Hdisj : ∀ (ns : list nat) (ks : list string) k,
    k ∈ key_of_index <$> ns → k ∉ filter (λ k, is_index k = false) ks).
  { intros ns ks k (n & -> & _)%list_elem_of_fmap.
    rewrite list_elem_of_filter, is_index_key_of_index. naive_solver. }
  destruct (cls o); apply NoDup_app; split_and!; eauto;
    try (apply NoDup_filter, NoDup_remove_dups);
    apply NoDup_fmap_2; try apply _; try apply NoDup_seq;
    rewrite merge_sort_Permutation; apply omap_index_NoDup, NoDup_remove_dups.
Qed.

End Keys.

(** ** Steps of the monad *)

Lemma bind_Ok {A B} (m : M A) (f : A → M B) s b s' :
  bind m f s = Ok b s' ↔ ∃ a s1, m s = Ok a s1 ∧ f a s1 = Ok b s'.
Proof.
  unfold bind. destruct (m s) as [a s1|e]; split.
  - eauto.
  - by intros (? & ? & [= <- <-] & ?).
  - done.
  - by intros (? & ? & ? & ?).
Qed.

Lemma read_Ok {A} (f : list object → A) s a s' :
  read f s = Ok a s' ↔ a = f (heap s) ∧ s' = s.
Proof. unfold read. split; [by intros [= <- <-] | by intros [-> ->]]. Qed.

Lemma ret_Ok {A} (x : A) s a s' : ret x s = Ok a s' ↔ a = x ∧ s' = s.
Proof. unfold ret. split; [by intros [= <- <-] | by intros [-> ->]]. Qed.

Lemma get_Ok v k s a s' :
  get v k s = Ok a s' ↔
  v ≠ VUndef ∧ v ≠ VNull ∧ a = get_val (heap s) v k ∧ s' = s.
Proof.
  destruct v; simpl; unfold throw; rewrite ?read_Ok; naive_solver.
Qed.

Lemma hasOwn_Ok v k s a s' :
  hasOwn v k s = Ok a s' ↔
  v ≠ VUndef ∧ v ≠ VNull ∧ a = has_own_val (heap s) v k ∧ s' = s.
Proof.
  destruct v; simpl; unfold throw; rewrite ?read_Ok; naive_solver.
Qed.

Lemma set_prop_Ok v k x s u s' :
  set_prop v k x s = Ok u s' ↔
  ∃ l o o', v = VRef l ∧ heap s !! l = Some o ∧ obj_set o k x = Some o' ∧
            s' = with_heap s (<[l := o']> (heap s)).
Proof.
  destruct v as [| | | | |l]; simpl; unfold throw;
    try (split; [done | by intros (? & ? & ? & ? & _)]).
  split.
  - destruct (heap s !! l) as [o|] eqn:Hl; [|done].
    destruct (obj_set o k x) as [o'|] eqn:Ho; [|done].
    intros [= <- <-]. by exists l, o, o'.
  - intros (? & o & o' & [= <-] & -> & -> & ->). by destruct u.
Qed.

(** ** Carrying a state relation through the operations *)

Section Spec.
Context {R : relation state} {W : loc → Prop} `{!Frame R W}.

Lemma spec_ret {A} (a : A) (Q : A → Prop) : Q a → spec R (ret a) Q.
Proof. intros HQ s a' s' HR [-> ->]%ret_Ok. done. Qed.

Lemma spec_throw {A} (e : error) (Q : A → Prop) : spec R (throw e) Q.
Proof. intros s a s' _ [=]. Qed.

Lemma spec_bind {A B} (m : M A) (f : A → M B) (Q : B → Prop) :
  spec R m (λ a, spec R (f a) Q) → spec R (bind m f) Q.
Proof.
  intros Hm s b s' HR (a & s1 & H1 & H2)%bind_Ok.
  destruct (Hm _ _ _ HR H1) as [HR1 Hf].
  destruct (Hf _ _ _ (frame_refl_r _ _ HR1) H2) as [HR2 HQ].
  split; [|done]. by eapply frame_trans.
Qed.

Lemma spec_weaken {A} (m : M A) (Q Q' : A → Prop) :
  spec R m Q → (∀ a, Q a → Q' a) → spec R m Q'.
Proof. intros Hm HQ s a s' HR Hrun. destruct (Hm _ _ _ HR Hrun). eauto. Qed.

Lemma spec_read {A} (f : list object → A) (Q : A → Prop) :
  (∀ h, Q (f h)) → spec R (read f) Q.
Proof. intros HQ s a s' HR [-> ->]%read_Ok. done. Qed.

Lemma spec_get v k (Q : value → Prop) : (∀ a, Q a) → spec R (get v k) Q.
Proof. intros HQ s a s' HR (_ & _ & _ & ->)%get_Ok. done. Qed.

Lemma spec_hasOwn v k (Q : bool → Prop) : (∀ a, Q a) → spec R (hasOwn v k) Q.
Proof. intros HQ s a s' HR (_ & _ & _ & ->)%hasOwn_Ok. done. Qed.

Lemma spec_alloc o (Q : loc → Prop) :
  (∀ l, W l → Q l) → spec R (alloc o) Q.
Proof.
  intros HQ s a s' HR [= <- <-].
  destruct (frame_alloc s o HR). eauto.
Qed.

Lemma spec_new_object ps (Q : value → Prop) :
  (∀ v, writable W v → Q v) → spec R (new_object ps) Q.
Proof.
  intros HQ. apply spec_bind, spec_alloc. intros l Hl.
  apply spec_ret, HQ. by intros ? [= <-].
Qed.

Lemma spec_new_array xs (Q : value → Prop) :
  (∀ v, writable W v → Q v) → spec R (new_array xs) Q.
Proof.
  intros HQ. apply spec_bind, spec_alloc. intros l Hl.
  apply spec_ret, HQ. by intros ? [= <-].
Qed.

Lemma spec_new_function c (Q : value → Prop) :
  (∀ v, writable W v → Q v) → spec R (new_function c) Q.
Proof.
  intros HQ. apply spec_bind, spec_alloc. intros l Hl.
  apply spec_ret, HQ. by intros ? [= <-].
Qed.

Lemma spec_object_create v (Q : value → Prop) :
  (∀ v, writable W v → Q v) → spec R (object_create v) Q.
Proof.
  intros HQ. destruct v; simpl; try apply spec_throw.
  - by apply spec_new_object.
  - apply spec_bind, spec_alloc. intros r Hr.
    apply spec_ret, HQ. by intros ? [= <-].
Qed.

Lemma spec_set_prop v k x (Q : unit → Prop) :
  writable W v → Q tt → spec R (set_prop v k x) Q.
Proof.
  intros Hw HQ s [] s' HR (l & o & o' & -> & Hl & Ho & ->)%set_prop_Ok.
  split; [|done]. eapply frame_set; eauto.
Qed.

Lemma spec_warn d (Q : unit → Prop) : Q tt → spec R (warn d) Q.
Proof. intros HQ s [] s' HR [= <-]. split; [|done]. by apply frame_warn. Qed.

Lemma spec_when b m (Q : unit → Prop) :
  spec R m Q → Q tt → spec R (when b m) Q.
Proof. intros Hm HQ. destruct b; simpl; [done | by apply spec_ret]. Qed.

Lemma spec_forM {A} (xs : list A) (f : A → M unit) (Q : unit → Prop) :
  (∀ x, spec R (f x) (λ _, True)) → Q tt → spec R (forM_ xs f) Q.
Proof.
  intros Hf HQ. induction xs as [|x xs IH]; simpl.
  - by apply spec_ret.
  - apply spec_bind. eapply spec_weaken; [apply Hf|]. intros _ _. exact IH.
Qed.

Lemma spec_for_in v (body : string → M unit) (Q : unit → Prop) :
  (∀ k, spec R (body k) (λ _, True)) → Q tt → spec R (for_in v body) Q.
Proof.
  intros Hf HQ. unfold for_in. apply spec_bind, spec_read. intros h.
  by apply spec_forM.
Qed.

Lemma spec_foldM {A B} (f : B → A → M B) (b : B) (xs : list A)
  (Q : B → Prop) :
  (∀ b x, spec R (f b x) (λ _, True)) → (∀ b, Q b) → spec R (foldM f b xs) Q.
Proof.
  intros Hf HQ. revert b. induction xs as [|x xs IH]; intros b; simpl.
  - by apply spec_ret.
  - apply spec_bind. eapply spec_weaken; [apply Hf|]. intros b' _. apply IH.
Qed.

Lemma spec_object_keys v (Q : list string → Prop) :
  (∀ ks, Q ks) → spec R (object_keys v) Q.
Proof. intros HQ. destruct v; simpl; try apply spec_throw; by apply spec_read. Qed.

Lemma spec_to_key v (Q : string → Prop) : (∀ k, Q k) → spec R (to_key v) Q.
Proof.
  intros HQ. destruct v as [| |[]| | |]; simpl;
    try apply spec_throw; by apply spec_ret.
Qed.

Lemma spec_count_of v (Q : nat → Prop) : (∀ n, Q n) → spec R (count_of v) Q.
Proof.
  intros HQ. destruct v as [| |[]| | |]; simpl;
    try apply spec_throw; by apply spec_ret.
Qed.

Lemma spec_concat a b (Q : value → Prop) :
  (∀ v, writable W v → Q v) → spec R (concat a b) Q.
Proof.
  intros HQ. destruct a; simpl; try apply spec_throw.
  apply spec_bind, spec_read. intros h.
  apply spec_bind, spec_read. intros h'.
  destruct (cls (obj_at h l)), (chain_lookup _ h' l "concat");
    try apply spec_throw;
    try (apply spec_bind, spec_read; intros h'';
         destruct (is_function _ _); apply spec_throw).
  apply spec_bind, spec_read. intros h''.
  destruct b; try by apply spec_new_array.
  destruct (cls (obj_at h'' _)); by apply spec_new_array.
Qed.

Lemma spec_extend to _from (Q : value → Prop) :
  writable W to → Q to → spec R (extend to _from) Q.
Proof.
  intros Hw HQ. unfold extend. apply spec_bind, spec_for_in.
  - intros k. apply spec_bind, spec_get. intros v. by apply spec_set_prop.
  - by apply spec_ret.
Qed.

End Spec.

(** ** Assignment to an object *)

Lemma obj_set_proto o k x o' : obj_set o k x = Some o' → proto o' = proto o.
Proof.
  unfold obj_set. destruct (cls o); try by intros [= <-].
  destruct (index_of_key k); repeat case_decide;
    try destruct (String.eqb k "length"); by intros [= <-].
Qed.

Lemma obj_set_own_eq o k x o' :
  obj_set o k x = Some o' → own_lookup o' k = Some x.
Proof.
  unfold obj_set, own_lookup.
  destruct (cls o) as [|elems| |] eqn:Hc;
    try (intros [= <-]; simpl; by rewrite alist_get_set_eq).
  destruct (index_of_key k) as [i|] eqn:Hk.
  - repeat case_decide; intros [= <-]; simpl; try done.
    + by apply list_lookup_insert_eq.
    + subst i. by apply list_lookup_middle.
  - destruct (String.eqb k "length"); intros [= <-]; simpl.
    by rewrite alist_get_set_eq.
Qed.

Lemma obj_set_own_ne o k x o' k' :
  obj_set o k x = Some o' → k' ≠ k → own_lookup o' k' = own_lookup o k'.
Proof.
  unfold obj_set, own_lookup. intros Hset Hne.
  destruct (cls o) as [|elems| |] eqn:Hc;
    try (injection Hset as <-; simpl; by rewrite alist_get_set_ne).
  destruct (index_of_key k) as [i|] eqn:Hk.
  - assert (∀ j, index_of_key k' = Some j → j ≠ i) as Hij.
    { intros j Hj ->. apply index_of_key_Some in Hk, Hj. congruence. }
    repeat case_decide; simplify_eq; simpl;
      destruct (index_of_key k') as [j|] eqn:Hk'; try done.
    + apply list_lookup_insert_ne. intros ->. by eapply Hij.
    + specialize (Hij j eq_refl).
      destruct (decide (j < length elems)).
      * by apply lookup_app_l.
      * rewrite !lookup_ge_None_2; [done|lia|rewrite length_app; simpl; lia].
  - destruct (String.eqb k "length"); simplify_eq; simpl.
    destruct (index_of_key k'); [done|]. by rewrite alist_get_set_ne.
Qed.

Lemma obj_set_own_mono o k x o' k' :
  obj_set o k x = Some o' →
  is_Some (own_lookup o k') → is_Some (own_lookup o' k').
Proof.
  intros Hset Hs. destruct (decide (k' = k)) as [->|Hne].
  - erewrite obj_set_own_eq; eauto.
  - erewrite obj_set_own_ne; eauto.
Qed.

Lemma obj_set_plain o k x :
  cls o = CPlain →
  obj_set o k x = Some (Obj (proto o) CPlain (alist_set k x (props o))).
Proof. unfold obj_set. by intros ->. Qed.

Lemma obj_at_Some h l o : h !! l = Some o → obj_at h l = o.
Proof. unfold obj_at. by intros ->. Qed.

Lemma obj_at_app_l h h' l : l < length h → obj_at (h ++ h') l = obj_at h l.
Proof. intros Hl. unfold obj_at. by rewrite lookup_app_l. Qed.

Lemma obj_at_insert_eq h l o :
  l < length h → obj_at (<[l := o]> h) l = o.
Proof. intros Hl. unfold obj_at. by rewrite list_lookup_insert_eq. Qed.

Lemma obj_at_insert_ne h l l' o :
  l ≠ l' → obj_at (<[l := o]> h) l' = obj_at h l'.
Proof. intros Hl. unfold obj_at. by rewrite list_lookup_insert_ne. Qed.

Lemma obj_at_dangling h l k : length h ≤ l → own_lookup (obj_at h l) k = None.
Proof. intros Hl. unfold obj_at. by rewrite lookup_ge_None_2. Qed.

(** ** The two state relations *)

#[global] Instance frame_on_Frame (P : loc → Prop) :
  Frame (frame_on P) (λ l, ¬ P l).
Proof.
  split.
  - intros s1 s2 s3 (Hd1 & Hl1 & Hr1 & Hh1) (Hd2 & Hl2 & Hr2 & Hh2).
    split_and!; [done|lia|congruence|].
    intros l Hl. rewrite Hh2, Hh1; done.
  - intros s1 s2 (Hd & Hl & Hr & Hh).
    split_and!; [|done..]. intros l HP. specialize (Hd l HP). lia.
  - intros s o (Hd & _). split.
    + split_and!; simpl; [done|rewrite length_app; lia|done|].
      intros l HP. apply lookup_app_l. auto.
    + intros HP. specialize (Hd _ HP). lia.
  - intros s d (Hd & _). by split_and!.
  - intros s l o k x o' HW (Hd & _) Hl Hset.
    split_and!; simpl; [done|by rewrite length_insert|done|].
    intros l' HP. apply list_lookup_insert_ne. by intros ->.
Qed.

#[global] Instance mono_Frame : Frame mono (λ _, True).
Proof.
  split.
  - intros s1 s2 s3 (Hl1 & Hr1 & Hk1 & Hp1) (Hl2 & Hr2 & Hk2 & Hp2).
    split_and!; [lia|congruence|eauto|].
    intros l o Hl Hc. destruct (Hp1 l o Hl Hc) as (o1 & Hl1' & Hc1 & Hpr1).
    destruct (Hp2 l o1 Hl1' Hc1) as (o2 & Hl2' & Hc2 & Hpr2).
    exists o2. split_and!; [done|done|congruence].
  - intros s1 s2 _. split_and!; eauto.
  - intros s o _. split; [|done].
    split_and!; simpl; [rewrite length_app; lia|done| |].
    + intros l k Hs. destruct (decide (l < length (heap s))).
      * by rewrite obj_at_app_l.
      * rewrite obj_at_dangling in Hs; [|lia]. by destruct Hs.
    + intros l o' Hl Hc. exists o'. split_and!; [|done..].
      by apply lookup_app_l_Some.
  - intros s d _. split_and!; eauto.
  - intros s l o k x o' _ _ Hl Hset.
    split_and!; simpl; [by rewrite length_insert|done| |].
    + intros l' k' Hs. destruct (decide (l = l')) as [<-|Hne].
      * rewrite obj_at_insert_eq; [|by eapply lookup_lt_Some].
        eapply obj_set_own_mono; [done|].
        by rewrite <- (obj_at_Some _ _ _ Hl).
      * by rewrite obj_at_insert_ne.
    + intros l' o1 Hl1 Hc. destruct (decide (l = l')) as [<-|Hne].
      * exists o'. rewrite list_lookup_insert_eq; [|by eapply lookup_lt_Some].
        change (heap s !! l = Some o1) in Hl1.
        rewrite Hl in Hl1. injection Hl1 as <-.
        rewrite (obj_set_plain _ _ _ Hc) in Hset. injection Hset as <-.
        by split_and!.
      * exists o1. rewrite list_lookup_insert_ne; [|done]. by split_and!.
Qed.

Lemma spec_run {A} (R : relation state) (m : M A) s a s' :
  spec R m (λ _, True) → R s s → m s = Ok a s' → R s s'.
Proof. intros Hm HR Hrun. by destruct (Hm _ _ _ HR Hrun). Qed.

Lemma mono_refl s : mono s s.
Proof. split_and!; eauto. Qed.

Lemma frame_on_refl (P : loc → Prop) s :
  (∀ l, P l → l < length (heap s)) → frame_on P s s.
Proof. intros. by split_and!. Qed.

(** ** What the strategies and the normalisers preserve *)

Ltac spec_step :=
  cbv beta;
  lazymatch goal with
  | |- spec _ (bind _ _) _ => apply spec_bind
  | |- spec _ (ret _) _ => apply spec_ret
  | |- spec _ (throw _) _ => apply spec_throw
  | |- spec _ (read _) _ => apply spec_read; intros ?
  | |- spec _ (get _ _) _ => apply spec_get; intros ?
  | |- spec _ (hasOwn _ _) _ => apply spec_hasOwn; intros ?
  | |- spec _ (new_object _) _ => apply spec_new_object; intros ? ?
  | |- spec _ (new_array _) _ => apply spec_new_array; intros ? ?
  | |- spec _ (new_function _) _ => apply spec_new_function; intros ? ?
  | |- spec _ (object_create _) _ => apply spec_object_create; intros ? ?
  | |- spec _ (concat _ _) _ => apply spec_concat; intros ? ?
  | |- spec _ (extend _ _) _ => apply spec_extend; [by auto|]
  | |- spec _ (set_prop _ _ _) _ => apply spec_set_prop; [by auto|]
  | |- spec _ (warn _) _ => apply spec_warn
  | |- spec _ (when _ _) _ => apply spec_when
  | |- spec _ (for_in _ _) _ => apply spec_for_in; [intros ?|]
  | |- spec _ (forM_ _ _) _ => apply spec_forM; [intros ?|]
  | |- spec _ (object_keys _) _ => apply spec_object_keys; intros ?
  | |- spec _ (to_key _) _ => apply spec_to_key; intros ?
  | |- spec _ (count_of _) _ => apply spec_count_of; intros ?
  | |- spec _ (if ?b then _ else _) _ => destruct b
  | |- spec _ (match ?x with _ => _ end) _ => destruct x
  | |- True => exact I
  end.

Ltac spec_go := repeat spec_step.

Section StrategySpec.
Context (E : env) {R : relation state} {W : loc → Prop} `{!Frame R W}.

Lemma spec_assertObjectType name v vm (Q : unit → Prop) :
  Q tt → spec R (assertObjectType name v vm) Q.
Proof. intros HQ. unfold assertObjectType. spec_go; done. Qed.

Lemma spec_mergeDataOrFn parentVal childVal vm (Q : value → Prop) :
  (∀ v, Q v) → spec R (mergeDataOrFn parentVal childVal vm) Q.
Proof. intros HQ. unfold mergeDataOrFn. spec_go; done. Qed.

Lemma spec_apply_strat st parentVal childVal vm key :
  spec R (apply_strat E st parentVal childVal vm key) (λ _, True).
Proof.
  destruct st as [[]|]; simpl.
  - unfold strat_restricted. spec_go.
  - unfold strat_data. spec_go; by apply spec_mergeDataOrFn.
  - unfold mergeHook. spec_go.
  - unfold mergeAssets. spec_go. all: try apply spec_assertObjectType.
    all: spec_go.
  - unfold strat_watch. spec_go. all: try apply spec_assertObjectType.
    all: spec_go.
  - unfold strat_object_hash. spec_go. all: try apply spec_assertObjectType.
    all: spec_go.
  - by apply spec_mergeDataOrFn.
  - spec_go.
Qed.

End StrategySpec.

Section EngineSpec.
Context (E : env) {R : relation state} {W : loc → Prop} `{!Frame R W}.

Lemma spec_mergeField options parent child vm key :
  writable W options →
  spec R (mergeField E options parent child vm key) (λ _, True).
Proof.
  intros Hw. unfold mergeField. spec_go.
  eapply spec_weaken; [apply (spec_apply_strat E (W:=W))|]. intros v _. spec_go.
Qed.

Lemma spec_mergeFields parent child vm :
  spec R (mergeFields E parent child vm) (writable W).
Proof.
  unfold mergeFields. spec_go; try done.
  all: eapply spec_weaken; [by apply spec_mergeField|done].
Qed.

(** The normalisers and the expansion of [extends] and [mixins] assign to
    objects that exist before the call. *)
Context (HW : ∀ l, W l).

Lemma writable_all v : writable W v.
Proof. intros l _. apply HW. Qed.
Hint Resolve writable_all : core.

Lemma spec_checkComponents options :
  spec R (checkComponents E options) (λ _, True).
Proof. unfold checkComponents. spec_go. Qed.

Lemma spec_normalizeProps options vm :
  spec R (normalizeProps E options vm) (λ _, True).
Proof. unfold normalizeProps. spec_go. Qed.

Lemma spec_normalizeInject options vm :
  spec R (normalizeInject E options vm) (λ _, True).
Proof. unfold normalizeInject. spec_go. Qed.

Lemma spec_normalizeDirectives options :
  spec R (normalizeDirectives options) (λ _, True).
Proof. unfold normalizeDirectives. spec_go. Qed.

Lemma spec_mergeOptions fuel parent child vm :
  spec R (mergeOptions E fuel parent child vm) (λ _, True).
Proof.
  revert parent child vm. induction fuel as [|fuel IH]; intros parent child vm.
  - apply spec_throw.
  - simpl. apply spec_bind.
    eapply (spec_weaken _ (λ _, True));
      [apply spec_when; [apply spec_checkComponents|done]|].
    intros _ _. apply spec_bind, spec_read. intros h.
    apply spec_bind.
    eapply (spec_weaken _ (λ _, True)); [spec_go|]. intros child' _.
    apply spec_bind.
    eapply spec_weaken; [apply spec_normalizeProps|]. intros _ _.
    apply spec_bind.
    eapply spec_weaken; [apply spec_normalizeInject|]. intros _ _.
    apply spec_bind.
    eapply spec_weaken; [apply spec_normalizeDirectives|]. intros _ _.
    apply spec_bind, spec_get. intros extendsFrom.
    apply spec_bind.
    eapply (spec_weaken _ (λ _, True));
      [destruct (truthy extendsFrom); [apply IH | by apply spec_ret]|].
    intros parent' _.
    apply spec_bind, spec_get. intros mixins.
    apply spec_bind.
    eapply (spec_weaken _ (λ _, True)).
    { destruct (truthy mixins); [|by apply spec_ret].
      spec_go. apply spec_foldM; [|done]. intros p i. spec_go. apply IH. }
    intros parent'' _.
    eapply spec_weaken; [apply spec_mergeFields|done].
Qed.

End EngineSpec.

(** * The merge engine, field by field *)

Lemma frame_on_weaken (P P' : loc → Prop) s s' :
  frame_on P' s s' → (∀ l, P l → P' l) → frame_on P s s'.
Proof. intros (Hd & Hl & Hr & Hh) HP. split_and!; eauto. Qed.

Lemma frame_on_obj_at (P : loc → Prop) s s' l :
  frame_on P s s' → P l → obj_at (heap s') l = obj_at (heap s) l.
Proof. intros (_ & _ & _ & Hh) HP. unfold obj_at. by rewrite Hh. Qed.

Lemma frame_on_trans (P : loc → Prop) s1 s2 s3 :
  frame_on P s1 s2 → frame_on P s2 s3 → frame_on P s1 s3.
Proof. apply (frame_trans (R := frame_on P)). Qed.

Lemma has_own_val_frame (P : loc → Prop) s s' v k :
  frame_on P s s' → (∀ l, v = VRef l → P l) →
  has_own_val (heap s') v k = has_own_val (heap s) v k.
Proof.
  intros Hf HP. destruct v as [| | | | |l]; try done. simpl.
  by rewrite (frame_on_obj_at P s s' l Hf (HP l eq_refl)).
Qed.

Lemma filter_notin_nil (l : list string) : filter (λ k, k ∉ []) l = l.
Proof.
  induction l as [|k l IH]; [done|].
  rewrite filter_cons_True; [by rewrite IH | apply not_elem_of_nil].
Qed.

Lemma forin_keys_no_proto h l o :
  h !! l = Some o → proto o = None → forin_keys h (VRef l) = own_keys o.
Proof.
  intros Hl Hp. simpl. destruct (length h) as [|n] eqn:Hn.
  - apply lookup_lt_Some in Hl. lia.
  - simpl. rewrite (obj_at_Some _ _ _ Hl), Hp, filter_notin_nil.
    apply app_nil_r.
Qed.

Lemma forin_keys_own h l o k :
  h !! l = Some o → is_Some (own_lookup o k) → k ∈ forin_keys h (VRef l).
Proof.
  intros Hl Hk. simpl. destruct (length h) as [|n] eqn:Hn.
  - apply lookup_lt_Some in Hl. lia.
  - simpl. rewrite (obj_at_Some _ _ _ Hl), filter_notin_nil.
    apply elem_of_app. left. by apply elem_of_own_keys.
Qed.

Lemma chain_lookup_own fuel h l o k v :
  h !! l = Some o → own_lookup o k = Some v →
  chain_lookup (S fuel) h l k = Some v.
Proof. intros Hl Hk. simpl. by rewrite (obj_at_Some _ _ _ Hl), Hk. Qed.

Lemma get_val_no_proto h l o k :
  h !! l = Some o → cls o = CPlain → proto o = None →
  get_val h (VRef l) k = default VUndef (own_lookup o k).
Proof.
  intros Hl Hc Hp. simpl. rewrite (obj_at_Some _ _ _ Hl), Hc.
  destruct (length h) as [|n] eqn:Hn.
  - apply lookup_lt_Some in Hl. lia.
  - simpl. rewrite (obj_at_Some _ _ _ Hl), Hp. by destruct (own_lookup o k).
Qed.

Section Fields.
Context (E : env).

Lemma apply_strat_frame st parentVal childVal vm key s v s' :
  apply_strat E st parentVal childVal vm key s = Ok v s' →
  frame_on (λ l, l < length (heap s)) s s'.
Proof.
  intros Hrun.
  eapply (spec_apply_strat E (R := frame_on _)); [|exact Hrun].
  by apply frame_on_refl.
Qed.

Lemma mergeField_Ok o parent child vm key s s' :
  mergeField E (VRef o) parent child vm key s = Ok tt s' →
  o < length (heap s) →
  ∃ v s1 ob ob',
    apply_strat E (strats E key) (get_val (heap s) parent key)
      (get_val (heap s) child key) vm key s = Ok v s1 ∧
    heap s !! o = Some ob ∧ obj_set ob key v = Some ob' ∧
    s' = with_heap s1 (<[o := ob']> (heap s1)).
Proof.
  unfold mergeField. intros Hrun Ho.
  apply bind_Ok in Hrun as (pv & s1 & (_ & _ & -> & ->)%get_Ok & Hrun).
  apply bind_Ok in Hrun as (cv & s1 & (_ & _ & -> & ->)%get_Ok & Hrun).
  apply bind_Ok in Hrun as (v & s1 & Hstrat & Hset).
  apply set_prop_Ok in Hset as (l & ob & ob' & [= <-] & Hl & Hob & ->).
  exists v, s1, ob, ob'. split_and!; try done.
  apply apply_strat_frame in Hstrat as (_ & _ & _ & Hh).
  by rewrite <- Hh.
Qed.

Lemma mergeField_frame o parent child vm key s s' :
  mergeField E (VRef o) parent child vm key s = Ok tt s' →
  frame_on (λ l, l < length (heap s) ∧ l ≠ o) s s'.
Proof.
  intros Hrun.
  eapply (spec_mergeField E (R := frame_on _)); [| |exact Hrun].
  - intros l [= <-]. tauto.
  - apply frame_on_refl. tauto.
Qed.

Lemma visits_app o parent child vm ks1 ks2 s s1 s2 :
  visits E o parent child vm ks1 s s1 →
  visits E o parent child vm ks2 s1 s2 →
  visits E o parent child vm (ks1 ++ ks2) s s2.
Proof.
  induction 1 as [|k ks s s' s1 Hk _ IH]; [done|].
  intros H2. simpl. econstructor; eauto.
Qed.

Lemma forM_visits o parent child vm ks s s' :
  forM_ ks (mergeField E o parent child vm) s = Ok tt s' →
  visits E o parent child vm ks s s'.
Proof.
  revert s. induction ks as [|k ks IH]; intros s; simpl.
  - intros [_ ->]%ret_Ok. constructor.
  - intros ([] & s1 & Hk & Hks)%bind_Ok. econstructor; eauto.
Qed.

(** Along the visits the objects that existed before, other than the
    result, stay as they are; the result keeps what it had for the fields
    that are not visited and holds, for a visited field, what the strategy
    of the field returned. *)
Lemma visits_inv o parent child vm ks s s' :
  visits E (VRef o) parent child vm ks s s' →
  o < length (heap s) →
  frame_on (λ l, l < length (heap s) ∧ l ≠ o) s s' ∧
  o < length (heap s') ∧
  proto (obj_at (heap s') o) = proto (obj_at (heap s) o) ∧
  (∀ k, k ∉ ks →
     own_lookup (obj_at (heap s') o) k = own_lookup (obj_at (heap s) o) k) ∧
  (∀ k, k ∈ ks → ∃ sa v sb,
     frame_on (λ l, l < length (heap s) ∧ l ≠ o) s sa ∧
     apply_strat E (strats E k) (get_val (heap sa) parent k)
       (get_val (heap sa) child k) vm k sa = Ok v sb ∧
     own_lookup (obj_at (heap s') o) k = Some v).
Proof.
  induction 1 as [s|k ks s s1 s2 Hk Hks IH]; intros Ho.
  - split_and!; try done.
    + apply frame_on_refl. tauto.
    + by intros k ?%elem_of_nil.
  - pose proof (mergeField_frame _ _ _ _ _ _ _ Hk) as Hf1.
    assert (o < length (heap s1)) as Ho1 by (destruct Hf1 as (_ & ? & _); lia).
    destruct (IH Ho1) as (Hf2 & Ho2 & Hp2 & Hne2 & Hin2).
    assert (frame_on (λ l, l < length (heap s) ∧ l ≠ o) s1 s2) as Hf2'.
    { eapply frame_on_weaken; [exact Hf2|].
      intros l [Hl ?]. destruct Hf1 as (_ & ? & _). split; [lia|done]. }
    destruct (mergeField_Ok _ _ _ _ _ _ _ Hk Ho)
      as (v & sm & ob & ob' & Hstrat & Hob & Hset & ->).
    assert (obj_at (heap (with_heap sm (<[o:=ob']> (heap sm)))) o = ob')
      as Hobj1.
    { simpl. apply obj_at_insert_eq. simpl in Ho1.
      by rewrite length_insert in Ho1. }
    split_and!.
    + by eapply frame_on_trans.
    + done.
    + rewrite Hp2, Hobj1, (obj_at_Some _ _ _ Hob). by eapply obj_set_proto.
    + intros k' [Hne Hnin]%not_elem_of_cons.
      rewrite (Hne2 k' Hnin), Hobj1, (obj_at_Some _ _ _ Hob).
      by eapply obj_set_own_ne.
    + intros k' Hin. destruct (decide (k' ∈ ks)) as [Hin'|Hnin].
      * destruct (Hin2 k' Hin') as (sa & v' & sb & Hfa & Hsa & Hv).
        exists sa, v', sb. split_and!; try done.
        eapply frame_on_trans; [exact Hf1|].
        eapply frame_on_weaken; [exact Hfa|].
        intros l [Hl ?]. destruct Hf1 as (_ & ? & _). split; [lia|done].
      * apply elem_of_cons in Hin as [->|?]; [|done].
        exists s, v, sm. split_and!; try done.
        -- apply frame_on_refl. tauto.
        -- rewrite (Hne2 k Hnin), Hobj1. by eapply obj_set_own_eq.
Qed.

Lemma forM_visits_filter o parent child vm ks s s' :
  (∀ p, parent = VRef p → p < length (heap s) ∧ p ≠ o) →
  forM_ ks (λ key,
    let! own := hasOwn parent key in
    if own then ret tt else mergeField E (VRef o) parent child vm key) s
  = Ok tt s' →
  visits E (VRef o) parent child vm
    (filter (λ k, has_own_val (heap s) parent k = false) ks) s s'.
Proof.
  intros Hp. revert s Hp. induction ks as [|k ks IH]; intros s Hp; simpl.
  - intros [_ ->]%ret_Ok. constructor.
  - intros ([] & s1 & Hk & Hks)%bind_Ok.
    apply bind_Ok in Hk as (own & s0 & (_ & _ & -> & ->)%hasOwn_Ok & Hk).
    destruct (has_own_val (heap s) parent k) eqn:Hown.
    + apply ret_Ok in Hk as [_ ->].
      rewrite filter_cons_False; [by apply IH | by rewrite Hown].
    + rewrite filter_cons_True; [|done].
      pose proof (mergeField_frame _ _ _ _ _ _ _ Hk) as Hf.
      econstructor; [exact Hk|].
      erewrite list_filter_iff; [apply IH; [|exact Hks]|].
      * intros p Hpe. destruct (Hp p Hpe), Hf as (_ & ? & _). split; [lia|done].
      * intros k'. simpl.
        by rewrite (has_own_val_frame _ _ _ _ _ Hf Hp).
Qed.

Lemma mergeFields_visits parent child vm s r s' :
  value_ok (heap s) parent →
  mergeFields E parent child vm s = Ok r s' →
  let o := length (heap s) in
  let s0 := with_heap s (heap s ++ [Obj None CPlain []]) in
  r = VRef o ∧
  ∃ s1,
    visits E (VRef o) parent child vm (forin_keys (heap s0) parent) s0 s1 ∧
    visits E (VRef o) parent child vm
      (filter (λ k, has_own_val (heap s0) parent k = false)
         (forin_keys (heap s1) child)) s1 s'.
Proof.
  intros Hok Hrun o s0. unfold mergeFields in Hrun.
  apply bind_Ok in Hrun as (r0 & s0' & Hnew & Hrun).
  unfold new_object in Hnew.
  apply bind_Ok in Hnew as (l & s0'' & [= <- <-] & [-> ->]%ret_Ok).
  fold o s0 in Hrun.
  apply bind_Ok in Hrun as ([] & s1 & Hloop1 & Hrun).
  apply bind_Ok in Hrun as ([] & s2 & Hloop2 & [-> ->]%ret_Ok).
  split; [done|]. exists s1.
  unfold for_in in Hloop1, Hloop2.
  apply bind_Ok in Hloop1 as (ks1 & ? & [-> ->]%read_Ok & Hloop1).
  apply bind_Ok in Hloop2 as (ks2 & ? & [-> ->]%read_Ok & Hloop2).
  apply forM_visits in Hloop1.
  assert (o < length (heap s0)) as Ho.
  { subst s0 o. simpl. rewrite length_app. simpl. lia. }
  destruct (visits_inv _ _ _ _ _ _ _ Hloop1 Ho) as (Hf1 & Ho1 & _).
  split; [done|].
  assert (∀ p, parent = VRef p → p < length (heap s0) ∧ p ≠ o) as Hp.
  { intros p ->. specialize (Hok p eq_refl). subst o. split; lia. }
  erewrite list_filter_iff; [apply forM_visits_filter; [|exact Hloop2]|].
  - intros p Hpe. destruct (Hp p Hpe), Hf1 as (_ & ? & _). split; [lia|done].
  - intros k. simpl. by rewrite (has_own_val_frame _ _ _ _ _ Hf1 Hp).
Qed.

Lemma has_own_val_forin h v k :
  value_ok h v → has_own_val h v k = true → k ≠ "length" →
  k ∈ forin_keys h v.
Proof.
  intros Hok Hown Hk. apply String.eqb_neq in Hk.
  destruct v as [| | | |str|l]; try done; simpl in Hown; rewrite Hk in Hown.
  - destruct (index_of_key k) as [i|] eqn:Hi; [|done].
    apply bool_decide_eq_true in Hown. apply index_of_key_Some in Hi as <-.
    simpl. apply list_elem_of_fmap. exists i. split; [done|].
    apply elem_of_seq. lia.
  - specialize (Hok l eq_refl). apply lookup_lt_is_Some in Hok as [o Ho].
    eapply forin_keys_own; [done|]. rewrite (obj_at_Some _ _ _ Ho) in Hown.
    destruct (cls o); by apply bool_decide_eq_true in Hown.
Qed.

Lemma mergeFields_result parent child vm s r s' :
  mergeFields E parent child vm s = Ok r s' →
  r = VRef (length (heap s)) ∧ length (heap s) < length (heap s').
Proof.
  intros Hrun. unfold mergeFields, new_object in Hrun.
  apply bind_Ok in Hrun as (r0 & s0 & Hnew & Hrun).
  apply bind_Ok in Hnew as (l & s0' & [= <- <-] & [-> ->]%ret_Ok).
  apply bind_Ok in Hrun as ([] & s1 & Hloop1 & Hrun).
  apply bind_Ok in Hrun as ([] & s2 & Hloop2 & [-> Hs']%ret_Ok).
  subst s2. split; [done|].
  assert (mono (with_heap s (heap s ++ [Obj None CPlain []])) s1) as (H1 & _).
  { eapply (spec_run mono); [|apply mono_refl|exact Hloop1].
    apply (spec_for_in (W := λ _, True)); [|done].
    intros k. by apply (spec_mergeField E (W := λ _, True)). }
  assert (mono s1 s') as (H2 & _).
  { eapply (spec_run mono); [|apply mono_refl|exact Hloop2].
    apply (spec_for_in (W := λ _, True)); [|done].
    intros k. apply (spec_bind (W := λ _, True)), spec_hasOwn. intros [].
    - by apply spec_ret.
    - by apply (spec_mergeField E (W := λ _, True)). }
  simpl in H1. rewrite length_app in H1. simpl in H1. lia.
Qed.

(** Every own field of the parent or of the child is visited, and the
    result holds for it what its strategy returned. *)
Lemma mergeFields_visited parent child vm s r s' k :
  value_ok (heap s) parent →
  mergeFields E parent child vm s = Ok r s' →
  k ≠ "length" →
  (∃ l o, (parent = VRef l ∨ child = VRef l) ∧ heap s !! l = Some o ∧
          is_Some (own_lookup o k)) →
  let o := length (heap s) in
  r = VRef o ∧
  ∃ sa v sb,
    frame_on (λ l, l < o) s sa ∧
    apply_strat E (strats E k) (get_val (heap sa) parent k)
      (get_val (heap sa) child k) vm k sa = Ok v sb ∧
    own_lookup (obj_at (heap s') o) k = Some v.
Proof.
  intros Hok Hrun Hk (l & ol & Hl & Hol & Hown) o.
  destruct (mergeFields_visits _ _ _ _ _ _ Hok Hrun) as (-> & s1 & Hv1 & Hv2).
  fold o in Hv1, Hv2.
  set (s0 := with_heap s (heap s ++ [Obj None CPlain []])) in *.
  split; [done|].
  assert (o < length (heap s0)) as Ho0.
  { subst s0 o. simpl. rewrite length_app. simpl. lia. }
  assert (heap s0 !! l = Some ol) as Hol0 by by apply lookup_app_l_Some.
  assert (l < o) as Hlo by by eapply lookup_lt_Some.
  destruct (visits_inv _ _ _ _ _ _ _ Hv1 Ho0) as (Hf1 & _).
  pose proof (visits_app _ _ _ _ _ _ _ _ _ Hv1 Hv2) as Hv.
  destruct (visits_inv _ _ _ _ _ _ _ Hv Ho0) as (_ & _ & _ & _ & Hin).
  destruct (Hin k) as (sa & v & sb & Hfa & Hsa & Hres).
  { apply elem_of_app.
    destruct (decide (k ∈ forin_keys (heap s0) parent)) as [|Hnin];
      [by left|right].
    apply list_elem_of_filter. split.
    - destruct (has_own_val (heap s0) parent k) eqn:Hpo; [|done].
      destruct Hnin. apply has_own_val_forin; [|done..].
      intros p ->. specialize (Hok p eq_refl). lia.
    - destruct Hl as [-> | ->].
      + destruct Hnin. by eapply forin_keys_own.
      + eapply forin_keys_own; [|done].
        destruct Hf1 as (_ & _ & _ & Hh). rewrite Hh; [done|].
        split; [by eapply lookup_lt_Some|lia]. }
  exists sa, v, sb. split_and!; [|done..].
  destruct Hfa as (_ & Hlen & Hr & Hh). split_and!.
  - intros ? ?. lia.
  - subst s0. simpl in Hlen. rewrite length_app in Hlen. simpl in Hlen. lia.
  - done.
  - intros l' Hl'. rewrite Hh; [|lia]. by apply lookup_app_l.
Qed.

End Fields.

(** ** Running the operations on a known state *)

Lemma run_bind_ret {A B} (a : A) (k : A → M B) s : bind (ret a) k s = k a s.
Proof. reflexivity. Qed.

Lemma run_bind_read {A B} (f : list object → A) (k : A → M B) s :
  bind (read f) k s = k (f (heap s)) s.
Proof. reflexivity. Qed.

Lemma run_bind_bind {A B C} (m : M A) (f : A → M B) (g : B → M C) s :
  bind (bind m f) g s = bind m (λ a, bind (f a) g) s.
Proof. unfold bind. by destruct (m s). Qed.

Lemma run_get v k s :
  v ≠ VUndef → v ≠ VNull → get v k s = Ok (get_val (heap s) v k) s.
Proof. by destruct v. Qed.

Lemma run_bind_get {B} v key (k : value → M B) s :
  v ≠ VUndef → v ≠ VNull →
  bind (get v key) k s = k (get_val (heap s) v key) s.
Proof. intros. unfold bind. by rewrite run_get. Qed.

Lemma run_bind_hasOwn {B} v key (k : bool → M B) s :
  v ≠ VUndef → v ≠ VNull →
  bind (hasOwn v key) k s = k (has_own_val (heap s) v key) s.
Proof. by destruct v. Qed.

Lemma run_bind_new_object {B} ps (k : value → M B) s :
  bind (new_object ps) k s =
  k (VRef (length (heap s))) (with_heap s (heap s ++ [Obj None CPlain ps])).
Proof. reflexivity. Qed.

Lemma run_bind_new_array {B} xs (k : value → M B) s :
  bind (new_array xs) k s =
  k (VRef (length (heap s)))
    (with_heap s (heap s ++ [Obj None (CArray xs) []])).
Proof. reflexivity. Qed.

Lemma run_set_prop l o key x o' s :
  heap s !! l = Some o → obj_set o key x = Some o' →
  set_prop (VRef l) key x s = Ok tt (with_heap s (<[l := o']> (heap s))).
Proof. intros Hl Ho. simpl. by rewrite Hl, Ho. Qed.

Lemma run_bind_set_prop {B} l o key x o' (k : unit → M B) s :
  heap s !! l = Some o → obj_set o key x = Some o' →
  bind (set_prop (VRef l) key x) k s =
  k tt (with_heap s (<[l := o']> (heap s))).
Proof. intros Hl Ho. unfold bind. by erewrite run_set_prop. Qed.

Lemma run_bind_warn {B} d (k : unit → M B) s :
  bind (warn d) k s = k tt (State (heap s) (diags s ++ [d]) (regs s)).
Proof. reflexivity. Qed.

Lemma run_for_in v body s :
  for_in v body s = forM_ (forin_keys (heap s) v) body s.
Proof. reflexivity. Qed.

Lemma run_bind_for_in {B} v body (k : unit → M B) s :
  bind (for_in v body) k s =
  bind (forM_ (forin_keys (heap s) v) body) k s.
Proof. reflexivity. Qed.

Lemma alist_set_new k v l :
  alist_get k l = None → alist_set k v l = l ++ [(k, v)].
Proof.
  induction l as [|[k' v'] l IH]; simpl; [done|].
  destruct (String.eqb k' k); [done|]. intros Hl. by rewrite IH.
Qed.

Lemma get_val_own h l o k v :
  h !! l = Some o → own_lookup o k = Some v → k ≠ "length" →
  get_val h (VRef l) k = v.
Proof.
  intros Hl Hk Hne. apply String.eqb_neq in Hne. simpl.
  rewrite (obj_at_Some _ _ _ Hl), Hne.
  destruct (length h) as [|n] eqn:Hn.
  - apply lookup_lt_Some in Hl. lia.
  - erewrite chain_lookup_own; [|done..]. by destruct (cls o).
Qed.

Lemma get_val_plain h l ps k :
  h !! l = Some (Obj None CPlain ps) →
  get_val h (VRef l) k = default VUndef (alist_get k ps).
Proof. intros Hl. by rewrite (get_val_no_proto _ _ _ _ Hl). Qed.

Lemma forin_keys_plain h l ps :
  h !! l = Some (Obj None CPlain ps) →
  forin_keys h (VRef l) = own_keys (Obj None CPlain ps).
Proof. intros Hl. by rewrite (forin_keys_no_proto _ _ _ Hl). Qed.

Lemma is_function_plain h l p ps :
  h !! l = Some (Obj p CPlain ps) → is_function h (VRef l) = false.
Proof. intros Hl. simpl. by rewrite (obj_at_Some _ _ _ Hl). Qed.

Lemma index_key_not_length i : key_of_index i ≠ "length".
Proof.
  intros Hk. pose proof (index_of_key_of_index i) as Hi.
  rewrite Hk in Hi. vm_compute in Hi. done.
Qed.

Lemma get_val_array_length h l o xs :
  h !! l = Some o → cls o = CArray xs →
  get_val h (VRef l) "length" = VNum (Z.of_nat (length xs)).
Proof. intros Hl Hc. simpl. by rewrite (obj_at_Some _ _ _ Hl), Hc. Qed.

Lemma get_val_array_index h l o xs i x :
  h !! l = Some o → cls o = CArray xs → xs !! i = Some x →
  get_val h (VRef l) (key_of_index i) = x.
Proof.
  intros Hl Hc Hi. eapply get_val_own; [done| |apply index_key_not_length].
  unfold own_lookup. by rewrite Hc, index_of_key_of_index.
Qed.

Lemma get_val_chain h l o k :
  h !! l = Some o → cls o = CPlain →
  get_val h (VRef l) k = default VUndef (chain_lookup (length h) h l k).
Proof. intros Hl Hc. simpl. by rewrite (obj_at_Some _ _ _ Hl), Hc. Qed.

Lemma forM_cons {A} (x : A) xs (f : A → M unit) :
  forM_ (x :: xs) f = (f x;; forM_ xs f).
Proof. reflexivity. Qed.

Lemma run_bind_Ok {A B} (m : M A) (k : A → M B) s a s1 :
  m s = Ok a s1 → bind m k s = k a s1.
Proof. intros Hm. unfold bind. by rewrite Hm. Qed.

(** ** The first part of [mergeOptions] on a plain child *)

Section Expand.
Context (E : env).

Lemma mergeOptions_unfold fuel parent child vm :
  mergeOptions E (S fuel) parent child vm =
  (when (dev E) (checkComponents E child);;
   let! isf := read (λ h, is_function h child) in
   let! child := (if isf then get child "options" else ret child) in
   normalizeProps E child vm;;
   normalizeInject E child vm;;
   normalizeDirectives child;;
   let! extendsFrom := get child "extends" in
   let! parent :=
     (if truthy extendsFrom then mergeOptions E fuel parent extendsFrom vm
      else ret parent) in
   let! mixins := get child "mixins" in
   let! parent :=
     (if truthy mixins then
        let! l := get mixins "length" in
        let! n := count_of l in
        foldM (λ parent i,
                 let! ms := get child "mixins" in
                 let! m := get ms (key_of_index i) in
                 mergeOptions E fuel parent m vm)
              parent (seq 0 n)
      else ret parent) in
   mergeFields E parent child vm).
Proof. reflexivity. Qed.

Lemma mergeOptions_plain_child fuel parent c ps vm s :
  heap s !! c = Some (Obj None CPlain ps) →
  Forall (λ k, alist_get k ps = None)
    ["components"; "props"; "inject"; "directives"; "extends"] →
  mergeOptions E (S fuel) parent (VRef c) vm s =
  (let! mixins := get (VRef c) "mixins" in
   let! parent :=
     (if truthy mixins then
        let! l := get mixins "length" in
        let! n := count_of l in
        foldM (λ parent i,
                 let! ms := get (VRef c) "mixins" in
                 let! m := get ms (key_of_index i) in
                 mergeOptions E fuel parent m vm)
              parent (seq 0 n)
      else ret parent) in
   mergeFields E parent (VRef c) vm) (normalized_child s c ps).
Proof.
  intros Hc Hps.
  apply Forall_cons in Hps as [Hcomp Hps].
  apply Forall_cons in Hps as [Hprops Hps].
  apply Forall_cons in Hps as [Hinj Hps].
  apply Forall_cons in Hps as [Hdir Hps].
  apply Forall_cons in Hps as [Hext _].
  rewrite mergeOptions_unfold.
  assert (∀ B (k : unit → M B),
            bind (when (dev E) (checkComponents E (VRef c))) k s = k tt s)
    as ->.
  { intros B k. destruct (dev E); [|done]. simpl. unfold checkComponents.
    rewrite run_bind_bind, run_bind_get by done.
    by rewrite (get_val_plain _ _ _ _ Hc), Hcomp. }
  rewrite run_bind_read, (is_function_plain _ _ _ _ Hc), run_bind_ret.
  unfold normalizeProps at 1.
  rewrite run_bind_bind, run_bind_get by done.
  rewrite (get_val_plain _ _ _ _ Hc), Hprops. simpl default.
  cbn [truthy negb]. rewrite run_bind_ret.
  unfold normalizeInject at 1.
  rewrite run_bind_bind, run_bind_get by done.
  rewrite (get_val_plain _ _ _ _ Hc), Hinj. simpl default.
  rewrite run_bind_bind, run_bind_new_object.
  rewrite run_bind_bind.
  erewrite run_bind_set_prop;
    [|by apply lookup_app_l_Some|by apply obj_set_plain].
  cbn [proto props]. rewrite (alist_set_new _ _ _ Hinj).
  fold (normalized_child s c ps).
  rewrite run_bind_bind, run_bind_read, run_bind_bind, run_bind_read.
  cbn [is_array isPlainObject truthy]. rewrite andb_false_r.
  cbn [when]. rewrite run_bind_ret.
  assert (heap (normalized_child s c ps) !! c
          = Some (Obj None CPlain (ps ++ [("inject", VRef (length (heap s)))])))
    as Hc'.
  { unfold normalized_child. simpl. apply list_lookup_insert_eq.
    rewrite length_app. apply lookup_lt_Some in Hc. lia. }
  assert (∀ k, k ≠ "inject" →
            alist_get k (ps ++ [("inject", VRef (length (heap s)))])
            = alist_get k ps) as Hget.
  { intros k Hk. rewrite <- (alist_set_new _ _ _ Hinj).
    by apply alist_get_set_ne. }
  unfold normalizeDirectives at 1.
  rewrite run_bind_bind, run_bind_get by done.
  rewrite (get_val_plain _ _ _ _ Hc'), Hget, Hdir by done. simpl default.
  cbn [truthy]. rewrite run_bind_ret.
  rewrite run_bind_get by done.
  rewrite (get_val_plain _ _ _ _ Hc'), Hget, Hext by done. simpl default.
  cbn [truthy]. by rewrite run_bind_ret.
Qed.

End Expand.

Lemma normalized_child_length s c ps :
  length (heap (normalized_child s c ps)) = S (length (heap s)).
Proof.
  unfold normalized_child. simpl. rewrite length_insert, length_app. simpl. lia.
Qed.

Lemma normalized_child_lookup_eq s c ps :
  c < length (heap s) →
  heap (normalized_child s c ps) !! c
  = Some (Obj None CPlain (ps ++ [("inject", VRef (length (heap s)))])).
Proof.
  intros Hc. unfold normalized_child. simpl. apply list_lookup_insert_eq.
  rewrite length_app. lia.
Qed.

Lemma normalized_child_lookup_ne s c ps l :
  l ≠ c → l < length (heap s) →
  heap (normalized_child s c ps) !! l = heap s !! l.
Proof.
  intros Hne Hl. unfold normalized_child. simpl.
  rewrite list_lookup_insert_ne by done. by apply lookup_app_l.
Qed.

Section Levels.
Context (E : env).

Lemma mergeFields_frame parent child vm s r s' :
  mergeFields E parent child vm s = Ok r s' →
  frame_on (λ l, l < length (heap s)) s s'.
Proof.
  intros Hrun.
  eapply (spec_mergeFields E (R := frame_on _)); [|exact Hrun].
  by apply frame_on_refl.
Qed.

(** Under the default strategy a field of the child that is defined goes
    to the result. *)
Lemma mergeFields_default_child parent c co k v vm s r s' :
  strats E k = None → k ≠ "length" →
  value_ok (heap s) parent →
  heap s !! c = Some co → own_lookup co k = Some v → v ≠ VUndef →
  mergeFields E parent (VRef c) vm s = Ok r s' →
  r = VRef (length (heap s)) ∧
  ∃ oo, heap s' !! length (heap s) = Some oo ∧ own_lookup oo k = Some v.
Proof.
  intros Hst Hk Hok Hc Hv Hdef Hrun.
  destruct (mergeFields_visited E _ _ _ _ _ _ k Hok Hrun Hk)
    as (-> & sa & v' & sb & Hfa & Hsa & Hres).
  { exists c, co. split_and!; [by right|done|by rewrite Hv]. }
  rewrite Hst in Hsa. cbn [apply_strat] in Hsa.
  apply ret_Ok in Hsa as [-> _].
  assert (get_val (heap sa) (VRef c) k = v) as Hcv.
  { eapply get_val_own; [|done..]. destruct Hfa as (_ & _ & _ & Hh).
    rewrite Hh; [done|]. by eapply lookup_lt_Some. }
  rewrite Hcv in Hres. unfold defaultStrat in Hres.
  rewrite decide_False in Hres by done.
  destruct (mergeFields_result E _ _ _ _ _ _ Hrun) as [_ Hlen].
  apply lookup_lt_is_Some in Hlen as [oo Hoo].
  rewrite (obj_at_Some _ _ _ Hoo) in Hres. eauto.
Qed.

(** Under the default strategy a field of the parent that the child does
    not define goes to the result. *)
Lemma mergeFields_default_parent p po c ps k v vm s r s' :
  strats E k = None → k ≠ "length" →
  heap s !! p = Some po → own_lookup po k = Some v →
  heap s !! c = Some (Obj None CPlain ps) → alist_get k ps = None →
  mergeFields E (VRef p) (VRef c) vm s = Ok r s' →
  r = VRef (length (heap s)) ∧
  ∃ oo, heap s' !! length (heap s) = Some oo ∧ own_lookup oo k = Some v.
Proof.
  intros Hst Hk Hp Hv Hc Hnone Hrun.
  assert (value_ok (heap s) (VRef p)) as Hok.
  { intros ? [= <-]. by eapply lookup_lt_Some. }
  destruct (mergeFields_visited E _ _ _ _ _ _ k Hok Hrun Hk)
    as (-> & sa & v' & sb & Hfa & Hsa & Hres).
  { exists p, po. split_and!; [by left|done|by rewrite Hv]. }
  rewrite Hst in Hsa. cbn [apply_strat] in Hsa.
  apply ret_Ok in Hsa as [-> _].
  destruct Hfa as (_ & _ & _ & Hh).
  assert (get_val (heap sa) (VRef c) k = VUndef) as Hcv.
  { erewrite get_val_plain; [by rewrite Hnone|].
    rewrite Hh; [done|]. by eapply lookup_lt_Some. }
  assert (get_val (heap sa) (VRef p) k = v) as Hpv.
  { eapply get_val_own; [|done..].
    rewrite Hh; [done|]. by eapply lookup_lt_Some. }
  rewrite Hcv, Hpv in Hres. unfold defaultStrat in Hres.
  rewrite decide_True in Hres by done.
  destruct (mergeFields_result E _ _ _ _ _ _ Hrun) as [_ Hlen].
  apply lookup_lt_is_Some in Hlen as [oo Hoo].
  rewrite (obj_at_Some _ _ _ Hoo) in Hres. eauto.
Qed.

End Levels.
(** * Runs that return *)

Lemma forM_total {A} (I : state → Prop) (f : A → M unit) xs s :
  I s →
  (∀ x s, x ∈ xs → I s → ∃ s', f x s = Ok tt s' ∧ I s') →
  ∃ s', forM_ xs f s = Ok tt s' ∧ I s'.
Proof.
  intros HI Hf. revert s HI. induction xs as [|x xs IH]; intros s HI.
  - by exists s.
  - destruct (Hf x s ltac:(left) HI) as (s1 & Hx & HI1).
    destruct (IH ltac:(intros; apply Hf; [by right|done]) s1 HI1)
      as (s2 & Hxs & HI2).
    exists s2. split; [|done]. rewrite forM_cons. apply bind_Ok. eauto.
Qed.

Lemma alist_get_app k l1 l2 :
  alist_get k (l1 ++ l2)
  = match alist_get k l1 with Some v => Some v | None => alist_get k l2 end.
Proof.
  induction l1 as [|[k' v'] l1 IH]; [done|]. cbn [app alist_get].
  by destruct (String.eqb k' k).
Qed.

Section Returns.
Context (E : env).

Lemma plain_at_set r s k x :
  plain_at r s → ∃ s', set_prop (VRef r) k x s = Ok tt s' ∧ plain_at r s'.
Proof.
  intros (o & Ho & Hc). eexists. split.
  - eapply run_set_prop; [done|by apply obj_set_plain].
  - exists (Obj (proto o) CPlain (alist_set k x (props o))). split; [|done].
    apply list_lookup_insert_eq. by eapply lookup_lt_Some.
Qed.

Lemma plain_at_frame r s s' :
  plain_at r s → frame_on (λ l, l < length (heap s)) s s' → plain_at r s'.
Proof.
  intros (o & Ho & Hc) (_ & _ & _ & Hh). exists o. split; [|done].
  rewrite Hh; [done|by eapply lookup_lt_Some].
Qed.

Lemma plain_at_warn r s d :
  plain_at r s → plain_at r (State (heap s) (diags s ++ [d]) (regs s)).
Proof. done. Qed.

(** [extend] onto a plain object returns, whatever it copies from. *)
Lemma extend_returns r _from s :
  plain_at r s →
  ∃ s', extend (VRef r) _from s = Ok (VRef r) s' ∧ plain_at r s'.
Proof.
  intros Hr.
  assert (∃ s', for_in _from
                  (λ key, let! v := get _from key in set_prop (VRef r) key v) s
                = Ok tt s' ∧ plain_at r s') as (s' & Hrun & Hr').
  { rewrite run_for_in.
    destruct (decide (_from = VUndef)) as [->|Hu]; [by exists s|].
    destruct (decide (_from = VNull)) as [->|Hn]; [by exists s|].
    apply forM_total; [done|]. intros k sa _ Ha.
    rewrite run_bind_get by done. by apply plain_at_set. }
  exists s'. split; [|done]. unfold extend. apply bind_Ok. eauto.
Qed.

Lemma assertObjectType_returns name v vm s :
  ∃ s', assertObjectType name v vm s = Ok tt s' ∧ heap s' = heap s.
Proof.
  unfold assertObjectType. rewrite run_bind_read.
  destruct (isPlainObject (heap s) v); simpl; eauto.
Qed.

Lemma mergeDataOrFn_returns parentVal childVal vm s :
  ∃ v s', mergeDataOrFn parentVal childVal vm s = Ok v s'.
Proof.
  unfold mergeDataOrFn.
  destruct (truthy vm), (truthy childVal), (truthy parentVal); simpl;
    eexists _, _; reflexivity.
Qed.

Lemma strat_data_returns parentVal childVal vm s :
  ∃ v s', strat_data E parentVal childVal vm s = Ok v s'.
Proof.
  unfold strat_data. destruct (truthy vm); simpl.
  - apply mergeDataOrFn_returns.
  - rewrite run_bind_read.
    destruct (truthy childVal && negb (is_function (heap s) childVal)).
    + destruct (dev E); eexists _, _; reflexivity.
    + apply mergeDataOrFn_returns.
Qed.

Lemma strat_object_hash_returns parentVal childVal vm key s :
  ∃ v s', strat_object_hash E parentVal childVal vm key s = Ok v s'.
Proof.
  unfold strat_object_hash.
  assert (∃ sa, when (truthy childVal && dev E)
                  (assertObjectType key childVal vm) s = Ok tt sa)
    as (sa & Hsa).
  { destruct (truthy childVal && dev E); simpl; [|by exists s].
    destruct (assertObjectType_returns key childVal vm s) as (sa & ? & _).
    by exists sa. }
  assert (∃ v' s', (if negb (truthy parentVal) then ret childVal
            else
              let! ret_ := object_create VNull in
              extend ret_ parentVal;;
              (if truthy childVal then extend ret_ childVal else ret ret_);;
              ret ret_) sa = Ok v' s') as Hrest.
  { destruct (truthy parentVal); simpl; [|by eexists _, _].
    cbn [object_create]. rewrite run_bind_new_object.
    set (r := length (heap sa)).
    set (sb := with_heap sa (heap sa ++ [Obj None CPlain []])).
    assert (plain_at r sb) as Hr.
    { eexists. split; [by apply list_lookup_middle|done]. }
    destruct (extend_returns r parentVal sb Hr) as (s1 & H1 & Hr1).
    assert (∃ v2 s2, (if truthy childVal then extend (VRef r) childVal
                      else ret (VRef r)) s1 = Ok v2 s2) as (v2 & s2 & H2).
    { destruct (truthy childVal); [|by eexists _, _].
      destruct (extend_returns r childVal s1 Hr1) as (s2 & H2 & _). eauto. }
    exists (VRef r), s2. apply bind_Ok. exists (VRef r), s1. split; [done|].
    apply bind_Ok. exists v2, s2. by split. }
  destruct Hrest as (v' & s' & Hv').
  exists v', s'. apply bind_Ok. eauto.
Qed.

(** A strategy of the total kind returns on every pair of operands. *)
Lemma apply_strat_returns st parentVal childVal vm key s :
  total_strategy st = true →
  ∃ v s', apply_strat E st parentVal childVal vm key s = Ok v s'.
Proof.
  destruct st as [[]|]; try done; intros _; cbn [apply_strat].
  - unfold strat_restricted. destruct (truthy vm); simpl; eexists _, _;
      reflexivity.
  - apply strat_data_returns.
  - apply strat_object_hash_returns.
  - apply mergeDataOrFn_returns.
  - by eexists _, _.
Qed.

Lemma mergeField_returns o parent child vm k s :
  parent ≠ VUndef → parent ≠ VNull → child ≠ VUndef → child ≠ VNull →
  (∃ v s1, apply_strat E (strats E k) (get_val (heap s) parent k)
             (get_val (heap s) child k) vm k s = Ok v s1) →
  plain_at o s →
  ∃ s', mergeField E (VRef o) parent child vm k s = Ok tt s' ∧ plain_at o s'.
Proof.
  intros ? ? ? ? (v & s1 & Hv) Ho. unfold mergeField.
  rewrite run_bind_get, run_bind_get by done.
  pose proof (apply_strat_frame E _ _ _ _ _ _ _ _ Hv) as Hf.
  destruct (plain_at_set o s1 k v) as (s' & Hs & Hp);
    [by eapply plain_at_frame|].
  exists s'. split; [|done]. apply bind_Ok. eauto.
Qed.

(** The last part of [mergeOptions] returns when, for every field of the
    parent and of the child, the strategy of the field returns on the values
    the two hold for it; the result is a mapping whose fields are fields of
    the parent or of the child. *)
Lemma mergeFields_returns parent child vm s :
  is_mapping (heap s) parent → is_mapping (heap s) child →
  (∀ k sa,
     k ∈ forin_keys (heap s) parent ∨ k ∈ forin_keys (heap s) child →
     frame_on (λ l, l < length (heap s)) s sa →
     ∃ v sb, apply_strat E (strats E k) (get_val (heap s) parent k)
               (get_val (heap s) child k) vm k sa = Ok v sb) →
  ∃ o s', mergeFields E parent child vm s = Ok (VRef o) s' ∧
    is_mapping (heap s') (VRef o) ∧
    ∀ k, k ∈ forin_keys (heap s') (VRef o) →
         k ∈ forin_keys (heap s) parent ∨ k ∈ forin_keys (heap s) child.
Proof.
  intros (p & po & -> & Hp & Hpp & Hpc) (c & co & -> & Hc & Hcp & Hcc) Htot.
  rewrite (forin_keys_no_proto _ _ _ Hp Hpp),
    (forin_keys_no_proto _ _ _ Hc Hcp) in Htot.
  set (o := length (heap s)).
  set (s0 := with_heap s (heap s ++ [Obj None CPlain []])).
  assert (heap s0 !! p = Some po) as Hp0 by by apply lookup_app_l_Some.
  assert (heap s0 !! c = Some co) as Hc0 by by apply lookup_app_l_Some.
  assert (p < o ∧ c < o) as [Hpo Hco].
  { split; by eapply lookup_lt_Some. }
  assert (length (heap s0) = S o) as Hlen0.
  { subst s0 o. simpl. rewrite length_app. simpl. lia. }
  assert (o < length (heap s0)) as Ho0 by lia.
  set (I := λ sa, plain_at o sa ∧
                  frame_on (λ l, l < length (heap s0) ∧ l ≠ o) s0 sa).
  assert (I s0) as HI0.
  { split; [|apply frame_on_refl; tauto].
    eexists. split; [by apply list_lookup_middle|done]. }
  (* one field, from a state of the loops *)
  assert (∀ k sa, k ∈ own_keys po ∨ k ∈ own_keys co → I sa →
            ∃ s', mergeField E (VRef o) (VRef p) (VRef c) vm k sa = Ok tt s'
                  ∧ I s') as Hstep.
  { intros k sa Hk [Hpl Hfr].
    assert (heap sa !! p = Some po ∧ heap sa !! c = Some co) as [Hpa Hca].
    { destruct Hfr as (_ & _ & _ & Hh). rewrite !Hh; [done|lia..]. }
    assert (frame_on (λ l, l < length (heap s)) s sa) as Hfs.
    { destruct Hfr as (_ & Hl & Hr & Hh). split_and!; [done|lia|done|].
      intros l Hl'. fold o in Hl'. rewrite Hh by lia.
      by apply lookup_app_l. }
    destruct (mergeField_returns o (VRef p) (VRef c) vm k sa)
      as (s' & Hrun & Hpl'); try done.
    { rewrite !(get_val_no_proto _ _ _ _ Hpa), !(get_val_no_proto _ _ _ _ Hca)
        by done.
      rewrite <- !(get_val_no_proto _ _ _ _ Hp), <- !(get_val_no_proto _ _ _ _ Hc)
        by done.
      by apply Htot. }
    exists s'. split; [done|]. split; [done|].
    eapply frame_on_trans; [exact Hfr|].
    eapply frame_on_weaken; [exact (mergeField_frame E _ _ _ _ _ _ _ Hrun)|].
    intros l [Hl ?]. destruct Hfr as (_ & ? & _). split; [lia|done]. }
  (* the fields of the parent *)
  destruct (forM_total I (mergeField E (VRef o) (VRef p) (VRef c) vm)
              (forin_keys (heap s0) (VRef p)) s0 HI0) as (s1 & Hl1 & HI1).
  { intros k sa Hk Ha. apply Hstep; [|done].
    left. by rewrite (forin_keys_no_proto _ _ _ Hp0 Hpp) in Hk. }
  assert (heap s1 !! c = Some co) as Hc1.
  { destruct HI1 as [_ (_ & _ & _ & Hh)]. rewrite Hh; [done|lia]. }
  (* the fields of the child alone *)
  destruct (forM_total I
              (λ key, let! own := hasOwn (VRef p) key in
                      if own then ret tt
                      else mergeField E (VRef o) (VRef p) (VRef c) vm key)
              (forin_keys (heap s1) (VRef c)) s1 HI1) as (s2 & Hl2 & HI2).
  { intros k sa Hk Ha. rewrite run_bind_hasOwn by done.
    destruct (has_own_val (heap sa) (VRef p) k); [by exists sa|].
    apply Hstep; [|done].
    right. by rewrite (forin_keys_no_proto _ _ _ Hc1 Hcp) in Hk. }
  assert (mergeFields E (VRef p) (VRef c) vm s = Ok (VRef o) s2) as Hrun.
  { unfold mergeFields. rewrite run_bind_new_object. fold o s0.
    apply bind_Ok. exists tt, s1. split; [by rewrite run_for_in|].
    apply bind_Ok. exists tt, s2. split; [by rewrite run_for_in|done]. }
  exists o, s2. split; [done|].
  (* what the result holds *)
  assert (value_ok (heap s) (VRef p)) as Hok.
  { intros ? [= <-]. by eapply lookup_lt_Some. }
  destruct (mergeFields_visits E _ _ _ _ _ _ Hok Hrun) as (_ & s1' & Hw1 & Hw2).
  fold o s0 in Hw1, Hw2.
  pose proof (visits_app E _ _ _ _ _ _ _ _ _ Hw1 Hw2) as Hw.
  destruct (visits_inv E _ _ _ _ _ _ _ Hw Ho0) as (_ & _ & Hproto & Hout & _).
  destruct (visits_inv E _ _ _ _ _ _ _ Hw1 Ho0) as (Hg1 & _).
  assert (heap s1' !! c = Some co) as Hc1'.
  { destruct Hg1 as (_ & _ & _ & Hh). rewrite Hh; [done|lia]. }
  assert (obj_at (heap s0) o = Obj None CPlain []) as Hobj0.
  { apply obj_at_Some. by apply list_lookup_middle. }
  destruct HI2 as [(oo & Hoo & Hoc) _].
  rewrite (obj_at_Some _ _ _ Hoo), Hobj0 in Hproto, Hout.
  split.
  - exists o, oo. by split_and!.
  - intros k Hk. rewrite (forin_keys_no_proto _ _ _ Hoo Hproto) in Hk.
    rewrite (forin_keys_no_proto _ _ _ Hp Hpp),
      (forin_keys_no_proto _ _ _ Hc Hcp).
    apply elem_of_own_keys in Hk.
    destruct (decide (k ∈ forin_keys (heap s0) (VRef p) ++
                filter (λ k, has_own_val (heap s0) (VRef p) k = false)
                  (forin_keys (heap s1') (VRef c)))) as [Hin|Hnin].
    + rewrite (forin_keys_no_proto _ _ _ Hp0 Hpp),
        (forin_keys_no_proto _ _ _ Hc1' Hcp) in Hin.
      apply elem_of_app in Hin as [?|Hin]; [by left|].
      apply list_elem_of_filter in Hin as [_ ?]. by right.
    + rewrite (Hout k Hnin) in Hk. by destruct Hk.
Qed.

(** In particular when every field has a strategy of the total kind. *)
Lemma mergeFields_returns_total parent child vm s :
  is_mapping (heap s) parent → is_mapping (heap s) child →
  (∀ k, k ∈ forin_keys (heap s) parent ∨ k ∈ forin_keys (heap s) child →
        total_strategy (strats E k) = true) →
  ∃ o s', mergeFields E parent child vm s = Ok (VRef o) s' ∧
    is_mapping (heap s') (VRef o) ∧
    ∀ k, k ∈ forin_keys (heap s') (VRef o) →
         k ∈ forin_keys (heap s) parent ∨ k ∈ forin_keys (heap s) child.
Proof.
  intros Hp Hc Htot. apply mergeFields_returns; [done..|].
  intros k sa Hk _. by apply apply_strat_returns, Htot.
Qed.

End Returns.

(** * The resolved configuration *)

Section Resolved.
Context (E : env).

Lemma mergeOptions_mergeFields fuel parent child vm s r s' :
  mergeOptions E fuel parent child vm s = Ok r s' →
  ∃ parent' child' sm, mergeFields E parent' child' vm sm = Ok r s'.
Proof.
  destruct fuel as [|fuel]; [done|]. simpl. intros Hrun.
  do 10 (apply bind_Ok in Hrun as (? & ? & _ & Hrun)). eauto.
Qed.

End Resolved.

(** * The deep data merger *)

Lemma merge_effect_refl s : merge_effect s s.
Proof.
  split_and!; try done. exists []. split_and!.
  - by rewrite app_nil_r.
  - constructor.
  - intros l k v. split; [by intros ?%elem_of_nil|].
    intros [H1 H2]. congruence.
Qed.

Lemma merge_effect_trans s1 s2 s3 :
  merge_effect s1 s2 → merge_effect s2 s3 → merge_effect s1 s3.
Proof.
  intros (Hl1 & Hd1 & Hk1 & n1 & Hr1 & Hnd1 & Hn1)
         (Hl2 & Hd2 & Hk2 & n2 & Hr2 & Hnd2 & Hn2).
  split_and!; [congruence|congruence|eauto|].
  exists (n1 ++ n2). split_and!.
  - by rewrite Hr2, Hr1, app_assoc.
  - rewrite fmap_app. apply NoDup_app. split_and!; [done| |done].
    intros [l k] ([[l1 k1] v1] & [= <- <-] & H1%Hn1)%list_elem_of_fmap
                 ([[l2 k2] v2] & [= <- <-] & H2%Hn2)%list_elem_of_fmap.
    destruct H1 as [_ H1], H2 as [H2 _]. congruence.
  - intros l k v. rewrite elem_of_app, Hn1, Hn2. split.
    + intros [[H1 H2]|[H1 H2]].
      * split; [done|]. eauto.
      * split; [|done]. destruct (own_lookup (obj_at (heap s1) l) k) eqn:Ho;
          [|done]. apply Hk1 in Ho. congruence.
    + intros [H1 H3].
      destruct (own_lookup (obj_at (heap s2) l) k) as [v'|] eqn:Ho.
      * left. split; [done|]. apply Hk2 in Ho as Ho'. congruence.
      * by right.
Qed.

Lemma has_own_val_false h l k :
  has_own_val h (VRef l) k = false → own_lookup (obj_at h l) k = None.
Proof.
  simpl. destruct (cls (obj_at h l)), (String.eqb k "length"); try done;
    by intros ?%bool_decide_eq_false%eq_None_not_Some.
Qed.

Lemma set_Ok target key val s u s' :
  set target key val s = Ok u s' ↔
  ∃ l o o', target = VRef l ∧ heap s !! l = Some o ∧
    obj_set o key val = Some o' ∧
    s' = State (<[l := o']> (heap s)) (diags s)
               (regs s ++ [(l, key, val)]).
Proof.
  unfold set. rewrite bind_Ok. split.
  - intros ([] & s1 & (l & o & o' & -> & Hl & Ho & ->)%set_prop_Ok & Hreg).
    injection Hreg as <- <-. by exists l, o, o'.
  - intros (l & o & o' & -> & Hl & Ho & ->).
    exists tt, (with_heap s (<[l := o']> (heap s))). split.
    + apply set_prop_Ok. by exists l, o, o'.
    + by destruct u.
Qed.

(** Installing a pair the target does not own. *)
Lemma set_effect to k v s s' :
  has_own_val (heap s) to k = false →
  set to k v s = Ok tt s' → merge_effect s s'.
Proof.
  intros Hown (l & o & o' & -> & Hl & Hset & ->)%set_Ok.
  apply has_own_val_false in Hown. rewrite (obj_at_Some _ _ _ Hl) in Hown.
  assert (l < length (heap s)) as Hlt by by eapply lookup_lt_Some.
  assert (∀ l' k', own_lookup (obj_at (<[l := o']> (heap s)) l') k' =
            if decide (l' = l ∧ k' = k) then Some v
            else own_lookup (obj_at (heap s) l') k') as Hlook.
  { intros l' k'. case_decide as Hd.
    - destruct Hd as [-> ->]. rewrite obj_at_insert_eq; [|done].
      by eapply obj_set_own_eq.
    - destruct (decide (l' = l)) as [->|Hne].
      + rewrite obj_at_insert_eq, (obj_at_Some _ _ _ Hl); [|done].
        eapply obj_set_own_ne; [done|]. naive_solver.
      + by rewrite obj_at_insert_ne. }
  split_and!; simpl.
  - by rewrite length_insert.
  - done.
  - intros l' k' v' Hv'. rewrite Hlook. case_decide as Hd; [|done].
    destruct Hd as [-> ->]. rewrite (obj_at_Some _ _ _ Hl) in Hv'. congruence.
  - exists [(l, k, v)]. split_and!; [done|apply NoDup_singleton|].
    intros l' k' v'. rewrite list_elem_of_singleton, Hlook. split.
    + intros [= -> -> ->]. rewrite decide_True; [|done].
      by rewrite (obj_at_Some _ _ _ Hl).
    + case_decide as Hd; [|intros [? ?]; congruence].
      destruct Hd as [-> ->]. by intros [_ [= ->]].
Qed.

Lemma forM_rel {A} (R : relation state) (f : A → M unit) xs s s' :
  Reflexive R → Transitive R →
  (∀ x s s1, x ∈ xs → f x s = Ok tt s1 → R s s1) →
  forM_ xs f s = Ok tt s' → R s s'.
Proof.
  intros Hrefl Htrans. revert s. induction xs as [|x xs IH]; intros s Hf; simpl.
  - by intros [_ ->]%ret_Ok.
  - intros ([] & s1 & Hx & Hxs)%bind_Ok. etrans.
    + eapply Hf; [left|done].
    + apply IH; [|done]. intros. eapply Hf; [by right|done].
Qed.

Lemma mergeData_effect fuel to from s r s' :
  mergeData fuel to from s = Ok r s' → r = to ∧ merge_effect s s'.
Proof.
  revert to from s r s'. induction fuel as [|fuel IH]; [done|].
  intros to from s r s'. simpl. destruct (truthy from); simpl.
  2: { intros [-> ->]%ret_Ok. split; [done|apply merge_effect_refl]. }
  intros (keys & s0 & Hkeys & Hrun)%bind_Ok.
  assert (s0 = s) as ->.
  { destruct from; simpl in Hkeys; try done;
      by apply read_Ok in Hkeys as [_ ->]. }
  apply bind_Ok in Hrun as ([] & s1 & Hloop & [-> ->]%ret_Ok).
  split; [done|].
  eapply (forM_rel merge_effect); [| | |exact Hloop].
  - intros ?. apply merge_effect_refl.
  - intros ? ? ?. apply merge_effect_trans.
  - intros k sa sb _ Hk.
    apply bind_Ok in Hk as (tv & ? & (_ & _ & -> & ->)%get_Ok & Hk).
    apply bind_Ok in Hk as (fv & ? & (_ & _ & -> & ->)%get_Ok & Hk).
    apply bind_Ok in Hk as (own & ? & (_ & _ & -> & ->)%hasOwn_Ok & Hk).
    destruct (has_own_val (heap sa) to k) eqn:Hown; simpl in Hk.
    + apply bind_Ok in Hk as (both & ? & [-> ->]%read_Ok & Hk).
      destruct (_ && _).
      * apply bind_Ok in Hk as (? & ? & Hrec & [_ ->]%ret_Ok).
        by apply IH in Hrec as [_ ?].
      * apply ret_Ok in Hk as [_ ->]. apply merge_effect_refl.
    + by eapply set_effect.
Qed.

(** The run of [mergeData] is the merge of the specification. *)
Lemma mergeData_deep_merged fuel to from s r s' :
  mergeData fuel to from s = Ok r s' → deep_merged to from s s'.
Proof.
  revert to from s r s'. induction fuel as [|fuel IH]; [done|].
  intros to from s r s'. simpl. unfold deep_merged.
  destruct (truthy from) eqn:Htr; simpl.
  2: { by intros [_ ->]%ret_Ok. }
  intros (keys & s0 & Hkeys & Hrun)%bind_Ok.
  assert (s0 = s ∧ keys = own_keys_val (heap s) from) as [-> ->].
  { destruct from; simpl in Hkeys; try done;
      apply read_Ok in Hkeys as [Hk1 Hk2]; by subst. }
  apply bind_Ok in Hrun as ([] & s1 & Hloop & [_ ->]%ret_Ok).
  revert Hloop. generalize (own_keys_val (heap s) from) as ks.
  clear Htr Hkeys.
  intros ks. revert s. induction ks as [|k ks IHks]; intros s; simpl.
  - intros [_ ->]%ret_Ok. constructor.
  - intros ([] & s2 & Hk & Hks)%bind_Ok. apply IHks in Hks.
    apply bind_Ok in Hk as (tv & ? & (Hu & Hn & -> & ->)%get_Ok & Hk).
    apply bind_Ok in Hk as (fv & ? & (_ & _ & -> & ->)%get_Ok & Hk).
    apply bind_Ok in Hk as (own & ? & (_ & _ & -> & ->)%hasOwn_Ok & Hk).
    destruct (has_own_val (heap s) to k) eqn:Hown; simpl in Hk.
    + apply bind_Ok in Hk as (both & ? & [-> ->]%read_Ok & Hk).
      destruct (_ && _) eqn:Hboth.
      * apply bind_Ok in Hk as (? & ? & Hrec & [_ ->]%ret_Ok).
        apply andb_true_iff in Hboth as [Hp1 Hp2].
        apply IH in Hrec. unfold deep_merged in Hrec.
        assert (truthy (get_val (heap s) from k) = true) as Htr.
        { by destruct (get_val (heap s) from k). }
        rewrite Htr in Hrec. by eapply dm_recurse.
      * apply ret_Ok in Hk as [_ ->]. by eapply dm_keep.
    + by eapply dm_install.
Qed.

Lemma mergeData_unfold fuel to from :
  mergeData (S fuel) to from =
  if negb (truthy from) then ret to
  else let! keys := object_keys from in
       forM_ keys (mergeData_body fuel to from);; ret to.
Proof. reflexivity. Qed.

Lemma forM_impl {A} (f g : A → M unit) xs s s' :
  (∀ x s s1, f x s = Ok tt s1 → g x s = Ok tt s1) →
  forM_ xs f s = Ok tt s' → forM_ xs g s = Ok tt s'.
Proof.
  intros Hfg. revert s. induction xs as [|x xs IH]; intros s; simpl; [done|].
  intros ([] & s1 & Hx & Hxs)%bind_Ok. apply bind_Ok.
  exists tt, s1. split; [by apply Hfg | by apply IH].
Qed.

Lemma mergeData_fuel_mono n m to from s r s' :
  n ≤ m → mergeData n to from s = Ok r s' → mergeData m to from s = Ok r s'.
Proof.
  revert m to from s r s'. induction n as [|n IH]; [done|].
  intros [|m] to from s r s' Hle; [lia|]. rewrite !mergeData_unfold.
  destruct (negb (truthy from)); [done|].
  intros (keys & s0 & Hkeys & Hrun)%bind_Ok.
  apply bind_Ok in Hrun as ([] & s1 & Hloop & Hret).
  apply bind_Ok. exists keys, s0. split; [done|].
  apply bind_Ok. exists tt, s1. split; [|done].
  eapply forM_impl; [|exact Hloop].
  clear -IH Hle. intros k s s1. unfold mergeData_body.
  intros (tv & sa & Ha & Hk)%bind_Ok. apply bind_Ok. exists tv, sa.
  split; [done|]. clear Ha.
  apply bind_Ok in Hk as (fv & sb & Hb & Hk). apply bind_Ok. exists fv, sb.
  split; [done|]. clear Hb.
  apply bind_Ok in Hk as (own & sc & Hc & Hk). apply bind_Ok. exists own, sc.
  split; [done|]. clear Hc.
  destruct (negb own); [done|].
  apply bind_Ok in Hk as (both & sd & Hd & Hk). apply bind_Ok. exists both, sd.
  split; [done|]. clear Hd.
  destruct both; [|done].
  apply bind_Ok in Hk as (v & se & He & Hk). apply bind_Ok. exists v, se.
  split; [|done]. apply IH; [lia|done].
Qed.

Lemma mergeData_body_Ok fuel to from k s s' :
  to ≠ VUndef → to ≠ VNull → from ≠ VUndef → from ≠ VNull →
  (if negb (has_own_val (heap s) to k)
   then set to k (get_val (heap s) from k)
   else if isPlainObject (heap s) (get_val (heap s) to k)
           && isPlainObject (heap s) (get_val (heap s) from k)
        then mergeData fuel (get_val (heap s) to k) (get_val (heap s) from k);;
             ret tt
        else ret tt) s = Ok tt s' →
  mergeData_body fuel to from k s = Ok tt s'.
Proof.
  intros Htu Htn Hfu Hfn Hrun. unfold mergeData_body.
  apply bind_Ok. eexists _, s. split; [by apply get_Ok|].
  apply bind_Ok. eexists _, s. split; [by apply get_Ok|].
  apply bind_Ok. eexists _, s. split; [by apply hasOwn_Ok|].
  destruct (negb _); [done|].
  apply bind_Ok. eexists _, s. split; [by apply read_Ok|]. done.
Qed.

Lemma data_merge_run to from ks s s' :
  data_merge to from ks s s' → from ≠ VUndef → from ≠ VNull →
  ∃ fuel, ∀ fuel', fuel ≤ fuel' →
    forM_ ks (mergeData_body fuel' to from) s = Ok tt s'.
Proof.
  induction 1 as [to from s
                 |to from k ks s s1 s2 Hown Hset _ IH
                 |to from k ks s s1 s2 Hu Hn Hown Hp1 Hp2 _ IHrec _ IH
                 |to from k ks s s2 Hu Hn Hown Hboth _ IH];
    intros Hfu Hfn.
  - by exists 0.
  - destruct (IH Hfu Hfn) as [fuel Hfuel]. exists fuel. intros fuel' Hle.
    rewrite forM_cons. apply bind_Ok. exists tt, s1.
    split; [|by apply Hfuel].
    apply set_Ok in Hset as Hset'. destruct Hset' as (l & _ & _ & -> & _).
    apply mergeData_body_Ok; try done. by rewrite Hown.
  - destruct (IH Hfu Hfn) as [fuel Hfuel].
    assert (∃ fl, get_val (heap s) from k = VRef fl) as [fl Hfv].
    { destruct (get_val (heap s) from k); try done. eauto. }
    destruct IHrec as [fuel1 Hfuel1]; [by rewrite Hfv..|].
    exists (fuel `max` S fuel1). intros fuel' Hle.
    rewrite forM_cons. apply bind_Ok. exists tt, s1.
    split; [|apply Hfuel; lia].
    apply mergeData_body_Ok; try done. rewrite Hown, Hp1, Hp2. cbn [negb andb].
    apply bind_Ok. exists (get_val (heap s) to k), s1. split; [|done].
    eapply (mergeData_fuel_mono (S fuel1)); [lia|].
    rewrite mergeData_unfold, Hfv. cbn [truthy negb]. rewrite <- Hfv.
    apply bind_Ok. exists (own_keys_val (heap s) (get_val (heap s) from k)), s.
    split; [by rewrite Hfv|].
    apply bind_Ok. exists tt, s1. split; [|done]. by apply Hfuel1.
  - destruct (IH Hfu Hfn) as [fuel Hfuel]. exists fuel. intros fuel' Hle.
    rewrite forM_cons. apply bind_Ok. exists tt, s.
    split; [|by apply Hfuel].
    apply mergeData_body_Ok; try done. by rewrite Hown, Hboth.
Qed.

(** Conversely, with enough fuel [mergeData] carries out every merge of the
    specification. *)
Lemma deep_merged_mergeData to from s s' :
  deep_merged to from s s' → ∃ fuel, mergeData fuel to from s = Ok to s'.
Proof.
  unfold deep_merged. destruct (truthy from) eqn:Htr.
  - intros Hm. destruct (data_merge_run _ _ _ _ _ Hm) as [fuel Hfuel].
    { by intros ->. } { by intros ->. }
    exists (S fuel). rewrite mergeData_unfold, Htr. simpl.
    apply bind_Ok. exists (own_keys_val (heap s) from), s. split.
    { destruct from; try done. }
    apply bind_Ok. exists tt, s'. split; [|done]. by apply Hfuel.
  - intros ->. exists 1. by rewrite mergeData_unfold, Htr.
Qed.

(** C2.  A run of the deep data merge that returns, returns its target and
    has processed every key of the source as the specification says
    ([deep_merged]: install through [set] when the target does not own the
    key, recurse when both values are plain mappings, leave the target
    untouched otherwise); no own property that exists before the merge
    changes its value, one registration is made for each property that is
    new, and more fuel gives the same run.  Conversely every merge of the
    specification, nested ones included, is carried out by the run with
    enough fuel.  Merging [{x: 1}] with [{x: 2, y: 3}] yields
    [{x: 1, y: 3}]. *)
Theorem mergeData_first_installed_wins to from s :
  (∀ fuel r s', mergeData fuel to from s = Ok r s' →
     r = to ∧
     deep_merged to from s s' ∧
     merge_effect s s' ∧
     (∀ l k v, own_lookup (obj_at (heap s) l) k = Some v →
               own_lookup (obj_at (heap s') l) k = Some v) ∧
     ∀ fuel', fuel ≤ fuel' → mergeData fuel' to from s = Ok r s') ∧
  (∀ s2, deep_merged to from s s2 →
         ∃ fuel, mergeData fuel to from s = Ok to s2).
Proof.
  split.
  - intros fuel r s' Hrun.
    destruct (mergeData_effect _ _ _ _ _ _ Hrun) as [-> Heff].
    split_and!; [done|by eapply mergeData_deep_merged|done|by apply Heff|].
    intros fuel' Hle. by eapply mergeData_fuel_mono.
  - intros s2. apply deep_merged_mergeData.
Qed.

Lemma mergeData_first_installed_wins_witness :
  (mergeData 1 (VRef 0) (VRef 1) data_state = Ok (VRef 0) data_merged_state ∧
   deep_merged (VRef 0) (VRef 1) data_state data_merged_state ∧
   merge_effect data_state data_merged_state) ∧
  (mergeData 1 (VRef 2) (VRef 3) nested_state = Err OutOfFuel ∧
   mergeData 2 (VRef 2) (VRef 3) nested_state
   = Ok (VRef 2) nested_merged_state ∧
   deep_merged (VRef 2) (VRef 3) nested_state nested_merged_state ∧
   merge_effect nested_state nested_merged_state ∧
   (∀ fuel', 2 ≤ fuel' →
      mergeData fuel' (VRef 2) (VRef 3) nested_state
      = Ok (VRef 2) nested_merged_state) ∧
   ∃ fuel, mergeData fuel (VRef 2) (VRef 3) nested_state
           = Ok (VRef 2) nested_merged_state).
Proof.
  assert (mergeData 1 (VRef 0) (VRef 1) data_state
          = Ok (VRef 0) data_merged_state) as Hflat.
  { vm_compute. reflexivity. }
  assert (mergeData 2 (VRef 2) (VRef 3) nested_state
          = Ok (VRef 2) nested_merged_state) as Hnested.
  { vm_compute. reflexivity. }
  destruct (mergeData_first_installed_wins (VRef 0) (VRef 1) data_state)
    as [Hret1 _].
  destruct (Hret1 _ _ _ Hflat) as (_ & Hd1 & He1 & _).
  destruct (mergeData_first_installed_wins (VRef 2) (VRef 3) nested_state)
    as [Hret2 Hconv2].
  destruct (Hret2 _ _ _ Hnested) as (_ & Hd2 & He2 & _ & Hmore).
  split; [by split_and!|].
  split_and!; [by vm_compute|done..|by apply Hconv2].
Defined.

(** * When the registration happens *)

Section Deferred.
Context (E : env).

Lemma mergeOptions_mono fuel parent child vm s r s' :
  mergeOptions E fuel parent child vm s = Ok r s' → mono s s'.
Proof.
  intros Hrun.
  eapply (spec_mergeOptions E (R := mono) (W := λ _, True));
    [done|apply mono_refl|exact Hrun].
Qed.

End Deferred.

(** C3 as stated fails.  The inputs carry data on both sides and the key [y]
    of the ancestor data is new to the instance data; when [mergeOptions]
    returns, nothing is registered and [y] is not installed: the [data]
    field of the result is a function, and the registration of [y] is made
    only when that function is called. *)
Lemma registration_before_return_counterexample :
  mergeOptions dev_env 1 (VRef 2) (VRef 3) (VRef 4) deferred_state
  = deferred_run ∧
  own_lookup (obj_at (heap deferred_state) 1) "y" = Some (VNum 3) ∧
  own_lookup (obj_at (heap deferred_state) 0) "y" = None ∧
  regs (state_of deferred_run) = [] ∧
  own_lookup (obj_at (heap (state_of deferred_run)) 0) "y" = None ∧
  is_function (heap (state_of deferred_run))
    (get_val (heap (state_of deferred_run))
       (result_of VUndef deferred_run) "data") = true ∧
  call_function dev_env 2
    (get_val (heap (state_of deferred_run))
       (result_of VUndef deferred_run) "data")
    (VRef 4) (state_of deferred_run) = deferred_call ∧
  regs (state_of deferred_call) = [(0, "y", VNum 3)].
Proof. vm_compute. by split_and!. Qed.

(** * Static merge of the data-bearing fields *)

Section Static.
Context (E : env).

Lemma state_eta s : State (heap s) (diags s) (regs s) = s.
Proof. by destruct s. Qed.

(** C4, amended.  In a static merge (no instance) of [data] or [provide]
    with exactly one operand present, the strategy returns that operand
    itself and allocates nothing: the result is a function only when the
    operand is one, and it is the plain mapping itself when the operand is a
    plain mapping.  The one exception is a child of [data] that is not a
    function: it is rejected with a diagnostic and the parent value, which
    is absent, is returned. *)
Theorem static_single_operand_is_returned
  (st : strategy) (parentVal childVal vm : value) (key : string) (s : state) :
  st = SData ∨ st = SProvide →
  truthy vm = false →
  truthy parentVal ≠ truthy childVal →
  apply_strat E (Some st) parentVal childVal vm key s =
  if match st with
     | SData => truthy childVal && negb (is_function (heap s) childVal)
     | _ => false
     end
  then Ok parentVal
         (State (heap s)
            (diags s ++ if dev E then [WarnDataNotFunction] else [])
            (regs s))
  else Ok (if truthy childVal then childVal else parentVal) s.
Proof.
  intros [-> | ->] Hvm Hone; simpl.
  - unfold strat_data, mergeDataOrFn. rewrite Hvm. simpl.
    unfold bind at 1, read at 1.
    destruct (truthy childVal) eqn:Hc; simpl.
    + destruct (is_function (heap s) childVal); simpl.
      * destruct (truthy parentVal); [done|]. done.
      * destruct (dev E); unfold bind, when, warn, ret; simpl; [done|].
        by rewrite app_nil_r, state_eta.
    + done.
  - unfold mergeDataOrFn. rewrite Hvm. simpl.
    destruct (truthy childVal) eqn:Hc; simpl; [|done].
    destruct (truthy parentVal); [done|]. done.
Qed.

End Static.

Lemma static_single_operand_is_returned_witness :
  (SProvide = SData ∨ SProvide = SProvide) ∧
  truthy VUndef = false ∧
  truthy VUndef ≠ truthy (VRef 0) ∧
  apply_strat dev_env (Some SProvide) VUndef (VRef 0) VUndef "provide"
    provide_state
  = Ok (VRef 0) provide_state.
Proof.
  assert (SProvide = SData ∨ SProvide = SProvide) as H1 by by right.
  assert (truthy VUndef = false) as H2 by reflexivity.
  assert (truthy VUndef ≠ truthy (VRef 0)) as H3 by (simpl; congruence).
  split_and!; [exact H1|exact H2|exact H3|].
  exact (static_single_operand_is_returned dev_env SProvide VUndef (VRef 0)
           VUndef "provide" provide_state H1 H2 H3).
Defined.

(** C4 as stated fails.  A static merge of [provide] with the child alone, a
    plain mapping, returns that mapping and not a function. *)
Lemma static_merge_wraps_counterexample :
  strats dev_env "provide" = Some SProvide ∧
  truthy VUndef = false ∧ truthy (VRef 0) = true ∧
  isPlainObject (heap provide_state) (VRef 0) = true ∧
  apply_strat dev_env (strats dev_env "provide") VUndef (VRef 0) VUndef
    "provide" provide_state = Ok (VRef 0) provide_state ∧
  is_function (heap provide_state) (VRef 0) = false.
Proof. vm_compute. by split_and!. Qed.

(** * Lifecycle hooks *)

Section Hooks.
Context (E : env).

(** C5, amended.  For a lifecycle hook whose parent value is absent or is an
    array (what the merge of an earlier level leaves): an absent child
    returns the parent unchanged; with the parent absent, a child that is
    an array is returned as it is and a bare child becomes a new
    one-element array; when both are present the result is a new array, the
    parent's sequence followed by the child's, a bare child counting as a
    one-element sequence. *)
Theorem mergeHook_parent_then_child
  (parentVal childVal vm : value) (key : string) (s : state) :
  hook_list (heap s) parentVal →
  apply_strat E (Some SHook) parentVal childVal vm key s =
  if negb (truthy childVal) then Ok parentVal s
  else if negb (truthy parentVal) && is_array (heap s) childVal
  then Ok childVal s
  else Ok (VRef (length (heap s)))
         (with_heap s
            (heap s ++ [Obj None
                          (CArray (hook_seq (heap s) parentVal
                                   ++ hook_seq (heap s) childVal)) []])).
Proof.
  intros Hp. simpl. unfold mergeHook.
  destruct (truthy childVal) eqn:Hc; simpl; [|done].
  destruct Hp as [Hp | (l & -> & Harr & Hcc)].
  - rewrite Hp. simpl. unfold bind, read.
    destruct (is_array (heap s) childVal) eqn:Ha; [done|].
    unfold new_array, bind, alloc, ret.
    replace (hook_seq (heap s) parentVal) with (@nil value)
      by (destruct parentVal; simpl in *; try done; by rewrite Hp).
    replace (hook_seq (heap s) childVal) with [childVal]; [done|].
    destruct childVal; simpl in *; try done; try by rewrite Hc.
    by destruct (cls _).
  - simpl in *. unfold bind at 1, read at 1. unfold bind at 1, read at 1.
    rewrite Hcc. destruct (cls (obj_at (heap s) l)) as [|xs| |]; try done.
    unfold bind at 1, read at 1.
    destruct childVal as [| | | | |p]; simpl in *; try done;
      try by rewrite Hc.
    by destruct (cls (obj_at (heap s) p)).
Qed.

End Hooks.

Lemma mergeHook_parent_then_child_witness :
  hook_list (heap hooks_state) (VRef 3) ∧
  hook_list (heap hooks_state) VUndef ∧
  (* resolve(hook, [a, b], c) == [a, b, c] *)
  apply_strat dev_env (Some SHook) (VRef 3) (VRef 2) VUndef "created"
    hooks_state
  = Ok (VRef 6)
      (with_heap hooks_state
         (heap hooks_state ++ [Obj None (CArray [VRef 0; VRef 1; VRef 2]) []]))
  ∧
  (* resolve(hook, undefined, [c]) == [c] *)
  apply_strat dev_env (Some SHook) VUndef (VRef 4) VUndef "created" hooks_state
  = Ok (VRef 4) hooks_state ∧
  (* resolve(hook, [a], undefined) == [a] *)
  apply_strat dev_env (Some SHook) (VRef 5) VUndef VUndef "created" hooks_state
  = Ok (VRef 5) hooks_state.
Proof.
  assert (hook_list (heap hooks_state) (VRef 3)) as H3.
  { right. exists 3. by split_and!. }
  assert (hook_list (heap hooks_state) (VRef 5)) as H5.
  { right. exists 5. by split_and!. }
  assert (hook_list (heap hooks_state) VUndef) as Hu by by left.
  split_and!; [exact H3|exact Hu|..].
  - exact (mergeHook_parent_then_child dev_env (VRef 3) (VRef 2) VUndef
             "created" hooks_state H3).
  - exact (mergeHook_parent_then_child dev_env VUndef (VRef 4) VUndef
             "created" hooks_state Hu).
  - exact (mergeHook_parent_then_child dev_env (VRef 5) VUndef VUndef
             "created" hooks_state H5).
Defined.

(** C5 as stated fails.  A parent value that is a bare callable is not
    turned into a one-element sequence: merging it with a child aborts with
    a type error, the callable having no [concat]. *)
Lemma mergeHook_bare_parent_counterexample :
  is_function (heap hooks_state) (VRef 0) = true ∧
  is_function (heap hooks_state) (VRef 1) = true ∧
  strats dev_env "created" = Some SHook ∧
  apply_strat dev_env (strats dev_env "created") (VRef 0) (VRef 1) VUndef
    "created" hooks_state
  = Err (TypeError "concat is not a function").
Proof. vm_compute. by split_and!. Qed.

(** * Mixins *)

Section Mixins.
Context (E : env).

(** Merging a mixin [{a: v}] on top of a parent. *)
Lemma mergeOptions_mixin_level fuel parent m v vm s r s' :
  strats E "a" = None → v ≠ VUndef →
  value_ok (heap s) parent →
  heap s !! m = Some (Obj None CPlain [("a", v)]) →
  mergeOptions E fuel parent (VRef m) vm s = Ok r s' →
  ∃ o oo, r = VRef o ∧ heap s' !! o = Some oo ∧ own_lookup oo "a" = Some v ∧
    length (heap s) ≤ length (heap s') ∧
    ∀ l, l < length (heap s) → l ≠ m → heap s' !! l = heap s !! l.
Proof.
  intros Hst Hv Hok Hm Hrun. destruct fuel as [|fuel]; [done|].
  rewrite (mergeOptions_plain_child E _ _ _ _ _ _ Hm) in Hrun
    by (repeat constructor).
  assert (m < length (heap s)) as Hml by by eapply lookup_lt_Some.
  pose proof (normalized_child_lookup_eq s m [("a", v)] Hml) as Hm'.
  rewrite run_bind_get in Hrun by done.
  rewrite (get_val_plain _ _ _ _ Hm') in Hrun. simpl in Hrun.
  rewrite run_bind_ret in Hrun.
  set (s2 := normalized_child s m [("a", v)]) in *.
  destruct (mergeFields_result E _ _ _ _ _ _ Hrun) as [_ Hlen].
  pose proof (mergeFields_frame E _ _ _ _ _ _ Hrun) as (_ & _ & _ & Hh).
  destruct (mergeFields_default_child E parent m _ "a" v vm s2 r s'
              Hst ltac:(done)
              ltac:(intros l ->; specialize (Hok l eq_refl); subst s2;
                    rewrite normalized_child_length; lia)
              Hm' ltac:(reflexivity) Hv Hrun)
    as (-> & oo & Hoo & Hres).
  exists (length (heap s2)), oo. split_and!; [done..| |].
  - subst s2. rewrite normalized_child_length in Hlen. lia.
  - intros l Hl Hne. rewrite Hh.
    + subst s2. by apply normalized_child_lookup_ne.
    + subst s2. rewrite normalized_child_length. lia.
Qed.

(** The value of [a] after [mergeOptions(P, {mixins: [M1, M2], a: 3})], or
    after the same call without the child's own [a], when the run returns. *)
Lemma mergeOptions_mixins_value
  (fuel : nat) (P vm : value) (c a m1 m2 : loc) (own : bool)
  (s : state) (r : value) (s' : state) :
  strats E "a" = None →
  value_ok (heap s) P →
  heap s !! m1 = Some (Obj None CPlain [("a", VNum 1)]) →
  heap s !! m2 = Some (Obj None CPlain [("a", VNum 2)]) →
  heap s !! a = Some (Obj None (CArray [VRef m1; VRef m2]) []) →
  heap s !! c = Some (Obj None CPlain
                        (("mixins", VRef a)
                         :: if own then [("a", VNum 3)] else [])) →
  mergeOptions E fuel P (VRef c) vm s = Ok r s' →
  get_val (heap s') r "a" = VNum (if own then 3 else 2).
Proof.
  intros Hst Hok Hm1 Hm2 Ha Hc Hrun. destruct fuel as [|fuel]; [done|].
  assert (c ≠ m1 ∧ c ≠ m2 ∧ c ≠ a ∧ m1 ≠ m2) as (Hcm1 & Hcm2 & Hca & Hm12).
  { split_and!; intros ->.
    - rewrite Hm1 in Hc. discriminate Hc.
    - rewrite Hm2 in Hc. discriminate Hc.
    - rewrite Ha in Hc. discriminate Hc.
    - rewrite Hm2 in Hm1. discriminate Hm1. }
  set (ps := ("mixins", VRef a) :: if own then [("a", VNum 3)] else []) in *.
  rewrite (mergeOptions_plain_child E _ _ _ _ _ _ Hc) in Hrun
    by (subst ps; destruct own; repeat constructor).
  assert (c < length (heap s) ∧ a < length (heap s) ∧
          m1 < length (heap s) ∧ m2 < length (heap s))
    as (Hcl & Hal & Hm1l & Hm2l).
  { split_and!; by eapply lookup_lt_Some. }
  set (s2 := normalized_child s c ps) in *.
  pose proof (normalized_child_lookup_eq s c ps Hcl) as Hc2. fold s2 in Hc2.
  pose proof (normalized_child_length s c ps) as Hlen2. fold s2 in Hlen2.
  assert (∀ l, l ≠ c → l < length (heap s) → heap s2 !! l = heap s !! l)
    as Hne2 by (intros; by apply normalized_child_lookup_ne).
  (* the mixin list *)
  rewrite run_bind_get in Hrun by done.
  rewrite (get_val_plain _ _ _ _ Hc2) in Hrun.
  change (default VUndef (alist_get "mixins" (ps ++ _))) with (VRef a) in Hrun.
  cbn [truthy] in Hrun.
  rewrite run_bind_bind, run_bind_get in Hrun by done.
  erewrite get_val_array_length in Hrun;
    [|by rewrite Hne2 by (done || lia)|done].
  rewrite run_bind_bind in Hrun. cbn [count_of length] in Hrun.
  rewrite run_bind_ret in Hrun.
  change (seq 0 (Z.to_nat (Z.of_nat 2))) with [0; 1] in Hrun.
  cbn [foldM] in Hrun.
  (* the first mixin *)
  rewrite !run_bind_bind, run_bind_get in Hrun by done.
  rewrite (get_val_plain _ _ _ _ Hc2) in Hrun.
  change (default VUndef (alist_get "mixins" (ps ++ _))) with (VRef a) in Hrun.
  rewrite ?run_bind_bind, run_bind_get in Hrun by done.
  erewrite get_val_array_index in Hrun;
    [|by rewrite Hne2 by (done || lia)|reflexivity|reflexivity].
  apply bind_Ok in Hrun as (p1 & s3 & Hrun1 & Hrun).
  destruct (mergeOptions_mixin_level fuel P m1 (VNum 1) vm s2 p1 s3 Hst
              ltac:(done)
              ltac:(intros l ->; specialize (Hok l eq_refl); lia)
              ltac:(by rewrite Hne2 by (done || lia)) Hrun1)
    as (o1 & oo1 & -> & Ho1 & Ha1 & Hlen3 & Hne3).
  (* the second mixin *)
  rewrite !run_bind_bind, run_bind_get in Hrun by done.
  assert (heap s3 !! c = heap s2 !! c) as Hc3 by (apply Hne3; [lia|done]).
  rewrite Hc2 in Hc3.
  rewrite (get_val_plain _ _ _ _ Hc3) in Hrun.
  change (default VUndef (alist_get "mixins" (ps ++ _))) with (VRef a) in Hrun.
  rewrite ?run_bind_bind, run_bind_get in Hrun by done.
  erewrite get_val_array_index in Hrun;
    [|rewrite Hne3, Hne2 by (done || lia || congruence); exact Ha
     |reflexivity|reflexivity].
  apply bind_Ok in Hrun as (p2 & s4 & Hrun2 & Hrun).
  destruct (mergeOptions_mixin_level fuel (VRef o1) m2 (VNum 2) vm s3 p2 s4
              Hst ltac:(done)
              ltac:(intros l [= <-]; by eapply lookup_lt_Some)
              ltac:(by rewrite Hne3, Hne2 by (done || lia)) Hrun2)
    as (o2 & oo2 & -> & Ho2 & Ha2 & Hlen4 & Hne4).
  (* the fields of the child itself *)
  cbn [foldM] in Hrun. rewrite run_bind_ret in Hrun.
  assert (heap s4 !! c = heap s3 !! c) as Hc4 by (apply Hne4; [lia|done]).
  rewrite Hc3 in Hc4.
  destruct own.
  - destruct (mergeFields_default_child E (VRef o2) c _ "a" (VNum 3) vm s4 r s'
                Hst ltac:(done)
                ltac:(intros l [= <-]; by eapply lookup_lt_Some)
                Hc4 ltac:(reflexivity) ltac:(done) Hrun)
      as (-> & oo & Hoo & Hres).
    by eapply get_val_own.
  - destruct (mergeFields_default_parent E o2 oo2 c _ "a" (VNum 2) vm s4 r s'
                Hst ltac:(done) Ho2 Ha2 Hc4 ltac:(reflexivity) Hrun)
      as (-> & oo & Hoo & Hres).
    by eapply get_val_own.
Qed.


Lemma strats_inject : strats E "inject" = Some SObjectHash.
Proof. reflexivity. Qed.

(** Normalising a child leaves a parent mapping a mapping, with one more
    field, [inject], when the parent is the child itself. *)
Lemma normalized_child_total s c ps parent :
  heap s !! c = Some (Obj None CPlain ps) →
  is_mapping (heap s) parent →
  (∀ k, k ∈ forin_keys (heap s) parent → total_strategy (strats E k) = true) →
  is_mapping (heap (normalized_child s c ps)) parent ∧
  ∀ k, k ∈ forin_keys (heap (normalized_child s c ps)) parent →
       total_strategy (strats E k) = true.
Proof.
  intros Hc (p & po & -> & Hp & Hpp & Hpc) Htot.
  assert (c < length (heap s)) as Hcl by by eapply lookup_lt_Some.
  destruct (decide (p = c)) as [->|Hne].
  - pose proof (normalized_child_lookup_eq s c ps Hcl) as Hc'.
    split; [eexists c, _; by split_and!|].
    intros k Hk. rewrite (forin_keys_plain _ _ _ Hc') in Hk.
    apply elem_of_own_keys in Hk. unfold own_lookup in Hk.
    cbn [cls props] in Hk. rewrite alist_get_app in Hk.
    destruct (alist_get k ps) as [x|] eqn:Hg.
    + apply Htot. rewrite (forin_keys_plain _ _ _ Hc).
      apply elem_of_own_keys. unfold own_lookup. cbn [cls props].
      by rewrite Hg.
    + cbn [alist_get] in Hk.
      revert Hk; destruct (String.eqb_spec "inject" k) as [<-|_]; intros Hk;
        [by rewrite strats_inject|by destruct Hk].
  - pose proof (normalized_child_lookup_ne s c ps p Hne
                  ltac:(by eapply lookup_lt_Some)) as Hp'.
    rewrite Hp in Hp'. split; [exists p, po; by split_and!|].
    intros k Hk. apply Htot.
    by rewrite (forin_keys_no_proto _ _ _ Hp' Hpp) in Hk;
      rewrite (forin_keys_no_proto _ _ _ Hp Hpp).
Qed.

(** Merging a mixin [{a: v}] on top of a mapping whose fields have
    strategies of the total kind returns such a mapping. *)
Lemma mergeOptions_mixin_level_returns fuel parent m v vm s :
  strats E "a" = None →
  is_mapping (heap s) parent →
  (∀ k, k ∈ forin_keys (heap s) parent → total_strategy (strats E k) = true) →
  heap s !! m = Some (Obj None CPlain [("a", v)]) →
  ∃ o s', mergeOptions E (S fuel) parent (VRef m) vm s = Ok (VRef o) s' ∧
    is_mapping (heap s') (VRef o) ∧
    ∀ k, k ∈ forin_keys (heap s') (VRef o) →
         total_strategy (strats E k) = true.
Proof.
  intros Hst Hmap Htot Hm.
  rewrite (mergeOptions_plain_child E _ _ _ _ _ _ Hm) by (repeat constructor).
  assert (m < length (heap s)) as Hml by by eapply lookup_lt_Some.
  pose proof (normalized_child_lookup_eq s m [("a", v)] Hml) as Hm'.
  destruct (normalized_child_total s m _ parent Hm Hmap Htot)
    as [Hmap2 Htot2].
  set (s2 := normalized_child s m [("a", v)]) in *.
  rewrite run_bind_get by done.
  rewrite (get_val_plain _ _ _ _ Hm').
  change (default VUndef (alist_get "mixins" _)) with VUndef.
  cbn [truthy]. rewrite run_bind_ret.
  assert (∀ k, k ∈ forin_keys (heap s2) parent ∨
               k ∈ forin_keys (heap s2) (VRef m) →
               total_strategy (strats E k) = true) as Hall.
  { intros k [Hk|Hk]; [by apply Htot2|].
    rewrite (forin_keys_plain _ _ _ Hm') in Hk.
    apply elem_of_own_keys in Hk. unfold own_lookup in Hk.
    cbn [cls props app alist_get] in Hk.
    revert Hk; destruct (String.eqb_spec "a" k) as [<-|_]; intros Hk;
      [by rewrite Hst|].
    revert Hk; destruct (String.eqb_spec "inject" k) as [<-|_]; intros Hk;
      [by rewrite strats_inject|by destruct Hk]. }
  destruct (mergeFields_returns_total E parent (VRef m) vm s2 Hmap2
              ltac:(eexists m, _; by split_and!) Hall)
    as (o & s' & Hrun & Hmo & Hkeys).
  exists o, s'. split_and!; [done..|]. intros k Hk. by apply Hall, Hkeys.
Qed.

(** [mergeOptions(P, {mixins: [M1, M2], a: 3})], with or without the child's
    own [a], returns when [P] is a mapping whose fields, like [mixins], have
    strategies of the total kind. *)
Lemma mergeOptions_mixins_returns
  (fuel : nat) (P vm : value) (c a m1 m2 : loc) (own : bool) (s : state) :
  strats E "a" = None →
  total_strategy (strats E "mixins") = true →
  is_mapping (heap s) P →
  (∀ k, k ∈ forin_keys (heap s) P → total_strategy (strats E k) = true) →
  heap s !! m1 = Some (Obj None CPlain [("a", VNum 1)]) →
  heap s !! m2 = Some (Obj None CPlain [("a", VNum 2)]) →
  heap s !! a = Some (Obj None (CArray [VRef m1; VRef m2]) []) →
  heap s !! c = Some (Obj None CPlain
                        (("mixins", VRef a)
                         :: if own then [("a", VNum 3)] else [])) →
  ∃ r s', mergeOptions E (S (S fuel)) P (VRef c) vm s = Ok r s'.
Proof.
  intros Hst Hmix Hmap Htot Hm1 Hm2 Ha Hc.
  assert (c ≠ m1 ∧ c ≠ m2 ∧ c ≠ a ∧ m1 ≠ m2) as (Hcm1 & Hcm2 & Hca & Hm12).
  { split_and!; intros ->.
    - rewrite Hm1 in Hc. discriminate Hc.
    - rewrite Hm2 in Hc. discriminate Hc.
    - rewrite Ha in Hc. discriminate Hc.
    - rewrite Hm2 in Hm1. discriminate Hm1. }
  set (ps := ("mixins", VRef a) :: if own then [("a", VNum 3)] else []) in *.
  rewrite (mergeOptions_plain_child E _ _ _ _ _ _ Hc)
    by (subst ps; destruct own; repeat constructor).
  assert (c < length (heap s) ∧ a < length (heap s) ∧
          m1 < length (heap s) ∧ m2 < length (heap s))
    as (Hcl & Hal & Hm1l & Hm2l).
  { split_and!; by eapply lookup_lt_Some. }
  destruct (normalized_child_total s c ps P Hc Hmap Htot) as [Hmap2 Htot2].
  set (s2 := normalized_child s c ps) in *.
  pose proof (normalized_child_lookup_eq s c ps Hcl) as Hc2. fold s2 in Hc2.
  pose proof (normalized_child_length s c ps) as Hlen2. fold s2 in Hlen2.
  assert (∀ l, l ≠ c → l < length (heap s) → heap s2 !! l = heap s !! l)
    as Hne2 by (intros; by apply normalized_child_lookup_ne).
  (* the mixin list *)
  rewrite run_bind_get by done.
  rewrite (get_val_plain _ _ _ _ Hc2).
  change (default VUndef (alist_get "mixins" (ps ++ _))) with (VRef a).
  cbn [truthy].
  rewrite run_bind_bind, run_bind_get by done.
  erewrite get_val_array_length; [|by rewrite Hne2 by (done || lia)|done].
  rewrite run_bind_bind. cbn [count_of length].
  rewrite run_bind_ret.
  change (seq 0 (Z.to_nat (Z.of_nat 2))) with [0; 1].
  cbn [foldM].
  (* the first mixin *)
  rewrite !run_bind_bind, run_bind_get by done.
  rewrite (get_val_plain _ _ _ _ Hc2).
  change (default VUndef (alist_get "mixins" (ps ++ _))) with (VRef a).
  rewrite ?run_bind_bind, run_bind_get by done.
  erewrite get_val_array_index;
    [|by rewrite Hne2 by (done || lia)|reflexivity|reflexivity].
  destruct (mergeOptions_mixin_level_returns fuel P m1 (VNum 1) vm s2 Hst
              Hmap2 Htot2 ltac:(by rewrite Hne2 by (done || lia)))
    as (o1 & s3 & Hrun1 & Hmap3 & Htot3).
  assert (value_ok (heap s2) P) as Hok2.
  { destruct Hmap2 as (p & po & -> & Hp & _). intros ? [= <-].
    by eapply lookup_lt_Some. }
  destruct (mergeOptions_mixin_level (S fuel) P m1 (VNum 1) vm s2 _ s3 Hst
              ltac:(done) Hok2
              ltac:(by rewrite Hne2 by (done || lia)) Hrun1)
    as (_ & _ & _ & _ & _ & Hlen3 & Hne3).
  rewrite (run_bind_Ok _ _ _ _ _ Hrun1).
  (* the second mixin *)
  rewrite !run_bind_bind, run_bind_get by done.
  assert (heap s3 !! c = heap s2 !! c) as Hc3 by (apply Hne3; [lia|done]).
  rewrite Hc2 in Hc3.
  rewrite (get_val_plain _ _ _ _ Hc3).
  change (default VUndef (alist_get "mixins" (ps ++ _))) with (VRef a).
  rewrite ?run_bind_bind, run_bind_get by done.
  erewrite get_val_array_index;
    [|rewrite Hne3, Hne2 by (done || lia || congruence); exact Ha
     |reflexivity|reflexivity].
  destruct (mergeOptions_mixin_level_returns fuel (VRef o1) m2 (VNum 2) vm s3
              Hst Hmap3 Htot3
              ltac:(by rewrite Hne3, Hne2 by (done || lia)))
    as (o2 & s4 & Hrun2 & Hmap4 & Htot4).
  assert (value_ok (heap s3) (VRef o1)) as Hok3.
  { destruct Hmap3 as (p & po & [= <-] & Hp & _). intros ? [= <-].
    by eapply lookup_lt_Some. }
  destruct (mergeOptions_mixin_level (S fuel) (VRef o1) m2 (VNum 2) vm s3 _ s4
              Hst ltac:(done) Hok3
              ltac:(by rewrite Hne3, Hne2 by (done || lia)) Hrun2)
    as (_ & _ & _ & _ & _ & Hlen4 & Hne4).
  rewrite (run_bind_Ok _ _ _ _ _ Hrun2).
  (* the fields of the child itself *)
  cbn [foldM]. rewrite run_bind_ret.
  assert (heap s4 !! c = heap s3 !! c) as Hc4 by (apply Hne4; [lia|done]).
  rewrite Hc3 in Hc4.
  destruct (mergeFields_returns_total E (VRef o2) (VRef c) vm s4 Hmap4
              ltac:(eexists c, _; by split_and!)) as (o & s' & Hrun & _).
  { intros k [Hk|Hk]; [by apply Htot4|].
    rewrite (forin_keys_plain _ _ _ Hc4) in Hk.
    apply elem_of_own_keys in Hk. unfold own_lookup in Hk.
    cbn [cls props] in Hk. rewrite alist_get_app in Hk. subst ps.
    cbn [alist_get] in Hk.
    revert Hk; destruct (String.eqb_spec "mixins" k) as [<-|_]; intros Hk;
      [done|].
    destruct own; cbn [alist_get] in Hk.
    - revert Hk; destruct (String.eqb_spec "a" k) as [<-|_]; intros Hk;
        [by rewrite Hst|].
      revert Hk; destruct (String.eqb_spec "inject" k) as [<-|_]; intros Hk;
        [by rewrite strats_inject|by destruct Hk].
    - revert Hk; destruct (String.eqb_spec "inject" k) as [<-|_]; intros Hk;
        [by rewrite strats_inject|by destruct Hk]. }
  eauto.
Qed.

(** C7.  For [mergeOptions(P, {mixins: [M1, M2], a: 3})] with [M1 = {a: 1}],
    [M2 = {a: 2}] and no strategy registered for [a]: whatever [P] holds, a
    run that returns resolves [a] to 3, and to 2 when the child omits [a];
    and the run does return, with this value, when [P] is a mapping whose
    fields, like [mixins], have strategies that never abort (every strategy
    but the ones of hooks, assets and [watch]). *)
Theorem mixin_order_tie_break
  (fuel : nat) (P vm : value) (c a m1 m2 : loc) (own : bool) (s : state) :
  strats E "a" = None →
  value_ok (heap s) P →
  heap s !! m1 = Some (Obj None CPlain [("a", VNum 1)]) →
  heap s !! m2 = Some (Obj None CPlain [("a", VNum 2)]) →
  heap s !! a = Some (Obj None (CArray [VRef m1; VRef m2]) []) →
  heap s !! c = Some (Obj None CPlain
                        (("mixins", VRef a)
                         :: if own then [("a", VNum 3)] else [])) →
  (∀ r s', mergeOptions E fuel P (VRef c) vm s = Ok r s' →
           get_val (heap s') r "a" = VNum (if own then 3 else 2)) ∧
  (is_mapping (heap s) P →
   (∀ k, k ∈ forin_keys (heap s) P → total_strategy (strats E k) = true) →
   total_strategy (strats E "mixins") = true →
   2 ≤ fuel →
   ∃ r s', mergeOptions E fuel P (VRef c) vm s = Ok r s' ∧
           get_val (heap s') r "a" = VNum (if own then 3 else 2)).
Proof.
  intros Hst Hok Hm1 Hm2 Ha Hc.
  assert (∀ r s', mergeOptions E fuel P (VRef c) vm s = Ok r s' →
            get_val (heap s') r "a" = VNum (if own then 3 else 2)) as Hval.
  { intros r s' Hrun. by eapply mergeOptions_mixins_value. }
  split; [exact Hval|]. intros Hmap Htot Hmix Hfuel.
  destruct fuel as [|[|fuel]]; [lia..|].
  destruct (mergeOptions_mixins_returns fuel P vm c a m1 m2 own s
              Hst Hmix Hmap Htot Hm1 Hm2 Ha Hc) as (r & s' & Hrun).
  exists r, s'. split; [exact Hrun|by apply Hval].
Qed.

End Mixins.

Lemma mixin_order_tie_break_witness :
  strats dev_env "a" = None ∧
  value_ok (heap mixins_state) (VRef 0) ∧
  is_mapping (heap mixins_state) (VRef 0) ∧
  (∀ k, k ∈ forin_keys (heap mixins_state) (VRef 0) →
        total_strategy (strats dev_env k) = true) ∧
  (∃ r s',
     mergeOptions dev_env 2 (VRef 0) (VRef 4) VUndef mixins_state = Ok r s' ∧
     get_val (heap s') r "a" = VNum 3) ∧
  (∃ r s',
     mergeOptions dev_env 2 (VRef 0) (VRef 5) VUndef mixins_state = Ok r s' ∧
     get_val (heap s') r "a" = VNum 2) ∧
  get_val (heap (state_of mixins_run_own)) (result_of VUndef mixins_run_own)
    "a" = VNum 3 ∧
  get_val (heap (state_of mixins_run_omitted))
    (result_of VUndef mixins_run_omitted) "a" = VNum 2.
Proof.
  assert (strats dev_env "a" = None) as Hst by reflexivity.
  assert (value_ok (heap mixins_state) (VRef 0)) as Hok.
  { intros l [= <-]. simpl. lia. }
  assert (is_mapping (heap mixins_state) (VRef 0)) as Hmap.
  { eexists 0, _. by split_and!. }
  assert (∀ k, k ∈ forin_keys (heap mixins_state) (VRef 0) →
               total_strategy (strats dev_env k) = true) as Htot.
  { intros k Hk. vm_compute in Hk. apply list_elem_of_singleton in Hk as ->.
    reflexivity. }
  assert (mergeOptions dev_env 2 (VRef 0) (VRef 4) VUndef mixins_state
          = Ok (result_of VUndef mixins_run_own) (state_of mixins_run_own))
    as Hrun1 by (vm_compute; reflexivity).
  assert (mergeOptions dev_env 2 (VRef 0) (VRef 5) VUndef mixins_state
          = Ok (result_of VUndef mixins_run_omitted)
              (state_of mixins_run_omitted))
    as Hrun2 by (vm_compute; reflexivity).
  pose proof (mixin_order_tie_break dev_env 2 (VRef 0) VUndef 4 3 1 2 true
                mixins_state Hst Hok eq_refl eq_refl eq_refl eq_refl)
    as [Hval1 Hret1].
  pose proof (mixin_order_tie_break dev_env 2 (VRef 0) VUndef 5 3 1 2 false
                mixins_state Hst Hok eq_refl eq_refl eq_refl eq_refl)
    as [Hval2 Hret2].
  split_and!; [exact Hst|exact Hok|exact Hmap|exact Htot| | | |].
  - exact (Hret1 Hmap Htot eq_refl ltac:(lia)).
  - exact (Hret2 Hmap Htot eq_refl ltac:(lia)).
  - exact (Hval1 _ _ Hrun1).
  - exact (Hval2 _ _ Hrun2).
Defined.

(** * The injection entry *)

Lemma obj_set_named o k x :
  index_of_key k = None → k ≠ "length" →
  obj_set o k x = Some (Obj (proto o) (cls o) (alist_set k x (props o))).
Proof.
  intros Hi Hk. apply String.eqb_neq in Hk. unfold obj_set.
  destruct (cls o); try done. by rewrite Hi, Hk.
Qed.

Lemma foldM_inv {A B} (I : B → state → Prop) (f : B → A → M B) xs b s b' s' :
  I b s →
  (∀ b x s b' s', I b s → f b x s = Ok b' s' → I b' s') →
  foldM f b xs s = Ok b' s' → I b' s'.
Proof.
  intros HI Hf. revert b s HI. induction xs as [|x xs IH]; intros b s HI; simpl.
  - by intros [-> ->]%ret_Ok.
  - intros (b1 & s1 & H1 & Hrest)%bind_Ok. eapply IH; [|exact Hrest]. eauto.
Qed.

Lemma count_of_state v s n s' : count_of v s = Ok n s' → s' = s.
Proof.
  destruct v as [| |[]| | |]; simpl; try done; by intros [_ ->]%ret_Ok.
Qed.

Lemma value_ok_mono h h' v :
  value_ok h v → length h ≤ length h' → value_ok h' v.
Proof. intros Hok Hlen l Hl. specialize (Hok l Hl). lia. Qed.

Section Inject.
Context (E : env).

Lemma mergeOptions_result_ok fuel parent child vm s r s' :
  mergeOptions E fuel parent child vm s = Ok r s' → value_ok (heap s') r.
Proof.
  intros (p & c & sm & Hrun)%mergeOptions_mergeFields.
  apply mergeFields_result in Hrun as [-> Hlen]. by intros l [= <-].
Qed.

(** The state in which [mergeOptions] starts to merge the fields. *)
Lemma mergeOptions_Ok fuel parent child vm s r s' :
  mergeOptions E (S fuel) parent child vm s = Ok r s' →
  ∃ child' s1 s2 s3 parent',
    mono s s1 ∧
    normalizeInject E child' vm s1 = Ok tt s2 ∧
    mono s2 s3 ∧
    (value_ok (heap s) parent → value_ok (heap s3) parent') ∧
    mergeFields E parent' child' vm s3 = Ok r s'.
Proof.
  rewrite mergeOptions_unfold. intros Hrun.
  apply bind_Ok in Hrun as ([] & sa & Hcheck & Hrun).
  apply bind_Ok in Hrun as (isf & ? & [-> ->]%read_Ok & Hrun).
  apply bind_Ok in Hrun as (child' & sb & Hchild & Hrun).
  apply bind_Ok in Hrun as ([] & sc & Hprops & Hrun).
  apply bind_Ok in Hrun as ([] & sd & Hinj & Hrun).
  apply bind_Ok in Hrun as ([] & se & Hdirs & Hrun).
  apply bind_Ok in Hrun as (ext & ? & (_ & _ & -> & ->)%get_Ok & Hrun).
  apply bind_Ok in Hrun as (parent1 & sf & Hext & Hrun).
  apply bind_Ok in Hrun as (mixins & ? & (_ & _ & -> & ->)%get_Ok & Hrun).
  apply bind_Ok in Hrun as (parent2 & sg & Hmix & Hrun).
  assert (mono s sa) as Hm1.
  { eapply (spec_run mono); [|apply mono_refl|exact Hcheck].
    apply spec_when; [|done].
    by apply (spec_checkComponents E (W := λ _, True)). }
  assert (sb = sa) as ->.
  { destruct (is_function _ _).
    - by apply get_Ok in Hchild as (_ & _ & _ & ->).
    - by apply ret_Ok in Hchild as [_ ->]. }
  assert (mono sa sc) as Hm2.
  { eapply (spec_run mono); [|apply mono_refl|exact Hprops].
    by apply (spec_normalizeProps E (W := λ _, True)). }
  assert (mono sd se) as Hm3.
  { eapply (spec_run mono); [|apply mono_refl|exact Hdirs].
    by apply (spec_normalizeDirectives (W := λ _, True)). }
  assert (mono sc sd) as Hm23.
  { eapply (spec_run mono); [|apply mono_refl|exact Hinj].
    by apply (spec_normalizeInject E (W := λ _, True)). }
  assert (mono se sf ∧ (value_ok (heap s) parent → value_ok (heap sf) parent1))
    as [Hm4 Hok4].
  { match type of Hext with context [truthy ?v] => destruct (truthy v) end.
    - split; [by eapply mergeOptions_mono|].
      intros _. by eapply mergeOptions_result_ok.
    - apply ret_Ok in Hext as [-> ->]. split; [apply mono_refl|].
      intros Hok. eapply value_ok_mono; [done|].
      destruct Hm1 as [? _], Hm2 as [? _], Hm23 as [? _], Hm3 as [? _]. lia. }
  assert (mono sf sg ∧ (value_ok (heap sf) parent1 → value_ok (heap sg) parent2))
    as [Hm5 Hok5].
  { match type of Hmix with context [truthy ?v] => destruct (truthy v) end.
    - apply bind_Ok in Hmix as (len & ? & (_ & _ & -> & ->)%get_Ok & Hmix).
      apply bind_Ok in Hmix as (n & sf' & Hn & Hmix).
      apply count_of_state in Hn as ->.
      cut (mono sf sg ∧ (value_ok (heap sf) parent1
                         → value_ok (heap sg) parent2)); [done|].
      eapply (foldM_inv (λ b st, mono sf st ∧
                (value_ok (heap sf) parent1 → value_ok (heap st) b)));
        [| |exact Hmix].
      + split; [apply mono_refl|done].
      + intros b i st b' st' [Hmono Hok] Hstep.
        apply bind_Ok in Hstep as (ms & ? & (_ & _ & -> & ->)%get_Ok & Hstep).
        apply bind_Ok in Hstep as (m & ? & (_ & _ & -> & ->)%get_Ok & Hstep).
        split.
        * eapply (frame_trans (R := mono)); [exact Hmono|].
          by eapply mergeOptions_mono.
        * intros _. by eapply mergeOptions_result_ok.
    - apply ret_Ok in Hmix as [-> ->]. split; [apply mono_refl|done]. }
  exists child', sc, sd, sg, parent2. split_and!.
  - by eapply (frame_trans (R := mono)).
  - done.
  - eapply (frame_trans (R := mono)); [exact Hm3|].
    by eapply (frame_trans (R := mono)).
  - auto.
  - done.
Qed.

(** [normalizeInject] stores a new plain mapping under [inject]. *)
Lemma normalizeInject_fresh options vm s s' :
  value_ok (heap s) options →
  normalizeInject E options vm s = Ok tt s' →
  ∃ l fresh,
    options = VRef l ∧
    own_lookup (obj_at (heap s') l) "inject" = Some (VRef (length (heap s))) ∧
    heap s !! length (heap s) = None ∧
    heap s' !! length (heap s) = Some fresh ∧
    cls fresh = CPlain ∧ proto fresh = None.
Proof.
  intros Hok Hrun. unfold normalizeInject in Hrun.
  apply bind_Ok in Hrun as (inject & ? & (_ & _ & -> & ->)%get_Ok & Hrun).
  rewrite run_bind_new_object in Hrun.
  apply bind_Ok in Hrun as ([] & sb & Hset & Hrun).
  apply set_prop_Ok in Hset as (l & o & o' & -> & Hl & Hset & ->).
  simpl in Hl. specialize (Hok l eq_refl).
  set (n := length (heap s)) in *.
  set (sb := with_heap _ _) in Hrun.
  assert (heap sb !! l = Some o') as Hlb.
  { subst sb. simpl. apply list_lookup_insert_eq. rewrite length_app. lia. }
  assert (heap sb !! n = Some (Obj None CPlain [])) as Hnb.
  { subst sb. simpl. rewrite list_lookup_insert_ne by lia.
    by apply list_lookup_middle. }
  assert (frame_on (λ x, x = l) sb s') as (_ & _ & _ & Hh).
  { eapply (spec_run (frame_on _)); [| |exact Hrun].
    - assert (writable (λ x, ¬ x = l) (VRef n)) as Hw.
      { intros ? [= <-]. lia. }
      spec_go.
    - apply frame_on_refl. intros ? ->. by eapply lookup_lt_Some. }
  assert (mono sb s') as (_ & _ & _ & Hplain).
  { eapply (spec_run mono); [|apply mono_refl|exact Hrun].
    assert (writable (λ _, True) (VRef n)) as Hw by done.
    spec_go. }
  destruct (Hplain n _ Hnb eq_refl) as (fresh & Hfresh & Hcls & Hproto).
  exists l, fresh. split_and!; try done.
  - unfold obj_at. rewrite (Hh l eq_refl), Hlb. simpl.
    by eapply obj_set_own_eq.
  - apply lookup_ge_None_2. lia.
Qed.

Lemma normalizeInject_own options vm s s' :
  normalizeInject E options vm s = Ok tt s' →
  ∃ l, options = VRef l ∧ l < length (heap s') ∧
       is_Some (own_lookup (obj_at (heap s') l) "inject").
Proof.
  intros Hrun. unfold normalizeInject in Hrun.
  apply bind_Ok in Hrun as (inject & ? & (_ & _ & -> & ->)%get_Ok & Hrun).
  rewrite run_bind_new_object in Hrun.
  apply bind_Ok in Hrun as ([] & sb & Hset & Hrun).
  apply set_prop_Ok in Hset as (l & o & o' & -> & Hl & Hset & ->).
  set (sb := with_heap _ _) in Hrun.
  assert (l < length (heap sb)) as Hlen.
  { subst sb. simpl. rewrite length_insert. by eapply lookup_lt_Some. }
  assert (is_Some (own_lookup (obj_at (heap sb) l) "inject")) as Hown.
  { subst sb. simpl. rewrite obj_at_insert_eq by by eapply lookup_lt_Some.
    erewrite obj_set_own_eq; eauto. }
  assert (mono sb s') as (Hlen' & _ & Hkeys & _).
  { eapply (spec_run mono); [|apply mono_refl|exact Hrun].
    assert (writable (λ _, True) (VRef (length (heap s)))) as Hw by done.
    spec_go. }
  exists l. split_and!; [done|lia|auto].
Qed.

(** Without a declared injection the new mapping is empty. *)
Lemma normalizeInject_absent l vm s :
  l < length (heap s) →
  get_val (heap s) (VRef l) "inject" = VUndef →
  ∃ s', normalizeInject E (VRef l) vm s = Ok tt s' ∧
    heap s' !! length (heap s) = Some (Obj None CPlain []) ∧
    own_lookup (obj_at (heap s') l) "inject" = Some (VRef (length (heap s))).
Proof.
  intros Hl Hinj. apply lookup_lt_is_Some in Hl as Ho. destruct Ho as [o Ho].
  unfold normalizeInject. eexists.
  rewrite run_bind_get, Hinj, run_bind_new_object by done.
  erewrite run_bind_set_prop;
    [|by apply lookup_app_l_Some|by apply obj_set_named].
  rewrite run_bind_read, run_bind_read. cbn [is_array isPlainObject truthy].
  rewrite andb_false_r. cbn [when]. split_and!; [reflexivity| |].
  - simpl. rewrite list_lookup_insert_ne by lia. by apply list_lookup_middle.
  - simpl. rewrite obj_at_insert_eq by (rewrite length_app; lia).
    unfold own_lookup. simpl. destruct (cls o); by rewrite alist_get_set_eq.
Qed.

(** C10.  [normalizeInject] replaces the [inject] field of the child by a
    freshly allocated plain mapping, whatever the child declares, and by an
    empty one when the child declares no injection; hence every
    configuration that [mergeOptions] returns owns an [inject] entry. *)
Theorem inject_entry_always_present
  (fuel : nat) (parent child vm : value) (s : state) (r : value) (s' : state) :
  value_ok (heap s) parent →
  mergeOptions E fuel parent child vm s = Ok r s' →
  (∃ o, r = VRef o ∧ is_Some (own_lookup (obj_at (heap s') o) "inject")) ∧
  (∀ options w sa sb,
     value_ok (heap sa) options →
     normalizeInject E options w sa = Ok tt sb →
     ∃ l fresh,
       options = VRef l ∧
       own_lookup (obj_at (heap sb) l) "inject"
       = Some (VRef (length (heap sa))) ∧
       heap sa !! length (heap sa) = None ∧
       heap sb !! length (heap sa) = Some fresh ∧
       cls fresh = CPlain ∧ proto fresh = None) ∧
  (∀ l w sa,
     l < length (heap sa) →
     get_val (heap sa) (VRef l) "inject" = VUndef →
     ∃ sb, normalizeInject E (VRef l) w sa = Ok tt sb ∧
       heap sb !! length (heap sa) = Some (Obj None CPlain []) ∧
       own_lookup (obj_at (heap sb) l) "inject"
       = Some (VRef (length (heap sa)))).
Proof.
  intros Hok Hrun. split_and!.
  - destruct fuel as [|fuel]; [done|].
    apply mergeOptions_Ok in Hrun
      as (child' & s1 & s2 & s3 & parent' & Hm1 & Hinj & Hm2 & Hok' & Hrun).
    apply normalizeInject_own in Hinj as (c & -> & Hc & Hown).
    destruct Hm2 as (Hlen & _ & Hkeys & _).
    assert (c < length (heap s3)) as Hc3 by lia.
    apply lookup_lt_is_Some in Hc3 as [co Hco].
    apply Hkeys in Hown. rewrite (obj_at_Some _ _ _ Hco) in Hown.
    destruct (mergeFields_visited E parent' (VRef c) vm s3 r s' "inject"
                (Hok' Hok) Hrun ltac:(done))
      as (-> & sa & v & sb & _ & _ & Hres).
    { exists c, co. split_and!; [by right|done..]. }
    eexists. split; [done|]. by rewrite Hres.
  - intros options w sa sb. apply normalizeInject_fresh.
  - intros l w sa. apply normalizeInject_absent.
Qed.

End Inject.

Lemma inject_entry_always_present_witness :
  value_ok (heap bare_state) (VRef 0) ∧
  get_val (heap bare_state) (VRef 0) "inject" = VUndef ∧
  get_val (heap bare_state) (VRef 1) "inject" = VUndef ∧
  mergeOptions dev_env 1 (VRef 0) (VRef 1) VUndef bare_state
  = Ok (result_of VUndef bare_run) (state_of bare_run) ∧
  ∃ o, result_of VUndef bare_run = VRef o ∧
       is_Some (own_lookup (obj_at (heap (state_of bare_run)) o) "inject").
Proof.
  assert (value_ok (heap bare_state) (VRef 0)) as Hok.
  { intros l [= <-]. simpl. lia. }
  assert (mergeOptions dev_env 1 (VRef 0) (VRef 1) VUndef bare_state
          = Ok (result_of VUndef bare_run) (state_of bare_run)) as Hrun.
  { vm_compute. reflexivity. }
  split_and!; [exact Hok|reflexivity|reflexivity|exact Hrun|].
  exact (proj1 (inject_entry_always_present dev_env 1 _ _ _ _ _ _ Hok Hrun)).
Defined.

(** * Assets *)

Lemma chain_lookup_proto fuel h l o p k :
  h !! l = Some o → own_lookup o k = None → proto o = Some p →
  chain_lookup (S fuel) h l k = chain_lookup fuel h p k.
Proof. intros Hl Hk Hp. simpl. by rewrite (obj_at_Some _ _ _ Hl), Hk, Hp. Qed.

Lemma chain_lookup_end fuel h l o k :
  h !! l = Some o → own_lookup o k = None → proto o = None →
  chain_lookup fuel h l k = None.
Proof.
  intros Hl Hk Hp. destruct fuel; [done|]. simpl.
  by rewrite (obj_at_Some _ _ _ Hl), Hk, Hp.
Qed.

Lemma insert_last {A} (l : list A) (x y : A) :
  <[length l := y]> (l ++ [x]) = l ++ [y].
Proof.
  rewrite <- (Nat.add_0_r (length l)) at 1. by rewrite insert_app_r.
Qed.

Section Assets.
Context (E : env).

(** [resolveAsset] follows the lookup order of the specification. *)
Lemma resolveAsset_order options type id warnMissing s :
  options ≠ VUndef → options ≠ VNull →
  get_val (heap s) options type ≠ VUndef →
  get_val (heap s) options type ≠ VNull →
  resolveAsset E options type (VStr id) warnMissing s =
  resolve_order E (get_val (heap s) options type) type id warnMissing s.
Proof.
  intros Ho1 Ho2 Ha1 Ha2. unfold resolveAsset, resolve_order.
  rewrite run_bind_get by done.
  rewrite run_bind_hasOwn by done.
  destruct (has_own_val _ _ id); [by rewrite run_get|].
  rewrite run_bind_hasOwn by done.
  destruct (has_own_val _ _ (camelize id)); [by rewrite run_get|].
  rewrite run_bind_hasOwn by done.
  destruct (has_own_val _ _ (capitalize (camelize id))); [by rewrite run_get|].
  rewrite run_bind_get by done.
  assert (∀ res s0,
    (when (dev E && warnMissing && negb (truthy res))
       (warn (WarnUnresolvedAsset (slice_0_m1 type) id));; ret res) s0
    = Ok res (miss_reported E s0 type id warnMissing res)) as Hwarn.
  { intros res s0. unfold miss_reported. by destruct (_ && _). }
  destruct (truthy (get_val _ _ id)).
  - rewrite run_bind_ret. apply Hwarn.
  - rewrite run_bind_bind, run_bind_get by done.
    destruct (truthy (get_val _ _ (camelize id))).
    + rewrite run_bind_ret. apply Hwarn.
    + rewrite run_bind_get by done. apply Hwarn.
Qed.

(** C8.  Merging the parent assets [{Foo: F}] with the child assets
    [{Bar: B}] returns a new object that owns [Bar], mapped to [B], does not
    own [Foo] and reads [Foo] as [F] through its prototype, the parent.
    [resolveAsset] checks own presence of the exact name, the camel-cased
    name and the capitalised camel-cased name, in that order, and then reads
    the same three names through the prototypes; on a configuration that
    holds the merged object, both [Foo] and [foo] resolve to [F]. *)
Theorem asset_merge_resolve_round_trip
  (p c : loc) (F B vm : value) (s : state) :
  heap s !! p = Some (Obj None CPlain [("Foo", F)]) →
  heap s !! c = Some (Obj None CPlain [("Bar", B)]) →
  let r := length (heap s) in
  let merged := Obj (Some p) CPlain [("Bar", B)] in
  mergeAssets E (VRef p) (VRef c) vm "components" s
  = Ok (VRef r) (with_heap s (heap s ++ [merged])) ∧
  own_lookup merged "Bar" = Some B ∧
  own_lookup merged "Foo" = None ∧
  get_val (heap s ++ [merged]) (VRef r) "Foo" = F ∧
  (∀ options type id warnMissing s2,
     options ≠ VUndef → options ≠ VNull →
     get_val (heap s2) options type ≠ VUndef →
     get_val (heap s2) options type ≠ VNull →
     resolveAsset E options type (VStr id) warnMissing s2 =
     resolve_order E (get_val (heap s2) options type) type id warnMissing s2) ∧
  (∀ options warnMissing s2,
     options ≠ VUndef → options ≠ VNull →
     get_val (heap s2) options "components" = VRef r →
     heap s2 !! r = Some merged →
     heap s2 !! p = Some (Obj None CPlain [("Foo", F)]) →
     resolveAsset E options "components" (VStr "Foo") warnMissing s2
     = Ok F (miss_reported E s2 "components" "Foo" warnMissing F) ∧
     resolveAsset E options "components" (VStr "foo") warnMissing s2
     = Ok F (miss_reported E s2 "components" "foo" warnMissing F)).
Proof.
  intros Hp Hc r merged.
  assert (p < r ∧ c < r) as [Hpr Hcr] by (split; by eapply lookup_lt_Some).
  split_and!.
  - unfold mergeAssets. cbn [truthy object_create].
    rewrite run_bind_bind.
    change (alloc ?o) with (λ s, Ok (length (heap s))
                                    (with_heap s (heap s ++ [o]))).
    unfold bind at 1. rewrite run_bind_ret.
    assert (∀ B0 (k : unit → M B0) s0,
      heap s0 !! c = Some (Obj None CPlain [("Bar", B)]) →
      bind (when (dev E) (assertObjectType "components" (VRef c) vm)) k s0
      = k tt s0) as Hassert.
    { intros B0 k s0 Hc0. destruct (dev E); [|done]. simpl.
      unfold assertObjectType. rewrite run_bind_bind, run_bind_read. simpl.
      by rewrite (obj_at_Some _ _ _ Hc0). }
    rewrite Hassert by by apply lookup_app_l_Some.
    unfold extend. rewrite run_bind_for_in.
    erewrite forin_keys_plain by by apply lookup_app_l_Some.
    change (own_keys _) with ["Bar"]. cbn [forM_].
    rewrite !run_bind_bind, run_bind_get by done.
    erewrite get_val_plain by by apply lookup_app_l_Some.
    change (default VUndef _) with B.
    erewrite run_bind_set_prop;
      [|by apply list_lookup_middle|by apply obj_set_plain].
    cbn [heap with_heap]. by rewrite insert_last.
  - reflexivity.
  - reflexivity.
  - simpl. rewrite (obj_at_Some _ _ merged) by by apply list_lookup_middle.
    rewrite length_app. simpl. rewrite Nat.add_1_r.
    erewrite chain_lookup_proto;
      [|by apply list_lookup_middle|reflexivity|reflexivity].
    destruct (length (heap s)) eqn:Hlen; [lia|].
    erewrite chain_lookup_own;
      [done|by apply lookup_app_l_Some; rewrite Hp|reflexivity].
  - intros. by apply resolveAsset_order.
  - intros options warnMissing s2 Ho1 Ho2 Hassets Hr Hp2.
    assert (∀ k, has_own_val (heap s2) (VRef r) k
                 = bool_decide (is_Some (alist_get k [("Bar", B)]))) as Hown.
    { intros k. simpl. by rewrite (obj_at_Some _ _ _ Hr). }
    assert (∀ k, alist_get k [("Bar", B)] = None →
                 get_val (heap s2) (VRef r) k
                 = default VUndef (alist_get k [("Foo", F)])) as Hget.
    { intros k Hb. rewrite (get_val_chain _ _ _ _ Hr) by done.
      assert (r ≠ p) as Hne by lia.
      assert (2 ≤ length (heap s2)) as Hlen.
      { apply lookup_lt_Some in Hr, Hp2. lia. }
      destruct (length (heap s2)) as [|[|n]] eqn:Hn; [lia..|].
      erewrite chain_lookup_proto; [|done|done|reflexivity].
      destruct (alist_get k [("Foo", F)]) as [f|] eqn:Hf.
      + by erewrite chain_lookup_own.
      + by erewrite chain_lookup_end. }
    rewrite !resolveAsset_order by (rewrite ?Hassets; done).
    unfold resolve_order. rewrite Hassets.
    change (camelize "Foo") with "Foo". change (capitalize "Foo") with "Foo".
    change (camelize "foo") with "foo". change (capitalize "foo") with "Foo".
    rewrite !Hown, !Hget by reflexivity.
    change (bool_decide (is_Some (alist_get "Foo" [("Bar", B)]))) with false.
    change (bool_decide (is_Some (alist_get "foo" [("Bar", B)]))) with false.
    change (default VUndef (alist_get "Foo" [("Foo", F)])) with F.
    change (default VUndef (alist_get "foo" [("Foo", F)])) with VUndef.
    cbn [truthy]. by destruct (truthy F).
Qed.

End Assets.

Lemma asset_merge_resolve_round_trip_witness :
  heap assets_state !! 0 = Some (Obj None CPlain [("Foo", VRef 2)]) ∧
  heap assets_state !! 1 = Some (Obj None CPlain [("Bar", VRef 3)]) ∧
  mergeAssets dev_env (VRef 0) (VRef 1) VUndef "components" assets_state
  = Ok (VRef 4)
      (with_heap assets_state
         (heap assets_state ++ [Obj (Some 0) CPlain [("Bar", VRef 3)]])) ∧
  resolveAsset dev_env (VRef 5) "components" (VStr "Foo") true
    assets_resolved_state = Ok (VRef 2) assets_resolved_state ∧
  resolveAsset dev_env (VRef 5) "components" (VStr "foo") true
    assets_resolved_state = Ok (VRef 2) assets_resolved_state.
Proof.
  pose proof (asset_merge_resolve_round_trip dev_env 0 1 (VRef 2) (VRef 3)
                VUndef assets_state eq_refl eq_refl)
    as (Hmerge & _ & _ & _ & _ & Hresolve).
  destruct (Hresolve (VRef 5) true assets_resolved_state
              ltac:(done) ltac:(done) eq_refl eq_refl eq_refl)
    as [HFoo Hfoo].
  split_and!; [reflexivity|reflexivity|exact Hmerge|exact HFoo|exact Hfoo].
Defined.

(** * What aborts and what does not *)

Section Completion.
Context (E : env).

Lemma filling_set l res rs s k x :
  filling l res rs s →
  ∃ s', set_prop (VRef res) k x s = Ok tt s' ∧ filling l res rs s'.
Proof.
  intros (Hl & Hr & o & Ho & Hc). eexists. split.
  - eapply run_set_prop; [done|by apply obj_set_plain].
  - split_and!; simpl; [by rewrite length_insert|done|].
    exists (Obj (proto o) CPlain (alist_set k x (props o))). split; [|done].
    apply list_lookup_insert_eq. by eapply lookup_lt_Some.
Qed.

Lemma filling_alloc l res rs s o :
  filling l res rs s → filling l res rs (with_heap s (heap s ++ [o])).
Proof.
  intros (Hl & Hr & o' & Ho & Hc). split_and!; simpl.
  - rewrite length_app. lia.
  - done.
  - exists o'. split; [by apply lookup_app_l_Some|done].
Qed.

Lemma filling_warn l res rs s d :
  filling l res rs s →
  filling l res rs (State (heap s) (diags s ++ [d]) (regs s)).
Proof. intros (Hl & Hr & Ho). by split_and!. Qed.

Lemma normalizeProps_total l vm s :
  l < length (heap s) →
  ∃ s', normalizeProps E (VRef l) vm s = Ok tt s' ∧ regs s' = regs s.
Proof.
  intros Hl. unfold normalizeProps. rewrite run_bind_get by done.
  set (props := get_val (heap s) (VRef l) "props").
  destruct (truthy props) eqn:Htr; simpl; [|by exists s].
  assert (props ≠ VUndef ∧ props ≠ VNull) as [Hu Hn].
  { split; intros Heq; by rewrite Heq in Htr. }
  rewrite run_bind_new_object, run_bind_read, run_bind_read.
  set (res := length (heap s)).
  set (sa := with_heap s (heap s ++ [Obj None CPlain []])).
  assert (filling l res (regs s) sa) as Hfill.
  { split_and!; simpl.
    - rewrite length_app. lia.
    - done.
    - eexists. split; [by apply list_lookup_middle|done]. }
  assert (∀ sb, filling l res (regs s) sb →
            ∃ s', set_prop (VRef l) "props" (VRef res) sb = Ok tt s'
                  ∧ regs s' = regs s) as Hlast.
  { intros sb (Hlb & Hrb & _). apply lookup_lt_is_Some in Hlb as [o Ho].
    eexists. split.
    - eapply run_set_prop; [done|by apply obj_set_named].
    - exact Hrb. }
  assert (∀ body : M unit,
            (∃ sb, body sa = Ok tt sb ∧ filling l res (regs s) sb) →
            ∃ s', (body;; set_prop (VRef l) "props" (VRef res)) sa = Ok tt s'
                  ∧ regs s' = regs s) as Hseq.
  { intros body (sb & Hbody & Hfb). destruct (Hlast sb Hfb) as (s' & Hs' & Hr).
    exists s'. split; [|done]. apply bind_Ok. eauto. }
  apply Hseq. clear Hseq Hlast.
  destruct (is_array (heap sa) props).
  - rewrite run_bind_read. apply forM_total; [done|].
    intros i sb _ Hb. rewrite run_bind_get by done.
    destruct (get_val (heap sb) props (key_of_index i)) as [| | | |name|];
      try (destruct (dev E); simpl;
           [eexists; split; [reflexivity|by apply filling_warn]
           |by exists sb]).
    rewrite run_bind_new_object. by apply filling_set, filling_alloc.
  - destruct (isPlainObject (heap sa) props).
    + rewrite run_for_in. apply forM_total; [done|].
      intros key sb _ Hb. rewrite run_bind_get, run_bind_read by done.
      destruct (isPlainObject _ _).
      * rewrite run_bind_ret. by apply filling_set.
      * rewrite run_bind_new_object. by apply filling_set, filling_alloc.
    + rewrite andb_true_r. destruct (dev E); simpl.
      * eexists. split; [reflexivity|by apply filling_warn].
      * by exists sa.
Qed.


End Completion.

(** * Lookup in a mapping built by a loop of assignments *)

Lemma foldl_alist_get (f : string → value) ks ps k :
  alist_get k (foldl (λ acc k', alist_set k' (f k') acc) ps ks)
  = if decide (k ∈ ks) then Some (f k) else alist_get k ps.
Proof.
  revert ps. induction ks as [|k1 ks IH]; intros ps; cbn [foldl].
  - case_decide as Hin; [by apply elem_of_nil in Hin|done].
  - rewrite IH. destruct (decide (k ∈ ks)) as [Hin|Hnin].
    + case_decide as Hin'; [done|]. destruct Hin'. by right.
    + destruct (decide (k = k1)) as [->|Hne].
      * case_decide as Hin'; [|destruct Hin'; by left].
        by rewrite alist_get_set_eq.
      * case_decide as Hin'.
        -- apply elem_of_cons in Hin' as [?|?]; done.
        -- by rewrite alist_get_set_ne.
Qed.
(** * The strategies, one by one *)

Section StrategyResult.
Context (E : env) {R : relation state} {W : loc → Prop} `{!Frame R W}.

Lemma spec_new_ref (c : class) (p : option loc) ps (Q : value → Prop) :
  (∀ l, W l → Q (VRef l)) →
  spec R (let! l := alloc (Obj p c ps) in ret (VRef l)) Q.
Proof.
  intros HQ. apply spec_bind, spec_alloc. intros l Hl. by apply spec_ret, HQ.
Qed.

Lemma spec_object_create_ref v (Q : value → Prop) :
  (∀ l, W l → Q (VRef l)) → spec R (object_create v) Q.
Proof.
  intros HQ. destruct v; simpl; try apply spec_throw; by apply spec_new_ref.
Qed.

Lemma spec_concat_ref a b (Q : value → Prop) :
  (∀ l, W l → Q (VRef l)) → spec R (concat a b) Q.
Proof.
  intros HQ. destruct a; simpl; try apply spec_throw.
  apply spec_bind, spec_read. intros h.
  apply spec_bind, spec_read. intros h'.
  destruct (cls _), (chain_lookup _ _ _ _); try apply spec_throw.
  all: apply spec_bind, spec_read; intros h2.
  all: try (destruct (is_function _ _); apply spec_throw).
  destruct b; try (by apply spec_new_ref).
  destruct (cls _); by apply spec_new_ref.
Qed.

Lemma spec_mergeDataOrFn_ref parentVal childVal vm (Q : value → Prop) :
  Q parentVal → Q childVal → Q VUndef → (∀ l, W l → Q (VRef l)) →
  spec R (mergeDataOrFn parentVal childVal vm) Q.
Proof.
  intros Hp Hc Hu Hn. unfold mergeDataOrFn.
  destruct (truthy vm), (truthy childVal), (truthy parentVal); simpl;
    try (by apply spec_ret); by apply spec_new_ref.
Qed.

(** A strategy returns one of its operands, undefined, or an object it has
    allocated. *)
Lemma spec_apply_strat_result st parentVal childVal vm key :
  spec R (apply_strat E st parentVal childVal vm key)
    (λ v, v = parentVal ∨ v = childVal ∨ v = VUndef ∨ ∃ l, v = VRef l ∧ W l).
Proof.
  set (Q := λ v, v = parentVal ∨ v = childVal ∨ v = VUndef ∨
                 ∃ l, v = VRef l ∧ W l).
  assert (∀ l, W l → Q (VRef l)) as Hnew by (intros l Hl; do 3 right; eauto).
  assert (Q parentVal ∧ Q childVal ∧ Q VUndef) as (Hp & Hc & Hu).
  { unfold Q. tauto. }
  destruct st as [[]|]; cbn [apply_strat].
  - unfold strat_restricted, defaultStrat. spec_go; by case_decide.
  - unfold strat_data. spec_go; try done; by apply spec_mergeDataOrFn_ref.
  - unfold mergeHook. destruct (truthy childVal); [|by apply spec_ret].
    destruct (truthy parentVal); [by apply spec_concat_ref|].
    apply spec_bind, spec_read. intros h.
    destruct (is_array h childVal); [by apply spec_ret|by apply spec_new_ref].
  - unfold mergeAssets. apply spec_bind, spec_object_create_ref.
    intros l Hl. destruct (truthy childVal); [|by apply spec_ret, Hnew].
    apply spec_bind.
    eapply (spec_weaken _ (λ _, True));
      [apply spec_when; [by apply spec_assertObjectType|done]|].
    intros _ _. apply spec_extend; [by intros ? [= <-]|by apply Hnew].
  - unfold strat_watch.
    set (pv := if decide (parentVal = nativeWatch E) then VUndef
               else parentVal).
    set (cv := if decide (childVal = nativeWatch E) then VUndef
               else childVal).
    assert (Q pv) as Hpv by (subst pv; by case_decide).
    assert (Q cv) as Hcv by (subst cv; by case_decide).
    destruct (truthy cv); simpl; [|by apply spec_object_create_ref].
    apply spec_bind.
    eapply (spec_weaken _ (λ _, True));
      [apply spec_when; [by apply spec_assertObjectType|done]|].
    intros _ _. destruct (truthy pv); simpl; [|by apply spec_ret].
    apply spec_bind, spec_new_ref. intros l Hl.
    assert (writable W (VRef l)) as Hw by by intros ? [= <-].
    spec_go. by apply Hnew.
  - unfold strat_object_hash. apply spec_bind.
    eapply (spec_weaken _ (λ _, True));
      [apply spec_when; [by apply spec_assertObjectType|done]|].
    intros _ _. destruct (truthy parentVal); simpl; [|by apply spec_ret].
    apply spec_bind, spec_new_ref. intros l Hl.
    assert (writable W (VRef l)) as Hw by by intros ? [= <-].
    spec_go. all: by apply Hnew.
  - by apply spec_mergeDataOrFn_ref.
  - apply spec_ret. unfold defaultStrat. by case_decide.
Qed.

End StrategyResult.

Section Strategies.
Context (E : env).

(** X1.  Whatever the field and the operands, a merge strategy that returns
    has changed no object that existed before the call and has registered
    nothing: it only allocates.  What it returns is one of its two
    operands, undefined, or an object allocated during the call. *)
Theorem strategies_only_allocate
  (st : option strategy) (parentVal childVal vm : value) (key : string)
  (s : state) (v : value) (s' : state) :
  apply_strat E st parentVal childVal vm key s = Ok v s' →
  length (heap s) ≤ length (heap s') ∧
  regs s' = regs s ∧
  (∀ l, l < length (heap s) → heap s' !! l = heap s !! l) ∧
  operand_or_new (heap s) parentVal childVal v.
Proof.
  intros Hrun.
  destruct (spec_apply_strat_result E
              (R := frame_on (λ l, l < length (heap s)))
              st parentVal childVal vm key s v s') as [Hf Hv];
    [by apply frame_on_refl|done|].
  destruct Hf as (_ & Hl & Hr & Hh). split_and!; [done..|].
  destruct Hv as [?|[?|[?|(l & -> & Hl')]]]; unfold operand_or_new; eauto.
  do 3 right. exists l. split; [done|lia].
Qed.

(** X2.  [mergeAssets] returns if and only if the parent value is absent
    (falsy) or an object: a parent that is a truthy primitive cannot be
    made a prototype, and the call aborts.  The same holds for [strats.watch]
    when the child declares no watcher. *)
Theorem mergeAssets_returns_iff
  (parentVal childVal vm : value) (key : string) (s : state) :
  ((∃ v s', mergeAssets E parentVal childVal vm key s = Ok v s') ↔
   truthy parentVal = false ∨ ∃ l, parentVal = VRef l) ∧
  (truthy childVal = false →
   (truthy (nativeWatch E) = false ∨ ∃ l, nativeWatch E = VRef l) →
   (∃ v s', strat_watch E parentVal childVal vm key s = Ok v s') ↔
   truthy parentVal = false ∨ ∃ l, parentVal = VRef l).
Proof.
  assert (∀ v, (∃ l, v = VRef l) ∨ v = VNull →
            ∃ r sa, object_create v s = Ok (VRef r) sa ∧ plain_at r sa)
    as Hcreate.
  { intros v [[l ->]| ->]; eexists _, _; (split; [reflexivity|]);
      eexists; (split; [by apply list_lookup_middle|done]). }
  assert (∀ v, truthy v = true → (∀ l, v ≠ VRef l) →
            ∀ B (k : value → M B), ∀ r sa, bind (object_create v) k s
                                           ≠ Ok r sa) as Hfail.
  { intros v Ht Hn B k r sa. destruct v; try done. by destruct (Hn l). }
  split.
  - split.
    + intros (v & s' & Hrun). unfold mergeAssets in Hrun.
      destruct (truthy parentVal) eqn:Ht; [|by left].
      right. destruct parentVal as [| | | | |l]; try done; eauto.
    + intros Hp. unfold mergeAssets.
      destruct (Hcreate (if truthy parentVal then parentVal else VNull))
        as (r & sa & Hr & Hpl).
      { destruct Hp as [->|[l ->]]; [by right|left; eauto]. }
      rewrite (run_bind_Ok _ _ _ _ _ Hr).
      destruct (truthy childVal); [|by eexists _, _].
      assert (∃ sb, when (dev E) (assertObjectType key childVal vm) sa
                    = Ok tt sb ∧ plain_at r sb) as (sb & Hsb & Hpb).
      { destruct (dev E); simpl; [|by exists sa].
        unfold assertObjectType. rewrite run_bind_read.
        destruct (isPlainObject _ _); simpl; eauto using plain_at_warn. }
      rewrite (run_bind_Ok _ _ _ _ _ Hsb).
      destruct (extend_returns r childVal sb Hpb) as (sc & Hsc & _). eauto.
  - intros Hc Hnw. unfold strat_watch.
    set (pv := if decide (parentVal = nativeWatch E) then VUndef
               else parentVal).
    set (cv := if decide (childVal = nativeWatch E) then VUndef
               else childVal).
    assert (truthy cv = false) as -> by (subst cv; by case_decide).
    cbn [negb].
    assert ((truthy pv = false ∨ ∃ l, pv = VRef l) ↔
            (truthy parentVal = false ∨ ∃ l, parentVal = VRef l)) as <-.
    { subst pv. case_decide as Heq; [|done]. subst parentVal.
      split; [by intros _|by left]. }
    split.
    + intros (v & s' & Hrun).
      destruct (truthy pv) eqn:Ht; [|by left].
      right. destruct pv as [| | | | |l]; try done; eauto.
    + intros [Hp|[l Hl]].
      * rewrite Hp. by eexists _, _.
      * rewrite Hl. by eexists _, _.
Qed.

End Strategies.

Lemma strategies_only_allocate_witness :
  ∃ v s',
    apply_strat dev_env (strats dev_env "created") (VRef 3) (VRef 2) VUndef
      "created" hooks_state = Ok v s' ∧
    length (heap hooks_state) ≤ length (heap s') ∧
    regs s' = regs hooks_state ∧
    (∀ l, l < length (heap hooks_state) →
          heap s' !! l = heap hooks_state !! l) ∧
    operand_or_new (heap hooks_state) (VRef 3) (VRef 2) v.
Proof.
  assert (∃ v s',
            apply_strat dev_env (strats dev_env "created") (VRef 3) (VRef 2)
              VUndef "created" hooks_state = Ok v s') as (v & s' & Hrun).
  { eexists _, _. vm_compute. reflexivity. }
  exists v, s'. split; [exact Hrun|].
  exact (strategies_only_allocate dev_env _ _ _ _ _ _ _ _ Hrun).
Defined.
(** * Copies and prototype chains *)

Lemma alist_get_copied o ps k :
  alist_get k (copied o ps)
  = match own_lookup o k with Some v => Some v | None => alist_get k ps end.
Proof.
  unfold copied.
  rewrite (foldl_alist_get (λ k, default VUndef (own_lookup o k))).
  case_decide as Hin; rewrite elem_of_own_keys in Hin.
  - by destruct Hin as [v ->].
  - apply eq_None_not_Some in Hin. by rewrite Hin.
Qed.

Lemma alist_get_copied_from h v ps k :
  alist_get k (copied_from h v ps)
  = match own_entry h v k with Some x => Some x | None => alist_get k ps end.
Proof. destruct v; try done. apply alist_get_copied. Qed.

(** The loop of [extend] from a mapping onto a plain object. *)
Lemma forM_copy r pr f fo ks ps s :
  heap s !! r = Some (Obj pr CPlain ps) →
  heap s !! f = Some fo → cls fo = CPlain → proto fo = None → f ≠ r →
  forM_ ks (λ key, let! v := get (VRef f) key in set_prop (VRef r) key v) s
  = Ok tt
      (with_heap s
         (<[r := Obj pr CPlain
                   (foldl (λ acc k,
                             alist_set k (default VUndef (own_lookup fo k))
                               acc) ps ks)]> (heap s))).
Proof.
  intros Hr Hf Hc Hp Hne. revert ps s Hr Hf.
  induction ks as [|k ks IH]; intros ps s Hr Hf.
  - cbn [forM_ foldl]. rewrite (list_insert_id _ _ _ Hr).
    unfold with_heap. by rewrite state_eta.
  - rewrite forM_cons, run_bind_bind, run_bind_get by done.
    rewrite (get_val_no_proto _ _ _ _ Hf Hc Hp).
    erewrite run_bind_set_prop; [|exact Hr|by apply obj_set_plain].
    cbn [proto props foldl].
    set (v := default VUndef (own_lookup fo k)).
    set (s1 := with_heap s (<[r := Obj pr CPlain (alist_set k v ps)]> (heap s))).
    assert (r < length (heap s)) as Hrl by by eapply lookup_lt_Some.
    rewrite (IH (alist_set k v ps) s1).
    + subst s1. unfold with_heap. simpl. by rewrite list_insert_insert_eq.
    + subst s1. simpl. by apply list_lookup_insert_eq.
    + subst s1. simpl. by rewrite list_lookup_insert_ne.
Qed.

Lemma extend_mapping r pr ps f fo s :
  heap s !! r = Some (Obj pr CPlain ps) →
  heap s !! f = Some fo → cls fo = CPlain → proto fo = None → f ≠ r →
  extend (VRef r) (VRef f) s
  = Ok (VRef r) (with_heap s (<[r := Obj pr CPlain (copied fo ps)]> (heap s))).
Proof.
  intros Hr Hf Hc Hp Hne. unfold extend.
  rewrite run_bind_for_in, (forin_keys_no_proto _ _ _ Hf Hp).
  by rewrite (run_bind_Ok _ _ _ _ _ (forM_copy r pr f fo _ ps s Hr Hf Hc Hp Hne)).
Qed.

(** [extend] onto the object just allocated, from a value that is absent or
    a mapping of the heap. *)
Lemma extend_new pr ps v s :
  truthy v = false ∨ is_mapping (heap s) v →
  (if truthy v then extend (VRef (length (heap s))) v
   else ret (VRef (length (heap s))))
    (with_heap s (heap s ++ [Obj pr CPlain ps]))
  = Ok (VRef (length (heap s)))
      (with_heap s (heap s ++ [Obj pr CPlain (copied_from (heap s) v ps)])).
Proof.
  intros [Hv|(f & fo & -> & Hf & Hp & Hc)].
  - rewrite Hv. by destruct v.
  - cbn [truthy copied_from]. rewrite (obj_at_Some _ _ _ Hf).
    erewrite extend_mapping;
      [|by apply list_lookup_middle|by apply lookup_app_l_Some|done|done|].
    + unfold with_heap. simpl. by rewrite insert_last.
    + apply lookup_lt_Some in Hf. lia.
Qed.

(** In a heap whose prototypes point downward a lookup does not depend on
    the objects allocated later, nor on the fuel once it exceeds the
    location. *)
Lemma chain_lookup_downward h h' k :
  downward h →
  ∀ l fuel, l < length h → l < fuel →
    chain_lookup fuel (h ++ h') l k = chain_lookup (S l) h l k.
Proof.
  intros Hd l. revert h'. induction (lt_wf l) as [l _ IH].
  intros h' fuel Hl Hf.
  destruct fuel as [|fuel]; [lia|]. cbn [chain_lookup].
  rewrite obj_at_app_l by done.
  destruct (own_lookup (obj_at h l) k); [done|].
  destruct (lookup_lt_is_Some_2 h l Hl) as [o Ho].
  rewrite (obj_at_Some _ _ _ Ho). destruct (proto o) as [q|] eqn:Hq; [|done].
  pose proof (Hd l o q Ho Hq) as Hql.
  rewrite (IH q Hql h' fuel) by lia.
  assert (chain_lookup l (h ++ []) q k = chain_lookup (S q) h q k) as Hr
    by (apply IH; lia).
  by rewrite app_nil_r in Hr.
Qed.

Lemma get_val_downward h h' l o k :
  downward h → h !! l = Some o → cls o = CPlain →
  get_val (h ++ h') (VRef l) k = get_val h (VRef l) k.
Proof.
  intros Hd Hl Hc.
  assert (l < length h) as Hlt by by eapply lookup_lt_Some.
  rewrite (get_val_chain _ _ _ _ (lookup_app_l_Some _ h' _ _ Hl) Hc),
    (get_val_chain _ _ _ _ Hl Hc).
  rewrite (chain_lookup_downward h h' k Hd l) by (rewrite ?length_app; lia).
  pose proof (chain_lookup_downward h [] k Hd l (length h) Hlt Hlt) as Hr.
  rewrite app_nil_r in Hr. by rewrite Hr.
Qed.

Lemma downward_alloc h o :
  downward h → (∀ q, proto o = Some q → q < length h) → downward (h ++ [o]).
Proof.
  intros Hd Ho l o' q Hl Hq.
  destruct (decide (l < length h)) as [Hlt|Hge].
  - rewrite lookup_app_l in Hl by done. by eapply Hd.
  - apply lookup_lt_Some in Hl as Hl'. rewrite length_app in Hl'. simpl in Hl'.
    assert (l = length h) as -> by lia.
    rewrite list_lookup_middle in Hl by done. injection Hl as <-. by apply Ho.
Qed.

Section Copies.
Context (E : env).

Lemma assertObjectType_mapping key v vm s :
  truthy v = false ∨ is_mapping (heap s) v →
  ∀ b, when (truthy v && b) (assertObjectType key v vm) s = Ok tt s.
Proof.
  intros [->|(l & o & -> & Hl & _ & Hc)] b; [done|].
  destruct b; [|done]. cbn [truthy andb when]. unfold assertObjectType.
  rewrite run_bind_read. cbn [isPlainObject].
  by rewrite (obj_at_Some _ _ _ Hl), Hc.
Qed.

(** X3.  For [props], [methods], [inject] and [computed], with a parent that
    is a mapping and a child that is absent or a mapping: the strategy
    returns a new object without prototype, on which the parent's entries
    are copied and then the child's, so that a key holds the child's value
    when the child has the key and the parent's value otherwise.  Neither
    operand is changed and nothing is reported. *)
Theorem object_hash_child_overrides
  (p : loc) (po : object) (childVal vm : value) (key : string) (s : state) :
  heap s !! p = Some po → cls po = CPlain → proto po = None →
  truthy childVal = false ∨ is_mapping (heap s) childVal →
  let ps := copied_from (heap s) childVal (copied po []) in
  strat_object_hash E (VRef p) childVal vm key s
  = Ok (VRef (length (heap s)))
      (with_heap s (heap s ++ [Obj None CPlain ps])) ∧
  ∀ k, alist_get k ps
       = match own_entry (heap s) childVal k with
         | Some v => Some v
         | None => own_lookup po k
         end.
Proof.
  intros Hp Hpc Hpp Hc ps. split.
  - unfold strat_object_hash.
    rewrite (run_bind_Ok _ _ _ _ _
               (assertObjectType_mapping key childVal vm s Hc (dev E))).
    cbn [truthy negb object_create]. rewrite run_bind_new_object.
    rewrite (run_bind_Ok _ _ _ _ _
               (extend_new None [] (VRef p) s
                  ltac:(right; exists p, po; by split_and!))).
    cbn [copied_from]. rewrite (obj_at_Some _ _ _ Hp).
    pose proof (extend_new None (copied po []) childVal s Hc) as Hext.
    unfold with_heap in *. simpl in *.
    by rewrite (run_bind_Ok _ _ _ _ _ Hext).
  - intros k. subst ps. rewrite alist_get_copied_from, alist_get_copied.
    destruct (own_entry _ _ _); [done|].
    by destruct (own_lookup po k).
Qed.

(** X4.  With a parent that is a plain object and a child that is absent
    or a mapping, [mergeAssets] returns a new object that has the parent as
    prototype and owns exactly the child's entries: a name reads as the
    child's entry when the child has one, and otherwise as what the parent
    reads for it, through the parent's own prototypes.  Neither operand is
    changed. *)
Theorem mergeAssets_child_shadows
  (p : loc) (po : object) (childVal vm : value) (key : string) (s : state) :
  downward (heap s) →
  heap s !! p = Some po → cls po = CPlain →
  truthy childVal = false ∨ is_mapping (heap s) childVal →
  let r := length (heap s) in
  let h' := heap s ++ [Obj (Some p) CPlain (copied_from (heap s) childVal [])]
  in
  mergeAssets E (VRef p) childVal vm key s = Ok (VRef r) (with_heap s h') ∧
  downward h' ∧
  ∀ k,
    own_lookup (obj_at h' r) k = own_entry (heap s) childVal k ∧
    get_val h' (VRef r) k
    = match own_entry (heap s) childVal k with
      | Some v => v
      | None => get_val (heap s) (VRef p) k
      end.
Proof.
  intros Hd Hp Hpc Hc r h'.
  assert (p < length (heap s)) as Hpl by by eapply lookup_lt_Some.
  assert (h' !! r = Some (Obj (Some p) CPlain
                            (copied_from (heap s) childVal []))) as Hr
    by by apply list_lookup_middle.
  assert (∀ k, own_lookup (obj_at h' r) k = own_entry (heap s) childVal k)
    as Hown.
  { intros k. rewrite (obj_at_Some _ _ _ Hr). unfold own_lookup at 1.
    cbn [cls props]. rewrite alist_get_copied_from.
    by destruct (own_entry _ _ _). }
  split_and!.
  - unfold mergeAssets. cbn [truthy object_create].
    change (bind (let! r0 := alloc (Obj (Some p) CPlain []) in ret (VRef r0)) ?k s)
      with (k (VRef r) (with_heap s (heap s ++ [Obj (Some p) CPlain []]))).
    pose proof (extend_new (Some p) [] childVal s Hc) as Hext.
    destruct (truthy childVal) eqn:Ht.
    + destruct Hc as [?|Hm]; [congruence|].
      pose proof (assertObjectType_mapping key childVal vm
                    (with_heap s (heap s ++ [Obj (Some p) CPlain []]))) as Ha.
      rewrite Ht in Ha. cbn [andb] in Ha.
      assert (is_mapping
                (heap (with_heap s (heap s ++ [Obj (Some p) CPlain []])))
                childVal) as Hm'.
      { destruct Hm as (c & co & -> & Hco & ? & ?). exists c, co.
        split_and!; [done|by apply lookup_app_l_Some|done..]. }
      by rewrite (run_bind_Ok _ _ _ _ _ (Ha (or_intror Hm') (dev E))).
    + done.
  - apply downward_alloc; [done|]. by intros q [= <-].
  - intros k. split; [apply Hown|].
    rewrite (get_val_chain _ _ _ _ Hr) by done.
    assert (length h' = S r) as ->.
    { subst h' r. rewrite length_app. simpl. lia. }
    cbn [chain_lookup]. rewrite Hown.
    destruct (own_entry _ _ _); [done|].
    rewrite (obj_at_Some _ _ _ Hr). cbn [proto].
    rewrite (get_val_chain _ _ _ _ Hp Hpc).
    subst h' r.
    rewrite (chain_lookup_downward (heap s) _ k Hd p) by lia.
    pose proof (chain_lookup_downward (heap s) [] k Hd p (length (heap s))
                  Hpl Hpl) as Hq.
    rewrite app_nil_r in Hq. by rewrite Hq.
Qed.

End Copies.

Lemma object_hash_child_overrides_witness :
  strat_object_hash dev_env (VRef 0) (VRef 1) VUndef "methods" hash_state
  = Ok (VRef 2)
      (with_heap hash_state
         (heap hash_state ++
          [Obj None CPlain [("a", VNum 1); ("b", VNum 3); ("c", VNum 4)]])).
Proof.
  assert (is_mapping (heap hash_state) (VRef 1)) as Hc.
  { eexists 1, _. by split_and!. }
  exact (proj1 (object_hash_child_overrides dev_env 0 _ (VRef 1) VUndef
                  "methods" hash_state eq_refl eq_refl eq_refl
                  (or_intror Hc))).
Defined.

Lemma mergeAssets_child_shadows_witness :
  downward (heap chain_state) ∧
  mergeAssets dev_env (VRef 1) (VRef 2) VUndef "components" chain_state
  = Ok (VRef 3)
      (with_heap chain_state
         (heap chain_state ++ [Obj (Some 1) CPlain [("B", VNum 3)]])) ∧
  get_val (heap chain_state ++ [Obj (Some 1) CPlain [("B", VNum 3)]])
    (VRef 3) "A" = VNum 1 ∧
  get_val (heap chain_state ++ [Obj (Some 1) CPlain [("B", VNum 3)]])
    (VRef 3) "B" = VNum 3.
Proof.
  assert (downward (heap chain_state)) as Hd.
  { intros [|[|[|l]]] o q Hl Hq; simpl in Hl; try done;
      injection Hl as <-; simpl in Hq; try done.
    injection Hq as <-. lia. }
  assert (is_mapping (heap chain_state) (VRef 2)) as Hc.
  { eexists 2, _. by split_and!. }
  destruct (mergeAssets_child_shadows dev_env 1 _ (VRef 2) VUndef
              "components" chain_state Hd eq_refl eq_refl (or_intror Hc))
    as (Hrun & _ & Hget).
  split_and!; [exact Hd|exact Hrun|exact (proj2 (Hget "A"))
              |exact (proj2 (Hget "B"))].
Defined.
(** * The check of the component names and the normalisation passes *)

(** A loop with an invariant over the elements already visited. *)
Lemma forM_prefix {A} (I : list A → state → Prop) (f : A → M unit) xs s :
  I [] s →
  (∀ seen x rest sa, xs = seen ++ x :: rest → I seen sa →
     ∃ sb, f x sa = Ok tt sb ∧ I (seen ++ [x]) sb) →
  ∃ s', forM_ xs f s = Ok tt s' ∧ I xs s'.
Proof.
  intros H0 Hstep.
  assert (∀ rest seen sa, xs = seen ++ rest → I seen sa →
            ∃ s', forM_ rest f sa = Ok tt s' ∧ I xs s') as Hgen.
  { induction rest as [|x rest IH]; intros seen sa Hxs HI.
    - rewrite app_nil_r in Hxs. subst seen. by exists sa.
    - destruct (Hstep seen x rest sa Hxs HI) as (sb & Hx & HIb).
      destruct (IH (seen ++ [x]) sb) as (s' & Hrest & HI'); [|done|].
      { by rewrite <- app_assoc. }
      exists s'. split; [|done]. rewrite forM_cons. apply bind_Ok. eauto. }
  by apply (Hgen xs []).
Qed.

Lemma forM_nothing {A} (f : A → M unit) xs s :
  (∀ x, x ∈ xs → f x s = Ok tt s) → forM_ xs f s = Ok tt s.
Proof.
  induction xs as [|x xs IH]; intros Hf; [done|].
  rewrite forM_cons, (run_bind_Ok _ _ _ _ _ (Hf x ltac:(left))).
  apply IH. intros y Hy. apply Hf. by right.
Qed.

Lemma forM_warn {A} (b : A → bool) (d : A → diag) xs s :
  forM_ xs (λ x, when (b x) (warn (d x))) s
  = Ok tt (State (heap s)
             (diags s ++ (d <$> filter (λ x, b x = true) xs)) (regs s)).
Proof.
  revert s. induction xs as [|x xs IH]; intros s.
  - cbn. by rewrite app_nil_r, state_eta.
  - rewrite forM_cons. destruct (b x) eqn:Hb; cbn [when].
    + rewrite run_bind_warn, IH. cbn [heap diags regs].
      rewrite filter_cons_True by done. by rewrite fmap_cons, <- app_assoc.
    + rewrite run_bind_ret, IH.
      rewrite filter_cons_False by by rewrite Hb. done.
Qed.

Section Normalisers.
Context (E : env).

(** X5.  [checkComponents] changes nothing but the diagnostics: it reports,
    in the order of the keys, every component name that in lower case is a
    built-in or a reserved tag, under the name as it is written; on a
    configuration that is undefined or null it aborts. *)
Theorem checkComponents_reports (options : value) (s : state) :
  checkComponents E options s =
  match options with
  | VUndef | VNull =>
      Err (TypeError "Cannot read properties of undefined or null")
  | _ =>
      Ok tt (State (heap s)
               (diags s ++
                (WarnReservedComponent <$>
                   filter (λ key, reserved_name E key = true)
                     (forin_keys (heap s)
                        (get_val (heap s) options "components"))))
               (regs s))
  end.
Proof.
  unfold checkComponents.
  destruct (decide (options = VUndef)) as [->|Hu]; [done|].
  destruct (decide (options = VNull)) as [->|Hn]; [done|].
  rewrite run_bind_get, run_for_in by done.
  rewrite (forM_warn (reserved_name E) WarnReservedComponent).
  by destruct options.
Qed.

End Normalisers.

Section NormaliserFrames.
Context (E : env) {R : relation state} {W : loc → Prop} `{!Frame R W}.

Lemma spec_normalizeProps_on options vm :
  writable W options → spec R (normalizeProps E options vm) (λ _, True).
Proof. intros Hw. unfold normalizeProps. spec_go. Qed.

Lemma spec_normalizeInject_on options vm :
  writable W options → spec R (normalizeInject E options vm) (λ _, True).
Proof. intros Hw. unfold normalizeInject. spec_go. Qed.

End NormaliserFrames.

Section Declarations.
Context (E : env).

(** X6.  [normalizeProps] and [normalizeInject] assign to the configuration
    they are given and to nothing else that exists: the declaration found
    under [props] or [inject], and every other object of the heap, is left
    as it is (the normalised form is a new object), and nothing is
    registered. *)
Theorem normalizers_spare_declarations
  (options vm : value) (s s' : state) :
  normalizeProps E options vm s = Ok tt s' ∨
  normalizeInject E options vm s = Ok tt s' →
  length (heap s) ≤ length (heap s') ∧
  regs s' = regs s ∧
  ∀ l, l < length (heap s) → options ≠ VRef l → heap s' !! l = heap s !! l.
Proof.
  intros Hrun.
  set (P := λ l, l < length (heap s) ∧ options ≠ VRef l).
  assert (writable (λ l, ¬ P l) options) as Hw.
  { intros l -> [_ Hne]. by apply Hne. }
  assert (frame_on P s s) as H0 by (apply frame_on_refl; by intros l [? _]).
  assert (frame_on P s s') as (_ & Hl & Hr & Hh).
  { destruct Hrun as [Hrun|Hrun].
    - exact (spec_run _ _ _ _ _ (spec_normalizeProps_on E options vm Hw)
               H0 Hrun).
    - exact (spec_run _ _ _ _ _ (spec_normalizeInject_on E options vm Hw)
               H0 Hrun). }
  split_and!; [done..|]. intros l Hl' Hne. by apply Hh.
Qed.

End Declarations.

Lemma normalizers_spare_declarations_witness :
  ∃ s', normalizeProps dev_env (VRef 2) VUndef props_state = Ok tt s' ∧
    length (heap props_state) ≤ length (heap s') ∧
    regs s' = regs props_state ∧
    ∀ l, l < length (heap props_state) → VRef 2 ≠ VRef l →
         heap s' !! l = heap props_state !! l.
Proof.
  assert (∃ s', normalizeProps dev_env (VRef 2) VUndef props_state
                = Ok tt s') as (s' & Hrun).
  { eexists. vm_compute. reflexivity. }
  exists s'. split; [exact Hrun|].
  exact (normalizers_spare_declarations dev_env (VRef 2) VUndef props_state
           s' (or_introl Hrun)).
Defined.

Lemma checkComponents_reports_witness :
  checkComponents dev_env (VRef 1) components_state
  = Ok tt (State (heap components_state)
             [WarnReservedComponent "Slot"; WarnReservedComponent "component"]
             []).
Proof. rewrite checkComponents_reports. vm_compute. reflexivity. Defined.

Section Directives.

Lemma is_function_directives s d do seen sa v :
  heap s !! d = Some do → cls do = CPlain →
  directives_inv s d do seen sa →
  is_function (heap sa) v = is_function (heap s) v.
Proof.
  intros Hd Hc (Hlen & _ & _ & Hold & Hnew & da & Hda & Hca & _).
  destruct v as [| | | | |l]; try done. simpl.
  destruct (decide (l = d)) as [->|Hne].
  { by rewrite (obj_at_Some _ _ _ Hda), (obj_at_Some _ _ _ Hd), Hca, Hc. }
  destruct (decide (l < length (heap s))) as [Hl|Hl].
  { unfold obj_at. by rewrite Hold. }
  unfold obj_at at 2. rewrite (lookup_ge_None_2 (heap s) l) by lia.
  destruct (decide (l < length (heap sa))) as [Hla|Hla].
  - destruct (Hnew l) as [w Hw]; [lia|done|].
    by rewrite (obj_at_Some _ _ _ Hw).
  - unfold obj_at. by rewrite (lookup_ge_None_2 (heap sa) l) by lia.
Qed.

(** X7.  [normalizeDirectives] works in place, on the object found under
    [directives]: a directive given as a function [f] is replaced by a new
    object [{bind: f, update: f}], every other directive stays as it is, no
    key is added or removed, and no other object that exists is changed.
    A second pass changes nothing. *)
Theorem normalizeDirectives_in_place
  (l d : loc) (lo do : object) (s : state) :
  heap s !! l = Some lo → cls lo = CPlain → proto lo = None →
  own_lookup lo "directives" = Some (VRef d) →
  heap s !! d = Some do → cls do = CPlain → proto do = None →
  ∃ s' do',
    normalizeDirectives (VRef l) s = Ok tt s' ∧
    diags s' = diags s ∧ regs s' = regs s ∧
    (∀ l', l' < length (heap s) → l' ≠ d → heap s' !! l' = heap s !! l') ∧
    heap s' !! d = Some do' ∧ cls do' = CPlain ∧ proto do' = None ∧
    (∀ k, match own_lookup do k with
          | None => own_lookup do' k = None
          | Some v =>
              ∃ w, own_lookup do' k = Some w ∧
                   normalized_directive (heap s) (heap s') v w
          end) ∧
    normalizeDirectives (VRef l) s' = Ok tt s'.
Proof.
  intros Hl Hlc Hlp Hdirs Hd Hc Hp.
  assert (d < length (heap s)) as Hdl by by eapply lookup_lt_Some.
  set (body := λ (dirs : value) (key : string),
         let! def := get dirs key in
         let! isf := read (λ h, is_function h def) in
         (if isf then
            let! o := new_object [("bind", def); ("update", def)] in
            set_prop dirs key o
          else ret tt) : M unit).
  assert (∀ sa, get_val (heap sa) (VRef l) "directives" = VRef d →
            normalizeDirectives (VRef l) sa
            = forM_ (forin_keys (heap sa) (VRef d)) (body (VRef d)) sa)
    as Hunfold.
  { intros sa Hg. unfold normalizeDirectives.
    rewrite run_bind_get by done. rewrite Hg. cbn [truthy].
    by rewrite run_for_in. }
  (* the first pass *)
  destruct (forM_prefix (directives_inv s d do) (body (VRef d))
              (own_keys do) s) as (s' & Hrun & Hinv).
  { split_and!; [done..| |].
    - intros l' ? ?. lia.
    - exists do. split_and!; [done..|]. intros k.
      destruct (own_lookup do k) as [v|]; [|done].
      exists v. split_and!; [done| |done]. by intros ?%elem_of_nil. }
  { intros seen k rest sa Hkeys Hinv.
    assert (k ∉ seen) as Hnew.
    { pose proof (NoDup_own_keys do) as Hnd. rewrite Hkeys in Hnd.
      apply NoDup_app in Hnd as (_ & Hdisj & _). intros Hin.
      apply (Hdisj k Hin). left. }
    assert (is_Some (own_lookup do k)) as [v Hv].
    { apply elem_of_own_keys. rewrite Hkeys. apply elem_of_app. right. left. }
    pose proof (is_function_directives s d do seen sa v Hd Hc Hinv) as Hfun.
    destruct Hinv as (Hlen & Hdg & Hrg & Hold & Hobjs & da & Hda & Hca & Hpa
                      & Hks).
    pose proof (Hks k) as Hk. rewrite Hv in Hk.
    destruct Hk as (w & Hw & _ & Hwv). specialize (Hwv Hnew). subst w.
    unfold body. rewrite run_bind_get, run_bind_read by done.
    rewrite (get_val_no_proto _ _ _ _ Hda Hca Hpa), Hw. cbn [default id].
    rewrite Hfun. destruct (is_function (heap s) v) eqn:Hf.
    - rewrite run_bind_new_object.
      erewrite run_set_prop;
        [|by apply lookup_app_l_Some|by apply obj_set_plain].
      eexists. split; [reflexivity|].
      set (n := length (heap sa)).
      assert (d < length (heap sa ++ [directive_object v])) as Hdl'.
      { rewrite length_app. lia. }
      split_and!; cbn [heap diags regs with_heap].
      + rewrite length_insert, length_app. lia.
      + done.
      + done.
      + intros l' Hl' Hne. rewrite list_lookup_insert_ne by done.
        rewrite lookup_app_l by lia. by apply Hold.
      + intros l' Hl1 Hl2. rewrite length_insert, length_app in Hl2.
        simpl in Hl2. rewrite list_lookup_insert_ne by lia.
        destruct (decide (l' = n)) as [->|Hne].
        * exists v. by apply list_lookup_middle.
        * rewrite lookup_app_l by (subst n; lia). apply Hobjs; subst n; lia.
      + eexists. split_and!; [by apply list_lookup_insert_eq|done..|].
        intros k'. unfold own_lookup at 2 3. cbn [cls props proto].
        pose proof (Hks k') as Hk'.
        destruct (decide (k' = k)) as [->|Hne].
        * rewrite Hv. exists (VRef n). rewrite alist_get_set_eq.
          split_and!; [done| |].
          -- intros _. unfold normalized_directive. rewrite Hf.
             exists n. split_and!; [done|subst n; lia|].
             rewrite list_lookup_insert_ne by (subst n; lia).
             by apply list_lookup_middle.
          -- intros Hnin. destruct Hnin. apply elem_of_app. right. left.
        * rewrite alist_get_set_ne by done.
          unfold own_lookup in Hk' at 2 3. rewrite Hca in Hk'.
          destruct (own_lookup do k') as [v'|]; [|done].
          destruct Hk' as (w & Hw' & Hin & Hnin). exists w.
          split_and!; [done| |].
          -- intros [Hin'|Hin']%elem_of_app;
               [|by apply list_elem_of_singleton in Hin'].
             specialize (Hin Hin'). unfold normalized_directive in *.
             destruct (is_function (heap s) v'); [|done].
             destruct Hin as (m & -> & Hm & Hhm). exists m.
             split_and!; [done..|].
             rewrite list_lookup_insert_ne by lia.
             by apply lookup_app_l_Some.
          -- intros Hn. apply Hnin. intros Hin'. apply Hn.
             apply elem_of_app. by left.
    - eexists. split; [reflexivity|].
      split_and!; [done..|]. exists da. split_and!; [done..|].
      intros k'. pose proof (Hks k') as Hk'.
      destruct (own_lookup do k') as [v'|] eqn:Hv'; [|done].
      destruct Hk' as (w & Hw' & Hin & Hnin). exists w.
      split_and!; [done| |].
      + intros [Hin'|Hin']%elem_of_app; [by apply Hin|].
        apply list_elem_of_singleton in Hin' as ->.
        assert (v' = v) as -> by congruence.
        rewrite (Hnin Hnew). unfold normalized_directive. by rewrite Hf.
      + intros Hn. apply Hnin. intros Hin'. apply Hn.
        apply elem_of_app. by left. }
  pose proof (λ v, is_function_directives s d do _ s' v Hd Hc Hinv) as Hfun.
  destruct Hinv as (Hlen & Hdg & Hrg & Hold & Hobjs & do' & Hdo' & Hc' & Hp'
                    & Hks).
  assert (get_val (heap s) (VRef l) "directives" = VRef d) as Hg.
  { by rewrite (get_val_no_proto _ _ _ _ Hl Hlc Hlp), Hdirs. }
  assert (∀ k, match own_lookup do k with
               | None => own_lookup do' k = None
               | Some v =>
                   ∃ w, own_lookup do' k = Some w ∧
                        normalized_directive (heap s) (heap s') v w
               end) as Hpost.
  { intros k. pose proof (Hks k) as Hk.
    destruct (own_lookup do k) as [v|] eqn:Hv; [|done].
    destruct Hk as (w & Hw & Hin & _). exists w. split; [done|].
    apply Hin, elem_of_own_keys. by rewrite Hv. }
  assert (get_val (heap s') (VRef l) "directives" = VRef d) as Hg'.
  { destruct (decide (l = d)) as [->|Hne].
    - rewrite (get_val_no_proto _ _ _ _ Hdo' Hc' Hp').
      assert (lo = do) as -> by congruence.
      pose proof (Hpost "directives") as Hk. rewrite Hdirs in Hk.
      destruct Hk as (w & -> & Hw). unfold normalized_directive in Hw.
      cbn [is_function] in Hw.
      rewrite (obj_at_Some _ _ _ Hd), Hc in Hw. by subst w.
    - assert (heap s' !! l = Some lo) as Hl'.
      { rewrite Hold; [done| |done]. by eapply lookup_lt_Some. }
      by rewrite (get_val_no_proto _ _ _ _ Hl' Hlc Hlp), Hdirs. }
  exists s', do'. split_and!; try done.
  - rewrite (Hunfold s Hg). by rewrite (forin_keys_no_proto _ _ _ Hd Hp).
  - (* the second pass *)
    rewrite (Hunfold s' Hg'). apply forM_nothing. intros k Hk.
    rewrite (forin_keys_no_proto _ _ _ Hdo' Hp') in Hk.
    apply elem_of_own_keys in Hk as [w Hw].
    unfold body. rewrite run_bind_get, run_bind_read by done.
    rewrite (get_val_no_proto _ _ _ _ Hdo' Hc' Hp'), Hw. cbn [default id].
    pose proof (Hpost k) as Hk'.
    destruct (own_lookup do k) as [v|]; [|congruence].
    destruct Hk' as (w' & Hw' & Hnd). assert (w' = w) as -> by congruence.
    unfold normalized_directive in Hnd.
    destruct (is_function (heap s) v) eqn:Hf.
    + destruct Hnd as (n & -> & Hn & Hhn). cbn [is_function].
      by rewrite (obj_at_Some _ _ _ Hhn).
    + subst w. by rewrite Hfun, Hf.
Qed.

End Directives.

Lemma normalizeDirectives_in_place_witness :
  ∃ s',
    normalizeDirectives (VRef 3) directives_state = Ok tt s' ∧
    heap s' =
      [ Obj None (CFun (UserFn 0)) [];
        Obj None CPlain [("bind", VRef 0)];
        Obj None CPlain [("focus", VRef 4); ("pin", VRef 1)];
        Obj None CPlain [("directives", VRef 2)];
        Obj None CPlain [("bind", VRef 0); ("update", VRef 0)] ] ∧
    normalizeDirectives (VRef 3) s' = Ok tt s'.
Proof.
  destruct (normalizeDirectives_in_place 3 2 _ _ directives_state
              eq_refl eq_refl eq_refl eq_refl eq_refl eq_refl eq_refl)
    as (s' & do' & Hrun & _ & _ & _ & _ & _ & _ & _ & Hagain).
  exists s'. split_and!; [exact Hrun| |exact Hagain].
  vm_compute in Hrun. by injection Hrun as <-.
Defined.
(** * The array form of the property declarations *)

Lemma elem_of_rev {A} (x : A) (l : list A) : x ∈ rev l ↔ x ∈ l.
Proof. rewrite !list_elem_of_In. symmetry. apply in_rev. Qed.

Lemma omap_rev {A B} (f : A → option B) (l : list A) :
  omap f (rev l) = rev (omap f l).
Proof.
  induction l as [|x l IH]; [done|]. cbn [rev]. rewrite omap_app, IH.
  simpl. destruct (f x); simpl; [done|]. by rewrite app_nil_r.
Qed.

Lemma omap_lookup_seq {A} (xs : list A) :
  omap (λ i, xs !! i) (seq 0 (length xs)) = xs.
Proof.
  assert (∀ pre, omap (λ i, (pre ++ xs) !! i) (seq (length pre) (length xs))
                 = xs) as Hgen.
  { induction xs as [|x xs IH]; intros pre; [done|]. cbn [length seq].
    simpl. rewrite list_lookup_middle by done. f_equal.
    rewrite (cons_middle x pre xs), app_assoc.
    specialize (IH (pre ++ [x])). rewrite length_app, Nat.add_1_r in IH.
    exact IH. }
  exact (Hgen []).
Qed.

Lemma length_not_strings_rev xs :
  length (not_strings (rev xs)) = length (not_strings xs).
Proof.
  unfold not_strings. induction xs as [|x xs IH]; [done|]. cbn [rev].
  rewrite filter_app, length_app, IH, !filter_cons, filter_nil.
  destruct (decide (is_string x = false)); simpl; lia.
Qed.

Section PropsArray.
Context (E : env).

(** X8.  On a configuration whose [props] is an array, [normalizeProps]
    replaces [props] by a new mapping that has one entry for each string of
    the array, under the camel-cased name, each holding a new descriptor
    [{type: null}] of its own; an element that is not a string gives no
    entry, and each such element is reported once outside production and
    not at all in production.  The array and every other object but the
    configuration are left as they are.  The names are taken other than
    [__proto__], which the result, made by a literal, would take as its
    prototype. *)
Theorem normalizeProps_array_form
  (l a : loc) (lo ao : object) (xs : list value) (vm : value) (s : state) :
  heap s !! l = Some lo → cls lo = CPlain → proto lo = None →
  own_lookup lo "props" = Some (VRef a) →
  heap s !! a = Some ao → cls ao = CArray xs →
  (∀ name, VStr name ∈ xs → camelize name ≠ "__proto__") →
  let r := length (heap s) in
  ∃ s' ro,
    normalizeProps E (VRef l) vm s = Ok tt s' ∧
    heap s' !! l
    = Some (Obj None CPlain (alist_set "props" (VRef r) (props lo))) ∧
    heap s' !! r = Some ro ∧ cls ro = CPlain ∧ proto ro = None ∧
    (∀ k, is_Some (own_lookup ro k) ↔
          ∃ name, VStr name ∈ xs ∧ camelize name = k) ∧
    (∀ k w, own_lookup ro k = Some w →
            ∃ n, w = VRef n ∧ r < n ∧ heap s' !! n = Some type_null) ∧
    (∀ l', l' < r → l' ≠ l → heap s' !! l' = heap s !! l') ∧
    regs s' = regs s ∧
    diags s'
    = diags s ++
      replicate (if dev E then length (not_strings xs) else 0)
        WarnPropsArrayString.
Proof.
  intros Hl Hlc Hlp Hprops Ha Hac _ r.
  assert (l < r ∧ a < r) as [Hlr Har].
  { split; by eapply lookup_lt_Some. }
  unfold normalizeProps. rewrite run_bind_get by done.
  rewrite (get_val_no_proto _ _ _ _ Hl Hlc Hlp), Hprops. cbn [default id].
  cbn [truthy negb]. rewrite run_bind_new_object, run_bind_read, run_bind_read.
  set (s0 := with_heap s (heap s ++ [Obj None CPlain []])).
  assert (heap s0 !! a = Some ao) as Ha0 by by apply lookup_app_l_Some.
  cbn [is_array]. rewrite (obj_at_Some _ _ _ Ha0), Hac.
  rewrite run_bind_bind, run_bind_read. cbn [array_length].
  rewrite (obj_at_Some _ _ _ Ha0), Hac.
  set (body := λ i : nat,
         let! val := get (VRef a) (key_of_index i) in
         match val with
         | VStr name =>
             let! d := new_object [("type", VNull)] in
             set_prop (VRef r) (camelize name) d
         | _ => when (dev E) (warn WarnPropsArrayString)
         end).
  destruct (forM_prefix (props_array_inv s xs (dev E)) body
              (rev (seq 0 (length xs))) s0) as (s1 & Hloop & Hinv).
  { unfold props_array_inv. fold r. split_and!.
    - subst s0. simpl. rewrite length_app. simpl. lia.
    - done.
    - cbn. by destruct (dev E); rewrite app_nil_r.
    - intros l' Hl'. subst s0. simpl. by apply lookup_app_l.
    - intros n Hn1 Hn2. subst s0. simpl in Hn2. rewrite length_app in Hn2.
      simpl in Hn2. lia.
    - exists (Obj None CPlain []). split_and!; [|done..|].
      + subst s0 r. simpl. by apply list_lookup_middle.
      + intros k. cbn. by intros i name ?%elem_of_nil. }
  { intros seen i rest sa Hseq Hinv.
    assert (i < length xs) as Hi.
    { assert (i ∈ rev (seq 0 (length xs))) as Hin.
      { rewrite Hseq. apply elem_of_app. right. left. }
      apply elem_of_rev, elem_of_seq in Hin. lia. }
    destruct (lookup_lt_is_Some_2 xs i Hi) as [x Hx].
    destruct Hinv as (Hlen & Hrg & Hdg & Hold & Hnew & ra & Hra
                      & Hrc & Hrp & Hks). fold r in Hlen, Hold, Hnew, Hra, Hks.
    assert (omap (λ i, xs !! i) (seen ++ [i])
            = omap (λ i, xs !! i) seen ++ [x]) as Hom.
    { rewrite omap_app. cbn. by rewrite Hx. }
    assert (heap sa !! a = Some ao) as Haa by by rewrite Hold.
    unfold body. rewrite run_bind_get by done.
    rewrite (get_val_array_index _ _ _ _ _ _ Haa Hac Hx).
    assert (∀ w, (∃ n, w = VRef n ∧ r < n ∧ n < length (heap sa)) →
              ∀ h', ∃ n, w = VRef n ∧ r < n ∧
                         n < length (<[r := h']> (heap sa ++ [type_null])))
      as Hgrow.
    { intros w (n & -> & ? & ?) h'. exists n.
      rewrite length_insert, length_app. simpl. split_and!; [done..|lia]. }
    assert (∀ k, match own_lookup ra k with
                 | Some w =>
                     (∃ n, w = VRef n ∧ r < n ∧ n < length (heap sa)) ∧
                     ∃ i0 name, i0 ∈ seen ++ [i] ∧
                       xs !! i0 = Some (VStr name) ∧ camelize name = k
                 | None =>
                     ∀ i0 name, i0 ∈ seen → xs !! i0 = Some (VStr name) →
                                camelize name ≠ k
                 end) as Hks'.
    { intros k. pose proof (Hks k) as Hk.
      destruct (own_lookup ra k); [|done].
      destruct Hk as (? & i0 & name & ? & ? & ?). split; [done|].
      exists i0, name. split_and!; [|done..]. apply elem_of_app. by left. }
    assert (is_string x = false →
            ∃ sb, when (dev E) (warn WarnPropsArrayString) sa = Ok tt sb ∧
                  props_array_inv s xs (dev E) (seen ++ [i]) sb) as Hskip.
    { intros Hns.
      assert (not_strings (omap (λ i, xs !! i) (seen ++ [i]))
              = not_strings (omap (λ i, xs !! i) seen) ++ [x]) as Hcount.
      { rewrite Hom. unfold not_strings.
        by rewrite filter_app, filter_cons_True, filter_nil. }
      assert (∃ sb, when (dev E) (warn WarnPropsArrayString) sa = Ok tt sb
                ∧ heap sb = heap sa ∧ regs sb = regs sa
                ∧ diags sb
                  = diags s ++
                    replicate
                      (if dev E
                       then length (not_strings
                                      (omap (λ i, xs !! i) (seen ++ [i])))
                       else 0) WarnPropsArrayString)
        as (sb & Hsb & Hh & Hr & Hd).
      { rewrite Hcount, length_app. destruct (dev E) eqn:Hdev; cbn [when].
        - eexists. split_and!; [reflexivity|done..|].
          cbn [diags length]. rewrite Hdg, <- app_assoc, Nat.add_1_r.
          f_equal. by rewrite <- replicate_S_end.
        - by eexists. }
      exists sb. split; [done|]. unfold props_array_inv. fold r.
      rewrite Hh, Hr. split_and!; [done|done|done|done|done|].
      exists ra. split_and!; [done..|]. intros k. pose proof (Hks' k) as Hk.
      destruct (own_lookup ra k); [done|].
      intros i0 name [Hin|Hin]%elem_of_app Hi0; [by eapply Hk|].
      apply list_elem_of_singleton in Hin as ->.
      rewrite Hx in Hi0. injection Hi0 as ->. done. }
    destruct x as [| | | |name|]; try by apply Hskip.
    rewrite run_bind_new_object.
    erewrite run_set_prop;
      [|by apply lookup_app_l_Some|by apply obj_set_plain].
    eexists. split; [reflexivity|].
    set (n := length (heap sa)).
    unfold props_array_inv. fold r. cbn [heap diags regs with_heap].
    split_and!.
    - rewrite length_insert, length_app. lia.
    - done.
    - rewrite Hdg, Hom. unfold not_strings.
      by rewrite filter_app, filter_cons_False, filter_nil, app_nil_r.
    - intros l' Hl'. rewrite list_lookup_insert_ne by lia.
      rewrite lookup_app_l by lia. by apply Hold.
    - intros n' Hn1 Hn2. rewrite length_insert, length_app in Hn2.
      simpl in Hn2. rewrite list_lookup_insert_ne by lia.
      destruct (decide (n' = n)) as [->|Hne].
      + by apply list_lookup_middle.
      + rewrite lookup_app_l by (subst n; lia). apply Hnew; subst n; lia.
    - eexists. split_and!; [apply list_lookup_insert_eq| | |].
      { rewrite length_app. lia. } { done. } { done. }
      intros k. unfold own_lookup at 1. cbn [cls props proto].
      destruct (decide (k = camelize name)) as [->|Hne].
      + rewrite alist_get_set_eq. split.
        * exists n. rewrite length_insert, length_app. simpl.
          split_and!; [done|subst n; lia|lia].
        * exists i, name. split_and!; [|done..].
          apply elem_of_app. right. left.
      + rewrite alist_get_set_ne by done. pose proof (Hks' k) as Hk.
        unfold own_lookup in Hk at 1. rewrite Hrc in Hk.
        destruct (alist_get k (props ra)) as [w|].
        * destruct Hk as [Hw Hi0]. split; [by apply Hgrow|done].
        * intros i0 nm [Hin|Hin]%elem_of_app Hi0; [by eapply Hk|].
          apply list_elem_of_singleton in Hin as ->.
          rewrite Hx in Hi0. injection Hi0 as ->. done. }
  destruct Hinv as (Hlen & Hrg & Hdg & Hold & Hnew & ro & Hro
                    & Hrc & Hrp & Hks). fold r in Hlen, Hold, Hnew, Hro, Hks.
  assert (heap s1 !! l = Some lo) as Hl1 by by rewrite Hold.
  rewrite (run_bind_Ok _ _ _ _ _ Hloop).
  erewrite run_set_prop; [|exact Hl1|by apply obj_set_plain].
  rewrite Hlp.
  eexists _, ro. split; [reflexivity|]. cbn [heap diags regs with_heap].
  split_and!; try done.
  - apply list_lookup_insert_eq. by eapply lookup_lt_Some.
  - by rewrite list_lookup_insert_ne by lia.
  - intros k. pose proof (Hks k) as Hk. split.
    + intros [w Hw]. rewrite Hw in Hk.
      destruct Hk as (_ & i & name & _ & Hi & Hc). exists name.
      split; [|done]. by eapply list_elem_of_lookup_2.
    + intros (name & [i Hi]%list_elem_of_lookup_1 & Hc).
      destruct (own_lookup ro k); [done|]. exfalso.
      apply (Hk i name); [|done..].
      apply elem_of_rev, elem_of_seq. apply lookup_lt_Some in Hi. lia.
  - intros k w Hw. pose proof (Hks k) as Hk. rewrite Hw in Hk.
    destruct Hk as ((n & -> & Hn1 & Hn2) & _). exists n.
    split_and!; [done..|]. rewrite list_lookup_insert_ne by lia.
    by apply Hnew.
  - intros l' Hl' Hne. rewrite list_lookup_insert_ne by done. by apply Hold.
  - rewrite Hdg. destruct (dev E); [|done]. do 2 f_equal.
    rewrite omap_rev, omap_lookup_seq. apply length_not_strings_rev.
Qed.

End PropsArray.

Lemma normalizeProps_array_form_witness :
  ∃ s',
    normalizeProps dev_env (VRef 1) VUndef props_array_state = Ok tt s' ∧
    heap s' =
      [ Obj None (CArray [VStr "my-size"; VNum 7; VStr "label"]) [];
        Obj None CPlain [("props", VRef 2)];
        Obj None CPlain [("label", VRef 3); ("mySize", VRef 4)];
        type_null; type_null ] ∧
    diags s' = [WarnPropsArrayString].
Proof.
  assert (∀ name, VStr name ∈ [VStr "my-size"; VNum 7; VStr "label"] →
                  camelize name ≠ "__proto__") as Hnames.
  { intros name Hin.
    repeat (apply elem_of_cons in Hin as [[= ->]|Hin]; [by vm_compute|]);
      try (apply elem_of_cons in Hin as [[=]|Hin]).
    all: try by apply elem_of_nil in Hin.
    all: repeat (apply elem_of_cons in Hin as [Heq|Hin];
                 [by (discriminate Heq || (injection Heq as ->; vm_compute))|]).
    all: by apply elem_of_nil in Hin. }
  destruct (normalizeProps_array_form dev_env 1 0 _ _ _ VUndef
              props_array_state eq_refl eq_refl eq_refl eq_refl eq_refl
              eq_refl Hnames) as (s' & ro & Hrun & _ & _ & _ & _ & _ & _ & _
                                  & _ & Hdiags).
  exists s'. split; [exact Hrun|]. split; [|exact Hdiags].
  vm_compute in Hrun. by injection Hrun as <-.
Defined.
(** * The mapping form of the injections *)

Section InjectMapping.
Context (E : env).

(** X9.  On a configuration whose [inject] is a mapping, [normalizeInject]
    replaces [inject] by a new mapping with the same keys, each holding a
    new descriptor: for an entry [key: val] whose value is a plain object, a
    copy of [val] in which [from] is the one [val] gives and the key
    otherwise; for any other value, [{from: val}].  The declaration and its
    descriptors are not changed, and nothing is reported.  The declaration
    is taken without a key [__proto__], which the result, made by a
    literal, would take as its prototype. *)
Theorem normalizeInject_mapping_form
  (l i : loc) (lo io : object) (vm : value) (s : state) :
  heap s !! l = Some lo → cls lo = CPlain → proto lo = None →
  own_lookup lo "inject" = Some (VRef i) → i ≠ l →
  heap s !! i = Some io → cls io = CPlain → proto io = None →
  (∀ k v, own_lookup io k = Some v → injection_value (heap s) l v) →
  own_lookup io "__proto__" = None →
  let n := length (heap s) in
  ∃ s' no,
    normalizeInject E (VRef l) vm s = Ok tt s' ∧
    heap s' !! l
    = Some (Obj None CPlain (alist_set "inject" (VRef n) (props lo))) ∧
    heap s' !! n = Some no ∧ cls no = CPlain ∧ proto no = None ∧
    (∀ k, match own_lookup io k with
          | Some v =>
              ∃ m, own_lookup no k = Some (VRef m) ∧ n < m ∧
                   heap s' !! m = Some (injection_for (heap s) k v)
          | None => own_lookup no k = None
          end) ∧
    (∀ l', l' < n → l' ≠ l → heap s' !! l' = heap s !! l') ∧
    regs s' = regs s ∧ diags s' = diags s.
Proof.
  intros Hl Hlc Hlp Hinj Hil Hi Hic Hip Hvals _ n.
  assert (l < n ∧ i < n) as [Hln Hin].
  { split; by eapply lookup_lt_Some. }
  unfold normalizeInject. rewrite run_bind_get by done.
  rewrite (get_val_no_proto _ _ _ _ Hl Hlc Hlp), Hinj. cbn [default id].
  rewrite run_bind_new_object.
  erewrite run_bind_set_prop;
    [|by apply lookup_app_l_Some|by apply obj_set_plain].
  rewrite Hlp.
  set (s0 := with_heap _ _).
  assert (heap s0 !! i = Some io) as Hi0.
  { subst s0. simpl. rewrite list_lookup_insert_ne by done.
    by apply lookup_app_l_Some. }
  rewrite run_bind_read, run_bind_read. cbn [is_array isPlainObject].
  rewrite (obj_at_Some _ _ _ Hi0), Hic. rewrite run_for_in.
  rewrite (forin_keys_no_proto _ _ _ Hi0 Hip).
  set (body := λ key : string,
         let! val := get (VRef i) key in
         let! isp := read (λ h, isPlainObject h val) in
         let! d :=
           (if isp
            then let! o := new_object [("from", VStr key)] in extend o val
            else new_object [("from", val)]) in
         set_prop (VRef n) key d).
  assert (∀ l', l' < n → l' ≠ l → heap s0 !! l' = heap s !! l') as Hs0.
  { intros l' Hl' Hne. subst s0. simpl.
    rewrite list_lookup_insert_ne by done. by apply lookup_app_l. }
  destruct (forM_prefix (inject_inv s s0 io) body (own_keys io) s0)
    as (s' & Hloop & Hinv).
  { unfold inject_inv. fold n. split_and!; [|done..|].
    - subst s0. simpl. rewrite length_insert, length_app. simpl. lia.
    - exists (Obj None CPlain []). split_and!; [|done..|].
      + subst s0. simpl. rewrite list_lookup_insert_ne by lia.
        by apply list_lookup_middle.
      + intros k. destruct (own_lookup io k); [|done].
        by rewrite decide_False by by intros ?%elem_of_nil. }
  { intros seen k rest sa Hkeys Hinv.
    assert (k ∉ seen) as Hnew.
    { pose proof (NoDup_own_keys io) as Hnd. rewrite Hkeys in Hnd.
      apply NoDup_app in Hnd as (_ & Hdisj & _). intros Hk.
      apply (Hdisj k Hk). left. }
    assert (is_Some (own_lookup io k)) as [v Hv].
    { apply elem_of_own_keys. rewrite Hkeys. apply elem_of_app. right. left. }
    destruct Hinv as (Hlen & Hrg & Hdg & Hold & na & Hna & Hnc & Hnp & Hks).
    fold n in Hlen, Hold, Hna, Hks.
    assert (heap sa !! i = Some io) as Hia by by rewrite Hold.
    assert (∀ l', l' < n → l' ≠ l → heap sa !! l' = heap s !! l') as Hold'.
    { intros l' Hl' Hne. rewrite Hold by done. by apply Hs0. }
    assert (isPlainObject (heap sa) v = isPlainObject (heap s) v) as Hplain.
    { destruct v as [| | | | |q]; try done.
      destruct (Hvals k _ Hv q eq_refl) as (Hq & Hql & _).
      cbn [isPlainObject]. unfold obj_at. by rewrite Hold'. }
    set (sb d := with_heap sa
                   (<[n := Obj None CPlain
                             (alist_set k (VRef (length (heap sa)))
                                (props na))]> (heap sa ++ [d]))).
    assert (inject_inv s s0 io (seen ++ [k])
              (sb (injection_for (heap s) k v))) as Hdone.
    { unfold inject_inv. fold n. subst sb. cbn [heap diags regs with_heap].
      split_and!; [|done..| |].
      - rewrite length_insert, length_app. lia.
      - intros l' Hl'. rewrite list_lookup_insert_ne by lia.
        rewrite lookup_app_l by lia. by apply Hold.
      - eexists. split_and!; [apply list_lookup_insert_eq| | |].
        { rewrite length_app. lia. } { done. } { done. }
        intros k'. unfold own_lookup at 2 3 4. cbn [cls props proto].
        pose proof (Hks k') as Hk'.
        unfold own_lookup in Hk' at 2 3 4. rewrite Hnc in Hk'.
        destruct (decide (k' = k)) as [->|Hne].
        + rewrite Hv, decide_True by (apply elem_of_app; right; left).
          exists (length (heap sa)). rewrite alist_get_set_eq.
          split_and!; [done|lia|]. rewrite list_lookup_insert_ne by lia.
          by apply list_lookup_middle.
        + rewrite alist_get_set_ne by done.
          destruct (own_lookup io k') as [v'|]; [|done].
          destruct (decide (k' ∈ seen)) as [Hs|Hs].
          * rewrite decide_True by (apply elem_of_app; by left).
            destruct Hk' as (m & Hm1 & Hm2 & Hm3). exists m.
            split_and!; [done..|]. rewrite list_lookup_insert_ne by lia.
            by apply lookup_app_l_Some.
          * rewrite decide_False; [done|].
            intros [?|?%list_elem_of_singleton]%elem_of_app; done. }
    unfold body. rewrite run_bind_get, run_bind_read by done.
    rewrite (get_val_no_proto _ _ _ _ Hia Hic Hip), Hv. cbn [default id].
    rewrite Hplain. unfold injection_for in Hdone.
    destruct (isPlainObject (heap s) v) eqn:Hp.
    - destruct v as [| | | | |q]; try done.
      destruct (Hvals k _ Hv q eq_refl) as (Hq & Hql & Hqp).
      cbn [isPlainObject] in Hp.
      destruct (lookup_lt_is_Some_2 _ _ Hq) as [qo Hqo].
      rewrite (obj_at_Some _ _ _ Hqo) in Hp, Hqp.
      assert (cls qo = CPlain) as Hqc by by destruct (cls qo).
      rewrite run_bind_bind, run_bind_new_object.
      erewrite (run_bind_Ok _ _ _ (VRef (length (heap sa))));
        [|eapply (extend_mapping (length (heap sa)) None _ q qo);
          [by apply list_lookup_middle| |done|by apply Hqp|lia]].
      2: { cbn [heap with_heap]. apply lookup_app_l_Some.
           rewrite Hold'; [done|lia|done]. }
      cbn [heap with_heap]. rewrite insert_last.
      erewrite run_set_prop;
        [|by apply lookup_app_l_Some|by apply obj_set_plain].
      eexists. split; [reflexivity|].
      cbn [copied_from] in Hdone. rewrite (obj_at_Some _ _ _ Hqo) in Hdone.
      rewrite Hnp. exact Hdone.
    - rewrite run_bind_new_object.
      erewrite run_set_prop;
        [|by apply lookup_app_l_Some|by apply obj_set_plain].
      eexists. split; [reflexivity|]. rewrite Hnp. exact Hdone. }
  destruct Hinv as (Hlen & Hrg & Hdg & Hold & no & Hno & Hnc & Hnp & Hks).
  fold n in Hlen, Hold, Hno, Hks.
  exists s', no. split_and!; try done.
  - rewrite Hold by done. subst s0. simpl. apply list_lookup_insert_eq.
    rewrite length_app. lia.
  - intros k. pose proof (Hks k) as Hk.
    destruct (own_lookup io k) as [v|] eqn:Hv; [|done].
    rewrite decide_True in Hk; [done|]. apply elem_of_own_keys.
    by rewrite Hv.
  - intros l' Hl' Hne. rewrite Hold by done. by apply Hs0.
Qed.

End InjectMapping.

Lemma normalizeInject_mapping_form_witness :
  ∃ s',
    normalizeInject dev_env (VRef 3) VUndef inject_state = Ok tt s' ∧
    heap s' =
      [ Obj None CPlain [("default", VNum 1)];
        Obj None CPlain [("from", VStr "f")];
        Obj None CPlain [("a", VStr "b"); ("c", VRef 0); ("e", VRef 1)];
        Obj None CPlain [("inject", VRef 4)];
        Obj None CPlain [("a", VRef 5); ("c", VRef 6); ("e", VRef 7)];
        Obj None CPlain [("from", VStr "b")];
        Obj None CPlain [("from", VStr "c"); ("default", VNum 1)];
        Obj None CPlain [("from", VStr "f")] ].
Proof.
  assert (∀ k v,
            own_lookup
              (Obj None CPlain [("a", VStr "b"); ("c", VRef 0); ("e", VRef 1)])
              k = Some v →
            injection_value (heap inject_state) 3 v) as Hvals.
  { intros k v Hv q ->. unfold own_lookup in Hv.
    cbn [cls props alist_get] in Hv.
    destruct (String.eqb "a" k); [done|].
    destruct (String.eqb "c" k);
      [injection Hv as <-; split_and!; [simpl; lia|done..]|].
    destruct (String.eqb "e" k); [|done].
    injection Hv as <-. split_and!; [simpl; lia|done..]. }
  destruct (normalizeInject_mapping_form dev_env 3 2 _ _ VUndef inject_state
              eq_refl eq_refl eq_refl eq_refl ltac:(done) eq_refl eq_refl
              eq_refl Hvals eq_refl) as (s' & no & Hrun & _).
  exists s'. split; [exact Hrun|].
  vm_compute in Hrun. by injection Hrun as <-.
Defined.
(** * The array form of the injections *)

Section InjectArray.
Context (E : env).

(** X10.  On a configuration whose [inject] is an array of names,
    [normalizeInject] replaces [inject] by a new mapping that has exactly
    the names of the array as keys, each name holding a new descriptor
    [{from: name}] of its own.  The array and every other object but the
    configuration are left as they are, and nothing is reported.  The names
    are taken other than [__proto__], which the result, made by a literal,
    would take as its prototype. *)
Theorem normalizeInject_array_form
  (l a : loc) (lo ao : object) (xs : list value) (vm : value) (s : state) :
  heap s !! l = Some lo → cls lo = CPlain → proto lo = None →
  own_lookup lo "inject" = Some (VRef a) →
  heap s !! a = Some ao → cls ao = CArray xs →
  Forall (λ x, is_string x = true) xs →
  VStr "__proto__" ∉ xs →
  let n := length (heap s) in
  ∃ s' no,
    normalizeInject E (VRef l) vm s = Ok tt s' ∧
    heap s' !! l
    = Some (Obj None CPlain (alist_set "inject" (VRef n) (props lo))) ∧
    heap s' !! n = Some no ∧ cls no = CPlain ∧ proto no = None ∧
    (∀ k, is_Some (own_lookup no k) ↔ VStr k ∈ xs) ∧
    (∀ k w, own_lookup no k = Some w →
            ∃ m, w = VRef m ∧ n < m ∧ heap s' !! m = Some (from_name k)) ∧
    (∀ l', l' < n → l' ≠ l → heap s' !! l' = heap s !! l') ∧
    regs s' = regs s ∧ diags s' = diags s.
Proof.
  intros Hl Hlc Hlp Hinj Ha Hac Hstr _ n.
  assert (l < n ∧ a < n) as [Hln Han].
  { split; by eapply lookup_lt_Some. }
  assert (a ≠ l) as Hal.
  { intros ->. rewrite Hl in Ha. injection Ha as ->. congruence. }
  unfold normalizeInject. rewrite run_bind_get by done.
  rewrite (get_val_no_proto _ _ _ _ Hl Hlc Hlp), Hinj. cbn [default id].
  rewrite run_bind_new_object.
  erewrite run_bind_set_prop;
    [|by apply lookup_app_l_Some|by apply obj_set_plain].
  rewrite Hlp.
  set (s0 := with_heap _ _).
  assert (heap s0 !! a = Some ao) as Ha0.
  { subst s0. simpl. rewrite list_lookup_insert_ne by done.
    by apply lookup_app_l_Some. }
  assert (∀ l', l' < n → l' ≠ l → heap s0 !! l' = heap s !! l') as Hs0.
  { intros l' Hl' Hne. subst s0. simpl.
    rewrite list_lookup_insert_ne by done. by apply lookup_app_l. }
  rewrite run_bind_read, run_bind_read. cbn [is_array].
  rewrite (obj_at_Some _ _ _ Ha0), Hac.
  rewrite run_bind_read. cbn [array_length].
  rewrite (obj_at_Some _ _ _ Ha0), Hac.
  set (body := λ i : nat,
         let! name := get (VRef a) (key_of_index i) in
         let! key := to_key name in
         let! d := new_object [("from", name)] in
         set_prop (VRef n) key d).
  destruct (forM_prefix (inject_array_inv s s0 xs) body
              (seq 0 (length xs)) s0) as (s' & Hloop & Hinv).
  { unfold inject_array_inv. fold n. split_and!; [|done..|].
    - subst s0. simpl. rewrite length_insert, length_app. simpl. lia.
    - exists (Obj None CPlain []). split_and!; [|done..|].
      + subst s0. simpl. rewrite list_lookup_insert_ne by lia.
        by apply list_lookup_middle.
      + intros k. cbn. by intros i ?%elem_of_nil. }
  { intros seen i rest sa Hseq Hinv.
    assert (i < length xs) as Hi.
    { assert (i ∈ seq 0 (length xs)) as Hin'.
      { rewrite Hseq. apply elem_of_app. right. left. }
      apply elem_of_seq in Hin'. lia. }
    destruct (lookup_lt_is_Some_2 xs i Hi) as [x Hx].
    assert (∃ name, x = VStr name) as [name ->].
    { rewrite Forall_lookup in Hstr. specialize (Hstr i x Hx).
      destruct x; try done. eauto. }
    destruct Hinv as (Hlen & Hrg & Hdg & Hold & na & Hna & Hnc & Hnp & Hks).
    fold n in Hlen, Hold, Hna, Hks.
    assert (heap sa !! a = Some ao) as Haa by by rewrite Hold.
    unfold body. rewrite run_bind_get by done.
    rewrite (get_val_array_index _ _ _ _ _ _ Haa Hac Hx).
    cbn [to_key]. rewrite run_bind_ret, run_bind_new_object.
    erewrite run_set_prop;
      [|by apply lookup_app_l_Some|by apply obj_set_plain].
    eexists. split; [reflexivity|].
    set (m := length (heap sa)).
    unfold inject_array_inv. fold n. cbn [heap diags regs with_heap].
    split_and!; [|done..| |].
    - rewrite length_insert, length_app. lia.
    - intros l' Hl'. rewrite list_lookup_insert_ne by lia.
      rewrite lookup_app_l by lia. by apply Hold.
    - eexists. split_and!; [apply list_lookup_insert_eq| | |].
      { rewrite length_app. lia. } { done. } { done. }
      intros k. unfold own_lookup at 1. cbn [cls props proto].
      destruct (decide (k = name)) as [->|Hne].
      + rewrite alist_get_set_eq. split.
        * exists m. split_and!; [done|subst m; lia|].
          rewrite list_lookup_insert_ne by (subst m; lia).
          by apply list_lookup_middle.
        * exists i. split; [|done]. apply elem_of_app. right. left.
      + rewrite alist_get_set_ne by done. pose proof (Hks k) as Hk.
        unfold own_lookup in Hk at 1. rewrite Hnc in Hk.
        destruct (alist_get k (props na)) as [w|].
        * destruct Hk as ((m' & -> & Hm1 & Hm2) & i0 & Hi0 & Hx0). split.
          -- exists m'. split_and!; [done..|].
             rewrite list_lookup_insert_ne by lia.
             by apply lookup_app_l_Some.
          -- exists i0. split; [|done]. apply elem_of_app. by left.
        * intros i0 [Hin'|Hin']%elem_of_app; [by apply Hk|].
          apply list_elem_of_singleton in Hin' as ->.
          rewrite Hx. congruence. }
  destruct Hinv as (Hlen & Hrg & Hdg & Hold & no & Hno & Hnc & Hnp & Hks).
  fold n in Hlen, Hold, Hno, Hks.
  exists s', no. split_and!; try done.
  - rewrite Hold by done. subst s0. simpl. apply list_lookup_insert_eq.
    rewrite length_app. lia.
  - intros k. pose proof (Hks k) as Hk. split.
    + intros [w Hw]. rewrite Hw in Hk. destruct Hk as (_ & i & _ & Hi).
      by eapply list_elem_of_lookup_2.
    + intros [i Hi]%list_elem_of_lookup_1.
      destruct (own_lookup no k); [done|]. exfalso.
      apply (Hk i); [|done]. apply elem_of_seq.
      apply lookup_lt_Some in Hi. lia.
  - intros k w Hw. pose proof (Hks k) as Hk. rewrite Hw in Hk.
    by destruct Hk as [? _].
  - intros l' Hl' Hne. rewrite Hold by done. by apply Hs0.
Qed.

End InjectArray.

Lemma normalizeInject_array_form_witness :
  ∃ s',
    normalizeInject dev_env (VRef 1) VUndef inject_array_state = Ok tt s' ∧
    heap s' =
      [ Obj None (CArray [VStr "store"; VStr "bus"]) [];
        Obj None CPlain [("inject", VRef 2)];
        Obj None CPlain [("store", VRef 3); ("bus", VRef 4)];
        from_name "store"; from_name "bus" ].
Proof.
  destruct (normalizeInject_array_form dev_env 1 0 _ _ _ VUndef
              inject_array_state eq_refl eq_refl eq_refl eq_refl eq_refl
              eq_refl ltac:(by repeat constructor)
              ltac:(by intros [[=]|[[=]|?%elem_of_nil]%elem_of_cons]%elem_of_cons))
    as (s' & no & Hrun & _).
  exists s'. split; [exact Hrun|].
  vm_compute in Hrun. by injection Hrun as <-.
Defined.
(** * What the deep data merge leaves on the target *)

Lemma obj_set_is_array o k x o' :
  obj_set o k x = Some o' →
  match cls o' with CArray _ => true | _ => false end
  = match cls o with CArray _ => true | _ => false end.
Proof.
  unfold obj_set. destruct (cls o) eqn:Hc; try by intros [= <-].
  destruct (index_of_key k); repeat case_decide;
    try destruct (String.eqb k "length"); try done; by intros [= <-].
Qed.

Lemma keeps_arrays_refl s : keeps_arrays s s.
Proof. done. Qed.

Lemma keeps_arrays_trans s1 s2 s3 :
  keeps_arrays s1 s2 → keeps_arrays s2 s3 → keeps_arrays s1 s3.
Proof. intros H1 H2 l. by rewrite H2, H1. Qed.

Lemma set_keeps_arrays to k v s s' :
  set to k v s = Ok tt s' → keeps_arrays s s'.
Proof.
  intros (l & o & o' & -> & Hl & Hset & ->)%set_Ok l'. cbn [heap is_array].
  assert (l < length (heap s)) as Hlt by by eapply lookup_lt_Some.
  destruct (decide (l' = l)) as [->|Hne].
  - rewrite obj_at_insert_eq, (obj_at_Some _ _ _ Hl) by done.
    by eapply obj_set_is_array.
  - by rewrite obj_at_insert_ne.
Qed.

Lemma mergeData_keeps_arrays fuel to from s r s' :
  mergeData fuel to from s = Ok r s' → keeps_arrays s s'.
Proof.
  revert to from s r s'. induction fuel as [|fuel IH]; [done|].
  intros to from s r s'. simpl. destruct (truthy from); simpl.
  2: { by intros [_ ->]%ret_Ok. }
  intros (keys & s0 & Hkeys & Hrun)%bind_Ok.
  assert (s0 = s) as ->.
  { destruct from; simpl in Hkeys; try done;
      by apply read_Ok in Hkeys as [_ ->]. }
  apply bind_Ok in Hrun as ([] & s1 & Hloop & [_ ->]%ret_Ok).
  eapply (forM_rel keeps_arrays); [| | |exact Hloop].
  - intros ?. apply keeps_arrays_refl.
  - intros ? ? ?. apply keeps_arrays_trans.
  - intros k sa sb _ Hk.
    apply bind_Ok in Hk as (tv & ? & (_ & _ & -> & ->)%get_Ok & Hk).
    apply bind_Ok in Hk as (fv & ? & (_ & _ & -> & ->)%get_Ok & Hk).
    apply bind_Ok in Hk as (own & ? & (_ & _ & -> & ->)%hasOwn_Ok & Hk).
    destruct (has_own_val (heap sa) to k) eqn:Hown; simpl in Hk.
    + apply bind_Ok in Hk as (both & ? & [-> ->]%read_Ok & Hk).
      destruct (_ && _).
      * apply bind_Ok in Hk as (? & ? & Hrec & [_ ->]%ret_Ok).
        by apply IH in Hrec.
      * by apply ret_Ok in Hk as [_ ->].
    + by eapply set_keeps_arrays.
Qed.

Lemma has_own_val_kept v k s s' :
  merge_effect s s' → keeps_arrays s s' →
  has_own_val (heap s) v k = true → has_own_val (heap s') v k = true.
Proof.
  intros (_ & _ & Hk & _) Ha. destruct v as [| | | | |l]; try done.
  specialize (Ha l). cbn [has_own_val is_array] in *.
  assert (bool_decide (is_Some (own_lookup (obj_at (heap s) l) k)) = true →
          bool_decide (is_Some (own_lookup (obj_at (heap s') l) k)) = true)
    as Hown.
  { intros [w Hw]%bool_decide_eq_true. apply bool_decide_eq_true.
    rewrite (Hk _ _ _ Hw). eauto. }
  destruct (cls (obj_at (heap s) l)), (cls (obj_at (heap s') l)); try done;
    destruct (String.eqb k "length"); try done.
Qed.

Lemma set_owns to k v s s' :
  set to k v s = Ok tt s' → has_own_val (heap s') to k = true.
Proof.
  intros (l & o & o' & -> & Hl & Hset & ->)%set_Ok. cbn [heap has_own_val].
  rewrite obj_at_insert_eq by by eapply lookup_lt_Some.
  rewrite (obj_set_own_eq _ _ _ _ Hset).
  by destruct (cls o'), (String.eqb k "length").
Qed.

Lemma mergeData_body_effect fuel to from k s s1 :
  mergeData_body fuel to from k s = Ok tt s1 →
  merge_effect s s1 ∧ keeps_arrays s s1 ∧ has_own_val (heap s1) to k = true.
Proof.
  intros Hk. unfold mergeData_body in Hk.
  apply bind_Ok in Hk as (tv & ? & (_ & _ & -> & ->)%get_Ok & Hk).
  apply bind_Ok in Hk as (fv & ? & (_ & _ & -> & ->)%get_Ok & Hk).
  apply bind_Ok in Hk as (own & ? & (_ & _ & -> & ->)%hasOwn_Ok & Hk).
  destruct (has_own_val (heap s) to k) eqn:Hown; simpl in Hk.
  - apply bind_Ok in Hk as (both & ? & [-> ->]%read_Ok & Hk).
    destruct (_ && _).
    + apply bind_Ok in Hk as (? & ? & Hrec & [_ ->]%ret_Ok).
      pose proof (mergeData_effect _ _ _ _ _ _ Hrec) as [_ He].
      pose proof (mergeData_keeps_arrays _ _ _ _ _ _ Hrec) as Ha.
      split_and!; [done..|]. by eapply has_own_val_kept.
    + apply ret_Ok in Hk as [_ ->].
      split_and!; [apply merge_effect_refl|done..].
  - split_and!; [by eapply set_effect|by eapply set_keeps_arrays
                |by eapply set_owns].
Qed.

(** X11.  When the deep data merge returns, the target owns every key that
    the source had when the merge started, whatever the two values are:
    either it owned the key already, or the key was installed on it. *)
Theorem mergeData_covers_source
  (fuel : nat) (to from : value) (s : state) (r : value) (s' : state)
  (k : string) :
  mergeData fuel to from s = Ok r s' →
  k ∈ own_keys_val (heap s) from →
  has_own_val (heap s') to k = true.
Proof.
  destruct fuel as [|fuel]; [done|]. rewrite mergeData_unfold.
  destruct (truthy from) eqn:Htr; cbn [negb].
  2: { intros _ Hk. destruct from as [| |[]|n|str|]; try done;
         try by apply elem_of_nil in Hk.
       simpl in Htr. apply negb_false_iff, String.eqb_eq in Htr as ->.
       by apply elem_of_nil in Hk. }
  intros (keys & s0 & Hkeys & Hrun)%bind_Ok.
  assert (s0 = s ∧ keys = own_keys_val (heap s) from) as [-> ->].
  { destruct from; simpl in Hkeys; try done;
      apply read_Ok in Hkeys as [Hk1 Hk2]; by subst. }
  apply bind_Ok in Hrun as ([] & s1 & Hloop & [_ ->]%ret_Ok).
  remember (own_keys_val (heap s) from) as ks eqn:Hks.
  clear Hks Hkeys Htr. revert s Hloop.
  induction ks as [|k0 ks IH]; intros s Hloop Hk.
  { by apply elem_of_nil in Hk. }
  rewrite forM_cons in Hloop.
  apply bind_Ok in Hloop as ([] & sa & Hstep & Hrest).
  apply elem_of_cons in Hk as [->|Hk]; [|by eapply IH].
  apply mergeData_body_effect in Hstep as (_ & _ & Hown).
  assert (merge_effect sa s1 ∧ keeps_arrays sa s1) as [He Ha].
  { clear -Hrest. revert sa Hrest.
    induction ks as [|k1 ks IH]; intros sa Hrest.
    - apply ret_Ok in Hrest as [_ ->].
      split; [apply merge_effect_refl|done].
    - rewrite forM_cons in Hrest.
      apply bind_Ok in Hrest as ([] & sb & Hstep & Hrest).
      apply mergeData_body_effect in Hstep as (He1 & Ha1 & _).
      destruct (IH _ Hrest) as [He2 Ha2].
      split; [by eapply merge_effect_trans|by eapply keeps_arrays_trans]. }
  by eapply has_own_val_kept.
Qed.

Lemma mergeData_covers_source_witness :
  mergeData 1 (VRef 0) (VRef 1) data_state = Ok (VRef 0) data_merged_state ∧
  "y" ∈ own_keys_val (heap data_state) (VRef 1) ∧
  has_own_val (heap data_state) (VRef 0) "y" = false ∧
  has_own_val (heap data_merged_state) (VRef 0) "y" = true.
Proof.
  assert (mergeData 1 (VRef 0) (VRef 1) data_state
          = Ok (VRef 0) data_merged_state) as Hrun by reflexivity.
  assert ("y" ∈ own_keys_val (heap data_state) (VRef 1)) as Hk.
  { vm_compute. right. left. }
  split_and!; [exact Hrun|exact Hk|reflexivity|].
  exact (mergeData_covers_source 1 _ _ _ _ _ "y" Hrun Hk).
Defined.
(** * Lifecycle hooks along a chain of merges *)

Lemma concat_Ok a b s v s' :
  concat a b s = Ok v s' →
  ∃ l xs, a = VRef l ∧ cls (obj_at (heap s) l) = CArray xs ∧
    v = VRef (length (heap s)) ∧
    s' = with_heap s
           (heap s ++ [Obj None
                         (CArray (xs ++ match b with
                                        | VRef p =>
                                            match cls (obj_at (heap s) p) with
                                            | CArray ys => ys
                                            | _ => [b]
                                            end
                                        | _ => [b]
                                        end)) []]).
Proof.
  destruct a as [| | | | |l]; try done. cbn [concat].
  rewrite run_bind_read, run_bind_read.
  destruct (cls (obj_at (heap s) l)) as [|xs| |] eqn:Hc,
    (chain_lookup _ _ _ _); try done.
  all: try (rewrite run_bind_read; by destruct (is_function _ _)).
  rewrite run_bind_read. intros Hrun. exists l, xs. split_and!; [done..| |].
  - destruct b as [| | | | |p]; try by injection Hrun as <- _.
    destruct (cls (obj_at (heap s) p)); by injection Hrun as <- _.
  - destruct b as [| | | | |p]; try by injection Hrun as _ <-.
    destruct (cls (obj_at (heap s) p)); by injection Hrun as _ <-.
Qed.

Lemma hook_seq_frame h h' v :
  value_ok h v → (∀ l, l < length h → h' !! l = h !! l) →
  hook_seq h' v = hook_seq h v.
Proof.
  intros Hok Hh. destruct v as [| | | | |l]; try done.
  specialize (Hok l eq_refl). cbn [hook_seq]. unfold obj_at.
  by rewrite Hh.
Qed.

(** One merge of a hook, on a parent that is absent or an array. *)
Lemma mergeHook_seq parentVal childVal s v s' :
  mergeHook parentVal childVal s = Ok v s' →
  truthy parentVal = false ∨ is_array (heap s) parentVal = true →
  value_ok (heap s) parentVal → value_ok (heap s) childVal →
  hook_seq (heap s') v
  = hook_seq (heap s) parentVal ++ hook_seq (heap s) childVal ∧
  (∀ l, l < length (heap s) → heap s' !! l = heap s !! l) ∧
  length (heap s) ≤ length (heap s') ∧
  (truthy v = false ∨ is_array (heap s') v = true) ∧
  value_ok (heap s') v.
Proof.
  intros Hrun Hp Hpok Hcok. unfold mergeHook in Hrun.
  assert (truthy childVal = false → hook_seq (heap s) childVal = [])
    as Hcnil.
  { intros Hc. destruct childVal; try done; cbn [hook_seq]; by rewrite Hc. }
  assert (truthy parentVal = false → hook_seq (heap s) parentVal = [])
    as Hpnil.
  { intros Hc. destruct parentVal; try done; cbn [hook_seq]; by rewrite Hc. }
  assert (∀ xs, hook_seq (heap s ++ [Obj None (CArray xs) []])
                  (VRef (length (heap s))) = xs) as Hnew.
  { intros xs. cbn [hook_seq]. unfold obj_at.
    by rewrite list_lookup_middle. }
  assert (∀ xs, is_array (heap s ++ [Obj None (CArray xs) []])
                  (VRef (length (heap s))) = true) as Hnewa.
  { intros xs. cbn [is_array]. unfold obj_at.
    by rewrite list_lookup_middle. }
  assert (∀ (o : object) l, l < length (heap s) →
            (heap s ++ [o]) !! l = heap s !! l) as Happ.
  { intros o l Hl. by apply lookup_app_l. }
  assert (∀ (o : object),
            value_ok (heap s ++ [o]) (VRef (length (heap s)))) as Hnewok.
  { intros o l [= <-]. rewrite length_app. simpl. lia. }
  assert (∀ o : object, length (heap s) ≤ length (heap s ++ [o])) as Hlen.
  { intros o. rewrite length_app. lia. }
  destruct (truthy childVal) eqn:Hc.
  2: { apply ret_Ok in Hrun as [-> ->]. rewrite (Hcnil eq_refl), app_nil_r.
       by split_and!. }
  destruct (truthy parentVal) eqn:Htp.
  - destruct Hp as [?|Hp]; [done|].
    apply concat_Ok in Hrun as (l & xs & -> & Hcl & -> & ->).
    cbn [heap with_heap]. rewrite Hnew. cbn [hook_seq]. rewrite Hcl.
    split_and!; [|by auto..].
    f_equal. destruct childVal as [| | | | |p]; try done;
      cbn [hook_seq]; by rewrite Hc.
  - rewrite run_bind_read in Hrun. rewrite (Hpnil eq_refl). cbn [app].
    destruct (is_array (heap s) childVal) eqn:Ha.
    + apply ret_Ok in Hrun as [-> ->]. by split_and!; auto.
    + injection Hrun as <- <-. cbn [heap with_heap]. rewrite Hnew.
      split_and!; [|by auto..].
      destruct childVal as [| | | | |p]; try done;
        cbn [hook_seq]; try by rewrite Hc.
      cbn [is_array] in Ha. by destruct (cls (obj_at (heap s) p)).
Qed.

Section HookChain.
Context (E : env).

(** X12.  Merging a hook along a chain keeps the order of the chain: when a
    parent value that is absent or an array is merged with a first child
    and the result with a second child, the hooks of the final value are
    the parent's, then the first child's, then the second child's, with
    nothing dropped and no duplicate removed. *)
Theorem mergeHook_chain_order
  (parentVal child1 child2 vm : value) (key : string)
  (s : state) (v1 : value) (s1 : state) (v2 : value) (s2 : state) :
  truthy parentVal = false ∨ is_array (heap s) parentVal = true →
  value_ok (heap s) parentVal →
  value_ok (heap s) child1 → value_ok (heap s) child2 →
  apply_strat E (Some SHook) parentVal child1 vm key s = Ok v1 s1 →
  apply_strat E (Some SHook) v1 child2 vm key s1 = Ok v2 s2 →
  hook_seq (heap s2) v2
  = hook_seq (heap s) parentVal ++ hook_seq (heap s) child1
    ++ hook_seq (heap s) child2.
Proof.
  intros Hp Hpok Hc1 Hc2 Hrun1 Hrun2. cbn [apply_strat] in Hrun1, Hrun2.
  destruct (mergeHook_seq _ _ _ _ _ Hrun1 Hp Hpok Hc1)
    as (Hs1 & Hh1 & Hl1 & Hv1 & Hv1ok).
  assert (value_ok (heap s1) child2) as Hc2'.
  { intros l Hl. specialize (Hc2 l Hl). lia. }
  destruct (mergeHook_seq _ _ _ _ _ Hrun2 Hv1 Hv1ok Hc2') as (Hs2 & _).
  rewrite Hs2, Hs1, (hook_seq_frame (heap s) (heap s1) child2 Hc2 Hh1).
  by rewrite app_assoc.
Qed.

End HookChain.

Lemma mergeHook_chain_order_witness :
  ∃ v1 s1 v2 s2,
    apply_strat dev_env (Some SHook) (VRef 5) (VRef 1) VUndef "created"
      hooks_state = Ok v1 s1 ∧
    apply_strat dev_env (Some SHook) v1 (VRef 4) VUndef "created" s1
    = Ok v2 s2 ∧
    hook_seq (heap s2) v2 = [VRef 0; VRef 1; VRef 2].
Proof.
  assert (∃ v1 s1,
            apply_strat dev_env (Some SHook) (VRef 5) (VRef 1) VUndef
              "created" hooks_state = Ok v1 s1) as (v1 & s1 & Hrun1).
  { eexists _, _. vm_compute. reflexivity. }
  assert (∃ v2 s2,
            apply_strat dev_env (Some SHook) v1 (VRef 4) VUndef "created" s1
            = Ok v2 s2) as (v2 & s2 & Hrun2).
  { vm_compute in Hrun1. injection Hrun1 as <- <-.
    eexists _, _. vm_compute. reflexivity. }
  exists v1, s1, v2, s2. split_and!; [exact Hrun1|exact Hrun2|].
  exact (mergeHook_chain_order dev_env (VRef 5) (VRef 1) (VRef 4) VUndef
           "created" hooks_state v1 s1 v2 s2
           (or_intror eq_refl)
           ltac:(intros l [= <-]; simpl; lia)
           ltac:(intros l [= <-]; simpl; lia)
           ltac:(intros l [= <-]; simpl; lia) Hrun1 Hrun2).
Defined.
(** * What the build does not influence *)

Section SameRun.

Lemma same_ret {A} (a : A) : same_run (ret a) (ret a).
Proof. by intros s1 s2 ? ?. Qed.

Lemma same_throw {A} (e : error) : same_run (@throw A e) (throw e).
Proof. by intros s1 s2 ? ?. Qed.

Lemma same_bind {A B} (m1 m2 : M A) (f1 f2 : A → M B) :
  same_run m1 m2 → (∀ a, same_run (f1 a) (f2 a)) →
  same_run (bind m1 f1) (bind m2 f2).
Proof.
  intros Hm Hf s1 s2 Hh Hr. specialize (Hm s1 s2 Hh Hr). unfold bind.
  destruct (m1 s1) as [a t1|e1], (m2 s2) as [b t2|e2]; try done.
  destruct Hm as (-> & ? & ?). by apply Hf.
Qed.

Lemma same_read {A} (f : list object → A) : same_run (read f) (read f).
Proof. intros s1 s2 Hh Hr. unfold read. simpl. by rewrite Hh. Qed.

Lemma same_get v k : same_run (get v k) (get v k).
Proof. destruct v; first [apply same_throw | apply same_read]. Qed.

Lemma same_hasOwn v k : same_run (hasOwn v k) (hasOwn v k).
Proof. destruct v; first [apply same_throw | apply same_read]. Qed.

Lemma same_object_keys v : same_run (object_keys v) (object_keys v).
Proof. destruct v; first [apply same_throw | apply same_read]. Qed.

Lemma same_alloc o : same_run (alloc o) (alloc o).
Proof. intros s1 s2 Hh Hr. unfold alloc. simpl. by rewrite Hh. Qed.

Lemma same_set_prop v k x : same_run (set_prop v k x) (set_prop v k x).
Proof.
  intros s1 s2 Hh Hr. destruct v as [| | | | |l]; try done. simpl.
  rewrite Hh. destruct (heap s2 !! l) as [o|]; [|done].
  by destruct (obj_set o k x).
Qed.

Lemma same_to_key v : same_run (to_key v) (to_key v).
Proof. destruct v as [| |[]| | |]; first [apply same_throw | apply same_ret]. Qed.

Lemma same_count_of v : same_run (count_of v) (count_of v).
Proof. destruct v as [| |[]| | |]; first [apply same_throw | apply same_ret]. Qed.

Lemma same_forM {A} (xs : list A) (f1 f2 : A → M unit) :
  (∀ x, same_run (f1 x) (f2 x)) → same_run (forM_ xs f1) (forM_ xs f2).
Proof.
  intros Hf. induction xs as [|x xs IH]; [apply same_ret|].
  rewrite !forM_cons. apply same_bind; [apply Hf|by intros _].
Qed.

Lemma same_for_in v (f1 f2 : string → M unit) :
  (∀ k, same_run (f1 k) (f2 k)) → same_run (for_in v f1) (for_in v f2).
Proof.
  intros Hf. unfold for_in. apply same_bind; [apply same_read|].
  intros ks. by apply same_forM.
Qed.

Lemma same_foldM {A B} (f1 f2 : B → A → M B) b xs :
  (∀ b x, same_run (f1 b x) (f2 b x)) →
  same_run (foldM f1 b xs) (foldM f2 b xs).
Proof.
  intros Hf. revert b. induction xs as [|x xs IH]; intros b;
    [apply same_ret|].
  cbn [foldM]. apply same_bind; [apply Hf|]. intros b'. apply IH.
Qed.

Lemma silent_same (m1 m2 : M unit) : silent m1 → silent m2 → same_run m1 m2.
Proof.
  intros H1 H2 s1 s2 Hh Hr.
  destruct (H1 s1) as [d1 ->], (H2 s2) as [d2 ->]. by split_and!.
Qed.

Lemma silent_ret : silent (ret tt).
Proof. intros s. exists (diags s). by destruct s. Qed.

Lemma silent_warn d : silent (warn d).
Proof. intros s. by eexists. Qed.

Lemma silent_when b m : silent m → silent (when b m).
Proof. intros Hm. destruct b; [done|apply silent_ret]. Qed.

Lemma silent_assertObjectType name v vm : silent (assertObjectType name v vm).
Proof.
  intros s. unfold assertObjectType. rewrite run_bind_read.
  apply silent_when, silent_warn.
Qed.

End SameRun.

Ltac silent_go :=
  repeat first [ apply silent_when | apply silent_warn | apply silent_ret
               | apply silent_assertObjectType ].

Ltac same_step :=
  cbv beta;
  lazymatch goal with
  | |- same_run (bind _ _) (bind _ _) => apply same_bind; [|intros ?]
  | |- same_run (ret _) (ret _) => apply same_ret
  | |- same_run (throw _) (throw _) => apply same_throw
  | |- same_run (read _) (read _) => apply same_read
  | |- same_run (get _ _) (get _ _) => apply same_get
  | |- same_run (hasOwn _ _) (hasOwn _ _) => apply same_hasOwn
  | |- same_run (alloc _) (alloc _) => apply same_alloc
  | |- same_run (set_prop _ _ _) (set_prop _ _ _) => apply same_set_prop
  | |- same_run (to_key _) (to_key _) => apply same_to_key
  | |- same_run (count_of _) (count_of _) => apply same_count_of
  | |- same_run (object_keys _) (object_keys _) => apply same_object_keys
  | |- same_run (for_in _ _) (for_in _ _) => apply same_for_in; intros ?
  | |- same_run (forM_ _ _) (forM_ _ _) => apply same_forM; intros ?
  | |- same_run (when _ _) (when _ _) => apply silent_same; silent_go
  | |- same_run (assertObjectType _ _ _) (assertObjectType _ _ _) =>
      apply silent_same; silent_go
  | |- same_run (warn _) (warn _) => apply silent_same; silent_go
  | |- same_run (if ?b then _ else _) (if ?b then _ else _) => destruct b
  | |- same_run (match ?x with _ => _ end) (match ?x with _ => _ end) =>
      destruct x
  end.

Ltac same_go := repeat same_step.

Section SameBasics.

Lemma same_new_object ps : same_run (new_object ps) (new_object ps).
Proof. unfold new_object. same_go. Qed.

Lemma same_new_array xs : same_run (new_array xs) (new_array xs).
Proof. unfold new_array. same_go. Qed.

Lemma same_new_function c : same_run (new_function c) (new_function c).
Proof. unfold new_function. same_go. Qed.

Lemma same_object_create v : same_run (object_create v) (object_create v).
Proof.
  destruct v; cbn [object_create];
    first [apply same_throw | apply same_new_object | same_go].
Qed.

Lemma same_concat a b : same_run (concat a b) (concat a b).
Proof.
  destruct a; cbn [concat]; try apply same_throw.
  same_go; apply same_new_array.
Qed.

Lemma same_extend to _from : same_run (extend to _from) (extend to _from).
Proof. unfold extend. same_go. Qed.

Lemma same_mergeDataOrFn parentVal childVal vm :
  same_run (mergeDataOrFn parentVal childVal vm)
    (mergeDataOrFn parentVal childVal vm).
Proof. unfold mergeDataOrFn. same_go; apply same_new_function. Qed.

Lemma same_mergeHook parentVal childVal :
  same_run (mergeHook parentVal childVal) (mergeHook parentVal childVal).
Proof.
  unfold mergeHook. same_go; first [apply same_concat | apply same_new_array].
Qed.

Lemma same_normalizeDirectives options :
  same_run (normalizeDirectives options) (normalizeDirectives options).
Proof. unfold normalizeDirectives. same_go. apply same_new_object. Qed.

End SameBasics.

Section Builds.
Context (E1 E2 : env) (Htables : same_tables E1 E2).

Lemma same_strategy st parentVal childVal vm key :
  same_run (apply_strat E1 (Some st) parentVal childVal vm key)
    (apply_strat E2 (Some st) parentVal childVal vm key).
Proof.
  destruct Htables as (_ & _ & Hnw). destruct st; cbn [apply_strat].
  - unfold strat_restricted. same_go.
  - unfold strat_data. same_go; apply same_mergeDataOrFn.
  - apply same_mergeHook.
  - unfold mergeAssets. apply same_bind; [apply same_object_create|].
    intros res. same_go. apply same_extend.
  - unfold strat_watch. rewrite Hnw.
    same_go; first [apply same_object_create | apply same_new_object
                   | apply same_extend | apply same_concat
                   | apply same_new_array | idtac].
  - unfold strat_object_hash. apply same_bind; [same_go|]. intros _.
    same_go; first [apply same_object_create | apply same_extend | idtac].
  - apply same_mergeDataOrFn.
Qed.

Lemma same_default parentVal childVal vm key st :
  st = SRestricted →
  same_run (apply_strat E1 (Some st) parentVal childVal vm key)
    (ret (defaultStrat parentVal childVal)) ∧
  same_run (ret (defaultStrat parentVal childVal))
    (apply_strat E2 (Some st) parentVal childVal vm key).
Proof.
  intros ->. cbn [apply_strat]. unfold strat_restricted. split.
  - intros s1 s2 Hh Hr. unfold bind.
    destruct (silent_when (negb (truthy vm)) _
                (silent_warn (WarnInstanceOnly key)) s1) as [d ->].
    by split_and!.
  - intros s1 s2 Hh Hr. unfold bind.
    destruct (silent_when (negb (truthy vm)) _
                (silent_warn (WarnInstanceOnly key)) s2) as [d ->].
    by split_and!.
Qed.

Lemma same_apply_strat parentVal childVal vm key :
  same_run (apply_strat E1 (strats E1 key) parentVal childVal vm key)
    (apply_strat E2 (strats E2 key) parentVal childVal vm key).
Proof.
  destruct Htables as (Hh & Ha & _). unfold strats. rewrite Hh, Ha.
  repeat (case_decide; [by apply same_strategy|]).
  destruct (same_default parentVal childVal vm key SRestricted eq_refl)
    as [Hl Hr].
  destruct (dev E1 && _), (dev E2 && _);
    [by apply same_strategy|done|done|apply same_ret].
Qed.

Lemma same_mergeFields parent child vm :
  same_run (mergeFields E1 parent child vm) (mergeFields E2 parent child vm).
Proof.
  unfold mergeFields, mergeField.
  apply same_bind; [apply same_new_object|]. intros options.
  same_go; apply same_apply_strat.
Qed.

Lemma same_normalizeProps options vm :
  same_run (normalizeProps E1 options vm) (normalizeProps E2 options vm).
Proof.
  unfold normalizeProps. same_go; apply same_new_object.
Qed.

Lemma same_normalizeInject options vm :
  same_run (normalizeInject E1 options vm) (normalizeInject E2 options vm).
Proof.
  unfold normalizeInject.
  same_go; first [apply same_new_object | apply same_extend].
Qed.

Lemma silent_checkComponents E options :
  options ≠ VUndef → options ≠ VNull → silent (checkComponents E options).
Proof.
  intros Hu Hn s. unfold checkComponents.
  rewrite run_bind_get, run_for_in by done.
  rewrite (forM_warn (reserved_name E) WarnReservedComponent).
  by eexists.
Qed.

Lemma mergeOptions_tail_unfold E fuel parent child vm :
  mergeOptions E (S fuel) parent child vm =
  (when (dev E) (checkComponents E child);;
   let! isf := read (λ h, is_function h child) in
   let! child := (if isf then get child "options" else ret child) in
   mergeOptions_tail E fuel parent child vm).
Proof. reflexivity. Qed.

Lemma same_tail fuel parent child vm :
  (∀ p c v, same_run (mergeOptions E1 fuel p c v)
              (mergeOptions E2 fuel p c v)) →
  same_run (mergeOptions_tail E1 fuel parent child vm)
    (mergeOptions_tail E2 fuel parent child vm).
Proof.
  intros IH. unfold mergeOptions_tail.
  apply same_bind; [apply same_normalizeProps|]. intros _.
  apply same_bind; [apply same_normalizeInject|]. intros _.
  apply same_bind; [apply same_normalizeDirectives|]. intros _.
  apply same_bind; [apply same_get|]. intros extendsFrom.
  apply same_bind; [destruct (truthy extendsFrom); [apply IH|apply same_ret]|].
  intros parent'. apply same_bind; [apply same_get|]. intros mixins.
  apply same_bind; [|intros parent''; apply same_mergeFields].
  destruct (truthy mixins); [|apply same_ret].
  apply same_bind; [apply same_get|]. intros l.
  apply same_bind; [apply same_count_of|]. intros n.
  apply same_foldM. intros p i.
  apply same_bind; [apply same_get|]. intros ms.
  apply same_bind; [apply same_get|]. intros m. apply IH.
Qed.

Lemma same_mergeOptions fuel parent child vm :
  same_run (mergeOptions E1 fuel parent child vm)
    (mergeOptions E2 fuel parent child vm).
Proof.
  revert parent child vm.
  induction fuel as [|fuel IH]; intros parent child vm; [apply same_throw|].
  rewrite !mergeOptions_tail_unfold.
  destruct (decide (child = VUndef)) as [->|Hu].
  { intros s1 s2 _ _. unfold bind, when. by destruct (dev E1), (dev E2). }
  destruct (decide (child = VNull)) as [->|Hn].
  { intros s1 s2 _ _. unfold bind, when. by destruct (dev E1), (dev E2). }
  apply same_bind.
  { apply silent_same; by apply silent_when, silent_checkComponents. }
  intros _. apply same_bind; [apply same_read|]. intros isf.
  apply same_bind; [same_go|]. intros child'. by apply same_tail.
Qed.

Lemma same_resolveAsset options type id warnMissing :
  same_run (resolveAsset E1 options type id warnMissing)
    (resolveAsset E2 options type id warnMissing).
Proof.
  unfold resolveAsset. destruct id; try apply same_ret. same_go.
Qed.

(** X13.  The build and the tag predicates influence the diagnostics only:
    in two environments with the same hooks, asset types and native
    [watch], from states with the same heap and the same registrations,
    [mergeOptions] either returns the same configuration in the same heap
    with the same registrations, or aborts with the same error; and so does
    [resolveAsset]. *)
Theorem build_changes_diagnostics_only
  (fuel : nat) (parent child vm options id : value) (type : string)
  (warnMissing : bool) (s1 s2 : state) :
  heap s1 = heap s2 → regs s1 = regs s2 →
  same_outcome (mergeOptions E1 fuel parent child vm s1)
    (mergeOptions E2 fuel parent child vm s2) ∧
  same_outcome (resolveAsset E1 options type id warnMissing s1)
    (resolveAsset E2 options type id warnMissing s2).
Proof.
  intros Hh Hr. split.
  - by apply same_mergeOptions.
  - by apply same_resolveAsset.
Qed.

End Builds.

Lemma same_tables_refl E : same_tables E E.
Proof. done. Qed.

Section Constructor.
Context (E : env).

(** X14.  A child that is a constructor stands for its [options]: when the
    options are not themselves a function, merging the constructor and
    merging its options give the same configuration in the same heap with
    the same registrations, or the same error; the two runs differ at most
    in the diagnostics, the component names being checked on the
    constructor in one and on the options in the other. *)
Theorem constructor_child_is_its_options
  (fuel : nat) (parent vm : value) (f : loc) (s1 s2 : state) :
  is_function (heap s1) (VRef f) = true →
  is_function (heap s1) (get_val (heap s1) (VRef f) "options") = false →
  heap s1 = heap s2 → regs s1 = regs s2 →
  same_outcome
    (mergeOptions E (S fuel) parent (VRef f) vm s1)
    (mergeOptions E (S fuel) parent (get_val (heap s1) (VRef f) "options")
       vm s2).
Proof.
  intros Hf Ho Hh Hr. rewrite !mergeOptions_tail_unfold.
  set (o := get_val (heap s1) (VRef f) "options") in *.
  (* the constructor *)
  destruct (silent_when (dev E) _
              (silent_checkComponents E (VRef f) ltac:(done) ltac:(done)) s1)
    as [d1 Hd1].
  rewrite (run_bind_Ok _ _ _ _ _ Hd1), run_bind_read. cbn [heap].
  rewrite Hf, run_bind_get by done. cbn [heap]. fold o.
  (* its options *)
  destruct (decide (o = VUndef)) as [Hu|Hu].
  { rewrite Hu. unfold bind, when. by destruct (dev E). }
  destruct (decide (o = VNull)) as [Hn|Hn].
  { rewrite Hn. unfold bind, when. by destruct (dev E). }
  destruct (silent_when (dev E) _ (silent_checkComponents E o Hu Hn) s2)
    as [d2 Hd2].
  rewrite (run_bind_Ok _ _ _ _ _ Hd2), run_bind_read. cbn [heap].
  rewrite <- Hh, Ho, run_bind_ret.
  apply (same_tail E E (same_tables_refl E)); [|done..].
  intros p c v. apply same_mergeOptions, same_tables_refl.
Qed.

End Constructor.

Lemma build_changes_diagnostics_only_witness :
  same_tables dev_env prod_env ∧
  ∃ r sd sp,
    mergeOptions dev_env 1 (VRef 1) (VRef 3) VUndef builds_state = Ok r sd ∧
    mergeOptions prod_env 1 (VRef 1) (VRef 3) VUndef builds_state = Ok r sp ∧
    heap sd = heap sp ∧ regs sd = regs sp ∧
    diags sd = [WarnReservedComponent "slot"; WarnInvalidProps (VNum 7);
                WarnInstanceOnly "el"; WarnDataNotFunction] ∧
    diags sp = [].
Proof.
  assert (same_tables dev_env prod_env) as Ht by done.
  split; [exact Ht|].
  assert (∃ rd sd, mergeOptions dev_env 1 (VRef 1) (VRef 3) VUndef
                     builds_state = Ok rd sd) as (rd & sd & Hd).
  { eexists _, _. vm_compute. reflexivity. }
  assert (∃ rp sp, mergeOptions prod_env 1 (VRef 1) (VRef 3) VUndef
                     builds_state = Ok rp sp) as (rp & sp & Hp).
  { eexists _, _. vm_compute. reflexivity. }
  pose proof (build_changes_diagnostics_only dev_env prod_env Ht 1
                (VRef 1) (VRef 3) VUndef VUndef VUndef "" false
                builds_state builds_state eq_refl eq_refl) as [Hsame _].
  rewrite Hd, Hp in Hsame. destruct Hsame as (-> & Hheap & Hregs).
  exists rp, sd, sp. split_and!; [exact Hd|exact Hp|exact Hheap|exact Hregs|..].
  - vm_compute in Hd. by injection Hd as _ <-.
  - vm_compute in Hp. by injection Hp as _ <-.
Defined.

Lemma constructor_child_is_its_options_witness :
  ∃ r s',
    mergeOptions dev_env 1 (VRef 2) (VRef 1) VUndef constructor_state
    = Ok r s' ∧
    mergeOptions dev_env 1 (VRef 2) (VRef 0) VUndef constructor_state
    = Ok r s'.
Proof.
  assert (∃ r1 t1, mergeOptions dev_env 1 (VRef 2) (VRef 1) VUndef
                     constructor_state = Ok r1 t1) as (r1 & t1 & H1).
  { eexists _, _. vm_compute. reflexivity. }
  assert (∃ r2 t2, mergeOptions dev_env 1 (VRef 2) (VRef 0) VUndef
                     constructor_state = Ok r2 t2) as (r2 & t2 & H2).
  { eexists _, _. vm_compute. reflexivity. }
  pose proof (constructor_child_is_its_options dev_env 0 (VRef 2) VUndef 1
                constructor_state constructor_state eq_refl eq_refl
                eq_refl eq_refl) as Hsame.
  change (get_val (heap constructor_state) (VRef 1) "options")
    with (VRef 0) in Hsame.
  rewrite H1, H2 in Hsame. destruct Hsame as (-> & Hheap & Hregs).
  exists r2, t1. split; [exact H1|].
  rewrite H2. f_equal.
  vm_compute in H1, H2. injection H1 as _ <-. by injection H2 as _ <-.
Defined.
(** * What [mergeOptions] writes to *)

Section Writes.
Context (E : env).

Lemma normalizeProps_child c co vm s s' :
  heap s !! c = Some co → cls co = CPlain → proto co = None →
  normalizeProps E (VRef c) vm s = Ok tt s' →
  regs s' = regs s ∧ length (heap s) ≤ length (heap s') ∧
  (∀ l, l < length (heap s) → l ≠ c → heap s' !! l = heap s !! l) ∧
  ∃ co', heap s' !! c = Some co' ∧ cls co' = CPlain ∧ proto co' = None ∧
    ∀ k, k ≠ "props" → own_lookup co' k = own_lookup co k.
Proof.
  intros Hc Hcc Hcp Hrun. unfold normalizeProps in Hrun.
  rewrite run_bind_get in Hrun by done.
  destruct (truthy _) in Hrun; cbn [negb] in Hrun.
  2: { apply ret_Ok in Hrun as [_ ->]. split_and!; [done..|].
       exists co. by split_and!. }
  rewrite run_bind_new_object, run_bind_read, run_bind_read in Hrun.
  apply bind_Ok in Hrun as ([] & s1 & Hloop & Hset).
  set (s0 := with_heap s (heap s ++ [Obj None CPlain []])) in *.
  set (P := λ l, l < length (heap s)).
  assert (writable (λ l, ¬ P l) (VRef (length (heap s)))) as Hw.
  { intros l [= <-]. unfold P. lia. }
  assert (frame_on P s0 s1) as (_ & Hlen & Hregs & Hh).
  { eapply (spec_run (frame_on P)); [|..|exact Hloop].
    - spec_go.
    - apply frame_on_refl. intros l Hl. subst s0. simpl.
      rewrite length_app. unfold P in Hl. lia. }
  assert (c < length (heap s)) as Hcl by by eapply lookup_lt_Some.
  assert (heap s1 !! c = Some co) as Hc1.
  { rewrite Hh by done. by apply lookup_app_l_Some. }
  apply set_prop_Ok in Hset as (l & o & o' & [= <-] & Hl & Ho & ->).
  rewrite Hc1 in Hl. injection Hl as <-.
  rewrite (obj_set_plain _ _ _ Hcc) in Ho. injection Ho as <-.
  cbn [heap regs with_heap].
  assert (length (heap s0) = S (length (heap s))) as Hl0.
  { subst s0. simpl. rewrite length_app. simpl. lia. }
  split_and!; [done|rewrite length_insert; lia| |].
  - intros l Hl Hne. rewrite list_lookup_insert_ne by done.
    rewrite Hh by done. by apply lookup_app_l.
  - eexists. split_and!; [apply list_lookup_insert_eq; lia|done..|].
    intros k Hk. unfold own_lookup. cbn [cls props]. rewrite Hcc.
    by apply alist_get_set_ne.
Qed.

Lemma normalizeInject_child c co vm s s' :
  heap s !! c = Some co → cls co = CPlain → proto co = None →
  normalizeInject E (VRef c) vm s = Ok tt s' →
  regs s' = regs s ∧ length (heap s) ≤ length (heap s') ∧
  (∀ l, l < length (heap s) → l ≠ c → heap s' !! l = heap s !! l) ∧
  ∃ co', heap s' !! c = Some co' ∧ cls co' = CPlain ∧ proto co' = None ∧
    ∀ k, k ≠ "inject" → own_lookup co' k = own_lookup co k.
Proof.
  intros Hc Hcc Hcp Hrun. unfold normalizeInject in Hrun.
  rewrite run_bind_get, run_bind_new_object in Hrun by done.
  assert (c < length (heap s)) as Hcl by by eapply lookup_lt_Some.
  erewrite run_bind_set_prop in Hrun;
    [|by apply lookup_app_l_Some|by apply obj_set_plain].
  set (s0 := with_heap _ _) in Hrun.
  set (P := λ l, l < length (heap s)).
  assert (writable (λ l, ¬ P l) (VRef (length (heap s)))) as Hw.
  { intros l [= <-]. unfold P. lia. }
  assert (length (heap s0) = S (length (heap s))) as Hl0.
  { subst s0. simpl. rewrite length_insert, length_app. simpl. lia. }
  assert (frame_on P s0 s') as (_ & Hlen & Hregs & Hh).
  { eapply (spec_run (frame_on P)); [|..|exact Hrun].
    - spec_go.
    - apply frame_on_refl. intros l Hl. unfold P in Hl. lia. }
  split_and!; [done|lia| |].
  - intros l Hl Hne. rewrite Hh by done. subst s0. simpl.
    rewrite list_lookup_insert_ne by done. by apply lookup_app_l.
  - eexists. split_and!; [rewrite Hh by done; subst s0; simpl;
                          apply list_lookup_insert_eq; rewrite length_app; lia
                         |done..|].
    intros k Hk. unfold own_lookup. cbn [cls props]. rewrite Hcc.
    by apply alist_get_set_ne.
Qed.

Lemma normalizeDirectives_frame options s s' :
  normalizeDirectives options s = Ok tt s' →
  regs s' = regs s ∧ length (heap s) ≤ length (heap s') ∧
  ∀ l, l < length (heap s) →
       VRef l ≠ get_val (heap s) options "directives" →
       heap s' !! l = heap s !! l.
Proof.
  intros Hrun. unfold normalizeDirectives in Hrun.
  apply bind_Ok in Hrun as (dirs & ? & (_ & _ & -> & ->)%get_Ok & Hrun).
  set (dirs := get_val (heap s) options "directives") in *.
  set (P := λ l, l < length (heap s) ∧ VRef l ≠ dirs).
  assert (writable (λ l, ¬ P l) dirs) as Hw.
  { intros l Hd [_ Hne]. by apply Hne. }
  assert (frame_on P s s') as (_ & Hlen & Hregs & Hh).
  { eapply (spec_run (frame_on P)); [|..|exact Hrun].
    - spec_go.
    - apply frame_on_refl. by intros l [? _]. }
  split_and!; [done..|]. intros l Hl Hne. by apply Hh.
Qed.

(** X15.  On a child that is a mapping without [extends] and without
    [mixins], [mergeOptions] writes to the child, which it normalises in
    place, and to the object the child gives as [directives]; every other
    object that exists, the parent among them, is left as it is, and
    nothing is registered. *)
Theorem mergeOptions_spares_the_parent
  (fuel : nat) (parent vm : value) (c : loc) (co : object)
  (s : state) (r : value) (s' : state) :
  heap s !! c = Some co → cls co = CPlain → proto co = None →
  truthy (default VUndef (own_lookup co "extends")) = false →
  truthy (default VUndef (own_lookup co "mixins")) = false →
  own_lookup co "directives" ≠ Some (VRef c) →
  mergeOptions E fuel parent (VRef c) vm s = Ok r s' →
  regs s' = regs s ∧
  ∀ l, l < length (heap s) → l ≠ c →
       own_lookup co "directives" ≠ Some (VRef l) →
       heap s' !! l = heap s !! l.
Proof.
  intros Hc Hcc Hcp Hext Hmix Hdc Hrun. destruct fuel as [|fuel]; [done|].
  rewrite mergeOptions_tail_unfold in Hrun.
  destruct (silent_when (dev E) _
              (silent_checkComponents E (VRef c) ltac:(done) ltac:(done)) s)
    as [d Hd].
  rewrite (run_bind_Ok _ _ _ _ _ Hd), run_bind_read in Hrun.
  set (sa := State (heap s) d (regs s)) in *.
  assert (heap sa !! c = Some co) as Hca by done.
  assert (is_function (heap sa) (VRef c) = false) as Hisf.
  { unfold is_function. by rewrite (obj_at_Some _ _ _ Hca), Hcc. }
  rewrite Hisf, run_bind_ret in Hrun. unfold mergeOptions_tail in Hrun.
  apply bind_Ok in Hrun as ([] & sb & Hprops & Hrun).
  apply bind_Ok in Hrun as ([] & sc & Hinj & Hrun).
  apply bind_Ok in Hrun as ([] & sd & Hdirs & Hrun).
  destruct (normalizeProps_child _ _ _ _ _ Hca Hcc Hcp Hprops)
    as (Hrb & Hlb & Hhb & cb & Hcb & Hccb & Hcpb & Hkb).
  destruct (normalizeInject_child _ _ _ _ _ Hcb Hccb Hcpb Hinj)
    as (Hrc & Hlc & Hhc & cc & Hc' & Hccc & Hcpc & Hkc).
  destruct (normalizeDirectives_frame _ _ _ Hdirs) as (Hrd & Hld & Hhd).
  assert (∀ k, k ≠ "props" → k ≠ "inject" →
               own_lookup cc k = own_lookup co k) as Hk.
  { intros k ? ?. by rewrite Hkc, Hkb. }
  assert (∀ k, get_val (heap sc) (VRef c) k
               = default VUndef (own_lookup cc k)) as Hget.
  { intros k. by apply get_val_no_proto. }
  assert (c < length (heap s)) as Hcl by by eapply lookup_lt_Some.
  assert (heap sd !! c = Some cc) as Hcd.
  { rewrite Hhd, Hc'; [done|simpl in *; lia|].
    rewrite Hget, Hk by done. intros Heq.
    destruct (own_lookup co "directives") as [w|]; [|done].
    simpl in Heq. by subst w. }
  assert (∀ k, get_val (heap sd) (VRef c) k
               = default VUndef (own_lookup cc k)) as Hget'.
  { intros k. by apply get_val_no_proto. }
  rewrite run_bind_get, Hget', Hk, Hext, run_bind_ret in Hrun by done.
  rewrite run_bind_get, Hget', Hk, Hmix, run_bind_ret in Hrun by done.
  apply mergeFields_frame in Hrun as (_ & Hle & Hre & Hhe).
  split; [by rewrite Hre, Hrd, Hrc, Hrb|].
  intros l Hl Hne Hnd. simpl in *.
  rewrite Hhe by lia. rewrite Hhd; [|lia|].
  - rewrite Hhc by (done || lia). by rewrite Hhb.
  - rewrite Hget, Hk by done. intros Heq.
    destruct (own_lookup co "directives") as [w|]; [|done].
    simpl in Heq. by subst w.
Qed.

End Writes.

Lemma mergeOptions_spares_the_parent_witness :
  ∃ r s',
    mergeOptions dev_env 1 (VRef 0) (VRef 4) VUndef writes_state = Ok r s' ∧
    regs s' = regs writes_state ∧
    heap s' !! 0 = heap writes_state !! 0 ∧
    heap s' !! 3 = heap writes_state !! 3 ∧
    heap s' !! 4 ≠ heap writes_state !! 4 ∧
    heap s' !! 2 ≠ heap writes_state !! 2.
Proof.
  assert (∃ r s', mergeOptions dev_env 1 (VRef 0) (VRef 4) VUndef
                    writes_state = Ok r s') as (r & s' & Hrun).
  { eexists _, _. vm_compute. reflexivity. }
  exists r, s'. split; [exact Hrun|].
  destruct (mergeOptions_spares_the_parent dev_env 1 (VRef 0) VUndef 4 _
              writes_state r s' eq_refl eq_refl eq_refl eq_refl eq_refl
              ltac:(done) Hrun) as [Hr Hh].
  split; [exact Hr|].
  split; [apply Hh; [simpl; lia|done|done]|].
  split; [apply Hh; [simpl; lia|done|done]|].
  vm_compute in Hrun. injection Hrun as _ <-. by split.
Defined.
(** * Watchers are merged as arrays *)

Lemma forM_prefix_inv {A} (I : list A → state → Prop) (f : A → M unit)
  xs s s' :
  I [] s →
  (∀ seen x rest sa sb, xs = seen ++ x :: rest → I seen sa →
     f x sa = Ok tt sb → I (seen ++ [x]) sb) →
  forM_ xs f s = Ok tt s' → I xs s'.
Proof.
  intros H0 Hstep.
  assert (∀ rest seen sa, xs = seen ++ rest → I seen sa →
            forM_ rest f sa = Ok tt s' → I xs s') as Hgen.
  { induction rest as [|x rest IH]; intros seen sa Hxs HI Hrun.
    - rewrite app_nil_r in Hxs. subst seen. by apply ret_Ok in Hrun as [_ ->].
    - rewrite forM_cons in Hrun.
      apply bind_Ok in Hrun as ([] & sb & Hx & Hrest).
      apply (IH (seen ++ [x]) sb); [by rewrite <- app_assoc|eauto|done]. }
  by apply (Hgen xs []).
Qed.

Lemma obj_at_frame h h' l :
  l < length h → (∀ l, l < length h → h' !! l = h !! l) →
  obj_at h' l = obj_at h l.
Proof. intros Hl Hh. unfold obj_at. by rewrite Hh. Qed.

Lemma watch_seq_frame h h' v :
  value_ok h v → (∀ l, l < length h → h' !! l = h !! l) →
  watch_seq h' v = watch_seq h v.
Proof.
  intros Hok Hh. destruct v as [| | | | |l]; try done.
  cbn [watch_seq]. by rewrite (obj_at_frame h h' l (Hok l eq_refl) Hh).
Qed.

Lemma is_array_frame h h' v :
  value_ok h v → (∀ l, l < length h → h' !! l = h !! l) →
  is_array h' v = is_array h v.
Proof.
  intros Hok Hh. destruct v as [| | | | |l]; try done.
  cbn [is_array]. by rewrite (obj_at_frame h h' l (Hok l eq_refl) Hh).
Qed.

Lemma entries_ok_default h o k :
  entries_ok h o → value_ok h (default VUndef (own_lookup o k)).
Proof.
  intros Hok. destruct (own_lookup o k) as [v|] eqn:Hk; [by eapply Hok|].
  by intros l.
Qed.

(** The assignment that ends an iteration. *)
Lemma watch_install s po co seen k sa sx extra a ao sb :
  watch_inv s po co seen sa →
  heap sx = heap sa ++ extra → regs sx = regs sa →
  a ≠ length (heap s) → heap sx !! a = Some ao →
  cls ao = CArray (merged_watchers (heap s) po co k) →
  set_prop (VRef (length (heap s))) k (VRef a) sx = Ok tt sb →
  watch_inv s po co (seen ++ [k]) sb.
Proof.
  intros (Hlen & Hregs & Hold & ps & Hr & Hunseen & Hseen) Hx Hrx Ha Hao Hcl.
  intros (l & o & o' & [= <-] & Hl & Ho & ->)%set_prop_Ok.
  rewrite Hx, (lookup_app_l_Some _ _ _ _ Hr) in Hl. injection Hl as <-.
  rewrite obj_set_plain in Ho by done. injection Ho as <-.
  unfold watch_inv, with_heap. cbn [proto props heap regs]. rewrite Hx in *.
  split_and!.
  - rewrite length_insert, length_app. lia.
  - by rewrite Hrx.
  - intros l Hl. rewrite list_lookup_insert_ne by lia.
    rewrite lookup_app_l by lia. by apply Hold.
  - eexists. split_and!.
    + apply list_lookup_insert_eq. rewrite length_app. lia.
    + intros k' Hk'. rewrite elem_of_app, list_elem_of_singleton in Hk'.
      rewrite alist_get_set_ne by naive_solver. apply Hunseen. naive_solver.
    + intros k' Hk'. destruct (decide (k' = k)) as [->|Hne].
      * exists a, ao. rewrite alist_get_set_eq.
        by rewrite list_lookup_insert_ne.
      * rewrite elem_of_app, list_elem_of_singleton in Hk'.
        destruct Hk' as [Hk'|?]; [|done].
        destruct (Hseen k' Hk') as (a' & ao' & Hg & Hne' & Ha' & Hc').
        exists a', ao'. rewrite alist_get_set_ne by done.
        rewrite list_lookup_insert_ne by done.
        split_and!; [done..| |done]. by apply lookup_app_l_Some.
Qed.

Lemma hook_seq_falsy h v : truthy v = false → hook_seq h v = [].
Proof. destruct v; try done; cbn [hook_seq]; by intros ->. Qed.

Lemma hook_seq_single h v :
  truthy v = true → is_array h v = false → hook_seq h v = [v].
Proof.
  destruct v as [| | | | |l]; cbn [hook_seq is_array]; try by intros ->.
  intros _. by destruct (cls (obj_at h l)).
Qed.

Lemma watch_seq_single h v : is_array h v = false → watch_seq h v = [v].
Proof.
  destruct v as [| | | | |l]; cbn [watch_seq is_array]; try done.
  by destruct (cls (obj_at h l)).
Qed.

(** One iteration of the loop over the keys of the child. *)
Lemma watch_step s c po co seen k rest sa sb :
  heap s !! c = Some co → cls co = CPlain → proto co = None →
  entries_ok (heap s) po → entries_ok (heap s) co →
  own_keys co = seen ++ k :: rest →
  watch_inv s po co seen sa →
  (let! parent := get (VRef (length (heap s))) k in
   let! child := get (VRef c) k in
   let! parr := read (λ h, is_array h parent) in
   let! parent :=
     (if truthy parent && negb parr then new_array [parent]
      else ret parent) in
   let! v :=
     (if truthy parent then concat parent child
      else
        let! carr := read (λ h, is_array h child) in
        if carr then ret child else new_array [child]) in
   set_prop (VRef (length (heap s))) k v) sa = Ok tt sb →
  watch_inv s po co (seen ++ [k]) sb.
Proof.
  intros Hc Hcc Hcp Hpo Hco Hkeys Hinv Hrun.
  pose proof Hinv as (Hlen & Hregs & Hold & ps & Hr & Hunseen & Hseen).
  assert (k ∉ seen) as Hk.
  { pose proof (NoDup_own_keys co) as Hnd. rewrite Hkeys in Hnd.
    apply NoDup_app in Hnd as (_ & Hnd & _).
    intros Hin. apply (Hnd _ Hin). left. }
  assert (c < length (heap s)) as Hcl by by eapply lookup_lt_Some.
  rewrite run_bind_get, (get_val_plain _ _ _ _ Hr), (Hunseen _ Hk) in Hrun
    by done.
  rewrite run_bind_get in Hrun by done.
  rewrite (get_val_no_proto (heap sa) c co k) in Hrun;
    [|by rewrite Hold|done..].
  rewrite run_bind_read in Hrun.
  assert (value_ok (heap s) (default VUndef (own_lookup po k))) as Hpv
    by by apply entries_ok_default.
  assert (value_ok (heap s) (default VUndef (own_lookup co k))) as Hcv
    by by apply entries_ok_default.
  rewrite (is_array_frame (heap s) (heap sa) _ Hpv Hold) in Hrun.
  unfold watch_inv in Hinv.
  set (pv := default VUndef (own_lookup po k)) in *.
  set (cv := default VUndef (own_lookup co k)) in *.
  assert (merged_watchers (heap s) po co k
          = hook_seq (heap s) pv ++ watch_seq (heap s) cv) as Hm by done.
  destruct (truthy pv) eqn:Htp;
    [destruct (is_array (heap s) pv) eqn:Hap|]; cbn [andb negb] in Hrun.
  - (* the parent has an array *)
    rewrite run_bind_ret, Htp in Hrun.
    apply bind_Ok in Hrun as (v & sx & Hcat & Hset).
    apply concat_Ok in Hcat as (l & xs & Hpl & Hxs & -> & ->).
    refine (watch_install s po co seen k sa _ [_] _ _ _ Hinv _ _ _ _ _ Hset);
      [reflexivity|reflexivity|lia| |].
    + apply list_lookup_middle. done.
    + cbn [cls]. rewrite Hm. f_equal. f_equal.
      * rewrite Hpl. cbn [hook_seq].
        rewrite <- (obj_at_frame (heap s) (heap sa) l); [by rewrite Hxs| |done].
        apply Hpv. done.
      * by rewrite <- (watch_seq_frame (heap s) (heap sa) cv Hcv Hold).
  - (* the parent has one watcher *)
    rewrite run_bind_new_array in Hrun. cbn [truthy] in Hrun.
    apply bind_Ok in Hrun as (v & sx & Hcat & Hset).
    apply concat_Ok in Hcat as (l & xs & [= <-] & Hxs & -> & ->).
    unfold with_heap in Hxs, Hset. cbn [heap diags regs] in Hxs, Hset.
    unfold obj_at in Hxs at 1. rewrite list_lookup_middle in Hxs by done.
    injection Hxs as <-.
    refine (watch_install s po co seen k sa _ [_; _] _ _ _ Hinv _ _ _ _ _ Hset).
    + cbn [heap]. by rewrite <- app_assoc.
    + done.
    + rewrite length_app. simpl. lia.
    + cbn [heap]. apply list_lookup_middle. done.
    + cbn [cls]. rewrite Hm, (hook_seq_single _ _ Htp Hap). f_equal. f_equal.
      rewrite <- (watch_seq_frame (heap s) (heap sa ++ [Obj None (CArray [pv]) []])
                   cv Hcv); [done|].
      intros l Hl. rewrite lookup_app_l by lia. by apply Hold.
  - (* the parent has none *)
    rewrite run_bind_ret, Htp, run_bind_bind, run_bind_read in Hrun.
    rewrite (is_array_frame (heap s) (heap sa) _ Hcv Hold) in Hrun.
    destruct (is_array (heap s) cv) eqn:Hac.
    + rewrite run_bind_ret in Hrun.
      destruct cv as [| | | | |a] eqn:Hcve; try done.
      assert (a < length (heap s)) as Hal by by apply Hcv.
      destruct (lookup_lt_is_Some_2 (heap s) a Hal) as [ao Hao].
      refine (watch_install s po co seen k sa sa [] a ao _ Hinv _ _ _ _ _ Hrun);
        [by rewrite app_nil_r|done|lia| |].
      * by rewrite Hold.
      * rewrite Hm, (hook_seq_falsy _ _ Htp). cbn [app watch_seq].
        cbn [is_array] in Hac. rewrite (obj_at_Some _ _ _ Hao) in *.
        by destruct (cls ao).
    + rewrite run_bind_new_array in Hrun.
      refine (watch_install s po co seen k sa _ [_] _ _ _ Hinv _ _ _ _ _ Hrun);
        [reflexivity|reflexivity|lia| |].
      * apply list_lookup_middle. done.
      * cbn [cls]. by rewrite Hm, (hook_seq_falsy _ _ Htp),
                             (watch_seq_single _ _ Hac).
Qed.

Section Watch.
Context (E : env).

(** X16.  Watchers do not overwrite one another.  When [strats.watch]
    returns on a parent and a child that are both mappings, the result is a
    new mapping: under each key of the child it owns an array of the
    parent's watchers for that key (none, the one, or the elements of the
    parent's array) followed by the child's, and under every other key what
    the parent owns for it, not wrapped.  No object that existed is changed
    and nothing is registered.  The keys of the child are taken other than
    the members of [Object.prototype], which the result, made by a literal,
    would read as watchers of the parent, and the parent without a key
    [__proto__]. *)
Theorem watch_merges_as_arrays
  (p c : loc) (po co : object) (vm : value) (key : string)
  (s : state) (r : value) (s' : state) :
  heap s !! p = Some po → cls po = CPlain → proto po = None →
  heap s !! c = Some co → cls co = CPlain → proto co = None →
  entries_ok (heap s) po → entries_ok (heap s) co →
  VRef p ≠ nativeWatch E → VRef c ≠ nativeWatch E →
  (∀ k, is_Some (own_lookup co k) → ordinary_key E k = true) →
  own_lookup po "__proto__" = None →
  apply_strat E (Some SWatch) (VRef p) (VRef c) vm key s = Ok r s' →
  r = VRef (length (heap s)) ∧
  regs s' = regs s ∧
  (∀ l, l < length (heap s) → heap s' !! l = heap s !! l) ∧
  ∃ ro, heap s' !! length (heap s) = Some ro ∧
    ∀ k,
      match own_lookup co k with
      | Some _ =>
          ∃ a, own_lookup ro k = Some (VRef a) ∧
               cls (obj_at (heap s') a)
               = CArray (merged_watchers (heap s) po co k)
      | None => own_lookup ro k = own_lookup po k
      end.
Proof.
  intros Hp Hpc Hpp Hc Hcc Hcp Hpo Hco Hnp Hnc _ _ Hrun.
  cbn [apply_strat] in Hrun. unfold strat_watch in Hrun.
  rewrite !decide_False in Hrun by done. cbn [truthy negb] in Hrun.
  destruct (silent_when (dev E) _ (silent_assertObjectType key (VRef c) vm) s)
    as [d Hd].
  rewrite (run_bind_Ok _ _ _ _ _ Hd), run_bind_new_object in Hrun.
  unfold with_heap in Hrun. cbn [heap diags regs] in Hrun.
  assert (p < length (heap s)) as Hpl by by eapply lookup_lt_Some.
  assert (c < length (heap s)) as Hcl by by eapply lookup_lt_Some.
  erewrite (run_bind_Ok _ _ _ _ _
              (extend_mapping (length (heap s)) None [] p po _ _ _ Hpc Hpp _))
    in Hrun.
  Unshelve.
  2: { by apply list_lookup_middle. }
  2: { by apply lookup_app_l_Some. }
  2: { lia. }
  unfold with_heap in Hrun. cbn [heap diags regs] in Hrun.
  rewrite insert_last in Hrun.
  apply bind_Ok in Hrun as ([] & s1 & Hloop & [-> ->]%ret_Ok).
  rewrite run_for_in in Hloop. cbn [heap] in Hloop.
  rewrite (forin_keys_no_proto _ c co) in Hloop;
    [|by apply lookup_app_l_Some|done].
  apply (forM_prefix_inv (watch_inv s po co)) in Hloop.
  - destruct Hloop as (Hlen & Hregs & Hold & ps & Hr & Hunseen & Hseen).
    split_and!; [done..|]. eexists. split; [exact Hr|]. intros k.
    unfold own_lookup at 2 4. cbn [cls props].
    destruct (own_lookup co k) as [cv|] eqn:Hk.
    + destruct (Hseen k) as (a & ao & Hg & _ & Ha & Hcl').
      { apply elem_of_own_keys. by rewrite Hk. }
      exists a. rewrite Hg. split; [done|]. by rewrite (obj_at_Some _ _ _ Ha).
    + apply Hunseen. rewrite elem_of_own_keys, Hk. by intros [? ?].
  - unfold watch_inv. cbn [heap regs]. split_and!.
    + rewrite length_app. simpl. lia.
    + done.
    + intros l Hl. by apply lookup_app_l.
    + eexists. split_and!; [by apply list_lookup_middle| |].
      * intros k _. rewrite alist_get_copied. by destruct (own_lookup po k).
      * intros k Hk. by apply elem_of_nil in Hk.
  - intros seen k rest sa sb Hkeys Hinv Hstep.
    by eapply (watch_step s c po co seen k rest sa sb).
Qed.

End Watch.

Lemma watch_merges_as_arrays_witness :
  ∃ r s' ro,
    apply_strat dev_env (Some SWatch) (VRef 4) (VRef 5) VUndef "watch"
      watch_state = Ok r s' ∧
    heap s' !! 6 = Some ro ∧
    (∃ a, own_lookup ro "a" = Some (VRef a) ∧
          cls (obj_at (heap s') a) = CArray [VRef 0; VRef 1]) ∧
    (∃ a, own_lookup ro "b" = Some (VRef a) ∧
          cls (obj_at (heap s') a) = CArray [VRef 1; VRef 2]) ∧
    (∃ a, own_lookup ro "c" = Some (VRef a) ∧
          cls (obj_at (heap s') a) = CArray [VRef 1]) ∧
    own_lookup ro "d" = Some (VRef 0).
Proof.
  assert (∃ r s', apply_strat dev_env (Some SWatch) (VRef 4) (VRef 5) VUndef
                    "watch" watch_state = Ok r s') as (r & s' & Hrun).
  { eexists _, _. vm_compute. reflexivity. }
  assert (∀ ps, Forall (λ kv, ∃ l, kv.2 = VRef l ∧ l < 6) ps →
                entries_ok (heap watch_state) (Obj None CPlain ps)) as Hok.
  { intros ps Hps k v Hk l ->. unfold own_lookup in Hk. cbn [cls props] in Hk.
    induction Hps as [|[k' v'] ps (l' & Hv & Hl) _ IH]; [done|].
    cbn [alist_get] in Hk. destruct (String.eqb k' k); [|by apply IH].
    simpl in Hv. injection Hk as ->. by injection Hv as ->. }
  set (po := Obj None CPlain [("a", VRef 0); ("b", VRef 3); ("d", VRef 0)]).
  set (co := Obj None CPlain [("a", VRef 1); ("b", VRef 2); ("c", VRef 3)]).
  assert (entries_ok (heap watch_state) po) as Hpo.
  { apply Hok. repeat constructor; eexists; (split; [reflexivity|simpl; lia]). }
  assert (entries_ok (heap watch_state) co) as Hco.
  { apply Hok. repeat constructor; eexists; (split; [reflexivity|simpl; lia]). }
  assert (VRef 4 ≠ nativeWatch dev_env) as Hn4 by (intros [=]).
  assert (VRef 5 ≠ nativeWatch dev_env) as Hn5 by (intros [=]).
  assert (∀ k, is_Some (own_lookup co k) → ordinary_key dev_env k = true)
    as Hkeys.
  { intros k Hk. apply elem_of_own_keys in Hk. vm_compute in Hk.
    repeat (apply elem_of_cons in Hk as [->|Hk]; [by vm_compute|]).
    by apply elem_of_nil in Hk. }
  destruct (watch_merges_as_arrays dev_env 4 5 po co VUndef "watch"
              watch_state r s' eq_refl eq_refl eq_refl eq_refl eq_refl
              eq_refl Hpo Hco Hn4 Hn5 Hkeys eq_refl Hrun)
    as (_ & _ & _ & ro & Hro & Hk).
  exists r, s', ro. split; [exact Hrun|]. split; [exact Hro|].
  split_and!; [exact (Hk "a")|exact (Hk "b")|exact (Hk "c")|exact (Hk "d")].
Defined.
(** * [mergeOptions] changes the objects it is given by normalising only *)

Lemma obj_set_kind o k x o' : obj_set o k x = Some o' → kind o' = kind o.
Proof.
  unfold obj_set, kind. destruct (cls o) eqn:Hc; try by intros [= <-].
  destruct (index_of_key k); repeat case_decide;
    try destruct (String.eqb k "length"); intros [= <-]; simpl;
    by rewrite ?Hc.
Qed.

Lemma normalises_refl n s : n ≤ length (heap s) → normalises n s s.
Proof.
  intros Hn. split_and!; [done..|]. intros l o _ Hl. exists o.
  split_and!; [done..|]. intros k _ _. by left.
Qed.

#[global] Instance normalises_Frame (n : nat) :
  Frame (normalises n) (λ l, n ≤ l).
Proof.
  split.
  - intros s1 s2 s3 (Hn1 & Hl1 & Hr1 & H1) (Hn2 & Hl2 & Hr2 & H2).
    split_and!; [done|lia|congruence|]. intros l o Hl Ho.
    destruct (H1 l o Hl Ho) as (o2 & Ho2 & Hp2 & Hk2 & He2).
    destruct (H2 l o2 Hl Ho2) as (o3 & Ho3 & Hp3 & Hk3 & He3).
    exists o3. split_and!; [done|congruence|congruence|].
    intros k Hkp Hki.
    destruct (He3 k Hkp Hki) as [Heq|(d & Hd & Hnd)]; [|right; eauto].
    destruct (He2 k Hkp Hki) as [Heq'|(d & Hd & Hnd)].
    + left. congruence.
    + right. exists d. split; [congruence|done].
  - intros s1 s2 (Hn & Hl & _). apply normalises_refl. lia.
  - intros s o (Hn & _). split; [|done].
    split_and!; simpl; [done|rewrite length_app; lia|done|].
    intros l o1 Hl Ho1. exists o1.
    split_and!; [by apply lookup_app_l_Some|done..|]. intros k _ _. by left.
  - intros s d (Hn & _). split_and!; simpl; [done..|].
    intros l o _ Hl. exists o. split_and!; [done..|]. intros k _ _. by left.
  - intros s l o k x o' HW (Hn & _) Hl Hset.
    split_and!; simpl; [done|by rewrite length_insert|done|].
    intros l1 o1 Hl1 Ho1. exists o1.
    split_and!; [|done..|].
    + rewrite list_lookup_insert_ne; [done|lia].
    + intros k' _ _. by left.
Qed.

Section Normalises.
Context (E : env) (n : nat).

(** An assignment of [props] or [inject], or of an object allocated past
    the first [n] locations. *)
Lemma spec_set_normal v k x (Q : unit → Prop) :
  k = "props" ∨ k = "inject" ∨ (∃ d, x = VRef d ∧ n ≤ d) →
  Q tt → spec (normalises n) (set_prop v k x) Q.
Proof.
  intros Hk HQ s [] s' (Hn & _) (l & o & o' & -> & Hl & Ho & ->)%set_prop_Ok.
  split; [|done]. split_and!; simpl; [done|by rewrite length_insert|done|].
  intros l1 o1 Hl1 Ho1. destruct (decide (l1 = l)) as [->|Hne].
  - rewrite Hl in Ho1. injection Ho1 as <-. exists o'.
    split_and!.
    + apply list_lookup_insert_eq. by eapply lookup_lt_Some.
    + by eapply obj_set_proto.
    + by eapply obj_set_kind.
    + intros k' Hkp Hki. destruct (decide (k' = k)) as [->|Hkk].
      * destruct Hk as [?|[?|(d & -> & Hd)]]; [done..|].
        right. exists d. split; [by eapply obj_set_own_eq|done].
      * left. by eapply obj_set_own_ne.
  - exists o1. split_and!; [by rewrite list_lookup_insert_ne|done..|].
    intros k' _ _. by left.
Qed.

Lemma normal_normalizeProps options vm :
  spec (normalises n) (normalizeProps E options vm) (λ _, True).
Proof.
  unfold normalizeProps. spec_go.
  all: apply spec_set_normal; [by left|done].
Qed.

Lemma normal_normalizeInject options vm :
  spec (normalises n) (normalizeInject E options vm) (λ _, True).
Proof.
  unfold normalizeInject. spec_go.
  apply spec_set_normal; [by right; left|]. spec_go.
Qed.

Lemma normal_normalizeDirectives options :
  spec (normalises n) (normalizeDirectives options) (λ _, True).
Proof.
  unfold normalizeDirectives. apply spec_bind, spec_get. intros dirs.
  destruct (truthy dirs); [|by apply spec_ret].
  apply spec_for_in; [|done]. intros key.
  apply spec_bind, spec_get. intros def.
  apply spec_bind, spec_read. intros h.
  destruct (is_function h def); [|by apply spec_ret].
  apply spec_bind, spec_new_ref. intros d Hd.
  apply spec_set_normal; [|done]. right; right. by exists d.
Qed.

Lemma normal_mergeOptions fuel parent child vm :
  spec (normalises n) (mergeOptions E fuel parent child vm) (λ _, True).
Proof.
  revert parent child vm. induction fuel as [|fuel IH]; intros parent child vm.
  - apply spec_throw.
  - simpl. apply spec_bind.
    eapply (spec_weaken _ (λ _, True));
      [apply spec_when; [unfold checkComponents; spec_go|done]|].
    intros _ _. apply spec_bind, spec_read. intros h.
    apply spec_bind.
    eapply (spec_weaken _ (λ _, True)); [spec_go|]. intros child' _.
    apply spec_bind.
    eapply spec_weaken; [apply normal_normalizeProps|]. intros _ _.
    apply spec_bind.
    eapply spec_weaken; [apply normal_normalizeInject|]. intros _ _.
    apply spec_bind.
    eapply spec_weaken; [apply normal_normalizeDirectives|]. intros _ _.
    apply spec_bind, spec_get. intros extendsFrom.
    apply spec_bind.
    eapply (spec_weaken _ (λ _, True));
      [destruct (truthy extendsFrom); [apply IH | by apply spec_ret]|].
    intros parent' _.
    apply spec_bind, spec_get. intros mixins.
    apply spec_bind.
    eapply (spec_weaken _ (λ _, True)).
    { destruct (truthy mixins); [|by apply spec_ret].
      spec_go. apply spec_foldM; [|done]. intros p i. spec_go. apply IH. }
    intros parent'' _.
    eapply spec_weaken; [apply (spec_mergeFields E (W := λ l, n ≤ l))|done].
Qed.

End Normalises.

Section OnlyNormalises.
Context (E : env).

(** X17.  Whatever the child, its [extends] and its [mixins], a
    [mergeOptions] that returns has changed the objects that existed
    before the call by normalising only: each keeps its prototype and its
    kind, and each of its entries other than [props] and [inject] is as
    before or now refers to an object allocated during the call (the
    definition made of a directive given as a function); nothing is
    registered. *)
Theorem mergeOptions_only_normalises
  (fuel : nat) (parent child vm : value) (s : state) (r : value) (s' : state) :
  mergeOptions E fuel parent child vm s = Ok r s' →
  regs s' = regs s ∧
  ∀ l o, heap s !! l = Some o →
    ∃ o', heap s' !! l = Some o' ∧ proto o' = proto o ∧ kind o' = kind o ∧
      ∀ k, k ≠ "props" → k ≠ "inject" →
        own_lookup o' k = own_lookup o k ∨
        ∃ d, own_lookup o' k = Some (VRef d) ∧ length (heap s) ≤ d.
Proof.
  intros Hrun.
  destruct (normal_mergeOptions E (length (heap s)) fuel parent child vm
              s r s' (normalises_refl _ s ltac:(done)) Hrun)
    as [(_ & _ & Hregs & Hobj) _].
  split; [done|]. intros l o Hl. apply Hobj; [|done].
  by eapply lookup_lt_Some.
Qed.

End OnlyNormalises.

Lemma mergeOptions_only_normalises_witness :
  ∃ r s',
    mergeOptions dev_env 1 (VRef 0) (VRef 4) VUndef writes_state = Ok r s' ∧
    regs s' = regs writes_state ∧
    ∀ l o, heap writes_state !! l = Some o →
      ∃ o', heap s' !! l = Some o' ∧ proto o' = proto o ∧ kind o' = kind o ∧
        ∀ k, k ≠ "props" → k ≠ "inject" →
          own_lookup o' k = own_lookup o k ∨
          ∃ d, own_lookup o' k = Some (VRef d) ∧
               length (heap writes_state) ≤ d.
Proof.
  assert (∃ r s', mergeOptions dev_env 1 (VRef 0) (VRef 4) VUndef
                    writes_state = Ok r s') as (r & s' & Hrun).
  { eexists _, _. vm_compute. reflexivity. }
  exists r, s'. split; [exact Hrun|].
  exact (mergeOptions_only_normalises dev_env _ _ _ _ _ _ _ Hrun).
Defined.
(** * The mapping form of the property declarations *)

Lemma declared_by_snoc name ks k :
  declared_by name (ks ++ [k])
  = if decide (camelize k = name) then Some k else declared_by name ks.
Proof.
  unfold declared_by. rewrite filter_app, filter_cons, filter_nil.
  case_decide as Hk.
  - by rewrite last_snoc.
  - by rewrite app_nil_r.
Qed.

Lemma isPlainObject_frame h h' v :
  value_ok h v → (∀ l, l < length h → h' !! l = h !! l) →
  isPlainObject h' v = isPlainObject h v.
Proof.
  intros Hok Hh. destruct v as [| | | | |l]; try done.
  cbn [isPlainObject]. unfold obj_at. by rewrite (Hh l (Hok l eq_refl)).
Qed.

Lemma prop_descriptor_frame h h1 h2 val w :
  (∀ m, length h < m → is_Some (h1 !! m) → h2 !! m = h1 !! m) →
  prop_descriptor h h1 val w → prop_descriptor h h2 val w.
Proof.
  intros Hh. unfold prop_descriptor. destruct (isPlainObject h val); [done|].
  intros (m & -> & Hm & Hd). exists m. split_and!; [done..|].
  by rewrite Hh.
Qed.

(** One iteration of the loop over the declarations. *)
Lemma props_map_step s pl po seen k rest sa :
  heap s !! pl = Some po → cls po = CPlain → proto po = None →
  entries_ok (heap s) po →
  own_keys po = seen ++ k :: rest →
  props_map_inv s po seen sa →
  ∃ sb, normalizeProps_body (VRef pl) (VRef (length (heap s))) k sa
        = Ok tt sb ∧
        props_map_inv s po (seen ++ [k]) sb.
Proof.
  intros Hpl Hc Hp Hok Hkeys
    (Hlen & Hrg & Hdg & Hold & ra & Hra & Hrc & Hrp & Hnames).
  assert (pl < length (heap s)) as Hpll by by eapply lookup_lt_Some.
  set (val := default VUndef (own_lookup po k)).
  assert (value_ok (heap s) val) as Hval by by apply entries_ok_default.
  unfold normalizeProps_body. rewrite run_bind_get by done.
  rewrite (get_val_no_proto (heap sa) pl po k); [|by rewrite Hold|done..].
  fold val. rewrite run_bind_read.
  rewrite (isPlainObject_frame (heap s) (heap sa) val Hval Hold).
  assert (∀ d extra,
    prop_descriptor (heap s) (heap sa ++ extra) val d →
    props_map_inv s po (seen ++ [k])
      (with_heap sa
         (<[length (heap s) :=
              Obj None CPlain (alist_set (camelize k) d (props ra))]>
            (heap sa ++ extra)))) as Hdone.
  { intros d extra Hd. unfold props_map_inv, with_heap.
    cbn [heap regs diags]. split_and!; [|done..| |].
    - rewrite length_insert, length_app. lia.
    - intros l Hl. rewrite list_lookup_insert_ne by lia.
      rewrite lookup_app_l by lia. by apply Hold.
    - eexists. split_and!; [apply list_lookup_insert_eq|done|done|].
      { rewrite length_app. lia. }
      assert (∀ v w, prop_descriptor (heap s) (heap sa ++ extra) v w →
                prop_descriptor (heap s)
                  (<[length (heap s) :=
                       Obj None CPlain
                         (alist_set (camelize k) d (props ra))]>
                     (heap sa ++ extra)) v w) as Hkeep.
      { intros v w. apply prop_descriptor_frame. intros m Hm _.
        apply list_lookup_insert_ne. lia. }
      intros name. rewrite declared_by_snoc. case_decide as Hname.
      + subst name. exists d. split; [|by apply Hkeep].
        unfold own_lookup. cbn [cls props]. apply alist_get_set_eq.
      + assert (own_lookup
                  (Obj None CPlain (alist_set (camelize k) d (props ra))) name
                = own_lookup ra name) as Heq.
        { unfold own_lookup. cbn [cls props]. rewrite Hrc.
          by apply alist_get_set_ne. }
        rewrite Heq. pose proof (Hnames name) as Hn.
        destruct (declared_by name seen) as [k'|]; [|done].
        destruct Hn as (w & Hw & Hdw). exists w. split; [done|].
        apply Hkeep. revert Hdw. apply prop_descriptor_frame.
        intros m _ Hm. destruct Hm as [o Hm]. rewrite Hm.
        by apply lookup_app_l_Some. }
  destruct (isPlainObject (heap s) val) eqn:Hplain.
  - rewrite run_bind_ret.
    erewrite run_set_prop; [|exact Hra|by apply obj_set_plain].
    eexists. split; [reflexivity|]. rewrite Hrp.
    specialize (Hdone val []). rewrite app_nil_r in Hdone. apply Hdone.
    unfold prop_descriptor. by rewrite Hplain.
  - rewrite run_bind_new_object.
    erewrite run_set_prop;
      [|by apply lookup_app_l_Some|by apply obj_set_plain].
    eexists. split; [reflexivity|]. rewrite Hrp. cbn [heap with_heap].
    apply Hdone. unfold prop_descriptor. rewrite Hplain.
    exists (length (heap sa)). split_and!; [done|lia|].
    by apply list_lookup_middle.
Qed.

Section PropsMapping.
Context (E : env).

(** The run of [normalizeProps] on declarations given as a mapping. *)
Lemma normalizeProps_mapping_run
  (l pl : loc) (lo po : object) (vm : value) (s : state) :
  heap s !! l = Some lo →
  get_val (heap s) (VRef l) "props" = VRef pl →
  heap s !! pl = Some po → cls po = CPlain → proto po = None →
  entries_ok (heap s) po →
  let r := length (heap s) in
  ∃ s' ro,
    normalizeProps E (VRef l) vm s = Ok tt s' ∧
    heap s' !! l
    = Some (Obj (proto lo) (cls lo)
              (alist_set "props" (VRef r) (props lo))) ∧
    get_val (heap s') (VRef l) "props" = VRef r ∧
    heap s' !! r = Some ro ∧ cls ro = CPlain ∧ proto ro = None ∧
    (∀ name, match declared_by name (own_keys po) with
             | Some k =>
                 ∃ w, own_lookup ro name = Some w ∧
                      prop_descriptor (heap s) (heap s')
                        (default VUndef (own_lookup po k)) w
             | None => own_lookup ro name = None
             end) ∧
    (∀ l', l' < r → l' ≠ l → heap s' !! l' = heap s !! l') ∧
    regs s' = regs s ∧ diags s' = diags s.
Proof.
  intros Hlo Hprops Hpl Hc Hp Hok r.
  assert (pl < r) as Hplr by by eapply lookup_lt_Some.
  assert (l < length (heap s)) as Hl by by eapply lookup_lt_Some.
  unfold normalizeProps. rewrite run_bind_get, Hprops by done.
  cbn [truthy negb]. rewrite run_bind_new_object, run_bind_read, run_bind_read.
  cbn [heap with_heap is_array isPlainObject].
  rewrite (obj_at_app_l _ _ _ Hplr), (obj_at_Some _ _ _ Hpl), Hc.
  rewrite run_bind_for_in. cbn [heap].
  rewrite (forin_keys_no_proto _ pl po); [|by apply lookup_app_l_Some|done].
  destruct (forM_prefix (props_map_inv s po)
              (normalizeProps_body (VRef pl) (VRef r)) (own_keys po)
              (with_heap s (heap s ++ [Obj None CPlain []])))
    as (s1 & Hloop & Hinv).
  { unfold props_map_inv. cbn [heap regs diags with_heap]. fold r.
    split_and!; [|done..| |].
    - rewrite length_app. simpl. lia.
    - intros l' Hl'. by apply lookup_app_l.
    - eexists. split_and!; [by apply list_lookup_middle|done..]. }
  { intros seen k rest sa Hkeys Hinv.
    by apply (props_map_step s pl po seen k rest sa). }
  change (λ key : string,
            let! val := get (VRef pl) key in
            let! isp := read (λ h, isPlainObject h val) in
            let! d := (if isp then ret val else new_object [("type", val)]) in
            set_prop (VRef r) (camelize key) d)
    with (normalizeProps_body (VRef pl) (VRef r)).
  rewrite (run_bind_Ok _ _ _ _ _ Hloop).
  destruct Hinv as (Hlen & Hrg & Hdg & Hold & ro & Hro & Hrc & Hrp & Hnames).
  fold r in Hlen, Hold, Hro.
  assert (heap s1 !! l = Some lo) as Hl1 by by rewrite Hold.
  erewrite run_set_prop; [|exact Hl1|by apply obj_set_named].
  eexists _, ro. split; [reflexivity|]. cbn [heap regs diags with_heap].
  assert (l < length (heap s1)) as Hll by lia.
  split_and!; [by apply list_lookup_insert_eq|
               |rewrite list_lookup_insert_ne by lia; done|done|done| |
               |done|done].
  - eapply get_val_own; [by apply list_lookup_insert_eq| |done].
    unfold own_lookup. cbn [cls props].
    destruct (cls lo); by rewrite alist_get_set_eq.
  - intros name. specialize (Hnames name).
    destruct (declared_by name (own_keys po)) as [k|]; [|done].
    destruct Hnames as (w & Hw & Hd). exists w. split; [done|].
    revert Hd. apply prop_descriptor_frame. intros m Hm _.
    apply list_lookup_insert_ne. lia.
  - intros l' Hl' Hne. rewrite list_lookup_insert_ne by done. by apply Hold.
Qed.

(** X18.  On a configuration whose [props] is a mapping, [normalizeProps]
    replaces [props] by a new mapping from camel-cased names: each name
    holds the descriptor of the last declaration that is camel-cased to
    it, which is the declared value itself when that is a plain object and
    a new object [{type: value}] otherwise; a name no declaration gives is
    absent.  The declarations are not changed and nothing is reported.  The
    names are taken other than [__proto__], which the result, made by a
    literal, would take as its prototype. *)
Theorem normalizeProps_mapping_form
  (l pl : loc) (po : object) (vm : value) (s : state) :
  l < length (heap s) →
  get_val (heap s) (VRef l) "props" = VRef pl →
  heap s !! pl = Some po → cls po = CPlain → proto po = None →
  entries_ok (heap s) po →
  (∀ k, is_Some (own_lookup po k) → camelize k ≠ "__proto__") →
  let r := length (heap s) in
  ∃ s' ro,
    normalizeProps E (VRef l) vm s = Ok tt s' ∧
    get_val (heap s') (VRef l) "props" = VRef r ∧
    heap s' !! r = Some ro ∧ cls ro = CPlain ∧ proto ro = None ∧
    (∀ name, match declared_by name (own_keys po) with
             | Some k =>
                 ∃ w, own_lookup ro name = Some w ∧
                      prop_descriptor (heap s) (heap s')
                        (default VUndef (own_lookup po k)) w
             | None => own_lookup ro name = None
             end) ∧
    (∀ l', l' < r → l' ≠ l → heap s' !! l' = heap s !! l') ∧
    regs s' = regs s ∧ diags s' = diags s.
Proof.
  intros Hl Hprops Hpl Hc Hp Hok _ r.
  destruct (lookup_lt_is_Some_2 _ _ Hl) as [lo Hlo].
  destruct (normalizeProps_mapping_run l pl lo po vm s Hlo Hprops Hpl Hc Hp
              Hok)
    as (s' & ro & Hrun & _ & Hget & Hro & Hrc & Hrp & Hnames & Hfr & Hrg
        & Hdg).
  exists s', ro. by split_and!.
Qed.

End PropsMapping.

Lemma normalizeProps_mapping_form_witness :
  ∃ s' ro,
    normalizeProps dev_env (VRef 3) VUndef props_map_state = Ok tt s' ∧
    get_val (heap s') (VRef 3) "props" = VRef 4 ∧
    heap s' !! 4 = Some ro ∧
    own_lookup ro "mySize" = Some (VRef 1) ∧
    (∃ m, own_lookup ro "label" = Some (VRef m) ∧
          heap s' !! m = Some (Obj None CPlain [("type", VRef 0)])) ∧
    own_lookup ro "my-size" = None.
Proof.
  set (po := Obj None CPlain [("my-size", VRef 1); ("label", VRef 0)]).
  assert (entries_ok (heap props_map_state) po) as Hok.
  { intros k v Hk q ->. unfold own_lookup in Hk. cbn [cls props po] in Hk.
    cbn [alist_get] in Hk.
    destruct (String.eqb "my-size" k); [injection Hk as <-; simpl; lia|].
    destruct (String.eqb "label" k); [injection Hk as <-; simpl; lia|done]. }
  assert (∀ k, is_Some (own_lookup po k) → camelize k ≠ "__proto__")
    as Hnp.
  { intros k [v Hk]. unfold own_lookup in Hk. cbn [cls props po] in Hk.
    cbn [alist_get] in Hk.
    destruct (String.eqb_spec "my-size" k) as [<-|_]; [by vm_compute|].
    destruct (String.eqb_spec "label" k) as [<-|_]; [by vm_compute|done]. }
  destruct (normalizeProps_mapping_form dev_env 3 2 po VUndef props_map_state
              ltac:(simpl; lia) eq_refl eq_refl eq_refl eq_refl Hok Hnp)
    as (s' & ro & Hrun & Hget & Hro & _ & _ & Hnames & _).
  exists s', ro. split_and!; [exact Hrun|exact Hget|exact Hro| | |].
  - destruct (Hnames "mySize") as (w & Hw & Hd). vm_compute in Hd. by subst w.
  - destruct (Hnames "label") as (w & Hw & m & -> & _ & Hm). by exists m.
  - exact (Hnames "my-size").
Defined.
(** * Normalising the property declarations twice *)

Lemma declared_by_Some name ks k :
  declared_by name ks = Some k → camelize k = name ∧ k ∈ ks.
Proof.
  unfold declared_by. intros [l' Hl]%last_Some.
  assert (k ∈ filter (λ k, camelize k = name) ks) as Hin.
  { rewrite Hl. apply elem_of_app. right. left. }
  by apply list_elem_of_filter in Hin.
Qed.

Lemma declared_by_None name ks k :
  declared_by name ks = None → k ∈ ks → camelize k ≠ name.
Proof.
  unfold declared_by. intros Hl%last_None Hin Hk.
  assert (k ∈ filter (λ k, camelize k = name) ks) as Hf
    by by apply list_elem_of_filter.
  rewrite Hl in Hf. by apply elem_of_nil in Hf.
Qed.

(** The entries of a mapping of descriptors whose names camel-casing
    leaves as they are go, as they are, to the mapping that one run
    builds. *)
Lemma prop_descriptors_kept h h' (o ro : object) :
  (∀ k, is_Some (own_lookup o k) → camelize k = k) →
  (∀ k d, own_lookup o k = Some d → isPlainObject h d = true) →
  (∀ name, match declared_by name (own_keys o) with
           | Some k =>
               ∃ w, own_lookup ro name = Some w ∧
                    prop_descriptor h h' (default VUndef (own_lookup o k)) w
           | None => own_lookup ro name = None
           end) →
  same_entries ro o.
Proof.
  intros Hfix Hplain Hnames name. specialize (Hnames name).
  destruct (declared_by name (own_keys o)) as [k|] eqn:Hd.
  - apply declared_by_Some in Hd as [Hk Hin].
    apply elem_of_own_keys in Hin as Hs. rewrite (Hfix k Hs) in Hk. subst k.
    destruct Hs as [d Hd]. destruct Hnames as (w & Hw & Hpd).
    rewrite Hd in Hpd. unfold prop_descriptor in Hpd.
    change (default VUndef (Some d)) with d in Hpd.
    rewrite (Hplain _ _ Hd) in Hpd. by rewrite Hw, Hd, Hpd.
  - rewrite Hnames. destruct (own_lookup o name) as [d|] eqn:Ho; [|done].
    exfalso. apply (declared_by_None name (own_keys o) name Hd).
    + apply elem_of_own_keys. by rewrite Ho.
    + apply Hfix. by rewrite Ho.
Qed.

Section Idempotence.
Context (E : env).

(** C6, amended.  On a configuration whose [props] is a mapping of
    declarations, [normalizeProps] returns, and a second run returns too;
    when camel-casing the camel-cased names changes nothing, the mapping
    the second run leaves in [props] has the same entries as the mapping
    the first run leaves, and when the names and the descriptors are in
    normalised shape already (names that camel-casing leaves as they are,
    descriptors that are plain mappings) these are the entries given.
    Neither run reports or registers anything.  The names are taken other
    than [__proto__] once camel-cased, which the result, made by a literal,
    would take as its prototype. *)
Theorem normalizeProps_idempotent
  (l pl : loc) (po : object) (vm : value) (s : state) :
  l < length (heap s) →
  get_val (heap s) (VRef l) "props" = VRef pl →
  heap s !! pl = Some po → cls po = CPlain → proto po = None →
  entries_ok (heap s) po →
  (∀ k, is_Some (own_lookup po k) →
        camelize (camelize k) = camelize k ∧ camelize k ≠ "__proto__") →
  ∃ s1 s2 o1 o2,
    normalizeProps E (VRef l) vm s = Ok tt s1 ∧
    normalizeProps E (VRef l) vm s1 = Ok tt s2 ∧
    get_val (heap s1) (VRef l) "props" = VRef (length (heap s)) ∧
    heap s1 !! length (heap s) = Some o1 ∧
    get_val (heap s2) (VRef l) "props" = VRef (length (heap s1)) ∧
    heap s2 !! length (heap s1) = Some o2 ∧
    same_entries o2 o1 ∧
    ((∀ k d, own_lookup po k = Some d →
             camelize k = k ∧ isPlainObject (heap s) d = true) →
     same_entries o1 po) ∧
    diags s2 = diags s ∧ regs s2 = regs s.
Proof.
  intros Hl Hprops Hpl Hc Hp Hok Hnames.
  destruct (lookup_lt_is_Some_2 _ _ Hl) as [lo Hlo].
  destruct (normalizeProps_mapping_run E l pl lo po vm s Hlo Hprops Hpl Hc Hp
              Hok)
    as (s1 & o1 & Hrun1 & Hl1 & Hget1 & Ho1 & Hc1 & Hp1 & Hn1 & Hfr1 & Hrg1
        & Hdg1).
  set (r := length (heap s)) in *.
  assert (r < length (heap s1)) as Hr1 by by eapply lookup_lt_Some.
  (* the entries of the first result *)
  assert (∀ k1 w, own_lookup o1 k1 = Some w →
            camelize k1 = k1 ∧ isPlainObject (heap s1) w = true ∧
            value_ok (heap s1) w) as Hshape.
  { intros k1 w Hw. specialize (Hn1 k1).
    destruct (declared_by k1 (own_keys po)) as [k|] eqn:Hd; [|congruence].
    apply declared_by_Some in Hd as [Hk Hin].
    apply elem_of_own_keys in Hin.
    split; [rewrite <- Hk; by apply Hnames|].
    destruct Hn1 as (w' & Hw' & Hpd). rewrite Hw in Hw'. injection Hw' as <-.
    pose proof (entries_ok_default (heap s) po k Hok) as Hval.
    unfold prop_descriptor in Hpd.
    destruct (isPlainObject (heap s) (default VUndef (own_lookup po k)))
      eqn:Hplain.
    - subst w. destruct (default VUndef (own_lookup po k)) as [| | | | |q];
        try done.
      specialize (Hval q eq_refl). cbn [isPlainObject] in Hplain |- *.
      split; [|intros ? [= <-]; lia].
      destruct (decide (q = l)) as [->|Hne].
      + rewrite (obj_at_Some _ _ _ Hl1). cbn [cls].
        by rewrite (obj_at_Some _ _ _ Hlo) in Hplain.
      + unfold obj_at in *. by rewrite Hfr1.
    - destruct Hpd as (m & -> & Hm & Hobj). cbn [isPlainObject].
      rewrite (obj_at_Some _ _ _ Hobj). split; [done|].
      intros ? [= <-]. by eapply lookup_lt_Some. }
  assert (entries_ok (heap s1) o1) as Hok1.
  { intros k1 w Hw. by apply (Hshape k1 w Hw). }
  destruct (normalizeProps_mapping_run E l r _ o1 vm s1 Hl1 Hget1 Ho1 Hc1 Hp1
              Hok1)
    as (s2 & o2 & Hrun2 & _ & Hget2 & Ho2 & _ & _ & Hn2 & _ & Hrg2 & Hdg2).
  exists s1, s2, o1, o2.
  split_and!; [done..| | |congruence|congruence].
  - eapply prop_descriptors_kept; [| |exact Hn2].
    + intros k1 [w Hw]. by apply (Hshape k1 w Hw).
    + intros k1 w Hw. by apply (Hshape k1 w Hw).
  - intros Hgiven. eapply prop_descriptors_kept; [| |exact Hn1].
    + intros k [d Hd]. by apply (Hgiven k d Hd).
    + intros k d Hd. by apply (Hgiven k d Hd).
Qed.

End Idempotence.

Lemma normalizeProps_idempotent_witness :
  ∃ s1 s2 o1 o2,
    normalizeProps dev_env (VRef 2) VUndef props_state = Ok tt s1 ∧
    normalizeProps dev_env (VRef 2) VUndef s1 = Ok tt s2 ∧
    get_val (heap s1) (VRef 2) "props" = VRef 3 ∧
    heap s1 !! 3 = Some o1 ∧
    get_val (heap s2) (VRef 2) "props" = VRef (length (heap s1)) ∧
    heap s2 !! length (heap s1) = Some o2 ∧
    same_entries o2 o1 ∧
    same_entries o1 (Obj None CPlain [("fooBar", VRef 0)]) ∧
    diags s2 = [] ∧ regs s2 = [].
Proof.
  set (po := Obj None CPlain [("fooBar", VRef 0)]).
  assert (∀ k d, own_lookup po k = Some d → k = "fooBar" ∧ d = VRef 0)
    as Hpo.
  { intros k d. unfold own_lookup. cbn [cls props po alist_get].
    destruct (String.eqb_spec "fooBar" k) as [<-|_]; [|done].
    by intros [= <-]. }
  assert (entries_ok (heap props_state) po) as Hok.
  { intros k d Hd q ->. destruct (Hpo k _ Hd) as [_ [= ->]]. simpl. lia. }
  assert (∀ k, is_Some (own_lookup po k) →
               camelize (camelize k) = camelize k ∧
               camelize k ≠ "__proto__") as Hnames.
  { intros k [d Hd]. destruct (Hpo k _ Hd) as [-> _]. by vm_compute. }
  destruct (normalizeProps_idempotent dev_env 2 1 po VUndef props_state
              ltac:(simpl; lia) eq_refl eq_refl eq_refl eq_refl Hok Hnames)
    as (s1 & s2 & o1 & o2 & Hrun1 & Hrun2 & Hg1 & Ho1 & Hg2 & Ho2 & H21
        & H1 & Hdg & Hrg).
  exists s1, s2, o1, o2. split_and!; try done.
  apply H1. intros k d Hd. by destruct (Hpo k _ Hd) as [-> ->].
Defined.

(** C6 as stated fails.  From the declarations [["a--b"]] one run leaves
    [{"a-B": {type: null}}], a mapping from the camel-cased name to a
    descriptor that owns [type]; a second run leaves [{aB: ...}], with the
    same descriptor under another name: its entries are not the entries the
    first run leaves. *)
Lemma normalizeProps_twice_counterexample :
  normalizeProps dev_env (VRef 1) VUndef hyphens_state = hyphens_once ∧
  normalizeProps dev_env (VRef 1) VUndef (state_of hyphens_once)
  = hyphens_twice ∧
  camelize "a--b" = "a-B" ∧ camelize "a-B" = "aB" ∧
  get_val (heap (state_of hyphens_once)) (VRef 1) "props" = VRef 2 ∧
  heap (state_of hyphens_once) !! 2
  = Some (Obj None CPlain [("a-B", VRef 3)]) ∧
  heap (state_of hyphens_once) !! 3 = Some type_null ∧
  get_val (heap (state_of hyphens_twice)) (VRef 1) "props" = VRef 4 ∧
  heap (state_of hyphens_twice) !! 4
  = Some (Obj None CPlain [("aB", VRef 3)]) ∧
  ¬ same_entries (Obj None CPlain [("aB", VRef 3)])
      (Obj None CPlain [("a-B", VRef 3)]).
Proof.
  split_and!; try (vm_compute; reflexivity).
  intros Hsame. specialize (Hsame "aB"). by vm_compute in Hsame.
Qed.
(** * The run of [mergeOptions], part by part *)

Lemma bind_cong {A B} (m : M A) (f g : A → M B) s :
  (∀ a s1, f a s1 = g a s1) → bind m f s = bind m g s.
Proof. intros Hfg. unfold bind. by destruct (m s). Qed.

Lemma ordinary_heap_check E h :
  ordinary_heapb E h = true → ordinary_heap E h.
Proof.
  unfold ordinary_heapb. rewrite forallb_forall. intros Hall l o Hl.
  apply Forall_forall. intros k Hk.
  specialize (Hall o ltac:(apply list_elem_of_In; by eapply list_elem_of_lookup_2)).
  rewrite forallb_forall in Hall. apply Hall. by apply list_elem_of_In.
Qed.

Lemma is_mapping_mono s s' v :
  is_mapping (heap s) v → mono s s' → is_mapping (heap s') v.
Proof.
  intros (l & o & -> & Hl & Hp & Hc) (_ & _ & _ & Hplain).
  destruct (Hplain l o Hl Hc) as (o' & Hl' & Hc' & Hp').
  exists l, o'. split_and!; [done..|congruence|done].
Qed.

Section Parts.
Context (E : env).

Lemma mergeOptions_expand_eq fuel parent child vm s :
  mergeOptions E (S fuel) parent child vm s
  = (let! pc := mergeOptions_expand E fuel parent child vm in
     mergeFields E pc.1 pc.2 vm) s.
Proof.
  rewrite mergeOptions_unfold. unfold mergeOptions_expand.
  repeat (rewrite (run_bind_bind _ _ (λ pc, mergeFields E pc.1 pc.2 vm));
          apply bind_cong; intros ? ?).
  reflexivity.
Qed.

(** The result of the last part is a mapping. *)
Lemma mergeFields_result_mapping parent child vm s r s' :
  mergeFields E parent child vm s = Ok r s' → is_mapping (heap s') r.
Proof.
  intros Hrun. unfold mergeFields, new_object in Hrun.
  apply bind_Ok in Hrun as (r0 & s0 & Hnew & Hrun).
  apply bind_Ok in Hnew as (l & s0' & [= <- <-] & [-> ->]%ret_Ok).
  apply bind_Ok in Hrun as ([] & s1 & Hloop1 & Hrun).
  apply bind_Ok in Hrun as ([] & s2 & Hloop2 & [-> Hs']%ret_Ok).
  subst s2.
  assert (mono (with_heap s (heap s ++ [Obj None CPlain []])) s1) as H1.
  { eapply (spec_run mono); [|apply mono_refl|exact Hloop1].
    apply (spec_for_in (W := λ _, True)); [|done].
    intros k. by apply (spec_mergeField E (W := λ _, True)). }
  assert (mono s1 s') as H2.
  { eapply (spec_run mono); [|apply mono_refl|exact Hloop2].
    apply (spec_for_in (W := λ _, True)); [|done].
    intros k. apply (spec_bind (W := λ _, True)), spec_hasOwn. intros [].
    - by apply spec_ret.
    - by apply (spec_mergeField E (W := λ _, True)). }
  eapply is_mapping_mono; [|exact H2]. eapply is_mapping_mono; [|exact H1].
  eexists _, _. split_and!; [done|by apply list_lookup_middle|done..].
Qed.

Lemma mergeOptions_result_mapping fuel parent child vm s r s' :
  mergeOptions E fuel parent child vm s = Ok r s' → is_mapping (heap s') r.
Proof.
  intros (p & c & sm & Hrun)%mergeOptions_mergeFields.
  by eapply mergeFields_result_mapping.
Qed.

(** What the first part leaves, on a child that is a mapping. *)
Lemma mergeOptions_expand_Ok fuel parent child vm s parent' child' sm :
  is_mapping (heap s) parent → is_mapping (heap s) child →
  mergeOptions_expand E fuel parent child vm s = Ok (parent', child') sm →
  child' = child ∧ mono s sm ∧
  is_mapping (heap sm) parent' ∧ is_mapping (heap sm) child.
Proof.
  intros Hp Hc Hrun. unfold mergeOptions_expand in Hrun.
  apply bind_Ok in Hrun as ([] & sa & Hcheck & Hrun).
  apply bind_Ok in Hrun as (isf & ? & [-> ->]%read_Ok & Hrun).
  assert (mono s sa) as Hm1.
  { eapply (spec_run mono); [|apply mono_refl|exact Hcheck].
    apply spec_when; [|done].
    by apply (spec_checkComponents E (W := λ _, True)). }
  assert (is_function (heap sa) child = false) as Hnf.
  { destruct (is_mapping_mono _ _ _ Hc Hm1) as (c & co & -> & Hco & _ & Hcc).
    unfold is_function. by rewrite (obj_at_Some _ _ _ Hco), Hcc. }
  rewrite Hnf, run_bind_ret in Hrun.
  apply bind_Ok in Hrun as ([] & sc & Hprops & Hrun).
  apply bind_Ok in Hrun as ([] & sd & Hinj & Hrun).
  apply bind_Ok in Hrun as ([] & se & Hdirs & Hrun).
  apply bind_Ok in Hrun as (ext & ? & (_ & _ & -> & ->)%get_Ok & Hrun).
  apply bind_Ok in Hrun as (parent1 & sf & Hext & Hrun).
  apply bind_Ok in Hrun as (mixins & ? & (_ & _ & -> & ->)%get_Ok & Hrun).
  apply bind_Ok in Hrun as (parent2 & sg & Hmix & [[= <- <-] ->]%ret_Ok).
  assert (mono sa sc) as Hm2.
  { eapply (spec_run mono); [|apply mono_refl|exact Hprops].
    by apply (spec_normalizeProps E (W := λ _, True)). }
  assert (mono sc sd) as Hm3.
  { eapply (spec_run mono); [|apply mono_refl|exact Hinj].
    by apply (spec_normalizeInject E (W := λ _, True)). }
  assert (mono sd se) as Hm4.
  { eapply (spec_run mono); [|apply mono_refl|exact Hdirs].
    by apply (spec_normalizeDirectives (W := λ _, True)). }
  assert (mono s se) as Hse.
  { eapply (frame_trans (R := mono)); [exact Hm1|].
    eapply (frame_trans (R := mono)); [exact Hm2|].
    by eapply (frame_trans (R := mono)). }
  assert (mono se sf ∧ is_mapping (heap sf) parent1) as [Hm5 Hp1].
  { match type of Hext with context [truthy ?v] => destruct (truthy v) end.
    - split; [by eapply mergeOptions_mono|].
      by eapply mergeOptions_result_mapping.
    - apply ret_Ok in Hext as [-> ->]. split; [apply mono_refl|].
      by eapply is_mapping_mono. }
  assert (mono sf sg ∧ is_mapping (heap sg) parent') as [Hm6 Hp2].
  { match type of Hmix with context [truthy ?v] => destruct (truthy v) end.
    - apply bind_Ok in Hmix as (len & ? & (_ & _ & -> & ->)%get_Ok & Hmix).
      apply bind_Ok in Hmix as (n & sf' & Hn & Hmix).
      apply count_of_state in Hn as ->.
      eapply (foldM_inv (λ b st, mono sf st ∧ is_mapping (heap st) b));
        [| |exact Hmix].
      + split; [apply mono_refl|done].
      + intros b i st b' st' [Hmono Hok] Hstep.
        apply bind_Ok in Hstep as (ms & ? & (_ & _ & -> & ->)%get_Ok & Hstep).
        apply bind_Ok in Hstep as (m & ? & (_ & _ & -> & ->)%get_Ok & Hstep).
        split.
        * eapply (frame_trans (R := mono)); [exact Hmono|].
          by eapply mergeOptions_mono.
        * by eapply mergeOptions_result_mapping.
    - apply ret_Ok in Hmix as [-> ->]. split; [apply mono_refl|done]. }
  assert (mono s sg) as Hsm.
  { eapply (frame_trans (R := mono)); [exact Hse|].
    by eapply (frame_trans (R := mono)). }
  split_and!; [done..|]. by eapply is_mapping_mono.
Qed.

Lemma visits_split o parent child vm ks s s' k :
  visits E o parent child vm ks s s' → k ∈ ks →
  ∃ ks1 ks2 sa sb,
    ks = ks1 ++ k :: ks2 ∧
    visits E o parent child vm ks1 s sa ∧
    mergeField E o parent child vm k sa = Ok tt sb ∧
    visits E o parent child vm ks2 sb s'.
Proof.
  induction 1 as [s|k' ks s s1 s2 Hk Hks IH]; [by intros ?%elem_of_nil|].
  intros [->|Hin]%elem_of_cons.
  - exists [], ks, s, s1. split_and!; [done|constructor|done..].
  - destruct (IH Hin) as (ks1 & ks2 & sa & sb & -> & H1 & Hf & H2).
    exists (k' :: ks1), ks2, sa, sb.
    split_and!; [done|by econstructor|done..].
Qed.

(** A returning run of the last part of [mergeOptions], field by field. *)
Lemma mergeFields_tied parent child vm s r s' :
  is_mapping (heap s) parent → is_mapping (heap s) child →
  mergeFields E parent child vm s = Ok r s' →
  let o := length (heap s) in
  let s0 := with_heap s (heap s ++ [Obj None CPlain []]) in
  ∃ visited,
    r = VRef o ∧
    visits E (VRef o) parent child vm visited s0 s' ∧
    NoDup visited ∧
    (∀ k, k ∈ visited ↔
          k ∈ forin_keys (heap s) parent ∨ k ∈ forin_keys (heap s) child) ∧
    (∀ k, k ∈ own_keys (obj_at (heap s') o) ↔ k ∈ visited) ∧
    ∀ k, k ∈ visited →
      ∃ v, merged_field E o parent child vm visited s0 s' k
             (get_val (heap s) parent k) (get_val (heap s) child k) v ∧
           own_lookup (obj_at (heap s') o) k = Some v.
Proof.
  intros (p & po & -> & Hp & Hpp & Hpc) (c & co & -> & Hc & Hcp & Hcc) Hrun
    o s0.
  assert (value_ok (heap s) (VRef p)) as Hok.
  { intros ? [= <-]. by eapply lookup_lt_Some. }
  destruct (mergeFields_visits E _ _ _ _ _ _ Hok Hrun) as (-> & s1 & Hv1 & Hv2).
  fold o s0 in Hv1, Hv2.
  assert (heap s0 !! p = Some po) as Hp0 by by apply lookup_app_l_Some.
  assert (heap s0 !! c = Some co) as Hc0 by by apply lookup_app_l_Some.
  assert (p < o ∧ c < o) as [Hpo Hco].
  { split; by eapply lookup_lt_Some. }
  assert (length (heap s0) = S o) as Hlen0.
  { subst s0 o. simpl. rewrite length_app. simpl. lia. }
  assert (o < length (heap s0)) as Ho0 by lia.
  assert (obj_at (heap s0) o = Obj None CPlain []) as Hobj0.
  { apply obj_at_Some. by apply list_lookup_middle. }
  rewrite (forin_keys_no_proto _ _ _ Hp0 Hpp) in Hv1.
  destruct (visits_inv E _ _ _ _ _ _ _ Hv1 Ho0) as (Hf1 & _).
  assert (heap s1 !! c = Some co) as Hc1.
  { destruct Hf1 as (_ & _ & _ & Hh). rewrite Hh; [done|lia]. }
  rewrite (forin_keys_no_proto _ _ _ Hc1 Hcp) in Hv2.
  pose proof (visits_app E _ _ _ _ _ _ _ _ _ Hv1 Hv2) as Hv.
  destruct (visits_inv E _ _ _ _ _ _ _ Hv Ho0) as (Hf & Ho' & _ & Hout & Hin).
  rewrite (forin_keys_no_proto _ _ _ Hp Hpp), (forin_keys_no_proto _ _ _ Hc Hcp).
  set (visited := own_keys po ++
         filter (λ k, has_own_val (heap s0) (VRef p) k = false)
           (own_keys co)) in *.
  assert (∀ k, has_own_val (heap s0) (VRef p) k = false ↔ k ∉ own_keys po)
    as Hown.
  { intros k. unfold has_own_val.
    rewrite (obj_at_Some _ _ _ Hp0), Hpc, elem_of_own_keys.
    by rewrite bool_decide_eq_false. }
  assert (∀ k, k ∈ visited ↔ k ∈ own_keys po ∨ k ∈ own_keys co) as Hmem.
  { intros k. unfold visited. rewrite elem_of_app, list_elem_of_filter, Hown.
    destruct (decide (k ∈ own_keys po)); naive_solver. }
  assert (NoDup visited) as Hnd.
  { apply NoDup_app. split_and!.
    - apply NoDup_own_keys.
    - intros k Hk. rewrite list_elem_of_filter, Hown. tauto.
    - apply NoDup_filter, NoDup_own_keys. }
  exists visited. split_and!; [done..| |].
  - intros k. rewrite elem_of_own_keys. split.
    + intros Hs. destruct (decide (k ∈ visited)) as [|Hnin]; [done|].
      rewrite (Hout k Hnin), Hobj0 in Hs. by destruct Hs.
    + intros Hk. destruct (Hin k Hk) as (? & v & ? & _ & _ & ->). eauto.
  - intros k Hk.
    destruct (visits_split _ _ _ _ _ _ _ _ Hv Hk)
      as (ks1 & ks2 & sa & sb & Hks & Hb & Hfield & Ha).
    destruct (visits_inv E _ _ _ _ _ _ _ Hb Ho0) as (Hfa & Hoa & _).
    destruct (mergeField_Ok E _ _ _ _ _ _ _ Hfield Hoa)
      as (v & sv & ob & ob' & Hstrat & Hob & Hset & ->).
    assert (heap sa !! p = Some po ∧ heap sa !! c = Some co) as [Hpa Hca].
    { destruct Hfa as (_ & _ & _ & Hh). rewrite !Hh; [done|lia..]. }
    rewrite !(get_val_no_proto _ _ _ _ Hpa), !(get_val_no_proto _ _ _ _ Hca)
      in Hstrat by done.
    rewrite <- !(get_val_no_proto _ _ _ _ Hp), <- !(get_val_no_proto _ _ _ _ Hc)
      in Hstrat by done.
    pose proof (apply_strat_frame E _ _ _ _ _ _ _ _ Hstrat) as (_ & Hlv & _ & Hhv).
    assert (heap sv !! o = Some ob) as Hobv by (rewrite Hhv; [done|lia]).
    exists v. split.
    + exists ks1, ks2, sa, sv, (with_heap sv (<[o:=ob']> (heap sv))).
      split_and!; [done..| |exact Ha].
      eapply run_set_prop; [exact Hobv|exact Hset].
    + assert (k ∉ ks2) as Hk2.
      { rewrite Hks in Hnd. apply NoDup_app in Hnd as (_ & _ & Hnd).
        by apply NoDup_cons in Hnd as [? _]. }
      assert (o < length (heap (with_heap sv (<[o:=ob']> (heap sv))))) as Hob'.
      { cbn [heap with_heap]. rewrite length_insert. lia. }
      destruct (visits_inv E _ _ _ _ _ _ _ Ha Hob') as (_ & _ & _ & Hkeep & _).
      rewrite (Hkeep k Hk2). cbn [heap with_heap].
      rewrite obj_at_insert_eq by lia. by eapply obj_set_own_eq.
Qed.

End Parts.
(** * When [mergeOptions] returns *)

#[global] Instance appends_Frame : Frame appends (λ _, True).
Proof.
  split.
  - intros s1 s2 s3 [[d1 H1] Hr1] [[d2 H2] Hr2]. split; [|congruence].
    exists (d1 ++ d2). by rewrite H2, H1, app_assoc.
  - intros s1 s2 _. split; [|done]. exists []. by rewrite app_nil_r.
  - intros s o _. split; [|done]. split; [|done]. exists [].
    by rewrite app_nil_r.
  - intros s d _. split; [|done]. by exists [d].
  - intros s l o k x o' _ _ _ _. split; [|done]. exists [].
    by rewrite app_nil_r.
Qed.

Section WhenReturns.
Context (E : env).

(** The object at [l] is kept while another one is written to. *)
Lemma extend_kept (l r : loc) _from s s' v :
  l ≠ r → l < length (heap s) →
  extend (VRef r) _from s = Ok v s' → heap s' !! l = heap s !! l.
Proof.
  intros Hne Hl Hrun.
  assert (frame_on (λ q, q = l) s s') as (_ & _ & _ & Hh).
  { eapply (spec_run (frame_on (λ q, q = l))); [|..|exact Hrun].
    - apply (spec_extend (W := λ q, ¬ q = l)); [|done].
      intros q [= <-] ->. done.
    - apply frame_on_refl. by intros ? ->. }
  by apply Hh.
Qed.

(** [normalizeInject] returns on a configuration whose injection, if it is
    an array, is an array of names. *)
Lemma normalizeInject_total c co vm s :
  heap s !! c = Some co → cls co = CPlain →
  value_ok (heap s) (get_val (heap s) (VRef c) "inject") →
  inject_names (heap s) (get_val (heap s) (VRef c) "inject") →
  ∃ s', normalizeInject E (VRef c) vm s = Ok tt s'.
Proof.
  intros Hc Hcc Hok Hnames. unfold normalizeInject.
  rewrite run_bind_get, run_bind_new_object by done.
  set (inject := get_val (heap s) (VRef c) "inject") in *.
  set (n := length (heap s)).
  assert (c < n) as Hcn by by eapply lookup_lt_Some.
  erewrite run_bind_set_prop;
    [|by apply lookup_app_l_Some|by apply obj_set_plain].
  set (s0 := with_heap _ _).
  assert (plain_at n s0) as Hn0.
  { exists (Obj None CPlain []). split; [|done]. subst s0.
    cbn [heap with_heap].
    rewrite list_lookup_insert_ne by lia. by apply list_lookup_middle. }
  rewrite run_bind_read, run_bind_read.
  assert (∀ sa d k, plain_at n sa →
            ∃ sb, (let! d' := new_object d in set_prop (VRef n) k d') sa
                  = Ok tt sb ∧ plain_at n sb) as Hput.
  { intros sa d k Hpa. rewrite run_bind_new_object.
    apply plain_at_set. destruct Hpa as (o & Ho & Hoc). exists o.
    split; [by apply lookup_app_l_Some|done]. }
  destruct (is_array (heap s0) inject) eqn:Harr.
  - (* an array of names *)
    destruct inject as [| | | | |a] eqn:Hinj; try done.
    assert (a < n) as Han by by apply Hok.
    assert (a ≠ c) as Hac.
    { intros ->. cbn [is_array] in Harr. subst s0. cbn [heap with_heap] in Harr.
      by rewrite obj_at_insert_eq in Harr by (rewrite length_app; lia). }
    destruct (lookup_lt_is_Some_2 (heap s) a Han) as [ao Hao].
    assert (heap s0 !! a = Some ao) as Hao0.
    { subst s0. cbn [heap with_heap]. rewrite list_lookup_insert_ne by done.
      by apply lookup_app_l_Some. }
    cbn [is_array] in Harr. rewrite (obj_at_Some _ _ _ Hao0) in Harr.
    destruct (cls ao) as [|xs| |] eqn:Hxs; try done.
    specialize (Hnames a xs eq_refl).
    rewrite (obj_at_Some _ _ _ Hao) in Hnames. specialize (Hnames Hxs).
    rewrite run_bind_read. cbn [array_length].
    rewrite (obj_at_Some _ _ _ Hao0), Hxs.
    destruct (forM_total (λ sa, plain_at n sa ∧ heap sa !! a = Some ao)
                (λ i, let! name := get (VRef a) (key_of_index i) in
                      let! key := to_key name in
                      let! d := new_object [("from", name)] in
                      set_prop (VRef n) key d)
                (seq 0 (length xs)) s0) as (s' & Hrun & _); [done| |eauto].
    intros i sa Hi [Hpa Haa]. apply elem_of_seq in Hi.
    destruct (lookup_lt_is_Some_2 xs i ltac:(lia)) as [x Hx].
    rewrite run_bind_get by done.
    rewrite (get_val_array_index _ _ _ _ _ _ Haa Hxs Hx).
    rewrite Forall_lookup in Hnames. destruct (Hnames i x Hx) as [_ Hnr].
    assert (∃ key, ∀ B (k : string → M B) st,
              bind (to_key x) k st = k key st) as [key Hkey].
    { destruct x as [| |[]| | |q]; try by eexists. by destruct (Hnr q). }
    rewrite Hkey. destruct (Hput sa [("from", x)] key Hpa) as (sb & Hsb & Hpb).
    exists sb. split; [done|]. split; [done|].
    rewrite run_bind_new_object in Hsb.
    apply set_prop_Ok in Hsb as (l' & o & o' & [= <-] & _ & _ & ->).
    cbn [heap with_heap]. destruct Hpa as (no & Hno & _).
    apply lookup_lt_Some in Hno as Hnl.
    assert (a ≠ n) by lia.
    rewrite list_lookup_insert_ne by done. by apply lookup_app_l_Some.
  - destruct (isPlainObject (heap s0) inject) eqn:Hplain.
    + (* a mapping *)
      rewrite run_for_in.
      destruct (forM_total (plain_at n)
                  (λ key,
                     let! val := get inject key in
                     let! isp := read (λ h, isPlainObject h val) in
                     let! d :=
                       (if isp
                        then let! o := new_object [("from", VStr key)] in
                             extend o val
                        else new_object [("from", val)]) in
                     set_prop (VRef n) key d)
                  (forin_keys (heap s0) inject) s0 Hn0)
        as (s' & Hrun & _); [|eauto].
      intros key sa _ Hpa.
      assert (inject ≠ VUndef ∧ inject ≠ VNull) as [Hu Hnl].
      { split; intros Heq; by rewrite Heq in Hplain. }
      rewrite run_bind_get, run_bind_read by done.
      destruct (isPlainObject (heap sa) _); [|by apply Hput].
      rewrite run_bind_bind, run_bind_new_object.
      set (sx := with_heap sa _).
      destruct (extend_returns (length (heap sa))
                  (get_val (heap sa) inject key) sx) as (sy & Hsy & _).
      { eexists. split; [by apply list_lookup_middle|done]. }
      rewrite (run_bind_Ok _ _ _ _ _ Hsy).
      apply plain_at_set. destruct Hpa as (o & Ho & Hoc). exists o.
      split; [|done]. apply lookup_lt_Some in Ho as Hol.
      rewrite (extend_kept n (length (heap sa)) _ sx sy _ ltac:(lia)
                 ltac:(subst sx; cbn; rewrite length_app; lia) Hsy).
      by apply lookup_app_l_Some.
    + destruct (dev E && truthy inject); by eexists.
Qed.

(** [normalizeDirectives] returns when the directives are not an array. *)
Lemma normalizeDirectives_total options s :
  options ≠ VUndef → options ≠ VNull →
  is_array (heap s) (get_val (heap s) options "directives") = false →
  ∃ s', normalizeDirectives options s = Ok tt s'.
Proof.
  intros Hu Hn Harr. unfold normalizeDirectives.
  rewrite run_bind_get by done.
  set (dirs := get_val (heap s) options "directives") in *.
  destruct (truthy dirs) eqn:Htr; [|by eexists].
  assert (dirs ≠ VUndef ∧ dirs ≠ VNull) as [Hdu Hdn].
  { split; intros Heq; by rewrite Heq in Htr. }
  rewrite run_for_in.
  set (body := λ key : string,
         let! def := get dirs key in
         let! isf := read (λ h, is_function h def) in
         if isf
         then let! d := new_object [("bind", def); ("update", def)] in
              set_prop dirs key d
         else ret tt).
  change (∃ s', forM_ (forin_keys (heap s) dirs) body s = Ok tt s').
  destruct dirs as [| | | |str|l] eqn:Hd; try by eexists.
  - (* a string: its characters are not functions *)
    exists s. apply forM_nothing. intros k _. unfold body.
    rewrite run_bind_get, run_bind_read by done.
    assert (is_function (heap s) (get_val (heap s) (VStr str) k) = false)
      as ->; [|done].
    cbn [get_val]. destruct (String.eqb k "length"); [done|].
    destruct (index_of_key k) as [i|]; [|done].
    by destruct (string_chars str !! i).
  - destruct (heap s !! l) as [o|] eqn:Hl.
    + destruct (forM_total
                  (λ sa, ∃ oa, heap sa !! l = Some oa ∧
                               ∀ xs, cls oa ≠ CArray xs)
                  body (forin_keys (heap s) (VRef l)) s)
        as (s' & Hrun & _); [| |eauto].
      * exists o. split; [done|]. intros xs Hxs. cbn [is_array] in Harr.
        by rewrite (obj_at_Some _ _ _ Hl), Hxs in Harr.
      * intros k sa _ (oa & Hoa & Hna). unfold body.
        rewrite run_bind_get, run_bind_read by done.
        destruct (is_function (heap sa) _); [|by eauto].
        rewrite run_bind_new_object.
        assert (obj_set oa k (VRef (length (heap sa)))
                = Some (Obj (proto oa) (cls oa)
                          (alist_set k (VRef (length (heap sa))) (props oa))))
          as Hset.
        { unfold obj_set. destruct (cls oa) eqn:Hco; try done.
          by destruct (Hna elems). }
        erewrite run_set_prop; [|by apply lookup_app_l_Some|exact Hset].
        eexists. split; [reflexivity|]. cbn [heap with_heap].
        eexists. split.
        { apply list_lookup_insert_eq. rewrite length_app.
          apply lookup_lt_Some in Hoa. lia. }
        exact Hna.
    + exists s. assert (forin_keys (heap s) (VRef l) = []) as ->; [|done].
      cbn [forin_keys]. destruct (length (heap s)); [done|]. cbn [chain_keys].
      unfold obj_at. rewrite Hl. done.
Qed.


(** The first part returns on a plain child that neither extends nor mixes
    in, whose injection is a mapping or an array of names and whose
    directives are not an array. *)
Lemma mergeOptions_expand_returns fuel (p c : loc) (po co : object) vm s :
  heap s !! p = Some po →
  heap s !! c = Some co → cls co = CPlain → proto co = None → p ≠ c →
  entries_ok (heap s) co →
  truthy (default VUndef (own_lookup co "extends")) = false →
  truthy (default VUndef (own_lookup co "mixins")) = false →
  inject_names (heap s) (default VUndef (own_lookup co "inject")) →
  default VUndef (own_lookup co "directives") ≠ VRef c →
  default VUndef (own_lookup co "directives") ≠ VRef p →
  is_array (heap s) (default VUndef (own_lookup co "directives")) = false →
  ∃ sd cd,
    mergeOptions_expand E fuel (VRef p) (VRef c) vm s
    = Ok (VRef p, VRef c) sd ∧
    regs sd = regs s ∧ length (heap s) ≤ length (heap sd) ∧
    heap sd !! p = Some po ∧
    (∀ l, l < length (heap s) → l ≠ c →
          VRef l ≠ default VUndef (own_lookup co "directives") →
          heap sd !! l = heap s !! l) ∧
    heap sd !! c = Some cd ∧ cls cd = CPlain ∧ proto cd = None ∧
    ∀ k, k ≠ "props" → k ≠ "inject" → own_lookup cd k = own_lookup co k.
Proof.
  intros Hp Hc Hcc Hcp Hpc Hok Hext Hmix Hinj Hdc Hdp Hda.
  set (dirs := default VUndef (own_lookup co "directives")) in *.
  assert (c < length (heap s)) as Hcl by by eapply lookup_lt_Some.
  assert (p < length (heap s)) as Hpl by by eapply lookup_lt_Some.
  unfold mergeOptions_expand.
  destruct (silent_when (dev E) _
              (silent_checkComponents E (VRef c) ltac:(done) ltac:(done)) s)
    as [d0 Hd0].
  rewrite (run_bind_Ok _ _ _ _ _ Hd0), run_bind_read.
  set (sa := State (heap s) d0 (regs s)).
  assert (is_function (heap sa) (VRef c) = false) as ->.
  { cbn [is_function sa heap]. by rewrite (obj_at_Some _ _ _ Hc), Hcc. }
  rewrite run_bind_ret.
  (* the declared props *)
  destruct (normalizeProps_total E c vm sa Hcl) as (sb & Hb & _).
  rewrite (run_bind_Ok _ _ _ _ _ Hb).
  destruct (normalizeProps_child E c co vm sa sb Hc Hcc Hcp Hb)
    as (Hrb & Hlb & Hfb & cb & Hcb & Hcbc & Hcbp & Hkb).
  (* the injection *)
  assert (∀ v, value_ok (heap s) v → v ≠ VRef c →
            ∀ l, v = VRef l → obj_at (heap sb) l = obj_at (heap s) l)
    as Hsame_b.
  { intros v Hv Hne l ->. unfold obj_at. rewrite Hfb; [done|by apply Hv|].
    by intros ->. }
  assert (get_val (heap sb) (VRef c) "inject"
          = default VUndef (own_lookup co "inject")) as Hgi.
  { rewrite (get_val_no_proto _ _ _ _ Hcb Hcbc Hcbp), Hkb; done. }
  assert (inject_val_ok : value_ok (heap s)
            (default VUndef (own_lookup co "inject"))).
  { destruct (own_lookup co "inject") as [v|] eqn:Hv; [by eapply Hok|done]. }
  destruct (normalizeInject_total c cb vm sb Hcb Hcbc) as (sc & Hsc).
  { rewrite Hgi. intros l Hl. specialize (inject_val_ok l Hl).
    cbn [sa heap] in Hlb. lia. }
  { rewrite Hgi. intros l xs Hl Hxs.
    destruct (decide (l = c)) as [->|Hlc].
    { by rewrite (obj_at_Some _ _ _ Hcb), Hcbc in Hxs. }
    assert (obj_at (heap sb) l = obj_at (heap s) l) as Hol.
    { unfold obj_at. rewrite Hfb; [done|by apply inject_val_ok|done]. }
    rewrite Hol in Hxs. specialize (Hinj l xs Hl Hxs).
    eapply Forall_impl; [exact Hinj|]. intros x [_ Hx]. split; [|done].
    destruct x; try done. by destruct (Hx l0). }
  rewrite (run_bind_Ok _ _ _ _ _ Hsc).
  destruct (normalizeInject_child E c cb vm sb sc Hcb Hcbc Hcbp Hsc)
    as (Hrc & Hlc & Hfc & cc & Hccl & Hccc & Hccp & Hkc).
  (* the directives *)
  assert (value_ok (heap s) dirs) as Hdok.
  { subst dirs.
    destruct (own_lookup co "directives") as [v|] eqn:Hv;
      [by eapply Hok|done]. }
  assert (get_val (heap sc) (VRef c) "directives" = dirs) as Hgd.
  { rewrite (get_val_no_proto _ _ _ _ Hccl Hccc Hccp), Hkc, Hkb; done. }
  assert (is_array (heap sc) dirs = false) as Hda'.
  { destruct dirs as [| | | | |l] eqn:Hd; try done. cbn [is_array] in *.
    assert (l < length (heap s)) as Hll by by apply Hdok.
    assert (l ≠ c) as Hne by (intros ->; by apply Hdc).
    assert (heap sc !! l = heap s !! l) as Heq.
    { rewrite Hfc; [|cbn [sa heap] in Hlb; lia|done].
      rewrite Hfb; [done|exact Hll|done]. }
    unfold obj_at in *. by rewrite Heq. }
  destruct (normalizeDirectives_total (VRef c) sc ltac:(done) ltac:(done))
    as (sd & Hsd); [by rewrite Hgd|].
  rewrite (run_bind_Ok _ _ _ _ _ Hsd).
  destruct (normalizeDirectives_frame (VRef c) sc sd Hsd)
    as (Hrd & Hld & Hfd).
  rewrite Hgd in Hfd. cbn [sa heap] in Hlb, Hfb.
  assert (heap sd !! c = Some cc) as Hcd.
  { rewrite Hfd; [done|lia|]. intros Heq. by apply Hdc. }
  assert (∀ k, k ≠ "props" → k ≠ "inject" →
               own_lookup cc k = own_lookup co k) as Hkd.
  { intros k ? ?. rewrite Hkc, Hkb; done. }
  (* nothing is extended or mixed in *)
  rewrite run_bind_get by done.
  rewrite (get_val_no_proto _ _ _ _ Hcd Hccc Hccp), Hkd, Hext by done.
  rewrite run_bind_ret, run_bind_get by done.
  rewrite (get_val_no_proto _ _ _ _ Hcd Hccc Hccp), Hkd, Hmix by done.
  rewrite run_bind_ret.
  exists sd, cc. split; [done|]. split_and!; try done.
  - rewrite Hrd, Hrc, Hrb. done.
  - lia.
  - rewrite Hfd, Hfc, Hfb; [done|done|done|lia|done|lia|].
    intros Heq. by apply Hdp.
  - intros l Hl Hne Hnd. rewrite Hfd, Hfc, Hfb; [done|done|done|lia|done|lia|].
    done.
Qed.

(** [mergeOptions] returns on such a child when, besides, the strategy of
    every field returns on the two values of the field. *)
Lemma mergeOptions_returns fuel (p c : loc) (po co : object) vm s :
  heap s !! p = Some po → cls po = CPlain → proto po = None →
  heap s !! c = Some co → cls co = CPlain → proto co = None → p ≠ c →
  entries_ok (heap s) co →
  truthy (default VUndef (own_lookup co "extends")) = false →
  truthy (default VUndef (own_lookup co "mixins")) = false →
  inject_names (heap s) (default VUndef (own_lookup co "inject")) →
  default VUndef (own_lookup co "directives") ≠ VRef c →
  default VUndef (own_lookup co "directives") ≠ VRef p →
  is_array (heap s) (default VUndef (own_lookup co "directives")) = false →
  (∀ k sa,
     is_Some (own_lookup po k) ∨ is_Some (own_lookup co k) →
     k ≠ "props" → k ≠ "inject" →
     ∃ v sb, apply_strat E (strats E k)
               (default VUndef (own_lookup po k))
               (default VUndef (own_lookup co k)) vm k sa = Ok v sb) →
  ∃ r s', mergeOptions E (S fuel) (VRef p) (VRef c) vm s = Ok r s' ∧
    is_mapping (heap s') r ∧ appends s s'.
Proof.
  intros Hp Hpc Hpp Hc Hcc Hcp Hne Hok Hext Hmix Hinj Hdc Hdp Hda Hstrat.
  destruct (mergeOptions_expand_returns fuel p c po co vm s)
    as (sd & cd & Hexp & Hrd & Hld & Hpd & _ & Hcd & Hcdc & Hcdp & Hkd);
    try done.
  destruct (mergeFields_returns E (VRef p) (VRef c) vm sd)
    as (o & s' & Hrun & Hmap & _).
  { by exists p, po. }
  { by exists c, cd. }
  { intros k sa Hk _.
    rewrite (forin_keys_no_proto _ _ _ Hpd Hpp),
      (forin_keys_no_proto _ _ _ Hcd Hcdp) in Hk.
    rewrite (get_val_no_proto _ _ _ _ Hpd Hpc Hpp),
      (get_val_no_proto _ _ _ _ Hcd Hcdc Hcdp).
    destruct (decide (k = "props")) as [->|Hnp].
    { by apply apply_strat_returns. }
    destruct (decide (k = "inject")) as [->|Hni].
    { by apply apply_strat_returns. }
    rewrite Hkd by done. apply Hstrat; [|done..].
    destruct Hk as [Hk|Hk]; [left|right];
      apply elem_of_own_keys in Hk; [done|by rewrite <- Hkd]. }
  assert (mergeOptions E (S fuel) (VRef p) (VRef c) vm s = Ok (VRef o) s')
    as Hall.
  { rewrite mergeOptions_expand_eq. by rewrite (run_bind_Ok _ _ _ _ _ Hexp). }
  exists (VRef o), s'. split_and!; [done..|].
  eapply (spec_run appends); [|..|exact Hall].
  - by apply (spec_mergeOptions E (W := λ _, True)).
  - split; [|done]. exists []. by rewrite app_nil_r.
Qed.

End WhenReturns.
(** * The resolved configuration, from the call to the result *)

Section ResolvedConfig.
Context (E : env).

(** C1.  [mergeOptions] on a parent and a child that are configuration
    mappings.  A run that returns, on a heap whose keys read and write as
    on an object without prototype, is the first part (the child is
    checked and normalised, [extends] and [mixins] are merged into the
    parent) followed by the merge of the fields of the expanded parent
    [parent'] and of the child.  The result is a mapping allocated after the
    first part: it is not an object of the heap before the call, nor the
    parent, the expanded parent or the child.  The fields of [parent'] and
    then the fields of the child alone are visited, none twice, and the
    result owns exactly the visited fields.  In that run a field of
    [parent'] is merged by its strategy applied to
    [(parent'[field], child[field])], a field of the child alone by its
    strategy applied to [(undefined, child[field])], and the result holds
    under the field the value the strategy returned then.  The run returns
    on a plain child, other than the parent, that neither extends nor mixes
    in, whose injection is a mapping or an array of names and whose
    directives are no array, when the strategy of each field returns on
    the two values of the field. *)
Theorem mergeOptions_resolved_config fuel parent child vm s :
  is_mapping (heap s) parent →
  is_mapping (heap s) child →
  (∀ r s',
     mergeOptions E (S fuel) parent child vm s = Ok r s' →
     ordinary_heap E (heap s') →
     ∃ parent' sm o visited,
       mergeOptions_expand E fuel parent child vm s
       = Ok (parent', child) sm ∧
       is_mapping (heap sm) parent' ∧ is_mapping (heap sm) child ∧
       r = VRef o ∧ o = length (heap sm) ∧ heap s !! o = None ∧
       r ≠ parent ∧ r ≠ parent' ∧ r ≠ child ∧
       is_mapping (heap s') r ∧
       visits E (VRef o) parent' child vm visited
         (with_heap sm (heap sm ++ [Obj None CPlain []])) s' ∧
       NoDup visited ∧
       (∀ k, k ∈ visited ↔
             k ∈ forin_keys (heap sm) parent' ∨
             k ∈ forin_keys (heap sm) child) ∧
       (∀ k, k ∈ own_keys (obj_at (heap s') o) ↔ k ∈ visited) ∧
       (∀ k, k ∈ forin_keys (heap sm) parent' →
          ∃ v, merged_field E o parent' child vm visited
                 (with_heap sm (heap sm ++ [Obj None CPlain []])) s' k
                 (get_val (heap sm) parent' k) (get_val (heap sm) child k) v ∧
               own_lookup (obj_at (heap s') o) k = Some v) ∧
       (∀ k, k ∈ forin_keys (heap sm) child →
             k ∉ forin_keys (heap sm) parent' →
          ∃ v, merged_field E o parent' child vm visited
                 (with_heap sm (heap sm ++ [Obj None CPlain []])) s' k
                 VUndef (get_val (heap sm) child k) v ∧
               own_lookup (obj_at (heap s') o) k = Some v)) ∧
  (∀ p c po co,
     parent = VRef p → child = VRef c →
     heap s !! p = Some po → heap s !! c = Some co → p ≠ c →
     entries_ok (heap s) co →
     truthy (default VUndef (own_lookup co "extends")) = false →
     truthy (default VUndef (own_lookup co "mixins")) = false →
     inject_names (heap s) (default VUndef (own_lookup co "inject")) →
     default VUndef (own_lookup co "directives") ≠ VRef c →
     default VUndef (own_lookup co "directives") ≠ VRef p →
     is_array (heap s) (default VUndef (own_lookup co "directives")) = false →
     (∀ k sa,
        is_Some (own_lookup po k) ∨ is_Some (own_lookup co k) →
        k ≠ "props" → k ≠ "inject" →
        ∃ v sb, apply_strat E (strats E k)
                  (default VUndef (own_lookup po k))
                  (default VUndef (own_lookup co k)) vm k sa = Ok v sb) →
     ∃ r s', mergeOptions E (S fuel) parent child vm s = Ok r s').
Proof.
  intros Hp Hc. split.
  - intros r s' Hrun _.
    rewrite mergeOptions_expand_eq in Hrun.
    apply bind_Ok in Hrun as ([parent' child'] & sm & Hexp & Hmf).
    cbn [fst snd] in Hmf.
    destruct (mergeOptions_expand_Ok E _ _ _ _ _ _ _ _ Hp Hc Hexp)
      as (-> & Hmono & Hp' & Hc').
    pose proof (mergeFields_result_mapping E _ _ _ _ _ _ Hmf) as Hres.
    destruct (mergeFields_tied E parent' child vm sm r s' Hp' Hc' Hmf)
      as (visited & -> & Hvis & Hnd & Hmem & Hown & Hfields).
    destruct Hmono as (Hlen & _).
    exists parent', sm, (length (heap sm)), visited.
    split_and!; try done.
    + apply lookup_ge_None_2. lia.
    + destruct Hp as (p & po & -> & Hpl & _). apply lookup_lt_Some in Hpl.
      intros [= Heq]. lia.
    + destruct Hp' as (p & po & -> & Hpl & _). apply lookup_lt_Some in Hpl.
      intros [= Heq]. lia.
    + destruct Hc' as (c & co & -> & Hcl & _). apply lookup_lt_Some in Hcl.
      intros [= Heq]. lia.
    + intros k Hk. apply Hfields, Hmem. by left.
    + intros k Hk Hnk.
      destruct (Hfields k ltac:(apply Hmem; by right)) as (v & Hv & Hov).
      exists v. split; [|done].
      destruct Hp' as (p & po & -> & Hpl & Hpp & Hpc).
      rewrite (forin_keys_no_proto _ _ _ Hpl Hpp), elem_of_own_keys,
        <- eq_None_not_Some in Hnk.
      by rewrite (get_val_no_proto _ _ _ _ Hpl Hpc Hpp), Hnk in Hv.
  - intros p c po co -> -> Hpl Hcl Hne Hok Hext Hmix Hinj Hdc Hdp Hda Hstrat.
    destruct Hp as (? & ? & [= <-] & Hpl' & Hpp & Hpc).
    destruct Hc as (? & ? & [= <-] & Hcl' & Hcp & Hcc).
    rewrite Hpl in Hpl'. injection Hpl' as <-.
    rewrite Hcl in Hcl'. injection Hcl' as <-.
    destruct (mergeOptions_returns E fuel p c po co vm s)
      as (r & s' & Hrun & _); by eauto.
Qed.

End ResolvedConfig.

Lemma mergeOptions_resolved_config_witness :
  is_mapping (heap levels_state) (VRef 2) ∧
  is_mapping (heap levels_state) (VRef 5) ∧
  mergeOptions dev_env 2 (VRef 2) (VRef 5) VUndef levels_state
  = Ok (result_of VUndef levels_run) (state_of levels_run) ∧
  ordinary_heap dev_env (heap (state_of levels_run)) ∧
  (∃ parent' sm o visited,
     mergeOptions_expand dev_env 1 (VRef 2) (VRef 5) VUndef levels_state
     = Ok (parent', VRef 5) sm ∧
     is_mapping (heap sm) parent' ∧ is_mapping (heap sm) (VRef 5) ∧
     result_of VUndef levels_run = VRef o ∧ o = length (heap sm) ∧
     heap levels_state !! o = None ∧
     result_of VUndef levels_run ≠ VRef 2 ∧
     result_of VUndef levels_run ≠ parent' ∧
     result_of VUndef levels_run ≠ VRef 5 ∧
     is_mapping (heap (state_of levels_run)) (result_of VUndef levels_run) ∧
     visits dev_env (VRef o) parent' (VRef 5) VUndef visited
       (with_heap sm (heap sm ++ [Obj None CPlain []]))
       (state_of levels_run) ∧
     NoDup visited ∧
     (∀ k, k ∈ visited ↔
           k ∈ forin_keys (heap sm) parent' ∨
           k ∈ forin_keys (heap sm) (VRef 5)) ∧
     (∀ k, k ∈ own_keys (obj_at (heap (state_of levels_run)) o) ↔
           k ∈ visited) ∧
     (∀ k, k ∈ forin_keys (heap sm) parent' →
        ∃ v, merged_field dev_env o parent' (VRef 5) VUndef visited
               (with_heap sm (heap sm ++ [Obj None CPlain []]))
               (state_of levels_run) k
               (get_val (heap sm) parent' k)
               (get_val (heap sm) (VRef 5) k) v ∧
             own_lookup (obj_at (heap (state_of levels_run)) o) k
             = Some v) ∧
     (∀ k, k ∈ forin_keys (heap sm) (VRef 5) →
           k ∉ forin_keys (heap sm) parent' →
        ∃ v, merged_field dev_env o parent' (VRef 5) VUndef visited
               (with_heap sm (heap sm ++ [Obj None CPlain []]))
               (state_of levels_run) k
               VUndef (get_val (heap sm) (VRef 5) k) v ∧
             own_lookup (obj_at (heap (state_of levels_run)) o) k
             = Some v)) ∧
  ∃ r s', mergeOptions dev_env 1 (VRef 2) (VRef 3) VUndef fields_state
          = Ok r s'.
Proof.
  assert (is_mapping (heap levels_state) (VRef 2)) as H2.
  { eexists 2, _. by split_and!. }
  assert (is_mapping (heap levels_state) (VRef 5)) as H5.
  { eexists 5, _. by split_and!. }
  assert (∃ r s', mergeOptions dev_env 1 (VRef 2) (VRef 3) VUndef fields_state
                  = Ok r s') as Htot.
  { assert (is_mapping (heap fields_state) (VRef 2)) as F2.
    { eexists 2, _. by split_and!. }
    assert (is_mapping (heap fields_state) (VRef 3)) as F3.
    { eexists 3, _. by split_and!. }
    set (po := Obj None CPlain [("a", VNum 1); ("created", VRef 1)]).
    set (co := Obj None CPlain [("a", VNum 2); ("b", VNum 3)]).
    assert (entries_ok (heap fields_state) co) as Hok.
    { intros k v Hk l ->. unfold own_lookup, co in Hk.
      cbn [cls props alist_get] in Hk.
      repeat (destruct (String.eqb _ k); [discriminate Hk|]).
      discriminate Hk. }
    assert (inject_names (heap fields_state)
              (default VUndef (own_lookup co "inject"))) as Hinj.
    { intros l xs Hl. discriminate Hl. }
    assert (∀ k sa,
              is_Some (own_lookup po k) ∨ is_Some (own_lookup co k) →
              k ≠ "props" → k ≠ "inject" →
              ∃ v sb, apply_strat dev_env (strats dev_env k)
                        (default VUndef (own_lookup po k))
                        (default VUndef (own_lookup co k)) VUndef k sa
                      = Ok v sb) as Hstrat.
    { intros k sa Hk _ _.
      assert (k ∈ ["a"; "created"; "b"]) as Hin.
      { destruct Hk as [Hk|Hk]; apply elem_of_own_keys in Hk;
          vm_compute in Hk;
          repeat (apply elem_of_cons in Hk as [->|Hk]);
          try (by apply elem_of_nil in Hk); repeat constructor. }
      repeat (apply elem_of_cons in Hin as [->|Hin]);
        try (by apply elem_of_nil in Hin); vm_compute; eexists _, _;
        reflexivity. }
    exact (proj2 (mergeOptions_resolved_config dev_env 0 _ _ VUndef _ F2 F3)
             2 3 po co eq_refl eq_refl eq_refl eq_refl
             ltac:(discriminate) Hok eq_refl eq_refl Hinj
             ltac:(discriminate) ltac:(discriminate) eq_refl Hstrat). }
  assert (mergeOptions dev_env 2 (VRef 2) (VRef 5) VUndef levels_state
          = Ok (result_of VUndef levels_run) (state_of levels_run)) as Hrun.
  { vm_compute. reflexivity. }
  assert (ordinary_heap dev_env (heap (state_of levels_run))) as Hord.
  { apply ordinary_heap_check. vm_compute. reflexivity. }
  split_and!; [exact H2|exact H5|exact Hrun|exact Hord| |exact Htot].
  - exact (proj1 (mergeOptions_resolved_config dev_env 1 _ _ _ _ H2 H5)
             _ _ Hrun Hord).
Defined.
(** * What runs to completion *)

Section NotFatal.
Context (E : env).


End NotFatal.

(** * The data field, and when the registration happens *)

Section DataField.
Context (E : env).

(** What the first part of [mergeOptions] leaves, on a plain child that
    neither extends nor mixes in. *)
Lemma mergeOptions_expand_plain fuel parent c co vm s parent' child' sm :
  heap s !! c = Some co → cls co = CPlain → proto co = None →
  truthy (default VUndef (own_lookup co "extends")) = false →
  truthy (default VUndef (own_lookup co "mixins")) = false →
  own_lookup co "directives" ≠ Some (VRef c) →
  mergeOptions_expand E fuel parent (VRef c) vm s = Ok (parent', child') sm →
  parent' = parent ∧ child' = VRef c ∧
  length (heap s) ≤ length (heap sm) ∧
  (∀ l, l < length (heap s) → l ≠ c →
        own_lookup co "directives" ≠ Some (VRef l) →
        heap sm !! l = heap s !! l) ∧
  ∃ cd, heap sm !! c = Some cd ∧ cls cd = CPlain ∧ proto cd = None ∧
    ∀ k, k ≠ "props" → k ≠ "inject" → own_lookup cd k = own_lookup co k.
Proof.
  intros Hc Hcc Hcp Hext Hmix Hdc Hrun. unfold mergeOptions_expand in Hrun.
  destruct (silent_when (dev E) _
              (silent_checkComponents E (VRef c) ltac:(done) ltac:(done)) s)
    as [d Hd].
  rewrite (run_bind_Ok _ _ _ _ _ Hd), run_bind_read in Hrun.
  set (sa := State (heap s) d (regs s)) in *.
  assert (heap sa !! c = Some co) as Hca by done.
  assert (is_function (heap sa) (VRef c) = false) as Hisf.
  { unfold is_function. by rewrite (obj_at_Some _ _ _ Hca), Hcc. }
  rewrite Hisf, run_bind_ret in Hrun.
  apply bind_Ok in Hrun as ([] & sb & Hprops & Hrun).
  apply bind_Ok in Hrun as ([] & sc & Hinj & Hrun).
  apply bind_Ok in Hrun as ([] & sd & Hdirs & Hrun).
  destruct (normalizeProps_child E _ _ _ _ _ Hca Hcc Hcp Hprops)
    as (Hrb & Hlb & Hhb & cb & Hcb & Hccb & Hcpb & Hkb).
  destruct (normalizeInject_child E _ _ _ _ _ Hcb Hccb Hcpb Hinj)
    as (Hrc & Hlc & Hhc & cc & Hc' & Hccc & Hcpc & Hkc).
  destruct (normalizeDirectives_frame _ _ _ Hdirs) as (Hrd & Hld & Hhd).
  assert (∀ k, k ≠ "props" → k ≠ "inject" →
               own_lookup cc k = own_lookup co k) as Hk.
  { intros k ? ?. by rewrite Hkc, Hkb. }
  assert (∀ k, get_val (heap sc) (VRef c) k
               = default VUndef (own_lookup cc k)) as Hget.
  { intros k. by apply get_val_no_proto. }
  assert (c < length (heap s)) as Hcl by by eapply lookup_lt_Some.
  assert (∀ l, own_lookup co "directives" ≠ Some (VRef l) →
               VRef l ≠ get_val (heap sc) (VRef c) "directives") as Hnd.
  { intros l Hne. rewrite Hget, Hk by done. intros Heq.
    destruct (own_lookup co "directives") as [w|]; [|done].
    simpl in Heq. by subst w. }
  assert (heap sd !! c = Some cc) as Hcd.
  { rewrite Hhd, Hc'; [done|simpl in *; lia|by apply Hnd]. }
  assert (∀ k, get_val (heap sd) (VRef c) k
               = default VUndef (own_lookup cc k)) as Hget'.
  { intros k. by apply get_val_no_proto. }
  rewrite run_bind_get, Hget', Hk, Hext, run_bind_ret in Hrun by done.
  rewrite run_bind_get, Hget', Hk, Hmix, run_bind_ret in Hrun by done.
  apply ret_Ok in Hrun as [[= -> ->] ->].
  split_and!; [done|done|simpl in *; lia| |].
  - intros l Hl Hne Hdl. simpl in *.
    rewrite Hhd; [|lia|by apply Hnd].
    rewrite Hhc by (done || lia). by rewrite Hhb.
  - by exists cc.
Qed.

(** What [strats.data] returns. *)
Lemma strat_data_Ok pv cv vm sa v sv :
  strat_data E pv cv vm sa = Ok v sv →
  length (heap sa) ≤ length (heap sv) ∧
  (∀ l, l < length (heap sa) → heap sv !! l = heap sa !! l) ∧
  if truthy vm then
    if truthy pv || truthy cv
    then v = VRef (length (heap sa)) ∧
         heap sv !! length (heap sa)
         = Some (Obj None (CFun (MergedInstanceDataFn pv cv vm)) [])
    else v = VUndef
  else if truthy cv && negb (is_function (heap sa) cv) then v = pv
  else if negb (truthy cv) then v = pv
  else if negb (truthy pv) then v = cv
  else v = VRef (length (heap sa)) ∧
       heap sv !! length (heap sa)
       = Some (Obj None (CFun (MergedDataFn pv cv)) []).
Proof.
  assert (∀ c v sv, new_function c sa = Ok v sv →
            length (heap sa) ≤ length (heap sv) ∧
            (∀ l, l < length (heap sa) → heap sv !! l = heap sa !! l) ∧
            v = VRef (length (heap sa)) ∧
            heap sv !! length (heap sa) = Some (Obj None (CFun c) []))
    as Hnew.
  { intros c v0 sv0 [= <- <-]. cbn [heap with_heap].
    split_and!; [rewrite length_app; lia| |done|by apply list_lookup_middle].
    intros l Hl. by apply lookup_app_l. }
  unfold strat_data, mergeDataOrFn. destruct (truthy vm) eqn:Hvm; cbn [negb].
  - destruct (truthy pv || truthy cv).
    + intros (? & ? & ? & ?)%Hnew. by split_and!.
    + by intros [-> ->]%ret_Ok.
  - rewrite run_bind_read.
    destruct (truthy cv && negb (is_function (heap sa) cv)).
    + intros ([] & sw & Hw & [-> ->]%ret_Ok)%bind_Ok.
      destruct (silent_when (dev E) _ (silent_warn WarnDataNotFunction) sa)
        as [d Hd].
      rewrite Hd in Hw. by injection Hw as <-.
    + cbn [truthy negb]. destruct (truthy cv); cbn [negb].
      * destruct (truthy pv); cbn [negb].
        -- intros (? & ? & ? & ?)%Hnew. by split_and!.
        -- by intros [-> ->]%ret_Ok.
      * by intros [-> ->]%ret_Ok.
Qed.

(** The data field of the result, on a plain child that neither extends
    nor mixes in. *)
Lemma mergeOptions_data_field fuel p c po co vm s r s' :
  heap s !! p = Some po → cls po = CPlain → proto po = None →
  heap s !! c = Some co → cls co = CPlain → proto co = None → p ≠ c →
  truthy (default VUndef (own_lookup co "extends")) = false →
  truthy (default VUndef (own_lookup co "mixins")) = false →
  own_lookup co "directives" ≠ Some (VRef c) →
  own_lookup co "directives" ≠ Some (VRef p) →
  strats E "data" = Some SData →
  is_Some (own_lookup po "data") ∨ is_Some (own_lookup co "data") →
  value_ok (heap s) (default VUndef (own_lookup co "data")) →
  mergeOptions E (S fuel) (VRef p) (VRef c) vm s = Ok r s' →
  ∃ o v,
    r = VRef o ∧ own_lookup (obj_at (heap s') o) "data" = Some v ∧
    let pv := default VUndef (own_lookup po "data") in
    let cv := default VUndef (own_lookup co "data") in
    if truthy vm then
      if truthy pv || truthy cv
      then ∃ f, v = VRef f ∧ length (heap s) ≤ f ∧
             cls (obj_at (heap s') f) = CFun (MergedInstanceDataFn pv cv vm)
      else v = VUndef
    else if truthy cv && negb (is_function (heap s) cv) then v = pv
    else if negb (truthy cv) then v = pv
    else if negb (truthy pv) then v = cv
    else ∃ f, v = VRef f ∧ length (heap s) ≤ f ∧
           cls (obj_at (heap s') f) = CFun (MergedDataFn pv cv).
Proof.
  intros Hp Hpc Hpp Hc Hcc Hcp Hne Hext Hmix Hdc Hdp Hstrat Hdata Hok Hrun.
  assert (normalises (length (heap s)) s s') as Hnorm.
  { eapply (spec_run (normalises _)); [|by apply normalises_refl|exact Hrun].
    apply normal_mergeOptions. }
  rewrite mergeOptions_expand_eq in Hrun.
  apply bind_Ok in Hrun as ([parent' child'] & sm & Hexp & Hmf).
  cbn [fst snd] in Hmf.
  destruct (mergeOptions_expand_plain _ _ _ _ _ _ _ _ _ Hc Hcc Hcp Hext Hmix
              Hdc Hexp)
    as (-> & -> & Hlen & Hframe & cd & Hcd & Hcdc & Hcdp & Hkd).
  assert (p < length (heap s)) as Hpl by by eapply lookup_lt_Some.
  assert (c < length (heap s)) as Hcl by by eapply lookup_lt_Some.
  assert (heap sm !! p = Some po) as Hpm by by rewrite Hframe.
  destruct (mergeFields_tied E (VRef p) (VRef c) vm sm r s')
    as (visited & -> & Hvis & _ & Hmem & _ & Hfields).
  { by exists p, po. }
  { by exists c, cd. }
  { done. }
  set (o := length (heap sm)) in *.
  set (s0 := with_heap sm (heap sm ++ [Obj None CPlain []])) in *.
  destruct (Hfields "data") as (v & Hmerged & Hv).
  { apply Hmem.
    rewrite (forin_keys_no_proto _ _ _ Hpm Hpp),
      (forin_keys_no_proto _ _ _ Hcd Hcdp), !elem_of_own_keys.
    by rewrite Hkd. }
  exists o, v. split; [done|]. split; [done|]. cbv zeta.
  destruct Hmerged
    as (before & after & sa & sv & sb & -> & Hbefore & Happly & Hset & Hafter).
  rewrite (get_val_no_proto _ _ _ _ Hpm Hpc Hpp),
    (get_val_no_proto _ _ _ _ Hcd Hcdc Hcdp), Hkd, Hstrat in Happly by done.
  cbn [apply_strat] in Happly.
  set (pv := default VUndef (own_lookup po "data")) in *.
  set (cv := default VUndef (own_lookup co "data")) in *.
  assert (o < length (heap s0)) as Ho0.
  { subst s0 o. cbn [heap with_heap]. rewrite length_app. simpl. lia. }
  destruct (visits_inv E _ _ _ _ _ _ _ Hbefore Ho0)
    as ((_ & Hla & _ & Hha) & Hoa & _).
  destruct (strat_data_Ok _ _ _ _ _ _ Happly) as (Hlv & Hhv & Hcases).
  apply set_prop_Ok in Hset as (? & ob & ob' & [= <-] & Hob & Hob' & ->).
  assert (o < length (heap (with_heap sv (<[o:=ob']> (heap sv))))) as Hob2.
  { cbn [heap with_heap]. rewrite length_insert. lia. }
  destruct (visits_inv E _ _ _ _ _ _ _ Hafter Hob2)
    as ((_ & _ & _ & Hhb) & _).
  cbn [heap with_heap] in Hhb.
  (* a function made for the field is in the final heap *)
  assert (∀ fo, heap sv !! length (heap sa) = Some fo →
            ∃ f, VRef (length (heap sa)) = VRef f ∧ length (heap s) ≤ f ∧
                 cls (obj_at (heap s') f) = cls fo) as Hfun.
  { intros fo Hfo. exists (length (heap sa)).
    assert (length (heap s0) = S o) as Hl0.
    { subst s0 o. cbn [heap with_heap]. rewrite length_app. simpl. lia. }
    split; [done|]. split; [lia|].
    apply lookup_lt_Some in Hfo as Hfl.
    unfold obj_at. rewrite Hhb.
    - rewrite list_lookup_insert_ne by lia. by rewrite Hfo.
    - rewrite length_insert. split; lia. }
  (* the child's value is a function at the field as it is at the call *)
  assert (is_function (heap sa) cv = is_function (heap s) cv) as Hisf.
  { destruct cv as [| | | | |lc] eqn:Hcv; try done.
    assert (lc < length (heap s)) as Hlc by by apply Hok.
    destruct (lookup_lt_is_Some_2 (heap s) lc Hlc) as [oc Hoc].
    destruct Hnorm as (_ & _ & _ & Hkind).
    destruct (Hkind lc oc Hlc Hoc) as (oc' & Hoc' & _ & Hk & _).
    destruct (visits_inv E _ _ _ _ _ _ _ Hvis Ho0)
      as ((_ & _ & _ & Hhall) & _).
    assert (lc < length (heap s0) ∧ lc ≠ o) as Hin.
    { subst s0 o. cbn [heap with_heap]. rewrite length_app. simpl. lia. }
    assert (heap sa !! lc = Some oc') as Hsa.
    { rewrite Hha by done. rewrite <- Hhall by done. done. }
    cbn [is_function].
    rewrite (obj_at_Some _ _ _ Hsa), (obj_at_Some _ _ _ Hoc).
    unfold kind in Hk. by destruct (cls oc'), (cls oc). }
  rewrite Hisf in Hcases.
  destruct (truthy vm).
  - destruct (truthy pv || truthy cv); [|done].
    destruct Hcases as [-> Hfo]. destruct (Hfun _ Hfo) as (f & ? & ? & ?).
    by exists f.
  - destruct (truthy cv && negb (is_function (heap s) cv)); [done|].
    destruct (negb (truthy cv)); [done|].
    destruct (negb (truthy pv)); [done|].
    destruct Hcases as [-> Hfo]. destruct (Hfun _ Hfo) as (f & ? & ? & ?).
    by exists f.
Qed.

(** A call of a function made by [mergeDataOrFn]: the operands are resolved,
    the child's first, and the deep merge runs on what they give. *)
Lemma call_merged_data n f fo pv cv this s1 v s2 :
  heap s1 !! f = Some fo → cls fo = CFun (MergedDataFn pv cv) →
  call_function E (S n) (VRef f) this s1 = Ok v s2 →
  ∃ a sa b sb,
    resolve_operand E n cv this s1 = Ok a sa ∧
    resolve_operand E n pv this sa = Ok b sb ∧
    mergeData n a b sb = Ok v s2.
Proof.
  intros Hf Hcls Hcall. cbn [call_function] in Hcall.
  rewrite run_bind_read, (obj_at_Some _ _ _ Hf), Hcls in Hcall.
  apply bind_Ok in Hcall as (a & sa & Ha & Hcall).
  apply bind_Ok in Hcall as (b & sb & Hb & Hcall).
  by exists a, sa, b, sb.
Qed.

Lemma call_merged_instance_data n f fo pv cv w this s1 v s2 :
  heap s1 !! f = Some fo → cls fo = CFun (MergedInstanceDataFn pv cv w) →
  call_function E (S n) (VRef f) this s1 = Ok v s2 →
  ∃ a sa b sb,
    resolve_operand E n cv w s1 = Ok a sa ∧
    resolve_operand E n pv w sa = Ok b sb ∧
    if truthy a then mergeData n a b sb = Ok v s2 else v = b ∧ s2 = sb.
Proof.
  intros Hf Hcls Hcall. cbn [call_function] in Hcall.
  rewrite run_bind_read, (obj_at_Some _ _ _ Hf), Hcls in Hcall.
  apply bind_Ok in Hcall as (a & sa & Ha & Hcall).
  apply bind_Ok in Hcall as (b & sb & Hb & Hcall).
  exists a, sa, b, sb. split_and!; [done..|].
  destruct (truthy a); [done|]. by apply ret_Ok in Hcall.
Qed.

(** More fuel gives the same call. *)
Lemma call_function_fuel_mono n m f this s v s' :
  n ≤ m →
  call_function E n f this s = Ok v s' → call_function E m f this s = Ok v s'.
Proof.
  revert m f this s v s'. induction n as [|n IH]; [done|].
  intros [|m] f this s v s' Hle; [lia|]. cbn [call_function].
  rewrite !run_bind_read.
  assert (∀ x self sx a sa,
            (let! isf := read (λ h, is_function h x) in
             if isf then call_function E n x self else ret x) sx = Ok a sa →
            (let! isf := read (λ h, is_function h x) in
             if isf then call_function E m x self else ret x) sx = Ok a sa)
    as Hres.
  { intros x self sx a sa. rewrite !run_bind_read.
    destruct (is_function (heap sx) x); [|done]. apply IH. lia. }
  destruct f as [| | | | |l]; try done.
  destruct (cls (obj_at (heap s) l)) as [| |[id|pv cv|pv cv w]|]; try done.
  - intros (a & sa & Ha & (b & sb & Hb & Hm)%bind_Ok)%bind_Ok.
    apply bind_Ok. exists a, sa. split; [by apply Hres|].
    apply bind_Ok. exists b, sb. split; [by apply Hres|].
    eapply mergeData_fuel_mono; [|exact Hm]. lia.
  - intros (a & sa & Ha & (b & sb & Hb & Hm)%bind_Ok)%bind_Ok.
    apply bind_Ok. exists a, sa. split; [by apply Hres|].
    apply bind_Ok. exists b, sb. split; [by apply Hres|].
    destruct (truthy a); [|done].
    eapply mergeData_fuel_mono; [|exact Hm]. lia.
Qed.

Lemma resolve_operand_fuel_mono n m x self s a sa :
  n ≤ m →
  resolve_operand E n x self s = Ok a sa →
  resolve_operand E m x self s = Ok a sa.
Proof.
  intros Hle. unfold resolve_operand. rewrite !run_bind_read.
  destruct (is_function (heap s) x); [|done].
  by apply call_function_fuel_mono.
Qed.

(** A call whose operands resolve and whose merge exists returns. *)
Lemma call_merged_data_returns n f fo pv cv this s1 a sa b sb s2 :
  heap s1 !! f = Some fo → cls fo = CFun (MergedDataFn pv cv) →
  resolve_operand E n cv this s1 = Ok a sa →
  resolve_operand E n pv this sa = Ok b sb →
  deep_merged a b sb s2 →
  ∃ m, call_function E m (VRef f) this s1 = Ok a s2.
Proof.
  intros Hf Hcls Ha Hb [k Hk]%deep_merged_mergeData.
  exists (S (n `max` k)). cbn [call_function].
  rewrite run_bind_read, (obj_at_Some _ _ _ Hf), Hcls.
  apply bind_Ok. exists a, sa. split.
  { eapply (resolve_operand_fuel_mono n); [lia|exact Ha]. }
  apply bind_Ok. exists b, sb. split.
  { eapply (resolve_operand_fuel_mono n); [lia|exact Hb]. }
  eapply mergeData_fuel_mono; [|exact Hk]. lia.
Qed.

Lemma call_merged_instance_data_returns
  n f fo pv cv w this s1 a sa b sb s2 :
  heap s1 !! f = Some fo → cls fo = CFun (MergedInstanceDataFn pv cv w) →
  resolve_operand E n cv w s1 = Ok a sa →
  resolve_operand E n pv w sa = Ok b sb →
  (if truthy a then deep_merged a b sb s2 else s2 = sb) →
  ∃ m, call_function E m (VRef f) this s1
       = Ok (if truthy a then a else b) s2.
Proof.
  intros Hf Hcls Ha Hb Hm.
  assert (∃ k, (if truthy a then mergeData k a b else ret b) sb
               = Ok (if truthy a then a else b) s2) as [k Hk].
  { destruct (truthy a).
    - by apply deep_merged_mergeData.
    - exists 0. by subst s2. }
  exists (S (n `max` k)). cbn [call_function].
  rewrite run_bind_read, (obj_at_Some _ _ _ Hf), Hcls.
  apply bind_Ok. exists a, sa. split.
  { eapply (resolve_operand_fuel_mono n); [lia|exact Ha]. }
  apply bind_Ok. exists b, sb. split.
  { eapply (resolve_operand_fuel_mono n); [lia|exact Hb]. }
  destruct (truthy a); [|done].
  eapply mergeData_fuel_mono; [|exact Hk]. lia.
Qed.

(** C3, amended.  No reactive registration is made before [mergeOptions]
    returns, whatever its inputs.  On a plain child that neither extends
    nor mixes in, the [data] field of the result is, in an instance merge,
    a new function of the two operands and the instance when one of the
    operands is present, and undefined otherwise; in a static merge, the
    parent's value when the child's is absent or is rejected for not being
    a function, the child's value when the parent's is absent, and a new
    function of the two operands when both are present.  The deep data
    merger runs only when such a function is called: the call resolves the
    child's operand and then the parent's, calling the one that is a
    function, and then merges what the parent's gave into what the child's
    gave, returning the latter and registering each newly introduced
    property exactly once (the instance variant returns the parent's data
    as it is when the child's is absent).  Conversely a call whose operands
    resolve returns, with enough fuel, for every merge of the specification
    of what they give. *)
Theorem registration_is_deferred :
  (∀ fuel parent child vm s r s',
     mergeOptions E fuel parent child vm s = Ok r s' → regs s' = regs s) ∧
  (∀ fuel p c po co vm s r s',
     heap s !! p = Some po → cls po = CPlain → proto po = None →
     heap s !! c = Some co → cls co = CPlain → proto co = None → p ≠ c →
     truthy (default VUndef (own_lookup co "extends")) = false →
     truthy (default VUndef (own_lookup co "mixins")) = false →
     own_lookup co "directives" ≠ Some (VRef c) →
     own_lookup co "directives" ≠ Some (VRef p) →
     strats E "data" = Some SData →
     is_Some (own_lookup po "data") ∨ is_Some (own_lookup co "data") →
     value_ok (heap s) (default VUndef (own_lookup co "data")) →
     mergeOptions E (S fuel) (VRef p) (VRef c) vm s = Ok r s' →
     ∃ o v,
       r = VRef o ∧ own_lookup (obj_at (heap s') o) "data" = Some v ∧
       let pv := default VUndef (own_lookup po "data") in
       let cv := default VUndef (own_lookup co "data") in
       if truthy vm then
         if truthy pv || truthy cv
         then ∃ f, v = VRef f ∧ length (heap s) ≤ f ∧
                cls (obj_at (heap s') f)
                = CFun (MergedInstanceDataFn pv cv vm)
         else v = VUndef
       else if truthy cv && negb (is_function (heap s) cv) then v = pv
       else if negb (truthy cv) then v = pv
       else if negb (truthy pv) then v = cv
       else ∃ f, v = VRef f ∧ length (heap s) ≤ f ∧
              cls (obj_at (heap s') f) = CFun (MergedDataFn pv cv)) ∧
  (∀ n f fo pv cv this s1 v s2,
     heap s1 !! f = Some fo → cls fo = CFun (MergedDataFn pv cv) →
     call_function E (S n) (VRef f) this s1 = Ok v s2 →
     ∃ a sa b sb,
       resolve_operand E n cv this s1 = Ok a sa ∧
       resolve_operand E n pv this sa = Ok b sb ∧
       v = a ∧ deep_merged a b sb s2 ∧ merge_effect sb s2) ∧
  (∀ n f fo pv cv w this s1 v s2,
     heap s1 !! f = Some fo → cls fo = CFun (MergedInstanceDataFn pv cv w) →
     call_function E (S n) (VRef f) this s1 = Ok v s2 →
     ∃ a sa b sb,
       resolve_operand E n cv w s1 = Ok a sa ∧
       resolve_operand E n pv w sa = Ok b sb ∧
       if truthy a then v = a ∧ deep_merged a b sb s2 ∧ merge_effect sb s2
       else v = b ∧ s2 = sb) ∧
  (∀ n f fo pv cv this s1 a sa b sb s2,
     heap s1 !! f = Some fo → cls fo = CFun (MergedDataFn pv cv) →
     resolve_operand E n cv this s1 = Ok a sa →
     resolve_operand E n pv this sa = Ok b sb →
     deep_merged a b sb s2 →
     ∃ m, call_function E m (VRef f) this s1 = Ok a s2) ∧
  (∀ n f fo pv cv w this s1 a sa b sb s2,
     heap s1 !! f = Some fo → cls fo = CFun (MergedInstanceDataFn pv cv w) →
     resolve_operand E n cv w s1 = Ok a sa →
     resolve_operand E n pv w sa = Ok b sb →
     (if truthy a then deep_merged a b sb s2 else s2 = sb) →
     ∃ m, call_function E m (VRef f) this s1
          = Ok (if truthy a then a else b) s2).
Proof.
  split_and!; [| | | |apply call_merged_data_returns
               |apply call_merged_instance_data_returns].
  - intros fuel parent child vm s r s' Hrun.
    by apply mergeOptions_mono in Hrun as (_ & ? & _).
  - intros fuel p c po co vm s r s'. apply mergeOptions_data_field.
  - intros n f fo pv cv this s1 v s2 Hf Hcls Hcall.
    destruct (call_merged_data _ _ _ _ _ _ _ _ _ Hf Hcls Hcall)
      as (a & sa & b & sb & Ha & Hb & Hm).
    exists a, sa, b, sb. destruct (mergeData_effect _ _ _ _ _ _ Hm) as [-> ?].
    split_and!; [done..| |done]. by eapply mergeData_deep_merged.
  - intros n f fo pv cv w this s1 v s2 Hf Hcls Hcall.
    destruct (call_merged_instance_data _ _ _ _ _ _ _ _ _ _ Hf Hcls Hcall)
      as (a & sa & b & sb & Ha & Hb & Hm).
    exists a, sa, b, sb. split_and!; [done..|].
    destruct (truthy a); [|done].
    destruct (mergeData_effect _ _ _ _ _ _ Hm) as [-> ?].
    split_and!; [done| |done]. by eapply mergeData_deep_merged.
Qed.

End DataField.

Lemma registration_is_deferred_witness :
  mergeOptions factory_env 1 (VRef 4) (VRef 5) VUndef factory_state
  = Ok (VRef 7) (state_of factory_run) ∧
  regs (state_of factory_run) = regs factory_state ∧
  (∃ f, own_lookup (obj_at (heap (state_of factory_run)) 7) "data"
        = Some (VRef f) ∧
        6 ≤ f ∧
        cls (obj_at (heap (state_of factory_run)) f)
        = CFun (MergedDataFn (VRef 2) (VRef 3))) ∧
  call_function factory_env 3 (VRef 8) VUndef (state_of factory_run)
  = Ok (VRef 0) (state_of factory_call) ∧
  (∃ a sa b sb,
     resolve_operand factory_env 2 (VRef 3) VUndef (state_of factory_run)
     = Ok a sa ∧
     resolve_operand factory_env 2 (VRef 2) VUndef sa = Ok b sb ∧
     VRef 0 = a ∧
     deep_merged a b sb (state_of factory_call) ∧
     merge_effect sb (state_of factory_call)) ∧
  regs (state_of factory_call) = [(0, "y", VNum 3)].
Proof.
  pose proof (registration_is_deferred factory_env)
    as (Hregs & Hfield & Hcall & _ & _ & _).
  assert (mergeOptions factory_env 1 (VRef 4) (VRef 5) VUndef factory_state
          = Ok (VRef 7) (state_of factory_run)) as Hrun.
  { vm_compute. reflexivity. }
  assert (call_function factory_env 3 (VRef 8) VUndef (state_of factory_run)
          = Ok (VRef 0) (state_of factory_call)) as Hrun2.
  { vm_compute. reflexivity. }
  split_and!.
  - exact Hrun.
  - exact (Hregs _ _ _ _ _ _ _ Hrun).
  - set (po := Obj None CPlain [("data", VRef 2)]).
    set (co := Obj None CPlain [("data", VRef 3)]).
    destruct (Hfield 0 4 5 po co VUndef factory_state (VRef 7)
                (state_of factory_run))
      as (o & v & [= <-] & Hv & Hcase);
      try reflexivity; try discriminate.
    + right. by eexists.
    + intros l [= <-]. simpl. lia.
    + cbv zeta in Hcase.
      change (truthy VUndef) with false in Hcase. cbv iota in Hcase.
      destruct Hcase as (f & -> & Hf & Hcls). by exists f.
  - exact Hrun2.
  - exact (Hcall 2 8 _ (VRef 2) (VRef 3) VUndef (state_of factory_run)
             (VRef 0) (state_of factory_call) eq_refl eq_refl Hrun2).
  - reflexivity.
Defined.
